(* ===== verification/_CoqProject ===== *)
-Q . S2P
Prelude.v
Text.v
BTree.v
Json.v
Errors.v
Identifiers.v
Sha2.v
Timestamps.v
Classification.v
Correlation.v
Events.v
IntegrityModel.v
Records.v
Samples.v
Pagination.v
Storage.v
MemoryStore.v
MemoryPaging.v
LivePaging.v
Integrity.v
IntegrityProofs.v
TamperLocation.v
AccessModel.v
Authorization.v
Privacy.v
Cases.v
ReportModel.v
Encoding.v
AuditEvents.v
Sources.v
Normalizer.v
NormalizerProofs.v
Trail.v
AccessLog.v
CaseService.v
CaseServiceProofs.v
CaseRecovery.v
Reporting.v
ReportingProofs.v
ReportRerun.v
Evidence.v
EvidenceProofs.v
PackageTamper.v
Indexer.v
IndexerProofs.v
ReplayProofs.v
IndexerExamples.v
Soroban.v
EventIdentity.v
SorobanProofs.v
Rpc.v
RpcProofs.v
Decryption.v
Pipeline.v
System.v
SystemProofs.v
EncodingProofs.v
SystemExamples.v
SorobanExamples.v
Vectors.v
VectorRuns.v
