(* ===== verification/Prelude.v ===== *)
(** * Safeguard Audit: a verification development

    This library models the Rust workspace under [src/crates/] (an append-only,
    tamper-evident audit trail for compliance events of a Stellar/Soroban
    system) as executable Gallina, and proves what its parts promise.

    ** The program and how its parts interact

    Raw items come from an event source (on chain: a registry-gated Soroban
    source over an RPC client); the normalizer turns each into a
    validated [AuditEvent]; the indexer wraps events as [AuditRecord]s and appends
    them page by page to an [EventStore], then moves its checkpoint.  Services read
    that store under an authorizer and write derived events back into it: the case
    service (investigations), the report service and the evidence builder.  The
    integrity crate seals and verifies records, the privacy crate decides what a
    reader of a record may see.

    ** Files, parts and sources

    - [Prelude] (this file): Rust's [Result] with [let?] for [?], orders as
      [Compare] with laws, machine ranges, stable sorting, shared tactics
      ([ok_inv] unwinds a successful error-monad computation).
    - [Text]: UTF-8 strings as bytes, character classes, decimal printing and
      parsing; [BTree]: [BTreeMap] as a sorted association list; [Json]: JSON
      documents, their compact text, and that the text determines the document.
    - [Errors], [Identifiers], [Timestamps], [Classification], [Correlation],
      [Events], [IntegrityModel], [Records]: [audit-core] (errors.rs,
      identifiers.rs, timestamps.rs, privacy.rs, correlation.rs, event.rs,
      integrity.rs, record.rs with audit.rs and serialization.rs).  [Encoding]:
      the document each serialized type is written as, by its derive attributes;
      [EncodingProofs]: what follows for digests.
    - [Pagination]: audit-core/pagination.rs and storage/pagination.rs.
    - [Storage]: the storage crate; its trait is the class [EventStore] and its
      documented contract the class [EventStoreLaws].  [MemoryStore] is the
      memory-store crate and [MemoryPaging] the instance of the contract; every
      service below is proved against the contract only.  [LivePaging] is about
      a scan of that store between whose pages the history grows.
    - [Integrity], [IntegrityProofs]: the integrity crate; [TamperLocation] is
      about what the tamper detector names.
    - [AccessModel], [Authorization]: audit-core/authorization.rs and the
      authorization crate.  [Privacy]: the privacy crate and
      audit-core/retention.rs.
    - [Cases]: audit-core/investigation.rs.  [ReportModel]: audit-core/evidence.rs
      and report.rs.  [AuditEvents]: the audit-events crate.  [Trail]: what the
      services share to record an event (events.rs of each service crate).
      [AccessLog]: authorization/access_log.rs.  [EventIdentity]: what the event
      ids of all the projections, of hooks payloads and of Soroban events cover,
      and which projections give valid events.
    - [Sources], [Normalizer], [NormalizerProofs]: audit-core/source.rs and the
      event-normalizer crate.  [Indexer], [IndexerProofs], [ReplayProofs],
      [IndexerExamples]: the event-indexer crate.
    - [CaseService], [CaseServiceProofs]: the investigation crate, and
      [CaseRecovery] what a crash between its two writes leaves.  [Reporting],
      [ReportingProofs]: the reporting crate, and [ReportRerun] what a second run
      of a request gives.  [Evidence], [EvidenceProofs]: the evidence crate, and
      [PackageTamper] what a verified package certifies and what it does not.
    - [Soroban], [SorobanProofs]: the soroban crate (wire.rs, identity.rs,
      mapping.rs, registry.rs, source.rs).  [Rpc], [RpcProofs]: the rpc crate
      (errors.rs, events.rs, retry.rs, mock.rs); its mock client is an instance
      of the contract [RecordedFeed] the draining theorem is proved against.
      [Decryption]: audit-core/decryption.rs.
    - [Pipeline]: compositions of the above (the Soroban source under the
      indexer and the normalizer, a replay followed by a report), with their
      concrete runs in [SorobanExamples].
    - [System], [SystemProofs], [SystemExamples]: the five services (ingestion,
      investigations, reports, evidence, access log) as steps over one shared
      audit store and one case store, and what holds of every reachable state.
    - [Samples]: concrete inputs and toy instances of the parameters.  [Sha2]:
      SHA-256 itself, as a further instance.  [Vectors], [VectorRuns]: the
      committed test vectors ([src/test-vectors/]) and the model run on them with
      the real hash and text: every vector gives what it declares, digests
      included.

    ** How the code is read

    Structs are records, enums are inductive types, [Result] is [result] with the
    source's error types, [&mut] state is threaded, and a panic is [None].
    [HashMap] and [HashSet] are [gmap] and [gset], [BTreeMap] keeps its key order.
    Integers are [Z] (or [nat] for counts and lengths of collections) with the
    ranges, saturation or wrap-around of the source written out where they
    matter.  Clock readings are arguments, one for each reading the source takes.
    Code that is not in the repository is a parameter: SHA-256 ([Sha256], of
    which only the digest length is assumed), canonical JSON ([Serialize],
    [JsonStrings]; where more is relied on, [SerdeJson] and [SerdeStrings] name
    the documented text), JSON decoding ([JsonDecoder], [EnvelopeDecoder]), [Debug]
    rendering of strings ([DebugStr]), and the services behind [EventSource],
    [SorobanEventFeed], [EventsRpc] and [DecryptionProvider].  Nothing assumes the hash is injective: a theorem
    about tampering concludes that the histories agree or exhibits a [clash], two
    different strings among the ones hashed that have the same digest.

    ** What the theorems show

    - The store: inserts keep the representation invariant, the history is
      append-only and idempotent by event id, a batch is its records in sequence,
      position keys survive the cursor, pages read one after another give the
      whole matching history.
    - Integrity: the chain verifier accepts exactly the sealed histories;
      altering a sealed history without touching its last digest exhibits a
      clash; the detector names exactly the first record altered or out of
      place; a manifest verifies against the records it was built from; with the
      documented JSON text, record ids, chains, manifests, artifact and report
      digests each certify the data they were taken of.
    - Identity: exactly which facts an event id covers, and so which events
      deduplication keeps and which it drops; the event of each of the fourteen
      projections is valid exactly if its transaction is on its network, and the
      record layer then makes a valid record of it.
    - Access: the authorizer's exact decision procedure, scope containment as a
      preorder, permission overrides; the disclosure ceiling lets through exactly
      what the authorizer covers, and a disclosed record shows nothing above it;
      what the access log keeps of a decision.
    - Investigations: the case aggregate and the service are append-only; its
      status moves exactly along the documented arrows, and a case that is
      reopened is invalid until it is closed again; no change without authority,
      no success without an audit event, closed cases are frozen; the event of a
      step that was lost in a crash never reaches the audit store afterwards.
    - Reports and evidence: a report selects and counts exactly; a built evidence
      package verifies; the exact conditions under which either is given at all,
      and what making it again gives; the verdict on a package says exactly what
      the store holds, so a package that verifies twice pins the content of its
      records; but its two halves are verified apart.
    - Ingestion: normalized items are valid events of the configured network,
      of a hooks payload exactly the one its fields determine, of an envelope the
      decoded event itself with what the validator rebuilds (not everything:
      [envelope_gaps]); a run accounts for every item, never
      moves the checkpoint on an error and never splits a page; what a re-served
      page does under each policy; replay terminates and reproduces a finite
      feed, and a report over it counts exactly what was inserted.
    - The Soroban door: exactly the fresh events of registered contracts are
      served and the rest counted, at any page size; ids compare as ledger
      positions; the close-time parser is the inverse of the renderer.
    - The RPC boundary: requests are sent only when coherent and lose nothing in
      their JSON object; retrying calls, sleeps and answers exactly as the policy
      says, with bounded delays.
    - The system: whatever the five services do in whatever order, the shared
      store stays consistent and answers every lookup and query, its history
      only grows, every case operation that changed a case left its event in it,
      and a package built at some point still verifies later.  A scan running
      while the history grows sees each old record exactly once.
    - The string boundary: parsing and printing identifiers, network names,
      accounts and cursors are inverse, and what does not parse is refused.
    - Time: the civil calendar rendering is the proleptic Gregorian calendar;
      retention evaluation and its limits.

    Some theorems state what the code does where it departs from its
    documentation: [closed_cases_are_frozen], [chained_sources_refused],
    [derived_identity_collisions], [retention_evaluate], [envelope_gaps],
    [access_log_exact], [rerun_outcome], [misordered_page_rejected], [report_rerun_differs],
    [administrator_needs_no_all_scope], [skipped_page_wedges],
    [bridge_requests], [report_rerun], [dedup_exact], [spliced_package_verifies], [lost_step_stays_lost], [describe_difference_inverted],
    [unplaced_order_is_arrival].

    ** Fuel

    Some loops of the source recurse on something the kernel cannot see.
    [Reporting.scan] has one turn per page; [scan_fuel], the store's length plus
    one, is enough ([paged_scan_complete]).  [Indexer.replay_loop] has one turn
    per page; the page budget plus one ([replay_page_budget]), or the feed's
    length plus one ([replay_complete]), is enough.  [SorobanProofs.drain] needs
    the recording's length plus one ([drain_complete]).  [Rpc.retry_loop] counts
    its attempts down and needs no fuel.  [Text.digits] prints with a
    logarithmic bound that is proved sufficient.

    ** Not modelled

    The HTTP transport behind [EventsRpc] and any decryption provider (neither is
    in the repository); serde's printing and parsing themselves, which are
    parameters with their documented form in [Encoding], and its derived
    decoders; accessors that only return a field, for which the record
    projections stand; constructors that only store their arguments where the
    record constructor stands for them; the reading of the system clock; the
    scenario tests and the examples' main programs, whose composition is
    [System] (the test-vector walkers and the examples' list-backed source are
    modelled). *)

From Stdlib Require Export ZArith Lia Ascii String Sorting.Sorted.
From stdpp Require Export base tactics list list_numbers strings gmap.

Declare Scope rust_scope.

Delimit Scope rust_scope with rust.

Create HintDb audit.
Create Rewrite HintDb audit.

(** ** Rust's [Result] and the [?] operator *)

Inductive result (T E : Type) : Type :=
| Ok (t : T)
| Err (e : E).
Arguments Ok {T E} _.
Arguments Err {T E} _.

Definition rbind {T U E} (r : result T E) (k : T -> result U E) : result U E :=
  match r with
  | Ok t => k t
  | Err e => Err e
  end.

Definition map_err {T E F} (f : E -> F) (r : result T E) : result T F :=
  match r with
  | Ok t => Ok t
  | Err e => Err (f e)
  end.

Definition map_ok {T U E} (f : T -> U) (r : result T E) : result U E :=
  match r with
  | Ok t => Ok (f t)
  | Err e => Err e
  end.

Definition ok_or {T E} (o : option T) (e : E) : result T E :=
  match o with
  | Some t => Ok t
  | None => Err e
  end.

Definition is_ok {T E} (r : result T E) : bool :=
  match r with
  | Ok _ => true
  | Err _ => false
  end.

Notation "'let?' x := e 'in' k" := (rbind e (fun x => k))
  (at level 10, x pattern, e at level 200, k at level 200,
   format "'[v' 'let?'  x  :=  e  'in' '/' k ']'") : rust_scope.
Open Scope rust_scope.

Lemma rbind_Ok_inv {T U E} (r : result T E) (k : T -> result U E) u :
  rbind r k = Ok u -> exists t, r = Ok t /\ k t = Ok u.
Proof. destruct r; simpl; [eauto | discriminate]. Qed.

Lemma rbind_Err_inv {T U E} (r : result T E) (k : T -> result U E) e :
  rbind r k = Err e -> r = Err e \/ exists t, r = Ok t /\ k t = Err e.
Proof. destruct r; simpl; [eauto | intros [= ->]; auto]. Qed.

Lemma map_err_Ok_inv {T E F} (f : E -> F) (r : result T E) t :
  map_err f r = Ok t -> r = Ok t.
Proof. destruct r; simpl; congruence. Qed.

Lemma map_err_Ok_iff {T E F} (f : E -> F) (r : result T E) t :
  map_err f r = Ok t <-> r = Ok t.
Proof. split; [apply map_err_Ok_inv | intros ->; reflexivity]. Qed.

Lemma ok_or_Ok_iff {T E} (o : option T) (e : E) t :
  ok_or o e = Ok t <-> o = Some t.
Proof. destruct o; simpl; split; congruence. Qed.

(** One step of unwinding a hypothesis about an error-monad computation that
    succeeded, and its repetition. *)
Ltac ok_step :=
  match goal with
  | H : Ok _ = Ok _ |- _ => injection H as H; try subst
  | H : Err _ = Err _ |- _ => injection H as H; try subst
  | H : Ok _ = Err _ |- _ => discriminate H
  | H : Err _ = Ok _ |- _ => discriminate H
  | H : rbind _ _ = Ok _ |- _ =>
      let x := fresh "v" in
      let E := fresh "Hok" in
      apply rbind_Ok_inv in H as (x & E & H)
  | H : map_err _ _ = Ok _ |- _ => apply map_err_Ok_inv in H
  | H : ok_or _ _ = Ok _ |- _ => apply ok_or_Ok_iff in H
  | H : (if ?b then Err _ else _) = Ok _ |- _ =>
      let B := fresh "Hb" in destruct b eqn:B; [discriminate H|]
  | H : (if ?b then _ else Err _) = Ok _ |- _ =>
      let B := fresh "Hb" in destruct b eqn:B; [|discriminate H]
  end.
Ltac ok_inv := repeat ok_step.

(** A loop that pushes [f x?] for every element: the first error stops it. *)
Fixpoint try_map {A B E} (f : A -> result B E) (l : list A) : result (list B) E :=
  match l with
  | [] => Ok []
  | x :: l => let? y := f x in let? ys := try_map f l in Ok (y :: ys)
  end.

Lemma try_map_total {A B E} (f : A -> result B E) l :
  (forall x, is_ok (f x) = true) -> exists ys, try_map f l = Ok ys.
Proof.
  intros Hf. induction l as [|x l [ys IH]]; simpl; [eauto|].
  specialize (Hf x). destruct (f x); [|done]. simpl. rewrite IH. simpl. eauto.
Qed.

Lemma try_map_Ok_iff {A B E} (f : A -> result B E) l ys :
  try_map f l = Ok ys <-> Forall2 (fun x y => f x = Ok y) l ys.
Proof.
  revert ys. induction l as [|x l IH]; intros ys; simpl.
  - split; [intros H; ok_inv; constructor | by intros ->%Forall2_nil_inv_l].
  - split.
    + intros H. ok_inv. constructor; [done|]. by apply IH.
    + intros (y & ys' & Hy & Hys & ->)%Forall2_cons_inv_l. rewrite Hy. simpl.
      by rewrite (proj2 (IH ys') Hys).
Qed.

(** ** Orderings: Rust's [Ord::cmp] as a class with its laws *)

Class Compare (A : Type) := compare : A -> A -> comparison.

Class CompareLaws (A : Type) `{Compare A} : Prop := {
  compare_eq_iff : forall x y : A, compare x y = Eq <-> x = y;
  compare_antisym : forall x y : A, compare y x = CompOpp (compare x y);
  compare_lt_trans : forall x y z : A,
    compare x y = Lt -> compare y z = Lt -> compare x z = Lt
}.

(** [Ordering::then_with]. *)
Definition then_with (a b : comparison) : comparison :=
  match a with
  | Eq => b
  | _ => a
  end.

Definition is_lt (c : comparison) : bool :=
  match c with Lt => true | _ => false end.
Definition is_gt (c : comparison) : bool :=
  match c with Gt => true | _ => false end.

Section CompareFacts.
Context {A : Type} `{CompareLaws A}.

Lemma compare_refl (x : A) : compare x x = Eq.
Proof. by apply compare_eq_iff. Qed.

Lemma compare_gt_iff (x y : A) : compare x y = Gt <-> compare y x = Lt.
Proof. rewrite (compare_antisym x y). destruct (compare x y); simpl; split; congruence. Qed.

Lemma compare_lt_irrefl (x : A) : compare x x <> Lt.
Proof. rewrite compare_refl. discriminate. Qed.

Lemma compare_lt_asym (x y : A) : compare x y = Lt -> compare y x = Lt -> False.
Proof. rewrite (compare_antisym x y). destruct (compare x y); discriminate. Qed.

Lemma compare_lt_ne (x y : A) : compare x y = Lt -> x <> y.
Proof. intros Hlt ->. by apply (compare_lt_irrefl y). Qed.

Definition compare_eq_dec : EqDecision A.
Proof.
  intros x y. destruct (compare x y) eqn:E.
  - left. by apply compare_eq_iff.
  - right. by apply compare_lt_ne.
  - right. apply compare_gt_iff in E. intros ->. by apply (compare_lt_irrefl y).
Defined.
End CompareFacts.

#[export] Instance Z_compare : Compare Z := Z.compare.
#[export] Instance Z_compare_laws : CompareLaws Z.
Proof.
  split; unfold compare, Z_compare.
  - apply Z.compare_eq_iff.
  - intros x y. by rewrite Z.compare_antisym.
  - intros x y z. rewrite !Z.compare_lt_iff. lia.
Qed.

#[export] Instance string_compare : Compare string := String.compare.

Lemma ascii_compare_eq (a b : ascii) : Ascii.compare a b = Eq <-> a = b.
Proof. split; [apply Ascii.compare_eq_iff | intros ->]. unfold Ascii.compare. apply N.compare_refl. Qed.

Lemma ascii_compare_trans (a b c : ascii) :
  Ascii.compare a b = Lt -> Ascii.compare b c = Lt -> Ascii.compare a c = Lt.
Proof. unfold Ascii.compare. rewrite !N.compare_lt_iff. lia. Qed.

Lemma string_compare_lt_trans (s1 s2 s3 : string) :
  String.compare s1 s2 = Lt -> String.compare s2 s3 = Lt -> String.compare s1 s3 = Lt.
Proof.
  revert s2 s3. induction s1 as [|c1 s1 IH]; intros [|c2 s2] [|c3 s3]; simpl; try discriminate; auto.
  intros H12 H23.
  destruct (Ascii.compare c1 c2) eqn:E12; [apply ascii_compare_eq in E12 as -> | | discriminate].
  - destruct (Ascii.compare c2 c3) eqn:E23; eauto.
  - destruct (Ascii.compare c2 c3) eqn:E23; [apply ascii_compare_eq in E23 as -> | | discriminate].
    + by rewrite E12.
    + by rewrite (ascii_compare_trans _ _ _ E12 E23).
Qed.

#[export] Instance string_compare_laws : CompareLaws string.
Proof.
  split; unfold compare, string_compare.
  - intros x y. split; [apply String.compare_eq_iff|].
    intros ->. induction y as [|c y IH]; simpl; [done|].
    by rewrite (proj2 (ascii_compare_eq c c) eq_refl).
  - intros x y. apply String.compare_antisym.
  - apply string_compare_lt_trans.
Qed.

(** A lexicographic product of two lawful orderings along a projection pair
    that determines the value. *)
Section Lex.
Context {A B C : Type} `{CompareLaws B} `{CompareLaws C}.
Variables (f : A -> B) (g : A -> C).
Hypothesis fg_inj : forall x y, f x = f y -> g x = g y -> x = y.

Definition lex_compare (x y : A) : comparison :=
  then_with (compare (f x) (f y)) (compare (g x) (g y)).

Lemma lex_compare_eq_iff x y : lex_compare x y = Eq <-> x = y.
Proof.
  unfold lex_compare, then_with. destruct (compare (f x) (f y)) eqn:E; split; try discriminate.
  - intros Hg. apply fg_inj; by apply compare_eq_iff.
  - intros ->. apply compare_refl.
  - intros ->. by rewrite compare_refl in E.
  - intros ->. by rewrite compare_refl in E.
Qed.

Lemma lex_compare_antisym x y : lex_compare y x = CompOpp (lex_compare x y).
Proof.
  unfold lex_compare, then_with. rewrite (compare_antisym (f x) (f y)), (compare_antisym (g x) (g y)).
  by destruct (compare (f x) (f y)), (compare (g x) (g y)).
Qed.

Lemma lex_compare_lt_trans x y z :
  lex_compare x y = Lt -> lex_compare y z = Lt -> lex_compare x z = Lt.
Proof.
  unfold lex_compare, then_with. intros Hxy Hyz.
  destruct (compare (f x) (f y)) eqn:E1; [apply compare_eq_iff in E1 as -> | | discriminate].
  - destruct (compare (f y) (f z)) eqn:E2; eauto using compare_lt_trans.
  - destruct (compare (f y) (f z)) eqn:E2; [apply compare_eq_iff in E2 as <- | | discriminate].
    + by rewrite E1.
    + by rewrite (compare_lt_trans _ _ _ E1 E2).
Qed.
End Lex.

#[export] Instance prod_compare {B C} `{Compare B} `{Compare C} : Compare (B * C) :=
  lex_compare fst snd.
#[export] Instance prod_compare_laws {B C} `{CompareLaws B} `{CompareLaws C} : CompareLaws (B * C).
Proof.
  split; unfold compare, prod_compare.
  - apply lex_compare_eq_iff. intros [] []; simpl; congruence.
  - apply lex_compare_antisym.
  - apply lex_compare_lt_trans.
Qed.

(** [Option] ordered with [None] after every present value: the order the
    audit history and the indexer both use for unknown placements. *)
Definition option_compare_last {A} `{Compare A} (a b : option A) : comparison :=
  match a, b with
  | Some x, Some y => compare x y
  | Some _, None => Lt
  | None, Some _ => Gt
  | None, None => Eq
  end.

Section OptionLast.
Context {A : Type} `{CompareLaws A}.

Lemma option_compare_last_eq_iff (a b : option A) : option_compare_last a b = Eq <-> a = b.
Proof.
  destruct a, b; simpl; split; try congruence.
  - intros E. f_equal. by apply compare_eq_iff.
  - intros [= ->]. apply compare_refl.
Qed.

Lemma option_compare_last_antisym (a b : option A) :
  option_compare_last b a = CompOpp (option_compare_last a b).
Proof. destruct a, b; simpl; auto. apply compare_antisym. Qed.

Lemma option_compare_last_trans (a b c : option A) :
  option_compare_last a b = Lt -> option_compare_last b c = Lt -> option_compare_last a c = Lt.
Proof. destruct a, b, c; simpl; try discriminate; eauto using compare_lt_trans. Qed.
End OptionLast.

#[export] Instance option_compare {A} `{Compare A} : Compare (option A) := option_compare_last.
#[export] Instance option_compare_laws {A} `{CompareLaws A} : CompareLaws (option A).
Proof.
  split; unfold compare, option_compare;
    eauto using option_compare_last_eq_iff, option_compare_last_antisym, option_compare_last_trans.
Qed.

(** ** Machine integers *)

Definition i64_min : Z := -9223372036854775808.
Definition i64_max : Z := 9223372036854775807.
Definition u32_max : Z := 4294967295.
Definition u64_max : Z := 18446744073709551615.
Definition in_i64 (z : Z) : Prop := (i64_min <= z <= i64_max)%Z.
Definition in_u32 (z : Z) : Prop := (0 <= z <= u32_max)%Z.
Definition in_u64 (z : Z) : Prop := (0 <= z <= u64_max)%Z.

(** Two's-complement wrap-around at 64 bits: Rust's [as i64] on a [u64], and
    the value a release build gives to an overflowing [i64] operation. *)
Definition wrap_i64 (z : Z) : Z := ((z + 2 ^ 63) mod 2 ^ 64 - 2 ^ 63)%Z.
Definition saturate_i64 (z : Z) : Z := Z.max i64_min (Z.min i64_max z).

Lemma wrap_i64_small z : in_i64 z -> wrap_i64 z = z.
Proof. unfold in_i64, i64_min, i64_max, wrap_i64. intros Hz. rewrite Z.mod_small; lia. Qed.

Lemma saturate_i64_small z : in_i64 z -> saturate_i64 z = z.
Proof. unfold in_i64, saturate_i64. lia. Qed.

(** ** Lists *)

Definition zlen {A} (l : list A) : Z := Z.of_nat (length l).

Lemma existsb_False_iff {A} (p : A -> bool) l :
  existsb p l = false <-> Forall (fun x => p x = false) l.
Proof.
  induction l as [|x l IH]; simpl; [by split|].
  rewrite orb_false_iff, IH, Forall_cons. done.
Qed.

Lemma forallb_Forall_true {A} (p : A -> bool) l :
  forallb p l = true <-> Forall (fun x => p x = true) l.
Proof.
  induction l as [|x l IH]; simpl; [by split|].
  rewrite andb_true_iff, IH, Forall_cons. done.
Qed.

Lemma NoDup_map_inj {A B} (f : A -> B) l x y :
  NoDup (map f l) -> x ∈ l -> y ∈ l -> f x = f y -> x = y.
Proof.
  induction l as [|z l IH]; simpl; [by intros _ ?%elem_of_nil|].
  intros [Hz Hnd]%NoDup_cons Hx Hy E. rewrite list_elem_of_In, in_map_iff in Hz.
  rewrite elem_of_cons in Hx, Hy. destruct Hx as [->|Hx], Hy as [->|Hy]; try done; [| |by apply IH].
  - exfalso. apply Hz. exists y. by rewrite <- list_elem_of_In.
  - exfalso. apply Hz. exists x. by rewrite <- list_elem_of_In.
Qed.

(** [slice::sort_by]: a stable sort.  Insertion keeps equal elements in order. *)
Section SortBy.
Context {A : Type} (cmp : A -> A -> comparison).

Fixpoint insert_by (x : A) (l : list A) : list A :=
  match l with
  | [] => [x]
  | y :: l' => if is_gt (cmp x y) then y :: insert_by x l' else x :: l
  end.
Definition sort_by (l : list A) : list A := foldr insert_by [] l.

Lemma insert_by_perm x l : insert_by x l ≡ₚ x :: l.
Proof.
  induction l as [|y l IH]; simpl; [done|]. destruct (is_gt (cmp x y)); [|done].
  rewrite IH. apply Permutation_swap.
Qed.

Lemma sort_by_perm l : sort_by l ≡ₚ l.
Proof. induction l as [|x l IH]; simpl; [done|]. by rewrite insert_by_perm, IH. Qed.

Definition cmp_le (x y : A) : Prop := cmp x y <> Gt.

Hypothesis cmp_flip : forall x y, cmp x y = Gt -> cmp y x <> Gt.
Hypothesis cmp_le_trans : forall x y z, cmp_le x y -> cmp_le y z -> cmp_le x z.

Lemma insert_by_sorted x l : StronglySorted cmp_le l -> StronglySorted cmp_le (insert_by x l).
Proof.
  induction 1 as [|y l Hl IH Hy]; simpl; [repeat constructor|].
  destruct (cmp x y) eqn:E; simpl.
  - constructor; [by constructor|]. constructor; [unfold cmp_le; congruence|].
    eapply Forall_impl; [exact Hy|]. intros z. apply cmp_le_trans. unfold cmp_le. congruence.
  - constructor; [by constructor|]. constructor; [unfold cmp_le; congruence|].
    eapply Forall_impl; [exact Hy|]. intros z. apply cmp_le_trans. unfold cmp_le. congruence.
  - constructor; [done|]. rewrite insert_by_perm. constructor; [|done]. by apply cmp_flip.
Qed.

Lemma sort_by_sorted l : StronglySorted cmp_le (sort_by l).
Proof. induction l; simpl; [constructor | by apply insert_by_sorted]. Qed.

(** Sorting a sorted list does nothing. *)
Lemma sort_by_id l : StronglySorted cmp_le l -> sort_by l = l.
Proof.
  induction 1 as [|x l Hl IH Hx]; simpl; [done|]. rewrite IH.
  destruct l as [|y l]; [done|]. simpl. apply Forall_inv in Hx. unfold cmp_le in Hx.
  by destruct (cmp x y).
Qed.
End SortBy.

(** A lawful order gives the two conditions, also through a key. *)
Section SortKey.
Context {A K : Type} `{CompareLaws K} (key : A -> K).

Definition cmp_key (x y : A) : comparison := compare (key x) (key y).

Lemma cmp_key_flip x y : cmp_key x y = Gt -> cmp_key y x <> Gt.
Proof. unfold cmp_key. intros E. apply compare_gt_iff in E. congruence. Qed.

Lemma cmp_key_trans x y z : cmp_le cmp_key x y -> cmp_le cmp_key y z -> cmp_le cmp_key x z.
Proof.
  unfold cmp_le, cmp_key. intros Hxy Hyz Hxz. apply compare_gt_iff in Hxz.
  destruct (compare (key x) (key y)) eqn:E1; [|clear Hxy|done].
  - apply compare_eq_iff in E1. rewrite E1 in Hxz. apply Hyz, compare_gt_iff. done.
  - apply Hyz, compare_gt_iff. eauto using compare_lt_trans.
Qed.

Lemma sort_by_key_sorted l : StronglySorted (cmp_le cmp_key) (sort_by cmp_key l).
Proof. apply sort_by_sorted; [apply cmp_key_flip | apply cmp_key_trans]. Qed.
End SortKey.

(** Closing tactic of the development: the goal follows from case analysis on
    booleans, options and arithmetic. *)
Ltac crush :=
  repeat (simpl in *; intros; subst; try done; try lia; try congruence;
          match goal with
          | H : _ /\ _ |- _ => destruct H
          | H : exists _, _ |- _ => destruct H
          | |- _ /\ _ => split
          | |- _ <-> _ => split
          end).
