(* ===== verification/Text.v ===== *)
(** * Rust strings, as the crates use them

    A Rust [str] is its UTF-8 byte sequence, held in a Rocq [string] (one
    [ascii] per byte), so [str::len] is [String.length] and [Ord for str] is the
    byte-wise lexicographic [String.compare].  Every [chars().all(p)] of the
    sources tests an ASCII-only predicate [p]; a non-ASCII [char] fails it, and
    so does every byte (>= 128) of its encoding, so testing bytes and testing
    characters agree.

    The file holds the ASCII character classes, the blank test
    [trim().is_empty()], [str::split] on one ASCII byte, and decimal printing
    and parsing of integers ([to_string], [parse::<i64>], [parse::<u32>]) with
    their round trips. *)

From S2P Require Import Prelude.
Open Scope string_scope.
#[global] Arguments String.append !_ _ / : assert.
Create HintDb text.
Create Rewrite HintDb text.

(** ** Character classes of the standard library *)

Definition byte_in (lo hi : N) (c : ascii) : bool :=
  ((lo <=? N_of_ascii c) && (N_of_ascii c <=? hi))%N.

Definition is_ascii_graphic : ascii -> bool := byte_in 33 126.
Definition is_ascii_digit : ascii -> bool := byte_in 48 57.
Definition is_ascii_uppercase : ascii -> bool := byte_in 65 90.
Definition is_ascii_lowercase : ascii -> bool := byte_in 97 122.
Definition is_ascii_alphanumeric (c : ascii) : bool :=
  is_ascii_digit c || is_ascii_uppercase c || is_ascii_lowercase c.
Definition is_ascii_hexdigit (c : ascii) : bool :=
  is_ascii_digit c || byte_in 65 70 c || byte_in 97 102 c.
(** Digits and [a-f]: hexadecimal without upper case. *)
Definition is_lower_hex (c : ascii) : bool :=
  is_ascii_hexdigit c && negb (is_ascii_uppercase c).

Definition char_in (set : string) (c : ascii) : bool :=
  existsb (Ascii.eqb c) (list_ascii_of_string set).

Fixpoint str_all (p : ascii -> bool) (s : string) : bool :=
  match s with
  | EmptyString => true
  | String c s => p c && str_all p s
  end.

Definition str_len (s : string) : Z := Z.of_nat (String.length s).
Definition len_in (lo hi : Z) (s : string) : bool := (lo <=? str_len s)%Z && (str_len s <=? hi)%Z.
Definition str_is_empty (s : string) : bool := String.eqb s "".
Definition starts_with (prefix s : string) : bool := String.prefix prefix s.

(** [str::trim().is_empty()]: every character has Unicode [White_Space].  The
    multi-byte characters with that property are matched by their UTF-8 bytes:
    U+0085, U+00A0, U+1680, U+2000-U+200A, U+2028, U+2029, U+202F, U+205F,
    U+3000. *)
Definition is_ascii_space (c : ascii) : bool := byte_in 9 13 c || byte_in 32 32 c.

Definition is_space2 (a b : ascii) : bool :=
  byte_in 194 194 a && (byte_in 133 133 b || byte_in 160 160 b).

Definition is_space3 (a b c : ascii) : bool :=
  (byte_in 225 225 a && byte_in 154 154 b && byte_in 128 128 c)
  || (byte_in 226 226 a && byte_in 128 128 b
      && (byte_in 128 138 c || byte_in 168 169 c || byte_in 175 175 c))
  || (byte_in 226 226 a && byte_in 129 129 b && byte_in 159 159 c)
  || (byte_in 227 227 a && byte_in 128 128 b && byte_in 128 128 c).

Fixpoint trim_is_empty (s : string) : bool :=
  match s with
  | EmptyString => true
  | String a s1 =>
      (is_ascii_space a && trim_is_empty s1)
      || match s1 with
         | EmptyString => false
         | String b s2 =>
             (is_space2 a b && trim_is_empty s2)
             || match s2 with
                | EmptyString => false
                | String c s3 => is_space3 a b c && trim_is_empty s3
                end
         end
  end.

Example trim_blank : trim_is_empty "  " = true.
Proof. reflexivity. Qed.
Example trim_text : trim_is_empty " a " = false.
Proof. reflexivity. Qed.

(** ** Lemmas on bytes and lengths *)

Lemma length_append (s t : string) :
  String.length (s +:+ t) = (String.length s + String.length t)%nat.
Proof. induction s; simpl; auto. Qed.

Lemma append_assoc (s t u : string) : (s +:+ t) +:+ u = s +:+ (t +:+ u).
Proof. induction s; simpl; congruence. Qed.

Lemma append_nil_r (s : string) : s +:+ "" = s.
Proof. induction s; simpl; congruence. Qed.

Lemma append_inj_l (s t u : string) : s +:+ t = s +:+ u -> t = u.
Proof. induction s; simpl; [done|]. intros [= E]. auto. Qed.

Lemma append_inj_length (s s' t t' : string) :
  String.length s = String.length s' -> s +:+ t = s' +:+ t' -> s = s' /\ t = t'.
Proof.
  revert s'. induction s as [|c s IH]; intros [|c' s']; simpl; try done.
  intros [= Hl] [= -> E]. destruct (IH _ Hl E). by subst.
Qed.

Lemma str_all_append p (s t : string) : str_all p (s +:+ t) = str_all p s && str_all p t.
Proof. induction s as [|c s IH]; simpl; [done|]. by rewrite IH, andb_assoc. Qed.

Lemma str_all_impl (p q : ascii -> bool) (s : string) :
  (forall c, p c = true -> q c = true) -> str_all p s = true -> str_all q s = true.
Proof.
  intros Hpq. induction s as [|c s IH]; simpl; [done|].
  rewrite !andb_true_iff. intros []. auto.
Qed.

Lemma str_len_append (s t : string) : str_len (s +:+ t) = (str_len s + str_len t)%Z.
Proof. unfold str_len. rewrite length_append. lia. Qed.

Lemma str_len_nonneg (s : string) : (0 <= str_len s)%Z.
Proof. unfold str_len. lia. Qed.

Lemma len_in_iff lo hi s : len_in lo hi s = true <-> (lo <= str_len s <= hi)%Z.
Proof. unfold len_in. rewrite andb_true_iff, !Z.leb_le. done. Qed.

#[export] Hint Rewrite length_append append_assoc append_nil_r str_all_append str_len_append : text.

(** Deciding a property of all 256 byte values by computation. *)
Definition all_bytes : list ascii := map ascii_of_nat (seq 0 256).

Lemma forall_bytes (P : ascii -> bool) :
  forallb P all_bytes = true -> forall c, P c = true.
Proof.
  intros H c. rewrite forallb_forall in H. apply H.
  unfold all_bytes. apply in_map_iff. exists (nat_of_ascii c).
  split; [apply ascii_nat_embedding | apply in_seq]. pose proof (nat_ascii_bounded c). lia.
Qed.

Lemma bytes_impl (p q : ascii -> bool) :
  forallb (fun c => implb (p c) (q c)) all_bytes = true -> forall c, p c = true -> q c = true.
Proof.
  intros H c Hp. pose proof (forall_bytes (fun c => implb (p c) (q c)) H c) as Hc.
  simpl in Hc. by rewrite Hp in Hc.
Qed.

(** ** Splitting on one byte ([str::split]) *)

Fixpoint split_go (sep : ascii) (acc s : string) : list string :=
  match s with
  | EmptyString => [acc]
  | String c s => if Ascii.eqb c sep then acc :: split_go sep "" s
                  else split_go sep (acc +:+ String c "") s
  end.
Definition split (sep : ascii) (s : string) : list string := split_go sep "" s.

Definition no_sep (sep : ascii) : string -> bool := str_all (fun c => negb (Ascii.eqb c sep)).

Lemma split_go_no_sep sep acc s : no_sep sep s = true -> split_go sep acc s = [acc +:+ s].
Proof.
  unfold no_sep. revert acc. induction s as [|c s IH]; intros acc; simpl.
  - by rewrite append_nil_r.
  - rewrite andb_true_iff, negb_true_iff. intros [-> Hs]. by rewrite IH, append_assoc.
Qed.

Lemma split_go_app sep acc s t :
  no_sep sep s = true ->
  split_go sep acc (s +:+ String sep t) = (acc +:+ s) :: split_go sep "" t.
Proof.
  unfold no_sep. revert acc. induction s as [|c s IH]; intros acc; simpl.
  - rewrite Ascii.eqb_refl, append_nil_r. done.
  - rewrite andb_true_iff, negb_true_iff. intros [-> Hs]. by rewrite IH, append_assoc.
Qed.

Lemma split_app sep s t :
  no_sep sep s = true -> split sep (s +:+ String sep t) = s :: split sep t.
Proof. apply split_go_app. Qed.

Lemma split_app_str sep s t :
  no_sep sep s = true -> split sep (s +:+ String sep EmptyString +:+ t) = s :: split sep t.
Proof. apply split_app. Qed.

Lemma split_last sep s : no_sep sep s = true -> split sep s = [s].
Proof. apply split_go_no_sep. Qed.

#[export] Hint Resolve split_app split_last : text.

(** ** Decimal integers *)

Definition digit_char (d : Z) : ascii := ascii_of_N (Z.to_N (48 + d)).
Definition digit_value (c : ascii) : Z := (Z.of_N (N_of_ascii c) - 48)%Z.

(** The decimal digits of [n >= 0], most significant first, before [acc].  The
    fuel bounds the number of divisions by ten. *)
Fixpoint digits_go (fuel : nat) (n : Z) (acc : string) : string :=
  match fuel with
  | O => acc
  | S fuel =>
      let acc := String (digit_char (n mod 10)) acc in
      if (n <? 10)%Z then acc else digits_go fuel (n / 10) acc
  end.

(** A number below [2 ^ fuel] has at most [fuel] digits; [log2 n + 1] is enough. *)
Definition digits_fuel (n : Z) : nat := S (Z.to_nat (Z.log2 n)).
Definition digits (n : Z) : string := digits_go (digits_fuel n) n "".

(** [to_string] of an integer of any width. *)
Definition z_to_string (z : Z) : string :=
  if (z <? 0)%Z then String "-"%char (digits (- z)) else digits z.

(** Accumulates decimal digits; [None] on a non-digit. *)
Fixpoint parse_go (acc : Z) (s : string) : option Z :=
  match s with
  | EmptyString => Some acc
  | String c s => if is_ascii_digit c then parse_go (10 * acc + digit_value c) s else None
  end.

(** At least one digit is required: the empty string, a lone [+] and a lone [-]
    are errors. *)
Definition parse_digits (s : string) : option Z :=
  if str_is_empty s then None else parse_go 0 s.

(** [str::parse::<i64>]: an optional sign and decimal digits, in range.  The
    per-digit overflow checks of the library fail exactly when the final value
    is out of range, since the magnitude never decreases. *)
Definition parse_i64 (s : string) : option Z :=
  let checked (o : option Z) :=
    match o with
    | Some z => if (i64_min <=? z)%Z && (z <=? i64_max)%Z then Some z else None
    | None => None
    end in
  match s with
  | String "-"%char s' => checked (option_map Z.opp (parse_digits s'))
  | String "+"%char s' => checked (parse_digits s')
  | _ => checked (parse_digits s)
  end.

(** [str::parse::<u32>]: no minus sign is accepted. *)
Definition parse_u32 (s : string) : option Z :=
  let checked (o : option Z) :=
    match o with
    | Some z => if (z <=? u32_max)%Z then Some z else None
    | None => None
    end in
  match s with
  | String "+"%char s' => checked (parse_digits s')
  | _ => checked (parse_digits s)
  end.

(** [str::parse::<u64>]. *)
Definition parse_u64 (s : string) : option Z :=
  let checked (o : option Z) :=
    match o with
    | Some z => if (z <=? u64_max)%Z then Some z else None
    | None => None
    end in
  match s with
  | String "+"%char s' => checked (parse_digits s')
  | _ => checked (parse_digits s)
  end.

Example to_string_0 : z_to_string 0 = "0". Proof. reflexivity. Qed.
Example to_string_neg : z_to_string (-9223372036854775808) = "-9223372036854775808".
Proof. reflexivity. Qed.
Example parse_plus : parse_i64 "+12" = Some 12%Z. Proof. reflexivity. Qed.
Example parse_overflow : parse_i64 "9223372036854775808" = None. Proof. reflexivity. Qed.
Example parse_minus_u32 : parse_u32 "-1" = None. Proof. reflexivity. Qed.

Lemma digit_char_spec d :
  (0 <= d < 10)%Z -> is_ascii_digit (digit_char d) = true /\ digit_value (digit_char d) = d.
Proof.
  intros Hd. unfold is_ascii_digit, byte_in, digit_value, digit_char.
  rewrite N_ascii_embedding by lia. split; [|lia].
  rewrite andb_true_iff, !N.leb_le. lia.
Qed.

Lemma div10_log2 n fuel : (0 <= n)%Z -> (10 <= n)%Z -> (n < 2 ^ Z.of_nat (S fuel))%Z ->
  (n / 10 < 2 ^ Z.of_nat fuel)%Z.
Proof.
  intros H0 H10 Hn. rewrite Nat2Z.inj_succ, Z.pow_succ_r in Hn by lia.
  apply Z.div_lt_upper_bound; lia.
Qed.

Lemma parse_digits_go fuel n acc k :
  (0 <= n)%Z -> (n < 2 ^ Z.of_nat (S fuel))%Z ->
  exists w, (0 <= w)%Z /\
    parse_go k (digits_go (S fuel) n acc) = parse_go (k * 10 ^ w + n) acc.
Proof.
  revert n acc k. induction fuel as [|fuel IH]; intros n acc k Hn Hlt;
    (destruct (digit_char_spec (n mod 10)) as [Hd Hv]; [apply Z.mod_pos_bound; lia|]).
  - exists 1%Z. split; [lia|]. simpl in Hlt.
    assert (n < 2)%Z as Hn2 by (rewrite Z.pow_1_r in Hlt; lia).
    simpl. destruct (Z.ltb_spec n 10); [|lia]. simpl. rewrite Hd, Hv. f_equal.
    rewrite Z.mod_small by lia. lia.
  - cbn [digits_go]. destruct (Z.ltb_spec n 10) as [Hs|Hs].
    + exists 1%Z. split; [lia|]. simpl. rewrite Hd, Hv. f_equal.
      rewrite Z.mod_small by lia. lia.
    + destruct (IH (n / 10)%Z (String (digit_char (n mod 10)) acc) k) as (w & Hw & E).
      { apply Z.div_pos; lia. } { apply div10_log2; auto; lia. }
      cbn [digits_go] in E. rewrite E. exists (w + 1)%Z. split; [lia|].
      simpl. rewrite Hd, Hv. f_equal. rewrite Z.pow_add_r, Z.pow_1_r by lia.
      pose proof (Z.div_mod n 10). lia.
Qed.

Lemma digits_fuel_enough n : (0 <= n)%Z -> (n < 2 ^ Z.of_nat (digits_fuel n))%Z.
Proof.
  intros Hn. unfold digits_fuel. destruct (decide (n = 0)%Z) as [->|Hne]; [simpl; lia|].
  pose proof (Z.log2_nonneg n). rewrite Nat2Z.inj_succ, Z2Nat.id by lia.
  apply Z.log2_spec. lia.
Qed.

Lemma digits_go_nonempty fuel n acc : str_is_empty (digits_go (S fuel) n acc) = false.
Proof.
  revert n acc. induction fuel as [|fuel IH]; intros n acc; cbn [digits_go];
    destruct (n <? 10)%Z; try done. apply IH.
Qed.

Lemma parse_digits_digits n : (0 <= n)%Z -> parse_digits (digits n) = Some n.
Proof.
  intros Hn. unfold parse_digits, digits, digits_fuel. rewrite digits_go_nonempty.
  destruct (parse_digits_go (Z.to_nat (Z.log2 n)) n "" 0) as (w & _ & ->);
    [done | by apply digits_fuel_enough | done].
Qed.

Lemma digits_go_all fuel n acc :
  (0 <= n)%Z -> str_all is_ascii_digit acc = true -> str_all is_ascii_digit (digits_go fuel n acc) = true.
Proof.
  revert n acc. induction fuel as [|fuel IH]; intros n acc Hn Hacc; simpl; [done|].
  assert (str_all is_ascii_digit (String (digit_char (n mod 10)) acc) = true) as Ha.
  { simpl. rewrite Hacc, andb_true_r. apply digit_char_spec, Z.mod_pos_bound. lia. }
  destruct (n <? 10)%Z; [done|]. apply IH; [apply Z.div_pos; lia | done].
Qed.

Lemma digits_all n : (0 <= n)%Z -> str_all is_ascii_digit (digits n) = true.
Proof. intros. by apply digits_go_all. Qed.

(** A first digit is never a sign. *)
Lemma digits_head n :
  (0 <= n)%Z -> exists c s, digits n = String c s /\ is_ascii_digit c = true.
Proof.
  intros Hn. pose proof (digits_all n Hn) as Ha.
  unfold digits, digits_fuel in *.
  pose proof (digits_go_nonempty (Z.to_nat (Z.log2 n)) n "") as Hne.
  destruct (digits_go _ _ _) as [|c s]; [done|].
  exists c, s. split; [done|]. simpl in Ha. by apply andb_true_iff in Ha as [].
Qed.

Lemma digits_length_go fuel n acc w :
  (0 <= n < 10 ^ Z.of_nat w)%Z -> (1 <= w)%nat ->
  (String.length (digits_go fuel n acc) <= w + String.length acc)%nat.
Proof.
  revert n acc w. induction fuel as [|fuel IH]; intros n acc w Hn Hw; simpl; [lia|].
  destruct (Z.ltb_spec n 10) as [Hs|Hs]; [simpl; lia|].
  destruct w as [|[|w]]; [lia | simpl in Hn; lia |].
  rewrite Nat2Z.inj_succ, Z.pow_succ_r in Hn by lia.
  etrans; [apply (IH _ _ (S w)); [split; [apply Z.div_pos; lia|]|lia]|simpl; lia].
  apply Z.div_lt_upper_bound; lia.
Qed.

Lemma digits_length n w :
  (0 <= n < 10 ^ Z.of_nat w)%Z -> (1 <= w)%nat -> (String.length (digits n) <= w)%nat.
Proof. intros Hn Hw. unfold digits. rewrite <- (Nat.add_0_r w). by apply digits_length_go. Qed.

Lemma parse_i64_digit c s :
  is_ascii_digit c = true ->
  parse_i64 (String c s) =
  match parse_digits (String c s) with
  | Some z => if (i64_min <=? z)%Z && (z <=? i64_max)%Z then Some z else None
  | None => None
  end.
Proof. intros Hc. destruct c as [[] [] [] [] [] [] [] []]; try done; discriminate. Qed.

Lemma parse_u32_digit c s :
  is_ascii_digit c = true ->
  parse_u32 (String c s) =
  match parse_digits (String c s) with
  | Some z => if (z <=? u32_max)%Z then Some z else None
  | None => None
  end.
Proof. intros Hc. destruct c as [[] [] [] [] [] [] [] []]; try done; discriminate. Qed.

Lemma parse_u64_digit c s :
  is_ascii_digit c = true ->
  parse_u64 (String c s) =
  match parse_digits (String c s) with
  | Some z => if (z <=? u64_max)%Z then Some z else None
  | None => None
  end.
Proof. intros Hc. destruct c as [[] [] [] [] [] [] [] []]; try done; discriminate. Qed.

(** Printing then parsing an [i64] is the identity. *)
Lemma parse_i64_to_string z : in_i64 z -> parse_i64 (z_to_string z) = Some z.
Proof.
  unfold in_i64. intros Hz. unfold z_to_string. destruct (Z.ltb_spec z 0) as [Hneg|Hpos].
  - unfold parse_i64. rewrite parse_digits_digits by lia. simpl.
    rewrite Z.opp_involutive.
    by rewrite (proj2 (Z.leb_le i64_min z)), (proj2 (Z.leb_le z i64_max)) by lia.
  - destruct (digits_head z Hpos) as (c & s & E & Hc).
    rewrite E, parse_i64_digit, <- E, parse_digits_digits by done.
    by rewrite (proj2 (Z.leb_le i64_min z)), (proj2 (Z.leb_le z i64_max)) by lia.
Qed.

(** Printing then parsing a [u32] is the identity. *)
Lemma parse_u32_to_string z : in_u32 z -> parse_u32 (z_to_string z) = Some z.
Proof.
  unfold in_u32. intros Hz. unfold z_to_string. destruct (Z.ltb_spec z 0); [lia|].
  destruct (digits_head z) as (c & s & E & Hc); [lia|].
  rewrite E, parse_u32_digit, <- E, parse_digits_digits by (done || lia).
  by rewrite (proj2 (Z.leb_le z u32_max)) by lia.
Qed.

(** Printed integers are digits and at most one minus sign, of bounded length. *)
Definition is_int_char (c : ascii) : bool := is_ascii_digit c || Ascii.eqb c "-"%char.

Lemma digit_is_int_char c : is_ascii_digit c = true -> is_int_char c = true.
Proof. unfold is_int_char. by intros ->. Qed.

Lemma z_to_string_chars z : str_all is_int_char (z_to_string z) = true.
Proof.
  unfold z_to_string.
  destruct (Z.ltb_spec z 0); simpl;
    (apply (str_all_impl is_ascii_digit); [apply digit_is_int_char | apply digits_all; lia]).
Qed.

Lemma z_to_string_length_i64 z : in_i64 z -> (str_len (z_to_string z) <= 20)%Z.
Proof.
  unfold in_i64, i64_min, i64_max, str_len, z_to_string. intros Hz.
  destruct (Z.ltb_spec z 0); simpl.
  - pose proof (digits_length (- z) 19 ltac:(simpl; lia) ltac:(lia)). lia.
  - pose proof (digits_length z 19 ltac:(simpl; lia) ltac:(lia)). lia.
Qed.

Lemma z_to_string_length_u32 z : in_u32 z -> (str_len (z_to_string z) <= 10)%Z.
Proof.
  unfold in_u32, u32_max, str_len, z_to_string. intros Hz.
  destruct (Z.ltb_spec z 0); [lia|]. pose proof (digits_length z 10 ltac:(simpl; lia) ltac:(lia)). lia.
Qed.

Lemma z_to_string_length_pos z : (1 <= str_len (z_to_string z))%Z.
Proof.
  unfold str_len, z_to_string. destruct (Z.ltb_spec z 0); simpl; [lia|].
  destruct (digits_head z) as (c & s & -> & _); simpl; lia.
Qed.

(** A printed integer is never the placeholder for an absent field. *)
Lemma z_to_string_not_dash z : z_to_string z <> "-".
Proof.
  unfold z_to_string. destruct (Z.ltb_spec z 0).
  - destruct (digits_head (- z)) as (c & s & -> & _); [lia|]. discriminate.
  - destruct (digits_head z) as (c & s & -> & Hc); [lia|]. intros [= -> ->]. discriminate.
Qed.

Lemma z_to_string_inj_i64 x y : in_i64 x -> in_i64 y -> z_to_string x = z_to_string y -> x = y.
Proof.
  intros Hx Hy E. apply (f_equal parse_i64) in E.
  rewrite !parse_i64_to_string in E by done. congruence.
Qed.

#[export] Hint Resolve z_to_string_chars z_to_string_length_i64 z_to_string_length_u32 : text.
#[export] Hint Rewrite parse_i64_to_string parse_u32_to_string using done : text.
