(* ===== verification/BTree.v ===== *)
(** * Ordered maps: the standard library's [BTreeMap]

    A [BTreeMap K V] is the list of its entries in strictly increasing key
    order, which is what [iter], [keys] and [values] of the standard library
    enumerate; the development never looks inside the tree.  The order is the
    key type's [Ord], here a lawful {!Prelude.Compare} instance. *)

From S2P Require Import Prelude.

Definition BTreeMap (K V : Type) : Type := list (K * V).

Section BTree.
Context {K V : Type} `{CompareLaws K}.
Implicit Types (m : BTreeMap K V) (k : K) (v : V).

Fixpoint bt_get k m : option V :=
  match m with
  | [] => None
  | (k', v') :: m => match compare k k' with
                     | Eq => Some v'
                     | _ => bt_get k m
                     end
  end.

Fixpoint bt_insert k v m : BTreeMap K V :=
  match m with
  | [] => [(k, v)]
  | (k', v') :: m' => match compare k k' with
                      | Lt => (k, v) :: m
                      | Eq => (k, v) :: m'
                      | Gt => (k', v') :: bt_insert k v m'
                      end
  end.

Fixpoint bt_remove k m : BTreeMap K V :=
  match m with
  | [] => []
  | (k', v') :: m => match compare k k' with
                     | Eq => m
                     | _ => (k', v') :: bt_remove k m
                     end
  end.

Definition bt_contains k m : bool :=
  match bt_get k m with Some _ => true | None => false end.
Definition bt_keys m : list K := map fst m.
Definition bt_values m : list V := map snd m.
(** [keys().next_back()]. *)
Definition bt_last_key m : option K := last (bt_keys m).

Definition key_lt (p q : K * V) : Prop := compare (fst p) (fst q) = Lt.
Definition bt_wf m : Prop := StronglySorted key_lt m.

Lemma bt_wf_nil : bt_wf [].
Proof. constructor. Qed.

Lemma bt_wf_cons_inv p m : bt_wf (p :: m) -> bt_wf m /\ Forall (key_lt p) m.
Proof. intros Hwf. by apply StronglySorted_inv in Hwf. Qed.

(** *** Lookup *)

Lemma bt_get_below k p m : compare k (fst p) = Lt -> Forall (key_lt p) m -> bt_get k m = None.
Proof.
  intros Hk. induction 1 as [|[k' v'] m Hp _ IH]; simpl; [done|].
  unfold key_lt in Hp. simpl in Hp. by rewrite (compare_lt_trans _ _ _ Hk Hp).
Qed.

Lemma bt_get_head_none k v m : Forall (key_lt (k, v)) m -> bt_get k m = None.
Proof.
  induction 1 as [|[k' v'] m Hp _ IH]; simpl; [done|].
  unfold key_lt in Hp. simpl in Hp. by rewrite Hp.
Qed.

Lemma bt_get_Some_In k v m : bt_get k m = Some v -> In (k, v) m.
Proof.
  induction m as [|[k' v'] m IH]; simpl; [done|].
  destruct (compare k k') eqn:E; [apply compare_eq_iff in E as -> | |]; auto.
  intros [= ->]. auto.
Qed.

Lemma bt_In_get k v m : bt_wf m -> In (k, v) m -> bt_get k m = Some v.
Proof.
  intros Hwf. induction m as [|[k' v'] m IH]; simpl; [done|].
  apply bt_wf_cons_inv in Hwf as [Hwf Hall]. intros [[= -> ->]|Hin].
  - by rewrite compare_refl.
  - rewrite Forall_forall in Hall. apply list_elem_of_In in Hin as Hel.
    specialize (Hall _ Hel). unfold key_lt in Hall. simpl in Hall.
    rewrite (compare_antisym k' k), Hall. simpl. auto.
Qed.

Lemma bt_get_iff k v m : bt_wf m -> bt_get k m = Some v <-> In (k, v) m.
Proof. intros Hwf. split; [apply bt_get_Some_In | by apply bt_In_get]. Qed.

Lemma bt_contains_iff k m : bt_wf m -> bt_contains k m = true <-> In k (bt_keys m).
Proof.
  intros Hwf. unfold bt_contains, bt_keys. rewrite in_map_iff. split.
  - destruct (bt_get k m) as [v|] eqn:E; [|done]. intros _. exists (k, v).
    split; [done | by apply bt_get_Some_In].
  - intros ((k', v) & E & Hin). simpl in E. subst. by rewrite (bt_In_get _ _ _ Hwf Hin).
Qed.

(** *** Insertion *)

Lemma bt_get_insert_eq k v m : bt_get k (bt_insert k v m) = Some v.
Proof.
  induction m as [|[k' v'] m IH]; simpl; [by rewrite compare_refl|].
  destruct (compare k k') eqn:E; simpl; rewrite ?compare_refl, ?E; auto.
Qed.

Lemma bt_get_insert_ne k k' v m : k <> k' -> bt_get k' (bt_insert k v m) = bt_get k' m.
Proof.
  intros Hne.
  assert (forall w (d : option V), match compare k' k with Eq => w | _ => d end = d) as Hskip.
  { intros w d. destruct (compare k' k) eqn:E; [|done|done].
    apply compare_eq_iff in E. congruence. }
  induction m as [|[k2 v2] m IH]; simpl; [apply Hskip|].
  destruct (compare k k2) eqn:E; simpl.
  - apply compare_eq_iff in E as ->. by rewrite !Hskip.
  - apply Hskip.
  - by rewrite IH.
Qed.

Lemma bt_insert_Forall (P : K * V -> Prop) k v m :
  P (k, v) -> Forall P m -> Forall P (bt_insert k v m).
Proof.
  intros Hp. induction 1 as [|[k' v'] m Hk' Hm IH]; simpl; [auto|].
  destruct (compare k k'); auto.
Qed.

Lemma bt_insert_wf k v m : bt_wf m -> bt_wf (bt_insert k v m).
Proof.
  unfold bt_wf. induction 1 as [|[k' v'] m Hwf IH Hall]; simpl; [repeat constructor|].
  destruct (compare k k') eqn:E.
  - apply compare_eq_iff in E as ->. constructor; [done|].
    eapply Forall_impl; [exact Hall | done].
  - constructor; [by constructor|]. constructor; [done|].
    eapply Forall_impl; [exact Hall|]. unfold key_lt; simpl. eauto using compare_lt_trans.
  - constructor; [done|]. apply bt_insert_Forall; [|done].
    unfold key_lt; simpl. by apply compare_gt_iff.
Qed.

Lemma bt_insert_perm k v m : bt_wf m -> bt_get k m = None -> bt_insert k v m ≡ₚ (k, v) :: m.
Proof.
  intros Hwf. induction m as [|[k' v'] m IH]; simpl; [done|].
  apply bt_wf_cons_inv in Hwf as [Hwf _].
  destruct (compare k k') eqn:E; [done | done |].
  intros Hget. rewrite IH by done. apply Permutation_swap.
Qed.

Lemma bt_insert_length k v m :
  bt_wf m -> bt_get k m = None -> length (bt_insert k v m) = S (length m).
Proof. intros Hwf Hget. by rewrite (bt_insert_perm k v m Hwf Hget). Qed.

Lemma bt_insert_In k v m p : In p (bt_insert k v m) -> p = (k, v) \/ In p m.
Proof.
  induction m as [|[k' v'] m IH]; simpl; [intros [<-|[]]; auto|].
  destruct (compare k k'); simpl; intuition.
Qed.

(** *** Removal *)

Lemma bt_get_remove_eq k m : bt_wf m -> bt_get k (bt_remove k m) = None.
Proof.
  intros Hwf. induction m as [|[k' v'] m IH]; simpl; [done|].
  apply bt_wf_cons_inv in Hwf as [Hwf Hall].
  destruct (compare k k') eqn:E; simpl; rewrite ?E; auto.
  apply compare_eq_iff in E as ->. destruct m as [|[k2 v2] m]; simpl; [done|].
  apply Forall_cons in Hall as [Hk2 Hall]. unfold key_lt in Hk2. simpl in Hk2.
  rewrite Hk2. apply (bt_get_below k' (k2, v2)); [done|].
  by apply bt_wf_cons_inv in Hwf as [_ ?].
Qed.

Lemma bt_get_remove_ne k k' m : k <> k' -> bt_get k' (bt_remove k m) = bt_get k' m.
Proof.
  intros Hne. induction m as [|[k2 v2] m IH]; simpl; [done|].
  destruct (compare k k2) eqn:E; simpl; rewrite ?IH; [|done|done].
  apply compare_eq_iff in E as ->. destruct (compare k' k2) eqn:E2; [|done|done].
  apply compare_eq_iff in E2. congruence.
Qed.

Lemma bt_remove_Forall (P : K * V -> Prop) k m : Forall P m -> Forall P (bt_remove k m).
Proof.
  induction 1 as [|[k' v'] m Hk' Hm IH]; simpl; [auto|]. destruct (compare k k'); auto.
Qed.

Lemma bt_remove_wf k m : bt_wf m -> bt_wf (bt_remove k m).
Proof.
  unfold bt_wf. induction 1 as [|[k' v'] m Hwf IH Hall]; simpl; [constructor|].
  destruct (compare k k'); [done| |]; (constructor; [done | by apply bt_remove_Forall]).
Qed.

(** *** Keys are strictly increasing *)

Definition lt_rel (k k' : K) : Prop := compare k k' = Lt.

Lemma bt_keys_sorted m : bt_wf m -> StronglySorted lt_rel (bt_keys m).
Proof.
  unfold bt_wf, bt_keys. induction 1 as [|p m Hwf IH Hall]; simpl; constructor; [done|].
  apply Forall_map. eapply Forall_impl; [exact Hall | done].
Qed.

Lemma bt_wf_of_keys m : StronglySorted lt_rel (bt_keys m) -> bt_wf m.
Proof.
  unfold bt_wf, bt_keys. induction m as [|p m IH]; simpl; intros Hs; constructor.
  - apply StronglySorted_inv in Hs as []. auto.
  - apply StronglySorted_inv in Hs as [_ Hall]. rewrite Forall_map in Hall.
    eapply Forall_impl; [exact Hall | done].
Qed.

(** Two maps with the same lookups are the same list of entries. *)
Lemma bt_ext m1 m2 :
  bt_wf m1 -> bt_wf m2 -> (forall k, bt_get k m1 = bt_get k m2) -> m1 = m2.
Proof.
  intros Hwf1. revert m2. induction m1 as [|[k1 v1] m1 IH]; intros [|[k2 v2] m2] Hwf2 Hget.
  - done.
  - specialize (Hget k2). simpl in Hget. by rewrite compare_refl in Hget.
  - specialize (Hget k1). simpl in Hget. by rewrite compare_refl in Hget.
  - apply bt_wf_cons_inv in Hwf1 as [Hwf1 Ha1], Hwf2 as [Hwf2 Ha2].
    pose proof (Hget k1) as H1. pose proof (Hget k2) as H2. simpl in H1, H2.
    rewrite compare_refl in H1, H2.
    destruct (compare k1 k2) eqn:E.
    + apply compare_eq_iff in E as ->. injection H1 as ->. f_equal.
      apply IH; [done | done |]. intros k. specialize (Hget k). simpl in Hget.
      destruct (compare k k2) eqn:Ek; [|done|done]. apply compare_eq_iff in Ek as ->.
      rewrite (bt_get_head_none k2 v2 m1), (bt_get_head_none k2 v2 m2); done.
    + rewrite (bt_get_below k1 (k2, v2)) in H1; done.
    + apply compare_gt_iff in E. rewrite E in H2.
      rewrite (bt_get_below k2 (k1, v1)) in H2; done.
Qed.
End BTree.
