(* ===== verification/Json.v ===== *)
(** * JSON text

    What [serde_json] writes: compact documents, the members of an object in the
    order they are given (declaration order for a struct, key order for a map),
    strings escaped as its writer escapes them.  The text determines the
    document.  [ToJson] is the shape a derived encoder gives a type. *)

From S2P Require Import Prelude Text BTree.
Open Scope list_scope.

#[local] Unset Elimination Schemes.
Inductive Json : Type :=
| JNull
| JBool (b : bool)
| JInt (z : Z)
| JString (s : string)
| JArray (l : list Json)
| JObject (members : list (string * Json)).
#[local] Set Elimination Schemes.

Section Induction.
Variable P : Json -> Prop.
Hypotheses (Hnull : P JNull) (Hbool : forall b, P (JBool b)) (Hint : forall z, P (JInt z))
  (Hstring : forall s, P (JString s)) (Harray : forall l, Forall P l -> P (JArray l))
  (Hobject : forall ms, Forall (fun m => P (snd m)) ms -> P (JObject ms)).

Fixpoint Json_ind (j : Json) : P j :=
  match j with
  | JNull => Hnull
  | JBool b => Hbool b
  | JInt z => Hint z
  | JString s => Hstring s
  | JArray l =>
      Harray l ((fix all (l : list Json) : Forall P l :=
                   match l with
                   | [] => Forall_nil_2 P
                   | j :: l => Forall_cons_2 P j l (Json_ind j) (all l)
                   end) l)
  | JObject ms =>
      Hobject ms ((fix all (ms : list (string * Json)) : Forall (fun m => P (snd m)) ms :=
                     match ms with
                     | [] => Forall_nil_2 (fun m => P (snd m))
                     | m :: ms => Forall_cons_2 (fun m => P (snd m)) m ms (Json_ind (snd m)) (all ms)
                     end) ms)
  end.
End Induction.

(** ** Printing *)

Definition QUOTE : ascii := "034"%char.
Definition BACKSLASH : ascii := "092"%char.

(** A byte below 0x20 without a letter escape is written as its code point. *)
Definition hex_of (n : N) : ascii :=
  if (n <? 10)%N then ascii_of_N (48 + n) else ascii_of_N (87 + n).

Definition escape_char (c : ascii) : string :=
  let n := N_of_ascii c in
  if (n =? 34)%N then String BACKSLASH (String QUOTE "")
  else if (n =? 92)%N then String BACKSLASH (String BACKSLASH "")
  else if (n =? 8)%N then String BACKSLASH "b"
  else if (n =? 9)%N then String BACKSLASH "t"
  else if (n =? 10)%N then String BACKSLASH "n"
  else if (n =? 12)%N then String BACKSLASH "f"
  else if (n =? 13)%N then String BACKSLASH "r"
  else if (n <? 32)%N
  then String BACKSLASH ("u00" +:+ String (hex_of (N.shiftr n 4)) (String (hex_of (N.land n 15)) ""))
  else String c "".

Fixpoint escape (s : string) : string :=
  match s with
  | EmptyString => ""
  | String c s => escape_char c +:+ escape s
  end.

Definition print_string (s : string) : string := String QUOTE (escape s +:+ String QUOTE "").

Fixpoint json_print (j : Json) : string :=
  match j with
  | JNull => "null"
  | JBool b => if b then "true" else "false"
  | JInt z => z_to_string z
  | JString s => print_string s
  | JArray l => "[" +:+ String.concat "," (map json_print l) +:+ "]"
  | JObject ms =>
      "{" +:+ String.concat "," (map (fun m => print_string (fst m) +:+ ":" +:+ json_print (snd m)) ms) +:+ "}"
  end.

Example print_sample :
  json_print (JObject [("a", JArray [JInt (-1); JNull]); ("b", JBool true)])
  = "{" +:+ print_string "a" +:+ ":[-1,null]," +:+ print_string "b" +:+ ":true}".
Proof. reflexivity. Qed.

(** ** The text determines the document *)

(** The inverse of [escape], up to the closing quote. *)
Definition hex_value (c : ascii) : N :=
  let n := N_of_ascii c in if (n <? 97)%N then (n - 48)%N else (n - 87)%N.

Fixpoint read_string (s : string) : option (string * string) :=
  let cons c o := match o with Some (s, r) => Some (String c s, r) | None => None end in
  match s with
  | EmptyString => None
  | String c rest =>
      if Ascii.eqb c QUOTE then Some ("", rest)
      else if Ascii.eqb c BACKSLASH then
        match rest with
        | EmptyString => None
        | String e rest' =>
            if Ascii.eqb e "u"%char
            then match rest' with
                 | String _ (String _ (String h (String l rest''))) =>
                     cons (ascii_of_N (hex_value h * 16 + hex_value l)) (read_string rest'')
                 | _ => None
                 end
            else cons (if Ascii.eqb e "b"%char then "008"%char
                       else if Ascii.eqb e "t"%char then "009"%char
                       else if Ascii.eqb e "n"%char then "010"%char
                       else if Ascii.eqb e "f"%char then "012"%char
                       else if Ascii.eqb e "r"%char then "013"%char
                       else e) (read_string rest')
        end
      else cons c (read_string rest)
  end.

Lemma read_escape_char c rest :
  read_string (escape_char c +:+ rest)
  = match read_string rest with Some (s, r) => Some (String c s, r) | None => None end.
Proof. destruct c as [[] [] [] [] [] [] [] []]; reflexivity. Qed.

Lemma read_escape s r : read_string (escape s +:+ String QUOTE r) = Some (s, r).
Proof.
  induction s as [|c s IH]; [reflexivity|]. cbn [escape]. by rewrite append_assoc, read_escape_char, IH.
Qed.

Lemma print_string_inj s s' r r' : print_string s +:+ r = print_string s' +:+ r' -> s = s' /\ r = r'.
Proof.
  unfold print_string. cbn. rewrite !append_assoc. cbn. intros [= E].
  apply (f_equal read_string) in E. rewrite !read_escape in E. by injection E.
Qed.

(** What may follow a document inside another: nothing, or one of [,:]}]. *)
Definition delimiter (c : ascii) : bool :=
  Ascii.eqb c "," || Ascii.eqb c ":" || Ascii.eqb c "]" || Ascii.eqb c "}".
Definition delimited (r : string) : Prop :=
  match r with EmptyString => True | String c _ => delimiter c = true end.

Lemma delimited_no_digit r : delimited r -> match r with String c _ => is_ascii_digit c = false | _ => True end.
Proof. destruct r as [|c r]; [done|]. by destruct c as [[] [] [] [] [] [] [] []]. Qed.

(** A run of digits ends where no digit follows. *)
Lemma digit_run d d' r r' :
  str_all is_ascii_digit d = true -> str_all is_ascii_digit d' = true -> delimited r -> delimited r' ->
  d +:+ r = d' +:+ r' -> d = d' /\ r = r'.
Proof.
  intros Hd Hd' Hr Hr'. apply delimited_no_digit in Hr. apply delimited_no_digit in Hr'.
  revert d' Hd'. induction d as [|c d IH]; intros [|c' d'] Hd'; simpl in *.
  - done.
  - intros ->. apply andb_true_iff in Hd' as [Hc _]. congruence.
  - intros <-. apply andb_true_iff in Hd as [Hc _]. congruence.
  - intros [= -> E]. apply andb_true_iff in Hd as [_ Hd], Hd' as [_ Hd'].
    destruct (IH Hd d' Hd' E) as [-> ->]. done.
Qed.

Lemma z_to_string_inj z z' r r' :
  delimited r -> delimited r' -> z_to_string z +:+ r = z_to_string z' +:+ r' -> z = z' /\ r = r'.
Proof.
  intros Hr Hr'. assert (forall n, (0 <= n)%Z -> forall m, (0 <= m)%Z -> digits n +:+ r = digits m +:+ r' -> n = m /\ r = r') as Hd.
  { intros n Hn m Hm E. destruct (digit_run _ _ _ _ (digits_all n Hn) (digits_all m Hm) Hr Hr' E) as [Ed Er].
    apply (f_equal parse_digits) in Ed. rewrite !parse_digits_digits in Ed by done. split; congruence. }
  assert (forall n s t, (0 <= n)%Z -> digits n +:+ t = String "-" s -> False) as Hsign.
  { intros n s u Hn E. destruct (digits_head n Hn) as (c & t & Ec & Hc). rewrite Ec in E. by injection E as ->. }
  unfold z_to_string. destruct (Z.ltb_spec z 0), (Z.ltb_spec z' 0); intros E.
  - change (String "-" (digits (- z) +:+ r) = String "-" (digits (- z') +:+ r')) in E. injection E as E.
    apply Hd in E as [? ?]; [split; [lia | done] | lia | lia].
  - exfalso. by apply (Hsign z' (digits (- z) +:+ r) r').
  - exfalso. by apply (Hsign z (digits (- z') +:+ r') r).
  - by apply Hd.
Qed.
Lemma z_to_string_eq z z' : z_to_string z = z_to_string z' -> z = z'.
Proof. intros E. apply (z_to_string_inj z z' "" ""); [done | done|]. by rewrite E. Qed.

(** The first byte of a document says what it is, and is no delimiter. *)
Definition opening (j : Json) (c : ascii) : Prop :=
  match j with
  | JNull => c = "n"%char
  | JBool b => c = if b then "t"%char else "f"%char
  | JInt z => c = "-"%char \/ is_ascii_digit c = true
  | JString _ => c = QUOTE
  | JArray _ => c = "["%char
  | JObject _ => c = "{"%char
  end.

Lemma print_opening j : exists c t, json_print j = String c t /\ opening j c.
Proof.
  destruct j as [|[]|z|s|l|ms]; try (do 2 eexists; split; [reflexivity | reflexivity]).
  cbn [json_print opening]. unfold z_to_string. destruct (Z.ltb_spec z 0); [do 2 eexists; split; [reflexivity | by left]|].
  destruct (digits_head z) as (c & t & E & Hc); [lia|]. rewrite E. exists c, t. auto.
Qed.

Lemma opening_no_delimiter j c : opening j c -> delimiter c = false.
Proof.
  destruct j as [|[]|z|s|l|ms]; simpl; try by intros ->.
  intros [->|Hc]; [done|]. by destruct c as [[] [] [] [] [] [] [] []].
Qed.

(** What determines the document, one document at a time. *)
Definition determines (j : Json) : Prop :=
  forall j' r r', delimited r -> delimited r' -> json_print j +:+ r = json_print j' +:+ r' -> j = j' /\ r = r'.

(** The items of an array or an object: what follows the first, up to the
    closing byte. *)
Section Items.
Context {A : Type} (item : A -> string) (close : ascii).
Hypothesis item_opens : forall a, exists c t, item a = String c t /\ delimiter c = false.
Hypothesis close_delimits : delimiter close = true.
Hypothesis close_no_comma : close <> ","%char.

Fixpoint more (l : list A) (r : string) : string :=
  match l with
  | [] => String close r
  | a :: l => String "," (item a +:+ more l r)
  end.

Lemma concat_more a l r : String.concat "," (map item (a :: l)) +:+ String close r = item a +:+ more l r.
Proof.
  revert a. induction l as [|b l IH]; intros a; [done|].
  change (String.concat "," (map item (a :: b :: l)))
    with (item a +:+ "," +:+ String.concat "," (map item (b :: l))).
  rewrite !append_assoc, IH. done.
Qed.

Lemma more_delimited l r : delimited (more l r).
Proof. by destruct l. Qed.

Definition item_determines (a : A) : Prop :=
  forall b r r', delimited r -> delimited r' -> item a +:+ r = item b +:+ r' -> a = b /\ r = r'.

Lemma more_inj l : Forall item_determines l -> forall l' r r', more l r = more l' r' -> l = l' /\ r = r'.
Proof.
  induction 1 as [|a l Ha _ IH]; intros [|b l'] r r' E; simpl in E.
  - by injection E.
  - by injection E.
  - by injection E.
  - injection E as E. apply Ha in E as [<- E]; [|apply more_delimited..]. by destruct (IH _ _ _ E) as [-> ->].
Qed.

Lemma items_inj l l' r r' :
  Forall item_determines l ->
  String.concat "," (map item l) +:+ String close r = String.concat "," (map item l') +:+ String close r' ->
  l = l' /\ r = r'.
Proof.
  intros Hl. assert (forall a m s s', String close s = String.concat "," (map item (a :: m)) +:+ String close s' -> False) as Hne.
  { intros a m s s'. rewrite concat_more. destruct (item_opens a) as (c & t & -> & Hc). intros [= -> _]. congruence. }
  destruct l as [|a l], l' as [|b l']; intros E.
  - by injection E.
  - by destruct (Hne _ _ _ _ E).
  - by destruct (Hne _ _ _ _ (eq_sym E)).
  - rewrite !concat_more in E. inversion Hl as [|? ? Ha Hl']; subst.
    apply Ha in E as [<- E]; [|apply more_delimited..]. by destruct (more_inj l Hl' _ _ _ E) as [-> ->].
Qed.
End Items.

Definition member_text (m : string * Json) : string := print_string (fst m) +:+ ":" +:+ json_print (snd m).

Lemma member_determines m : determines (snd m) -> item_determines member_text m.
Proof.
  destruct m as [k j]. cbn [snd]. intros Hm [k' j'] r r' Hr Hr'. unfold member_text. cbn [fst snd]. rewrite !append_assoc. intros E.
  apply print_string_inj in E as [-> E]. injection E as E. apply Hm in E as [-> ->]; [done | done | done].
Qed.

(** Documents that open alike are of the same kind. *)
Lemma same_opening j j' c :
  opening j c -> opening j' c ->
  match j, j' with
  | JNull, JNull | JBool _, JBool _ | JInt _, JInt _ | JString _, JString _ | JArray _, JArray _
  | JObject _, JObject _ => True
  | _, _ => False
  end.
Proof.
  intros Hc Hc'.
  destruct j as [|[]|z|s|l|ms], j' as [|[]|z'|s'|l'|ms']; simpl in *; try done;
    repeat match goal with H : _ \/ _ |- _ => destruct H end; subst; done.
Qed.

(** The compact text of a document determines it, even followed by more text. *)
Lemma json_print_determines j : determines j.
Proof.
  assert (forall i, exists c t, json_print i = String c t /\ delimiter c = false) as Hopen.
  { intros i. destruct (print_opening i) as (c & t & E & Ho). exists c, t. split; [done|]. by eapply opening_no_delimiter. }
  induction j as [|b|z|s|l Hl|ms Hms] using Json_ind; intros j' r r' Hr Hr' E;
    match goal with |- ?j = _ /\ _ => pose proof (print_opening j) as (c & t & Ec & Ho) end;
    pose proof (print_opening j') as (c' & t' & Ec' & Ho'); rewrite Ec, Ec' in E;
    assert (c' = c) as -> by (by injection E); rewrite <- Ec, <- Ec' in E;
    pose proof (same_opening _ _ c Ho Ho') as Hs; destruct j' as [|b'|z'|s'|l'|ms']; try done;
    clear Ec Ec' Ho Ho' Hs.
  - cbn in E. by injection E.
  - destruct b, b'; cbn in E; first [discriminate | by injection E].
  - cbn in E. by apply z_to_string_inj in E as [-> ->].
  - apply print_string_inj in E as [-> ->]. done.
  - cbn [json_print] in E. rewrite !append_assoc in E. injection E as E.
    apply (items_inj json_print "]"%char Hopen eq_refl) in E as [-> ->]; [done | done | exact Hl].
  - cbn [json_print] in E. rewrite !append_assoc in E. injection E as E.
    apply (items_inj member_text "}"%char) in E as [-> ->]; try done.
    + intros m. do 2 eexists. split; reflexivity.
    + eapply Forall_impl; [exact Hms|]. intros m. apply member_determines.
Qed.

Lemma json_print_inj j j' : json_print j = json_print j' -> j = j'.
Proof.
  intros E. apply (json_print_determines j j' "" ""); [done | done |]. by rewrite E.
Qed.
