(* ===== verification/Errors.v ===== *)
(** * The core error type ([crates/audit-core/src/errors.rs])

    One constructor per variant, carrying the same strings, with the [Display]
    text that the [thiserror] attributes of the source give: services forward
    [e.to_string()] into their own errors. *)

From S2P Require Import Prelude Text.

Inductive AuditError : Type :=
| InvalidIdentifier (kind detail : string)
| InvalidTimestamp (d : string)
| InvalidEvent (d : string)
| UnsupportedEvent (d : string)
| UnsupportedEventVersion (d : string)
| DuplicateEvent (d : string)
| AuthorizationFailure (d : string)
| ScopeViolation (d : string)
| StorageFailure (d : string)
| SourceFailure (d : string)
| IntegrityFailure (d : string)
| MalformedEvidence (d : string)
| ReportGenerationFailure (d : string)
| ExportFailure (d : string)
| DecryptionAuthorizationFailure (d : string)
| UnsupportedSchema (d : string)
| VersionMismatch (d : string)
| ReplayConflict (d : string)
| SerializationFailure (d : string)
| InvalidQuery (d : string)
| ValidationFailure (d : string)
| Internal (d : string).

Definition AuditResult (T : Type) : Type := result T AuditError.

Definition AuditError_to_string (e : AuditError) : string :=
  match e with
  | InvalidIdentifier kind detail => "invalid " +:+ kind +:+ ": " +:+ detail
  | InvalidTimestamp d => "invalid timestamp: " +:+ d
  | InvalidEvent d => "invalid event: " +:+ d
  | UnsupportedEvent d => "unsupported event: " +:+ d
  | UnsupportedEventVersion d => "unsupported event version: " +:+ d
  | DuplicateEvent d => "duplicate event: " +:+ d
  | AuthorizationFailure d => "authorization failure: " +:+ d
  | ScopeViolation d => "scope violation: " +:+ d
  | StorageFailure d => "storage failure: " +:+ d
  | SourceFailure d => "source failure: " +:+ d
  | IntegrityFailure d => "integrity failure: " +:+ d
  | MalformedEvidence d => "malformed evidence: " +:+ d
  | ReportGenerationFailure d => "report generation failure: " +:+ d
  | ExportFailure d => "export failure: " +:+ d
  | DecryptionAuthorizationFailure d => "decryption authorization failure: " +:+ d
  | UnsupportedSchema d => "unsupported schema: " +:+ d
  | VersionMismatch d => "version mismatch: " +:+ d
  | ReplayConflict d => "replay conflict: " +:+ d
  | SerializationFailure d => "serialization failure: " +:+ d
  | InvalidQuery d => "invalid query: " +:+ d
  | ValidationFailure d => "validation failure: " +:+ d
  | Internal d => "internal error: " +:+ d
  end.

#[export] Instance AuditError_eq_dec : EqDecision AuditError.
Proof. solve_decision. Defined.
