(* ===== verification/Identifiers.v ===== *)
(** * Identifiers ([crates/audit-core/src/identifiers.rs])

    [sha256_hex] and [hex_lower], the content-derived [StableId], the eleven
    prefixed id types of the [id_type!] macro (one type family indexed by the
    prefix literal) and the validated reference newtypes.

    The SHA-256 implementation (crate [sha2]) and the JSON encoding of a slice
    of strings (crate [serde_json]) are parameters, given as type classes. *)

From S2P Require Import Prelude Text Errors.

(** The raw 32-byte digest of crate [sha2]. *)
Class Sha256 := sha256 : string -> string.
(** Documented behaviour the code relies on: a digest has 32 bytes. *)
Class Sha256Laws `{Sha256} : Prop := sha256_length : forall x, String.length (sha256 x) = 32.

(** [serde_json::to_vec] of a slice of strings, which cannot fail. *)
Class JsonStrings := json_strings : list string -> string.

(** [serde_json::to_vec] of a serializable value; the error is its message. *)
Class Serialize (A : Type) := to_vec : A -> result string string.

(** ** Hex digests *)

Definition HEX : string := "0123456789abcdef".

Definition hex_digit (n : N) : ascii :=
  match String.get (N.to_nat n) HEX with
  | Some c => c
  | None => "0"%char
  end.

Fixpoint hex_lower (bytes : string) : string :=
  match bytes with
  | EmptyString => ""
  | String b bytes =>
      String (hex_digit (N.shiftr (N_of_ascii b) 4))
        (String (hex_digit (N.land (N_of_ascii b) 15)) (hex_lower bytes))
  end.

Definition sha256_hex `{Sha256} (input : string) : string := hex_lower (sha256 input).

(** ** Stable ids *)

Record StableId := mkStableId { sid_prefix : string; sid_value : string }.

Definition BODY_HEX_LEN : nat := 32.

Definition str_take (n : nat) (s : string) : string := String.substring 0 n s.
Fixpoint str_drop (n : nat) (s : string) : string :=
  match n, s with
  | S n, String _ s => str_drop n s
  | _, _ => s
  end.

Definition derive_bytes_sid `{Sha256} (prefix bytes : string) : StableId :=
  let digest := sha256_hex bytes in
  let value := prefix +:+ "_" +:+ str_take BODY_HEX_LEN digest in
  mkStableId prefix value.

Definition derive_sid `{Sha256, JsonStrings} (prefix : string) (parts : list string) : StableId :=
  let canonical := json_strings parts in
  derive_bytes_sid prefix canonical.

Definition validate_prefix (prefix : string) : AuditResult unit :=
  let valid :=
    len_in 1 8 prefix
    && match prefix with
       | EmptyString => false
       | String c _ => is_ascii_lowercase c
       end
    && str_all (fun c => is_ascii_lowercase c || Ascii.eqb c "_"%char) prefix in
  if valid then Ok tt
  else Err (InvalidIdentifier "stable id prefix"
              ("`" +:+ prefix +:+ "` must be 1-8 lowercase chars or underscores")).

Definition checked (prefix value : string) : AuditResult StableId :=
  let? _ := validate_prefix prefix in
  if (str_len value <? str_len prefix + 1 + 1)%Z
     || negb (starts_with (prefix +:+ "_") value)
     || negb (str_all is_ascii_hexdigit (str_drop (String.length prefix + 1) value))
  then Err (InvalidIdentifier "stable id"
              ("`" +:+ value +:+ "` is not a valid `" +:+ prefix +:+ "_<hex>` id"))
  else Ok (mkStableId prefix value).

#[export] Instance StableId_eq_dec : EqDecision StableId.
Proof. solve_decision. Defined.

(** The derived [Ord]: prefix first, then value. *)
#[export] Instance StableId_compare : Compare StableId := lex_compare sid_prefix sid_value.
#[export] Instance StableId_compare_laws : CompareLaws StableId.
Proof.
  split; unfold compare, StableId_compare.
  - apply lex_compare_eq_iff. intros [] []; simpl; congruence.
  - apply lex_compare_antisym.
  - apply lex_compare_lt_trans.
Qed.

(** ** The [id_type!] family: a newtype over [StableId] per prefix literal *)

Record IdOf (prefix : string) := mkId { id_stable : StableId }.
Arguments mkId {prefix} _.
Arguments id_stable {prefix} _.

Definition derive `{Sha256, JsonStrings} {prefix} (parts : list string) : IdOf prefix :=
  mkId (derive_sid prefix parts).
Definition derive_bytes `{Sha256} {prefix} (bytes : string) : IdOf prefix :=
  mkId (derive_bytes_sid prefix bytes).
Definition from_checked {prefix} (value : string) : AuditResult (IdOf prefix) :=
  let? sid := checked prefix value in
  Ok (mkId sid).
Definition as_str {prefix} (id : IdOf prefix) : string := sid_value (id_stable id).

Abbreviation RecordId := (IdOf "rec").
Abbreviation EventId := (IdOf "evt").
Abbreviation CaseId := (IdOf "case").
Abbreviation EvidenceId := (IdOf "evid").
Abbreviation ReportId := (IdOf "rep").
Abbreviation RequestId := (IdOf "req").
Abbreviation AuditorId := (IdOf "aud").
Abbreviation AccessEntryId := (IdOf "acc").
Abbreviation FindingId := (IdOf "find").
Abbreviation NoteId := (IdOf "note").
Abbreviation ManifestId := (IdOf "mfst").

#[export] Instance IdOf_eq_dec {p} : EqDecision (IdOf p).
Proof. solve_decision. Defined.
#[export] Instance IdOf_countable {p} : Countable (IdOf p).
Proof.
  refine (inj_countable' (fun i => (sid_prefix (id_stable i), sid_value (id_stable i)))
            (fun '(a, b) => mkId (mkStableId a b)) _).
  by intros [[a b]].
Defined.
#[export] Instance IdOf_compare {p} : Compare (IdOf p) :=
  fun a b => compare (id_stable a) (id_stable b).
#[export] Instance IdOf_compare_laws {p} : CompareLaws (IdOf p).
Proof.
  split; unfold compare, IdOf_compare.
  - intros [a] [b]. rewrite compare_eq_iff. simpl. split; congruence.
  - intros [a] [b]. apply compare_antisym.
  - intros [a] [b] [c]. apply compare_lt_trans.
Qed.

(** ** Network and reference newtypes *)

Record NetworkId := mkNetworkId { network_str : string }.

Definition MAINNET : string := "mainnet".
Definition TESTNET : string := "testnet".
Definition FUTURENET : string := "futurenet".
Definition STANDALONE : string := "standalone".
Definition LOCAL : string := "local".
Definition SIMULATED : string := "simulated".

Definition NetworkId_new (label : string) : AuditResult NetworkId :=
  let valid :=
    len_in 1 32 label
    && str_all (fun c => is_ascii_lowercase c || is_ascii_digit c || Ascii.eqb c "-"%char) label in
  if valid then Ok (mkNetworkId label)
  else Err (InvalidIdentifier "network id" "must be 1-32 chars of [a-z0-9-]").

Definition is_mainnet (n : NetworkId) : bool := String.eqb (network_str n) MAINNET.

Definition REF_MAX_LEN : Z := 128.

Definition validate_ref (kind value : string) : AuditResult unit :=
  let valid :=
    negb (str_is_empty value)
    && (str_len value <=? REF_MAX_LEN)%Z
    && str_all is_ascii_graphic value in
  if valid then Ok tt
  else Err (InvalidIdentifier kind "must be 1-128 printable ASCII chars").

Record AccountId := mkAccountId { account_str : string }.
Definition AccountId_new (value : string) : AuditResult AccountId :=
  let? _ := validate_ref "account id" value in
  Ok (mkAccountId value).

Record ContractId := mkContractId { contract_str : string }.
Definition ContractId_new (value : string) : AuditResult ContractId :=
  let? _ := validate_ref "contract id" value in
  Ok (mkContractId value).

Record TransactionHash := mkTransactionHash { txhash_str : string }.
Definition TransactionHash_new (value : string) : AuditResult TransactionHash :=
  let? _ := validate_ref "transaction hash" value in
  Ok (mkTransactionHash value).

Record ReasonCode := mkReasonCode { reason_str : string }.
Definition ReasonCode_new (value : string) : AuditResult ReasonCode :=
  let valid :=
    len_in 1 64 value
    && str_all (fun c => is_ascii_uppercase c || is_ascii_digit c || char_in "._-" c) value in
  if valid then Ok (mkReasonCode value)
  else Err (InvalidIdentifier "reason code" "must be 1-64 chars of [A-Z0-9._-]").

#[export] Instance NetworkId_eq_dec : EqDecision NetworkId.
Proof. solve_decision. Defined.
#[export] Instance AccountId_eq_dec : EqDecision AccountId.
Proof. solve_decision. Defined.
#[export] Instance ContractId_eq_dec : EqDecision ContractId.
Proof. solve_decision. Defined.
#[export] Instance TransactionHash_eq_dec : EqDecision TransactionHash.
Proof. solve_decision. Defined.
#[export] Instance ReasonCode_eq_dec : EqDecision ReasonCode.
Proof. solve_decision. Defined.

(** ** Shape of digests and ids *)

Lemma hex_digit_lower_N n : (n < 16)%N -> is_lower_hex (hex_digit n) = true.
Proof.
  intros Hn.
  assert (forallb (fun k => is_lower_hex (hex_digit (N.of_nat k))) (seq 0 16) = true) as Hall
    by reflexivity.
  rewrite forallb_forall in Hall. specialize (Hall (N.to_nat n)). rewrite N2Nat.id in Hall.
  apply Hall, in_seq. lia.
Qed.

Lemma N_of_ascii_bounded (c : ascii) : (N_of_ascii c < 256)%N.
Proof. apply N_ascii_bounded. Qed.

Lemma hex_lower_length s : String.length (hex_lower s) = (2 * String.length s)%nat.
Proof. induction s; simpl; lia. Qed.

Lemma hex_lower_all s : str_all is_lower_hex (hex_lower s) = true.
Proof.
  induction s as [|c s IH]; [done|].
  change (hex_lower (String c s)) with
    (String (hex_digit (N.shiftr (N_of_ascii c) 4))
       (String (hex_digit (N.land (N_of_ascii c) 15)) (hex_lower s))).
  cbn [str_all]. rewrite IH.
  pose proof (N_of_ascii_bounded c).
  rewrite !hex_digit_lower_N; [done | |].
  - change 15%N with (N.ones 4). rewrite N.land_ones. by apply N.mod_lt.
  - rewrite N.shiftr_div_pow2. by apply N.Div0.div_lt_upper_bound.
Qed.

Lemma str_take_all p n s : str_all p s = true -> str_all p (str_take n s) = true.
Proof.
  unfold str_take. revert n. induction s as [|c s IH]; intros [|n]; simpl; try done.
  rewrite !andb_true_iff. intros []. auto.
Qed.

Lemma str_take_length n s : (n <= String.length s)%nat -> String.length (str_take n s) = n.
Proof.
  unfold str_take. revert n. induction s as [|c s IH]; intros [|n]; simpl; try lia.
  intros. f_equal. apply IH. lia.
Qed.

Lemma str_drop_append s t : str_drop (String.length s) (s +:+ t) = t.
Proof. induction s; simpl; auto. Qed.

Lemma lower_hex_is_hexdigit c : is_lower_hex c = true -> is_ascii_hexdigit c = true.
Proof. unfold is_lower_hex. rewrite andb_true_iff. by intros []. Qed.

Lemma starts_with_iff p s : starts_with p s = true <-> exists t, s = p +:+ t.
Proof.
  unfold starts_with. revert s. induction p as [|c p IH]; intros [|d s]; simpl; split; try done.
  - intros _. by exists "".
  - intros _. by exists (String d s).
  - by intros [].
  - destruct (Ascii.ascii_dec c d) as [->|]; [|done]. intros (t & ->)%IH. by exists t.
  - intros (t & [= -> ->]). destruct (Ascii.ascii_dec c c); [|done]. apply IH. eauto.
Qed.

(** A value accepted by [StableId::checked]: the prefix, an underscore and a
    non-empty hexadecimal body. *)
Definition id_shape (prefix value : string) : Prop :=
  exists body, value = prefix +:+ "_" +:+ body /\ body <> "" /\ str_all is_ascii_hexdigit body = true.

Lemma checked_Ok_iff prefix value sid :
  checked prefix value = Ok sid <->
  validate_prefix prefix = Ok tt /\ sid = mkStableId prefix value /\ id_shape prefix value.
Proof.
  unfold checked, id_shape. split.
  - intros H. ok_inv. destruct v. rewrite !orb_false_iff, !negb_false_iff in Hb.
    destruct Hb as [[Hlen (t & ->)%starts_with_iff] Hhex].
    repeat split; [done|]. exists t.
    rewrite append_assoc in *. split; [done|].
    rewrite <- append_assoc in Hhex.
    replace (String.length prefix + 1)%nat with (String.length (prefix +:+ "_")) in Hhex
      by (rewrite length_append; done).
    rewrite str_drop_append in Hhex. split; [|done].
    intros ->. rewrite !str_len_append in Hlen.
    change (str_len "_") with 1%Z in Hlen. change (str_len "") with 0%Z in Hlen.
    rewrite Z.ltb_ge in Hlen. lia.
  - intros (-> & -> & t & -> & Hne & Hhex). cbn [rbind].
    rewrite <- append_assoc.
    rewrite (proj2 (starts_with_iff _ _)) by eauto.
    replace (String.length prefix + 1)%nat with (String.length (prefix +:+ "_"))
      by (rewrite length_append; done).
    rewrite str_drop_append, Hhex. simpl.
    destruct (Z.ltb_spec (str_len ((prefix +:+ "_") +:+ t)) (str_len prefix + 1 + 1)) as [Hl|]; [|done].
    rewrite !str_len_append in Hl. change (str_len "_") with 1%Z in Hl.
    destruct t as [|c t]; [done|].
    change (str_len (String c t)) with (Z.of_nat (S (String.length t))) in Hl. lia.
Qed.

(** The well-formed ids of a type: those [from_checked] gives back. *)
Definition id_wf {prefix} (id : IdOf prefix) : Prop := from_checked (as_str id) = Ok id.

Lemma from_checked_Ok_iff {prefix} value (id : IdOf prefix) :
  from_checked value = Ok id <->
  validate_prefix prefix = Ok tt /\ id = mkId (mkStableId prefix value) /\ id_shape prefix value.
Proof.
  unfold from_checked. split.
  - intros H. ok_inv. apply checked_Ok_iff in Hok as (Hp & -> & Hs). done.
  - intros (Hp & -> & Hs). by rewrite (proj2 (checked_Ok_iff prefix value _) (conj Hp (conj eq_refl Hs))).
Qed.

Lemma from_checked_wf {prefix} value (id : IdOf prefix) :
  from_checked value = Ok id -> id_wf id /\ as_str id = value.
Proof.
  intros H. assert (as_str id = value) as E.
  { by apply from_checked_Ok_iff in H as (_ & -> & _). }
  split; [unfold id_wf; by rewrite E | done].
Qed.

Lemma id_wf_inj {prefix} (a b : IdOf prefix) : id_wf a -> id_wf b -> as_str a = as_str b -> a = b.
Proof. unfold id_wf. intros Ha Hb E. rewrite E in Ha. congruence. Qed.

Section DerivedIds.
Context `{Sha256Laws}.

Lemma sha256_hex_length x : String.length (sha256_hex x) = 64%nat.
Proof. unfold sha256_hex. by rewrite hex_lower_length, sha256_length. Qed.

Lemma sha256_hex_all x : str_all is_lower_hex (sha256_hex x) = true.
Proof. apply hex_lower_all. Qed.

Lemma derived_body_length x : String.length (str_take BODY_HEX_LEN (sha256_hex x)) = 32%nat.
Proof. apply str_take_length. rewrite sha256_hex_length. unfold BODY_HEX_LEN. lia. Qed.

Lemma derive_bytes_wf {prefix} x :
  validate_prefix prefix = Ok tt -> id_wf (derive_bytes (prefix := prefix) x).
Proof.
  intros Hp. unfold id_wf. apply from_checked_Ok_iff. repeat split; [done|].
  exists (str_take BODY_HEX_LEN (sha256_hex x)). repeat split.
  - intros E. pose proof (derived_body_length x) as Hl. rewrite E in Hl. discriminate.
  - apply str_take_all. eapply str_all_impl; [apply lower_hex_is_hexdigit | apply sha256_hex_all].
Qed.

Lemma derive_bytes_length {prefix} x :
  str_len (as_str (derive_bytes (prefix := prefix) x)) = (str_len prefix + 33)%Z.
Proof.
  change (as_str (derive_bytes x)) with (prefix +:+ "_" +:+ str_take BODY_HEX_LEN (sha256_hex x)).
  rewrite !str_len_append.
  unfold str_len at 3. rewrite derived_body_length. change (str_len "_") with 1%Z. lia.
Qed.
End DerivedIds.

(** Two inputs of which the ids keep the same 128 bits. *)
Definition short_clash `{Sha256} (b b' : string) : Prop :=
  b <> b' /\ str_take BODY_HEX_LEN (sha256_hex b) = str_take BODY_HEX_LEN (sha256_hex b').

Lemma derive_bytes_inj `{Sha256} {p} b b' :
  derive_bytes (prefix := p) b = derive_bytes b' -> b = b' \/ short_clash b b'.
Proof.
  intros E. destruct (string_dec b b') as [|Hn]; [by left|]. right. split; [done|].
  injection E as E. apply append_inj_l in E. by injection E.
Qed.

#[export] Hint Resolve derive_bytes_wf from_checked_wf : audit.

(** ** Parsing, display and serialization *)

(** [FromStr], [Display], and the serde form of an id: a plain string, checked
    again when it is read. *)
Definition id_from_str {prefix} (s : string) : AuditResult (IdOf prefix) := from_checked s.
Definition id_display {prefix} (id : IdOf prefix) : string := as_str id.
Definition id_serialize {prefix} (id : IdOf prefix) : string := as_str id.
(** [raw] is what [String::deserialize] gave; the error is its message. *)
Definition id_deserialize {prefix} (raw : string) : result (IdOf prefix) string :=
  map_err AuditError_to_string (from_checked raw).

Definition NetworkId_from_str (s : string) : AuditResult NetworkId := NetworkId_new s.
Definition NetworkId_display (n : NetworkId) : string := network_str n.
Definition AccountId_from_str (s : string) : AuditResult AccountId := AccountId_new s.
Definition AccountId_display (a : AccountId) : string := account_str a.
Definition ContractId_from_str (s : string) : AuditResult ContractId := ContractId_new s.
Definition ContractId_display (c : ContractId) : string := contract_str c.
Definition TransactionHash_from_str (s : string) : AuditResult TransactionHash := TransactionHash_new s.
Definition TransactionHash_display (h : TransactionHash) : string := txhash_str h.
Definition ReasonCode_from_str (s : string) : AuditResult ReasonCode := ReasonCode_new s.
Definition ReasonCode_display (r : ReasonCode) : string := reason_str r.

(** A parser that accepts a string keeps it: what it reads back displays as it. *)
Lemma reference_displays s :
  (forall n, NetworkId_from_str s = Ok n -> NetworkId_display n = s)
  /\ (forall a, AccountId_from_str s = Ok a -> AccountId_display a = s)
  /\ (forall c, ContractId_from_str s = Ok c -> ContractId_display c = s)
  /\ (forall h, TransactionHash_from_str s = Ok h -> TransactionHash_display h = s)
  /\ (forall r, ReasonCode_from_str s = Ok r -> ReasonCode_display r = s).
Proof.
  unfold NetworkId_from_str, NetworkId_new, AccountId_from_str, AccountId_new, ContractId_from_str, ContractId_new,
    TransactionHash_from_str, TransactionHash_new, ReasonCode_from_str, ReasonCode_new.
  repeat split; intros x Hx; by ok_inv.
Qed.

(** Every string boundary of an id is the same checked one: reading accepts
    exactly the well-formed ids and gives back the one that was written, parsing
    and decoding agree, and an id derived from content survives both. *)
Theorem id_serde_round_trip :
  (forall prefix (id : IdOf prefix), id_wf id <-> id_deserialize (id_serialize id) = Ok id)
  /\ (forall prefix raw (id : IdOf prefix),
        id_deserialize raw = Ok id <-> id_from_str raw = Ok id)
  /\ (forall prefix raw (id : IdOf prefix),
        id_deserialize raw = Ok id -> id_serialize id = raw /\ id_display id = raw /\ id_wf id)
  /\ (forall `{Sha256Laws} prefix bytes, validate_prefix prefix = Ok tt ->
        id_deserialize (prefix := prefix) (id_serialize (prefix := prefix) (derive_bytes bytes)) = Ok (derive_bytes bytes)).
Proof.
  assert (forall prefix raw (id : IdOf prefix), id_deserialize raw = Ok id <-> from_checked raw = Ok id) as Hd.
  { intros prefix raw id. unfold id_deserialize. destruct (from_checked raw); simpl; split; congruence. }
  split; [intros prefix id; rewrite Hd; reflexivity|]. split; [exact Hd|]. split.
  - intros prefix raw id Hr%Hd. apply from_checked_wf in Hr as [Hw E]. by repeat split.
  - intros ? ? prefix bytes Hp. apply Hd. by apply derive_bytes_wf.
Qed.
