(* ===== verification/Sha2.v ===== *)
(** * SHA-256 (FIPS 180-4)

    An executable instance of the hash parameter {!Identifiers.Sha256}, for the
    runs on concrete data: the program takes its hash from crate [sha2].  Checked
    on the standard's examples. *)

From S2P Require Import Prelude Text Errors Identifiers.
Open Scope Z_scope.

(** ** 32-bit words *)

Definition w32 (x : Z) : Z := Z.land x 0xffffffff.
Definition rotr (n x : Z) : Z := Z.lor (Z.shiftr x n) (w32 (Z.shiftl x (32 - n))).

Definition ch (x y z : Z) : Z := Z.lxor (Z.land x y) (Z.land (0xffffffff - x) z).
Definition maj (x y z : Z) : Z := Z.lxor (Z.lxor (Z.land x y) (Z.land x z)) (Z.land y z).
Definition bsig0 (x : Z) : Z := Z.lxor (Z.lxor (rotr 2 x) (rotr 13 x)) (rotr 22 x).
Definition bsig1 (x : Z) : Z := Z.lxor (Z.lxor (rotr 6 x) (rotr 11 x)) (rotr 25 x).
Definition ssig0 (x : Z) : Z := Z.lxor (Z.lxor (rotr 7 x) (rotr 18 x)) (Z.shiftr x 3).
Definition ssig1 (x : Z) : Z := Z.lxor (Z.lxor (rotr 17 x) (rotr 19 x)) (Z.shiftr x 10).

(** The constants are the first 32 bits of the fractional parts of the square
    roots of the first 8 primes and of the cube roots of the first 64. *)
Definition is_prime (n : Z) : bool := forallb (fun d => negb (n mod d =? 0)) (map Z.of_nat (seq 2 (Z.to_nat (Z.sqrt n) - 1))).
Definition primes : list Z := filter (fun n => is_prime n = true) (map Z.of_nat (seq 2 310)).

(** The integer cube root below [2 ^ n], bit by bit. *)
Fixpoint cube_root (n : nat) (r x : Z) : Z :=
  match n with
  | O => r
  | S n => let r' := r + Z.shiftl 1 (Z.of_nat n) in cube_root n (if r' * r' * r' <=? x then r' else r) x
  end.

Definition root_bits : list Z := Eval vm_compute in map (fun p => w32 (Z.sqrt (Z.shiftl p 64))) (take 8 primes).
Definition round_constants : list Z := Eval vm_compute in map (fun p => w32 (cube_root 36 0 (Z.shiftl p 96))) primes.

(** ** The compression function *)

Record HashState := mkHashState { ha : Z; hb : Z; hc : Z; hd : Z; he : Z; hf : Z; hg : Z; hh : Z }.

Definition initial_hash : HashState :=
  let h i := nth i root_bits 0 in mkHashState (h 0%nat) (h 1%nat) (h 2%nat) (h 3%nat) (h 4%nat) (h 5%nat) (h 6%nat) (h 7%nat).

Definition sha_round (s : HashState) (k w : Z) : HashState :=
  let t1 := hh s + bsig1 (he s) + ch (he s) (hf s) (hg s) + k + w in
  let t2 := bsig0 (ha s) + maj (ha s) (hb s) (hc s) in
  mkHashState (w32 (t1 + t2)) (ha s) (hb s) (hc s) (w32 (hd s + t1)) (he s) (hf s) (hg s).

(** The message schedule slides along the last sixteen words. *)
Fixpoint sha_rounds (ks : list Z) (window : list Z) (s : HashState) : HashState :=
  match ks, window with
  | k :: ks, w0 :: ((w1 :: _) as rest) =>
      let next := w32 (ssig1 (nth 14 window 0) + nth 9 window 0 + ssig0 w1 + w0) in
      sha_rounds ks (rest ++ [next]) (sha_round s k w0)
  | _, _ => s
  end.

Definition compress_block (s : HashState) (block : list Z) : HashState :=
  let t := sha_rounds round_constants block s in
  mkHashState (w32 (ha s + ha t)) (w32 (hb s + hb t)) (w32 (hc s + hc t)) (w32 (hd s + hd t))
    (w32 (he s + he t)) (w32 (hf s + hf t)) (w32 (hg s + hg t)) (w32 (hh s + hh t)).

Fixpoint hash_blocks (words : list Z) (s : HashState) : HashState :=
  match words with
  | w0 :: w1 :: w2 :: w3 :: w4 :: w5 :: w6 :: w7
    :: w8 :: w9 :: w10 :: w11 :: w12 :: w13 :: w14 :: w15 :: words =>
      hash_blocks words (compress_block s
        [ w0; w1; w2; w3; w4; w5; w6; w7; w8; w9; w10; w11; w12; w13; w14; w15 ])
  | _ => s
  end.

(** ** Padding and bytes *)

Definition bytes_of (s : string) : list Z := map (fun c => Z.of_N (N_of_ascii c)) (String.list_ascii_of_string s).

Definition word_bytes (w : Z) : list Z :=
  [ Z.land (Z.shiftr w 24) 255; Z.land (Z.shiftr w 16) 255; Z.land (Z.shiftr w 8) 255; Z.land w 255 ].

Fixpoint words_of (bytes : list Z) : list Z :=
  match bytes with
  | a :: b :: c :: d :: bytes => Z.shiftl a 24 + Z.shiftl b 16 + Z.shiftl c 8 + d :: words_of bytes
  | _ => []
  end.

Definition padded (bytes : list Z) : list Z :=
  let n := Z.of_nat (length bytes) in
  let zeros := repeat 0 (Z.to_nat ((55 - n) mod 64)) in
  bytes ++ [0x80] ++ zeros ++ word_bytes (Z.shiftr (8 * n) 32) ++ word_bytes (w32 (8 * n)).

Definition hash_bytes_of (s : HashState) : list Z :=
  concat (map word_bytes [ ha s; hb s; hc s; hd s; he s; hf s; hg s; hh s ]).

Definition fips_sha256 : Sha256 := fun x =>
  String.string_of_list_ascii
    (map (fun b => ascii_of_N (Z.to_N b)) (hash_bytes_of (hash_blocks (words_of (padded (bytes_of x))) initial_hash))).

Lemma fips_sha256_laws : @Sha256Laws fips_sha256.
Proof.
  intros x. unfold sha256, fips_sha256. by destruct (hash_blocks _ _).
Qed.

(** The standard's one-block and two-block examples, and the empty message. *)
Example sha256_abc :
  @sha256_hex fips_sha256 "abc" = "ba7816bf8f01cfea414140de5dae2223b00361a396177a9cb410ff61f20015ad"%string.
Proof. vm_compute. reflexivity. Qed.
Example sha256_two_blocks :
  @sha256_hex fips_sha256 "abcdbcdecdefdefgefghfghighijhijkijkljklmklmnlmnomnopnopq"
  = "248d6a61d20638b8e5c026930c3e6039a33ce45964ff2167f6ecedd419db06c1"%string.
Proof. vm_compute. reflexivity. Qed.
Example sha256_empty :
  @sha256_hex fips_sha256 "" = "e3b0c44298fc1c149afbf4c8996fb92427ae41e4649b934ca495991b7852b855"%string.
Proof. vm_compute. reflexivity. Qed.
