(* ===== verification/Timestamps.v ===== *)
(** * Timestamps and ranges ([crates/audit-core/src/timestamps.rs])

    UTC seconds, their civil-calendar rendering and inclusive time ranges.  The
    calendar is proved against an independent specification: the proleptic
    Gregorian successor-day function.

    A [Clock] reading is an argument of the operations that read the clock; an
    operation that reads it several times takes one argument per reading, so
    the theorems hold for any clock. *)

From S2P Require Import Prelude Text Errors.
Open Scope Z_scope.

Record Timestamp := mkTimestamp { unix_seconds : Z }.

#[export] Instance Timestamp_eq_dec : EqDecision Timestamp.
Proof. solve_decision. Defined.

Definition is_at_or_after (t other : Timestamp) : bool := unix_seconds other <=? unix_seconds t.

(** ** Civil calendar *)

Definition civil_from_days (z : Z) : Z * Z * Z :=
  let z := z + 719468 in
  let era := Z.quot (if 0 <=? z then z else z - 146096) 146097 in
  let doe := z - era * 146097 in
  let yoe := (doe - doe / 1460 + doe / 36524 - doe / 146096) / 365 in
  let y := yoe + era * 400 in
  let doy := doe - (365 * yoe + yoe / 4 - yoe / 100) in
  let mp := (5 * doy + 2) / 153 in
  let d := doy - (153 * mp + 2) / 5 + 1 in
  let m := if mp <? 10 then mp + 3 else mp - 9 in
  (if m <=? 2 then y + 1 else y, m, d).

(** [div_euclid]/[rem_euclid] by a positive constant are Rocq's floor division. *)
Definition unix_to_civil (secs : Z) : Z * Z * Z * Z * Z * Z :=
  let days := secs / 86400 in
  let rem := secs mod 86400 in
  let '(y, mo, d) := civil_from_days days in
  let h := rem / 3600 in
  let mi := (rem mod 3600) / 60 in
  let s := rem mod 60 in
  (y, mo, d, h, mi, s).

(** [{n:0w}]: at least [w] characters, padded with zeros. *)
Definition pad0 (w : nat) (n : Z) : string :=
  let s := z_to_string n in
  String.concat "" (repeat "0" (w - String.length s)) +:+ s.

Definition to_rfc3339 (t : Timestamp) : AuditResult string :=
  let '(y, mo, d, h, mi, s) := unix_to_civil (unix_seconds t) in
  if negb ((0 <=? y) && (y <=? 9999))
  then Err (InvalidTimestamp
              (z_to_string (unix_seconds t) +:+ " seconds is outside the RFC 3339 year range"))
  else Ok (pad0 4 y +:+ "-" +:+ pad0 2 mo +:+ "-" +:+ pad0 2 d +:+ "T"
             +:+ pad0 2 h +:+ ":" +:+ pad0 2 mi +:+ ":" +:+ pad0 2 s +:+ "Z").

(** [Display for Timestamp]. *)
Definition Timestamp_display (t : Timestamp) : string :=
  match to_rfc3339 t with
  | Ok s => s
  | Err _ => "unix:" +:+ z_to_string (unix_seconds t)
  end.

Example rfc3339_epoch : to_rfc3339 (mkTimestamp 0) = Ok "1970-01-01T00:00:00Z".
Proof. reflexivity. Qed.
Example rfc3339_2023 : to_rfc3339 (mkTimestamp 1700000000) = Ok "2023-11-14T22:13:20Z".
Proof. reflexivity. Qed.
Example rfc3339_before : to_rfc3339 (mkTimestamp (-1)) = Ok "1969-12-31T23:59:59Z".
Proof. reflexivity. Qed.

(** ** Time ranges *)

Record TimeRange := mkTimeRange { tr_start : option Timestamp; tr_end : option Timestamp }.

#[export] Instance TimeRange_eq_dec : EqDecision TimeRange.
Proof. solve_decision. Defined.

Definition TimeRange_all : TimeRange := mkTimeRange None None.

Definition TimeRange_new (start end_ : option Timestamp) : AuditResult TimeRange :=
  match start, end_ with
  | Some a, Some b =>
      if unix_seconds b <? unix_seconds a
      then Err (InvalidTimestamp
                  ("range start " +:+ z_to_string (unix_seconds a) +:+ " is after range end "
                     +:+ z_to_string (unix_seconds b)))
      else Ok (mkTimeRange start end_)
  | _, _ => Ok (mkTimeRange start end_)
  end.

Definition TimeRange_at (instant : Timestamp) : TimeRange := mkTimeRange (Some instant) (Some instant).

Definition is_none_or {A} (o : option A) (p : A -> bool) : bool :=
  match o with None => true | Some x => p x end.

Definition TimeRange_contains (r : TimeRange) (t : Timestamp) : bool :=
  is_none_or (tr_start r) (fun s => unix_seconds s <=? unix_seconds t)
  && is_none_or (tr_end r) (fun e => unix_seconds t <=? unix_seconds e).

(** ** The Gregorian specification *)

Definition is_leap (y : Z) : bool :=
  (y mod 4 =? 0) && (negb (y mod 100 =? 0) || (y mod 400 =? 0)).

Definition month_length (y m : Z) : Z :=
  match m with
  | 2 => if is_leap y then 29 else 28
  | 4 | 6 | 9 | 11 => 30
  | _ => 31
  end.

(** The day after a date. *)
Definition next_day (date : Z * Z * Z) : Z * Z * Z :=
  let '(y, m, d) := date in
  if d <? month_length y m then (y, m, d + 1)
  else if m <? 12 then (y, m + 1, 1)
  else (y + 1, 1, 1).

Definition valid_date (date : Z * Z * Z) : Prop :=
  let '(y, m, d) := date in 1 <= m <= 12 /\ 1 <= d <= month_length y m.

(** First day (from March) of year [y] of a 400-year era, and the year a day of
    the era falls in. *)
Definition year_start (y : Z) : Z := 365 * y + y / 4 - y / 100.
Definition year_key (doe : Z) : Z := doe - doe / 1460 + doe / 36524 - doe / 146096.
Definition year_len (y : Z) : Z := if is_leap (y + 1) then 366 else 365.

(** Month and day of a day of the March-based year; January and February belong
    to the next calendar year. *)
Definition date_of (y doy : Z) : Z * Z * Z :=
  let mp := (5 * doy + 2) / 153 in
  let d := doy - (153 * mp + 2) / 5 + 1 in
  let m := if mp <? 10 then mp + 3 else mp - 9 in
  (if m <=? 2 then y + 1 else y, m, d).

Definition z_range (n : nat) : list Z := map Z.of_nat (seq 0 n).

Lemma z_range_forall (n : nat) (P : Z -> bool) :
  forallb P (z_range n) = true -> forall z, 0 <= z < Z.of_nat n -> P z = true.
Proof.
  intros Hall z Hz. rewrite forallb_forall in Hall. apply Hall.
  unfold z_range. apply in_map_iff. exists (Z.to_nat z). split; [lia|]. apply in_seq. lia.
Qed.

Lemma year_key_mono a b : 0 <= a <= b -> b < 146097 -> year_key a <= year_key b.
Proof. unfold year_key. intros. Z.to_euclidean_division_equations. lia. Qed.

Lemma year_facts y :
  0 <= y < 400 ->
  0 <= year_start y /\ year_start y + year_len y <= 146097
  /\ year_key (year_start y) / 365 = y /\ year_key (year_start y + year_len y - 1) / 365 = y
  /\ (y < 399 -> year_start (y + 1) = year_start y + year_len y)
  /\ (y = 399 -> year_start y + year_len y = 146097).
Proof.
  intros Hy.
  pose proof (z_range_forall 400 (fun y =>
    (0 <=? year_start y) && (year_start y + year_len y <=? 146097)
    && (year_key (year_start y) / 365 =? y) && (year_key (year_start y + year_len y - 1) / 365 =? y)
    && ((y =? 399) || (year_start (y + 1) =? year_start y + year_len y))
    && (negb (y =? 399) || (year_start y + year_len y =? 146097))) ltac:(vm_compute; reflexivity) y Hy) as H.
  simpl in H. rewrite !andb_true_iff, !orb_true_iff, negb_true_iff in H. lia.
Qed.

(** The year the code computes for a day is the one whose span holds the day. *)
Lemma yoe_of_span y doe :
  0 <= y < 400 -> year_start y <= doe < year_start y + year_len y -> year_key doe / 365 = y.
Proof.
  intros Hy Hdoe. destruct (year_facts y Hy) as (H0 & H1 & Hs & He & _).
  pose proof (year_key_mono (year_start y) doe ltac:(lia) ltac:(lia)).
  pose proof (year_key_mono doe (year_start y + year_len y - 1) ltac:(lia) ltac:(lia)).
  assert (year_key (year_start y) / 365 <= year_key doe / 365) by (apply Z.div_le_mono; lia).
  assert (year_key doe / 365 <= year_key (year_start y + year_len y - 1) / 365)
    by (apply Z.div_le_mono; lia).
  lia.
Qed.

Lemma span_of_doe doe :
  0 <= doe < 146097 -> exists y, 0 <= y < 400 /\ year_start y <= doe < year_start y + year_len y.
Proof.
  intros Hd.
  assert (forall n : nat, (n <= 400)%nat ->
            doe < (if (n =? 400)%nat then 146097 else year_start (Z.of_nat n)) ->
            exists y, 0 <= y < 400 /\ year_start y <= doe < year_start y + year_len y) as Hind.
  { induction n as [|n IH]; intros Hn Hlt; [change (doe < 0) in Hlt; lia|].
    destruct (year_facts (Z.of_nat n)) as (_ & _ & _ & _ & Hnext & Hlast); [lia|].
    destruct (Z_lt_dec doe (year_start (Z.of_nat n))) as [Hl|Hl].
    - apply IH; [lia|]. destruct (Nat.eqb_spec n 400); lia.
    - exists (Z.of_nat n). split; [lia|]. split; [lia|].
      destruct (Nat.eqb_spec (S n) 400); [rewrite Hlast; lia|].
      rewrite Nat2Z.inj_succ in Hlt. unfold Z.succ in Hlt. rewrite <- Hnext by lia. lia. }
  apply (Hind 400%nat); [lia | rewrite Nat.eqb_refl; lia].
Qed.

(** The code's date for day [doe] of era [era] lies in the year's span. *)
Lemma civil_of_span era y doy :
  0 <= y < 400 -> 0 <= doy < year_len y ->
  civil_from_days (era * 146097 + (year_start y + doy) - 719468) = date_of (y + era * 400) doy.
Proof.
  intros Hy Hdoy. destruct (year_facts y Hy) as (H0 & H1 & _).
  pose proof (yoe_of_span y (year_start y + doy) Hy ltac:(lia)) as Hk. unfold year_key in Hk.
  unfold civil_from_days.
  replace (era * 146097 + (year_start y + doy) - 719468 + 719468)
    with (era * 146097 + (year_start y + doy)) by lia.
  remember (year_start y + doy) as doe eqn:Edoe.
  assert (Z.quot (if 0 <=? era * 146097 + doe then era * 146097 + doe
                  else era * 146097 + doe - 146096) 146097 = era) as ->.
  { destruct (Z.leb_spec 0 (era * 146097 + doe)); Z.to_euclidean_division_equations; lia. }
  replace (era * 146097 + doe - era * 146097) with doe by lia.
  rewrite Hk. unfold date_of. fold (year_start y).
  replace (doe - year_start y) with doy by lia. reflexivity.
Qed.

Lemma is_leap_era y era : is_leap (y + era * 400) = is_leap y.
Proof.
  unfold is_leap.
  replace (y + era * 400) with (y + (era * 100) * 4) at 1 by lia. rewrite Z.mod_add by lia.
  replace (y + era * 400) with (y + (era * 4) * 100) at 1 by lia. rewrite Z.mod_add by lia.
  by rewrite Z.mod_add by lia.
Qed.

Lemma triple_eq {A B C} (a a' : A) (b b' : B) (c c' : C) :
  a = a' -> b = b' -> c = c' -> (a, b, c) = (a', b', c').
Proof. by intros -> -> ->. Qed.

(** Within a March-based year, the successor of a day is the next day number. *)
Lemma date_of_next y doy :
  0 <= doy < 366 -> doy + 1 < year_len y -> next_day (date_of y doy) = date_of y (doy + 1).
Proof.
  unfold year_len. intros Hd Hlt.
  assert (doy < 364 \/ doy = 364 /\ is_leap (y + 1) = true) as [Hs|[-> Hl]]
    by (destruct (is_leap (y + 1)); lia).
  - pose proof (z_range_forall 364 (fun doy =>
      forallb (fun l : bool =>
        let mp := (5 * doy + 2) / 153 in
        let d := doy - (153 * mp + 2) / 5 + 1 in
        let m := if mp <? 10 then mp + 3 else mp - 9 in
        let mp' := (5 * (doy + 1) + 2) / 153 in
        let d' := doy + 1 - (153 * mp' + 2) / 5 + 1 in
        let m' := if mp' <? 10 then mp' + 3 else mp' - 9 in
        let ml := match m with 2 => if l then 29 else 28 | 4 | 6 | 9 | 11 => 30 | _ => 31 end in
        if d <? ml then (m' =? m) && (d' =? d + 1)
        else if m <? 12 then (m' =? m + 1) && (d' =? 1) && (negb (m =? 2))
        else (m' =? 1) && (d' =? 1)) [true; false]) ltac:(vm_compute; reflexivity) doy ltac:(lia)) as H.
    simpl in H. rewrite andb_true_r, andb_true_iff in H. destruct H as [Ht Hf].
    unfold date_of, next_day, month_length.
    set (mp := (5 * doy + 2) / 153) in *. set (mp' := (5 * (doy + 1) + 2) / 153) in *.
    set (m := if mp <? 10 then mp + 3 else mp - 9) in *.
    set (m' := if mp' <? 10 then mp' + 3 else mp' - 9) in *.
    set (d := doy - (153 * mp + 2) / 5 + 1) in *.
    set (d' := doy + 1 - (153 * mp' + 2) / 5 + 1) in *.
    set (yr := if m <=? 2 then y + 1 else y).
    assert ((if d <? (match m with 2 => if is_leap yr then 29 else 28 | 4 | 6 | 9 | 11 => 30 | _ => 31 end)
             then (m' =? m) && (d' =? d + 1)
             else if m <? 12 then (m' =? m + 1) && (d' =? 1) && (negb (m =? 2))
             else (m' =? 1) && (d' =? 1)) = true) as H by (destruct (is_leap yr); [by rewrite Ht | by rewrite Hf]).
    clear Ht Hf. unfold yr in *.
    destruct (d <? _); [|destruct (Z.ltb_spec m 12)];
      rewrite ?andb_true_iff, ?negb_true_iff, ?Z.eqb_eq, ?Z.eqb_neq in H;
      (apply triple_eq; [destruct (Z.leb_spec m 2), (Z.leb_spec m' 2); lia | lia | lia]).
  - unfold date_of, next_day, month_length. simpl. by rewrite Hl.
Qed.

(** The last day of a March-based year is the end of February. *)
Lemma date_of_last y : next_day (date_of y (year_len y - 1)) = date_of (y + 1) 0.
Proof.
  unfold year_len. destruct (is_leap (y + 1)) eqn:E; unfold date_of, next_day, month_length; simpl;
    by rewrite E.
Qed.

Lemma date_of_valid y doy : 0 <= doy < year_len y -> valid_date (date_of y doy).
Proof.
  unfold year_len. intros Hd.
  assert (doy < 365 \/ doy = 365 /\ is_leap (y + 1) = true) as [Hs|[-> Hl]]
    by (destruct (is_leap (y + 1)); lia).
  - pose proof (z_range_forall 365 (fun doy =>
      let mp := (5 * doy + 2) / 153 in
      let d := doy - (153 * mp + 2) / 5 + 1 in
      let m := if mp <? 10 then mp + 3 else mp - 9 in
      let ml := match m with 2 => 28 | 4 | 6 | 9 | 11 => 30 | _ => 31 end in
      (1 <=? m) && (m <=? 12) && (1 <=? d) && (d <=? ml)) ltac:(vm_compute; reflexivity) doy ltac:(lia)) as H.
    cbv beta zeta in H. rewrite !andb_true_iff in H. destruct H as [[[H1 H2] H3] H4].
    unfold valid_date, date_of, month_length. split; [lia|]. split; [lia|].
    apply Z.leb_le in H4. etrans; [exact H4|].
    repeat case_match; lia.
  - change (1 <= 2 <= 12 /\ 1 <= 29 <= (if is_leap (y + 1) then 29 else 28)). rewrite Hl. lia.
Qed.

(** Every day number is a day of a year of an era. *)
Lemma day_decompose z :
  exists era y doy, 0 <= y < 400 /\ 0 <= doy < year_len y
    /\ z = era * 146097 + (year_start y + doy) - 719468.
Proof.
  set (era := (z + 719468) / 146097). set (doe := (z + 719468) mod 146097).
  destruct (span_of_doe doe) as (y & Hy & Hs); [apply Z.mod_pos_bound; lia|].
  exists era, y, (doe - year_start y). split; [done|]. split; [lia|].
  pose proof (Z.div_mod (z + 719468) 146097 ltac:(lia)). unfold era, doe in *. lia.
Qed.

Lemma year_len_era y era : year_len (y + era * 400) = year_len y.
Proof.
  unfold year_len. replace (y + era * 400 + 1) with (y + 1 + era * 400) by lia. by rewrite is_leap_era.
Qed.

(** The calendar function walks the Gregorian calendar day by day. *)
Lemma civil_from_days_next z : civil_from_days (z + 1) = next_day (civil_from_days z).
Proof.
  destruct (day_decompose z) as (era & y & doy & Hy & Hd & ->).
  rewrite civil_of_span by done.
  destruct (Z_lt_dec (doy + 1) (year_len y)) as [Hl|Hl].
  - rewrite date_of_next; [|unfold year_len in Hd; destruct (is_leap _); lia | by rewrite year_len_era].
    rewrite <- civil_of_span by lia. f_equal. lia.
  - replace doy with (year_len (y + era * 400) - 1) by (rewrite year_len_era by done; lia).
    rewrite date_of_last, year_len_era by done.
    destruct (year_facts y Hy) as (_ & _ & _ & _ & Hnext & Hlast).
    assert (0 < year_len 0 /\ 0 < year_len (y + 1)) as [Hp0 Hp]
      by (unfold year_len; destruct (is_leap (0 + 1)), (is_leap (y + 1 + 1)); lia).
    destruct (Z.eq_dec y 399) as [->|Hne].
    + replace (399 + era * 400 + 1) with (0 + (era + 1) * 400) by lia.
      rewrite <- civil_of_span by lia. f_equal. change (year_start 0) with 0. lia.
    + replace (y + era * 400 + 1) with (y + 1 + era * 400) by lia.
      rewrite <- civil_of_span by lia. f_equal. lia.
Qed.

Lemma civil_from_days_valid z : valid_date (civil_from_days z).
Proof.
  destruct (day_decompose z) as (era & y & doy & Hy & Hd & ->).
  rewrite civil_of_span by done. apply date_of_valid. by rewrite year_len_era.
Qed.

(** One second later on the civil clock. *)
Definition next_second (c : Z * Z * Z * Z * Z * Z) : Z * Z * Z * Z * Z * Z :=
  let '(y, mo, d, h, mi, s) := c in
  if s <? 59 then (y, mo, d, h, mi, s + 1)
  else if mi <? 59 then (y, mo, d, h, mi + 1, 0)
  else if h <? 23 then (y, mo, d, h + 1, 0, 0)
  else let '(y', mo', d') := next_day (y, mo, d) in (y', mo', d', 0, 0, 0).

Lemma time_of_day_next r :
  0 <= r < 86399 ->
  (if r mod 60 <? 59 then (r / 3600, (r mod 3600) / 60, r mod 60 + 1)
   else if (r mod 3600) / 60 <? 59 then (r / 3600, (r mod 3600) / 60 + 1, 0)
   else (r / 3600 + 1, 0, 0))
  = ((r + 1) / 3600, ((r + 1) mod 3600) / 60, (r + 1) mod 60)
  /\ ((r mod 60 <? 59) = false -> ((r mod 3600) / 60 <? 59) = false -> r / 3600 < 23).
Proof.
  intros Hr.
  destruct (Z.ltb_spec (r mod 60) 59); [|destruct (Z.ltb_spec ((r mod 3600) / 60) 59)];
    (split; [apply triple_eq | intros]); try discriminate;
    Z.to_euclidean_division_equations; lia.
Qed.

Lemma unix_to_civil_next secs : unix_to_civil (secs + 1) = next_second (unix_to_civil secs).
Proof.
  unfold unix_to_civil.
  pose proof (Z.mod_pos_bound secs 86400 ltac:(lia)) as Hr.
  destruct (Z_lt_dec (secs mod 86400) 86399) as [Hl|Hl].
  - replace ((secs + 1) / 86400) with (secs / 86400) by (Z.to_euclidean_division_equations; lia).
    replace ((secs + 1) mod 86400) with (secs mod 86400 + 1) by (Z.to_euclidean_division_equations; lia).
    set (r := secs mod 86400) in *. destruct (civil_from_days (secs / 86400)) as [[y mo] d].
    destruct (time_of_day_next r ltac:(lia)) as [E Hh]. unfold next_second.
    revert E Hh.
    destruct (r mod 60 <? 59); [|destruct ((r mod 3600) / 60 <? 59)];
      intros [= <- <- <-] Hh; try done.
    specialize (Hh eq_refl eq_refl). by rewrite (proj2 (Z.ltb_lt _ _) Hh).
  - assert (secs mod 86400 = 86399) as E by lia.
    replace ((secs + 1) / 86400) with (secs / 86400 + 1) by (Z.to_euclidean_division_equations; lia).
    replace ((secs + 1) mod 86400) with 0 by (Z.to_euclidean_division_equations; lia).
    rewrite E, civil_from_days_next. destruct (civil_from_days (secs / 86400)) as [[y mo] d].
    unfold next_second. simpl (_ <? _).
    change (86399 mod 60 <? 59) with false. change ((86399 mod 3600) / 60 <? 59) with false.
    change (86399 / 3600 <? 23) with false. cbv iota.
    destruct (next_day (y, mo, d)) as [[y' mo'] d']. done.
Qed.

(** C38 The civil rendering of a timestamp is the proleptic Gregorian UTC clock:
    second zero is 1970-01-01 00:00:00, each further second (in both
    directions, for every integer) is the next second of the Gregorian calendar
    with its leap years, and every rendered date is a valid one. *)
Theorem unix_to_civil_gregorian :
  unix_to_civil 0 = (1970, 1, 1, 0, 0, 0)
  /\ forall secs,
       unix_to_civil (secs + 1) = next_second (unix_to_civil secs)
       /\ (let '(y, mo, d, h, mi, s) := unix_to_civil secs in
           valid_date (y, mo, d) /\ 0 <= h < 24 /\ 0 <= mi < 60 /\ 0 <= s < 60).
Proof.
  split; [reflexivity|]. intros secs. split; [apply unix_to_civil_next|].
  unfold unix_to_civil.
  pose proof (civil_from_days_valid (secs / 86400)) as Hv.
  destruct (civil_from_days (secs / 86400)) as [[y mo] d].
  split; [done|]. Z.to_euclidean_division_equations; lia.
Qed.
