(* ===== verification/Classification.v ===== *)
(** * Data classification ([crates/audit-core/src/privacy.rs])

    The five confidentiality levels with their derived [Ord] and the
    field-level policy map. *)

From S2P Require Import Prelude Text BTree.

Inductive DataClassification : Type :=
| Public
| Operational
| Confidential
| Restricted
| HighlyRestricted.

Definition DataClassification_as_str (c : DataClassification) : string :=
  match c with
  | Public => "public"
  | Operational => "operational"
  | Confidential => "confidential"
  | Restricted => "restricted"
  | HighlyRestricted => "highly-restricted"
  end.

(** The derived [Ord]: declaration order. *)
Definition class_rank (c : DataClassification) : Z :=
  match c with
  | Public => 0
  | Operational => 1
  | Confidential => 2
  | Restricted => 3
  | HighlyRestricted => 4
  end.

Definition class_le (a b : DataClassification) : bool := (class_rank a <=? class_rank b)%Z.
Definition class_max (a b : DataClassification) : DataClassification := if class_le a b then b else a.

Definition is_at_least (c other : DataClassification) : bool := class_le other c.

Definition is_loggable (c : DataClassification) : bool :=
  match c with
  | Public | Operational | Confidential => true
  | _ => false
  end.

Definition FieldClassifications : Type := BTreeMap string DataClassification.

#[export] Instance DataClassification_eq_dec : EqDecision DataClassification.
Proof. solve_decision. Defined.

Lemma class_le_refl a : class_le a a = true.
Proof. by destruct a. Qed.
Lemma class_le_trans a b c : class_le a b = true -> class_le b c = true -> class_le a c = true.
Proof. by destruct a, b, c. Qed.
Lemma class_le_antisym a b : class_le a b = true -> class_le b a = true -> a = b.
Proof. by destruct a, b. Qed.
Lemma class_le_total a b : class_le a b = true \/ class_le b a = true.
Proof. destruct a, b; auto. Qed.
Lemma class_le_max a b c : class_le c (class_max a b) = class_le c a || class_le c b.
Proof. by destruct a, b, c. Qed.

#[export] Hint Resolve class_le_refl : audit.
