(* ===== verification/Correlation.v ===== *)
(** * Correlation references ([crates/audit-core/src/correlation.rs])

    Typed references tying audit records to ledgers, transactions, accounts,
    tokens, policies and enforcement results, with their validating
    constructors. *)

From S2P Require Import Prelude Text Errors Identifiers Timestamps.

Inductive DecisionResult : Type := Allowed | Denied | Flagged.

Definition DecisionResult_as_str (d : DecisionResult) : string :=
  match d with
  | Allowed => "allowed"
  | Denied => "denied"
  | Flagged => "flagged"
  end.

#[export] Instance DecisionResult_eq_dec : EqDecision DecisionResult.
Proof. solve_decision. Defined.

(** The derived [Ord], used as a report-summary key. *)
Definition decision_rank (d : DecisionResult) : Z :=
  match d with Allowed => 0 | Denied => 1 | Flagged => 2 end.
#[export] Instance DecisionResult_compare : Compare DecisionResult :=
  fun a b => compare (decision_rank a) (decision_rank b).
#[export] Instance DecisionResult_compare_laws : CompareLaws DecisionResult.
Proof.
  split; unfold compare, DecisionResult_compare.
  - intros [] []; simpl; split; done.
  - by intros [] [].
  - by intros [] [] [].
Qed.

Record VersionLabel := mkVersionLabel { version_str : string }.

Definition VersionLabel_new (value : string) : AuditResult VersionLabel :=
  let valid :=
    len_in 1 32 value
    && negb (starts_with "-" value)
    && str_all (fun c => is_ascii_alphanumeric c || char_in "._-" c) value in
  if valid then Ok (mkVersionLabel value)
  else Err (InvalidIdentifier "version label"
              "must be 1-32 chars of [0-9A-Za-z._-], not starting with '-'").

Record LedgerReference := mkLedgerReference {
  ledger_network : NetworkId;
  ledger_sequence_of : Z;
  ledger_close_time : option Timestamp
}.

Definition LedgerReference_new (network : NetworkId) (sequence : Z) (close_time : option Timestamp)
  : AuditResult LedgerReference :=
  if (sequence <? 1)%Z
  then Err (InvalidIdentifier "ledger sequence"
              ("sequence " +:+ z_to_string sequence +:+ " must be >= 1"))
  else Ok (mkLedgerReference network sequence close_time).

Record TransactionReference := mkTransactionReference {
  tx_network : NetworkId;
  tx_hash : TransactionHash
}.

Record OperationReference := mkOperationReference {
  op_transaction : TransactionReference;
  op_index : Z;
  op_type : option string
}.

Definition OperationReference_new (transaction : TransactionReference) (index : Z)
    (op_type : option string) : AuditResult OperationReference :=
  match op_type with
  | Some t =>
      let valid := len_in 1 64 t && str_all is_ascii_graphic t in
      if negb valid
      then Err (InvalidIdentifier "operation type" "must be 1-64 printable ASCII chars")
      else Ok (mkOperationReference transaction index op_type)
  | None => Ok (mkOperationReference transaction index op_type)
  end.

Record AccountReference := mkAccountReference {
  acct_network : NetworkId;
  acct_account : AccountId
}.

Record ContractReference := mkContractReference {
  cref_network : NetworkId;
  cref_contract : ContractId
}.

Definition AccountReference_display (a : AccountReference) : string :=
  network_str (acct_network a) +:+ ":" +:+ account_str (acct_account a).
Definition ContractReference_display (c : ContractReference) : string :=
  network_str (cref_network c) +:+ ":" +:+ contract_str (cref_contract c).

Record TokenReference := mkTokenReference {
  token_network : NetworkId;
  token_contract : option ContractId;
  token_asset_code : option string;
  token_issuer : option AccountId
}.

Definition TokenReference_for_contract (network : NetworkId) (contract : ContractId) : TokenReference :=
  mkTokenReference network (Some contract) None None.

Definition TokenReference_for_classic_asset (network : NetworkId) (asset_code : string)
    (issuer : AccountId) : AuditResult TokenReference :=
  let valid := len_in 1 12 asset_code && str_all is_ascii_alphanumeric asset_code in
  if negb valid
  then Err (InvalidIdentifier "asset code" "must be 1-12 alphanumeric chars")
  else Ok (mkTokenReference network None (Some asset_code) (Some issuer)).

Definition TokenReference_display (t : TokenReference) : string :=
  match token_contract t, token_asset_code t with
  | Some c, _ => network_str (token_network t) +:+ ":contract:" +:+ contract_str c
  | None, Some code =>
      let issuer := match token_issuer t with Some i => account_str i | None => "unknown" end in
      network_str (token_network t) +:+ ":asset:" +:+ code +:+ ":" +:+ issuer
  | None, None => network_str (token_network t) +:+ ":asset:unknown"
  end.

Record PolicyReference := mkPolicyReference {
  policy_contract : ContractId;
  policy_version : VersionLabel;
  policy_digest : option string
}.

Definition PolicyReference_new (policy : ContractId) (version : VersionLabel) : PolicyReference :=
  mkPolicyReference policy version None.

Definition is_sha256_hex (s : string) : bool :=
  (String.length s =? 64)%nat && str_all is_lower_hex s.

Definition PolicyReference_with_digest (p : PolicyReference) (digest : option string)
  : AuditResult PolicyReference :=
  match digest with
  | Some d =>
      if negb (is_sha256_hex d)
      then Err (InvalidIdentifier "policy digest" "must be 64 lowercase hex chars")
      else Ok (mkPolicyReference (policy_contract p) (policy_version p) (Some d))
  | None => Ok p
  end.

Record PolicyDecisionReference := mkPolicyDecisionReference {
  pdr_policy : PolicyReference;
  pdr_result : DecisionResult;
  pdr_reason : option ReasonCode;
  pdr_decided_at : option Timestamp
}.

Definition PolicyDecisionReference_new (policy : PolicyReference) (result_ : DecisionResult)
  : PolicyDecisionReference := mkPolicyDecisionReference policy result_ None None.
Definition decision_with_reason (reason : ReasonCode) (d : PolicyDecisionReference) : PolicyDecisionReference :=
  mkPolicyDecisionReference (pdr_policy d) (pdr_result d) (Some reason) (pdr_decided_at d).
Definition with_decided_at (at_ : Timestamp) (d : PolicyDecisionReference) : PolicyDecisionReference :=
  mkPolicyDecisionReference (pdr_policy d) (pdr_result d) (pdr_reason d) (Some at_).

Record EnforcementResultReference := mkEnforcementResultReference {
  enf_hook : string;
  enf_hook_version : VersionLabel;
  enf_result : DecisionResult;
  enf_reason : option ReasonCode
}.

Definition EnforcementResultReference_new (hook : string) (hook_version : VersionLabel)
    (result_ : DecisionResult) : AuditResult EnforcementResultReference :=
  let valid := len_in 1 128 hook && str_all is_ascii_graphic hook in
  if negb valid
  then Err (InvalidIdentifier "hook identifier" "must be 1-128 printable ASCII chars")
  else Ok (mkEnforcementResultReference hook hook_version result_ None).

Definition enforcement_with_reason (reason : ReasonCode) (e : EnforcementResultReference)
  : EnforcementResultReference :=
  mkEnforcementResultReference (enf_hook e) (enf_hook_version e) (enf_result e) (Some reason).

#[export] Instance VersionLabel_eq_dec : EqDecision VersionLabel.
Proof. solve_decision. Defined.
#[export] Instance LedgerReference_eq_dec : EqDecision LedgerReference.
Proof. solve_decision. Defined.
#[export] Instance TransactionReference_eq_dec : EqDecision TransactionReference.
Proof. solve_decision. Defined.
#[export] Instance OperationReference_eq_dec : EqDecision OperationReference.
Proof. solve_decision. Defined.
#[export] Instance AccountReference_eq_dec : EqDecision AccountReference.
Proof. solve_decision. Defined.
#[export] Instance ContractReference_eq_dec : EqDecision ContractReference.
Proof. solve_decision. Defined.
#[export] Instance TokenReference_eq_dec : EqDecision TokenReference.
Proof. solve_decision. Defined.
#[export] Instance PolicyReference_eq_dec : EqDecision PolicyReference.
Proof. solve_decision. Defined.
#[export] Instance PolicyDecisionReference_eq_dec : EqDecision PolicyDecisionReference.
Proof. solve_decision. Defined.
#[export] Instance EnforcementResultReference_eq_dec : EqDecision EnforcementResultReference.
Proof. solve_decision. Defined.
