(* ===== verification/Events.v ===== *)
(** * The normalized audit event ([crates/audit-core/src/event.rs])

    The event kinds, provenance, ordering metadata and the [AuditEvent]
    envelope with its structural validation. *)

From S2P Require Import Prelude Text BTree Errors Identifiers Timestamps Correlation.

Definition EVENT_SCHEMA_VERSION : Z := 1.

Inductive EventKind : Type :=
| TransferAuthorized
| TransferDenied
| TransferFlagged
| AccountFrozen
| AccountUnfrozen
| TokenBound
| TokenUnbound
| ConfigurationChanged
| EnforcementInitialized
| ComplianceDecision
| PolicyVersionChanged
| AuthorizationChanged
| AuditAccess
| InvestigationOpened
| InvestigationUpdated
| InvestigationClosed
| EvidenceGenerated
| ReportGenerated
| RecordCorrected.

Definition EventKind_as_str (k : EventKind) : string :=
  match k with
  | TransferAuthorized => "transfer-authorized"
  | TransferDenied => "transfer-denied"
  | TransferFlagged => "transfer-flagged"
  | AccountFrozen => "account-frozen"
  | AccountUnfrozen => "account-unfrozen"
  | TokenBound => "token-bound"
  | TokenUnbound => "token-unbound"
  | ConfigurationChanged => "configuration-changed"
  | EnforcementInitialized => "enforcement-initialized"
  | ComplianceDecision => "compliance-decision"
  | PolicyVersionChanged => "policy-version-changed"
  | AuthorizationChanged => "authorization-changed"
  | AuditAccess => "audit-access"
  | InvestigationOpened => "investigation-opened"
  | InvestigationUpdated => "investigation-updated"
  | InvestigationClosed => "investigation-closed"
  | EvidenceGenerated => "evidence-generated"
  | ReportGenerated => "report-generated"
  | RecordCorrected => "record-corrected"
  end.

Definition EventKind_from_wire (s : string) : option EventKind :=
  match s with
  | "transfer-authorized" => Some TransferAuthorized
  | "transfer-denied" => Some TransferDenied
  | "transfer-flagged" => Some TransferFlagged
  | "account-frozen" => Some AccountFrozen
  | "account-unfrozen" => Some AccountUnfrozen
  | "token-bound" => Some TokenBound
  | "token-unbound" => Some TokenUnbound
  | "configuration-changed" => Some ConfigurationChanged
  | "enforcement-initialized" => Some EnforcementInitialized
  | "compliance-decision" => Some ComplianceDecision
  | "policy-version-changed" => Some PolicyVersionChanged
  | "authorization-changed" => Some AuthorizationChanged
  | "audit-access" => Some AuditAccess
  | "investigation-opened" => Some InvestigationOpened
  | "investigation-updated" => Some InvestigationUpdated
  | "investigation-closed" => Some InvestigationClosed
  | "evidence-generated" => Some EvidenceGenerated
  | "report-generated" => Some ReportGenerated
  | "record-corrected" => Some RecordCorrected
  | _ => None
  end%string.

Definition EventKind_ALL : list EventKind :=
  [ TransferAuthorized; TransferDenied; TransferFlagged; AccountFrozen; AccountUnfrozen;
    TokenBound; TokenUnbound; ConfigurationChanged; EnforcementInitialized; ComplianceDecision;
    PolicyVersionChanged; AuthorizationChanged; AuditAccess; InvestigationOpened;
    InvestigationUpdated; InvestigationClosed; EvidenceGenerated; ReportGenerated;
    RecordCorrected ].

#[export] Instance EventKind_eq_dec : EqDecision EventKind.
Proof. solve_decision. Defined.

(** The derived [Ord], used as a report-summary key: declaration order. *)
Definition kind_rank (k : EventKind) : Z :=
  match k with
  | TransferAuthorized => 0 | TransferDenied => 1 | TransferFlagged => 2 | AccountFrozen => 3
  | AccountUnfrozen => 4 | TokenBound => 5 | TokenUnbound => 6 | ConfigurationChanged => 7
  | EnforcementInitialized => 8 | ComplianceDecision => 9 | PolicyVersionChanged => 10
  | AuthorizationChanged => 11 | AuditAccess => 12 | InvestigationOpened => 13
  | InvestigationUpdated => 14 | InvestigationClosed => 15 | EvidenceGenerated => 16
  | ReportGenerated => 17 | RecordCorrected => 18
  end.
#[export] Instance EventKind_compare : Compare EventKind :=
  fun a b => compare (kind_rank a) (kind_rank b).
#[export] Instance EventKind_compare_laws : CompareLaws EventKind.
Proof.
  split; unfold compare, EventKind_compare.
  - intros a b. rewrite compare_eq_iff. split; [by destruct a, b | by intros ->].
  - intros a b. apply compare_antisym.
  - intros a b c. apply compare_lt_trans.
Qed.

Inductive OriginKind : Type := OnChain | Derived | Imported | Simulated.

#[export] Instance OriginKind_eq_dec : EqDecision OriginKind.
Proof. solve_decision. Defined.

Record DerivationInfo := mkDerivationInfo {
  drv_method : string;
  drv_source_events : list EventId;
  drv_note : string
}.

Definition DerivationInfo_new (method : string) (source_events : list EventId) (note : string)
  : AuditResult DerivationInfo :=
  if str_is_empty method || (64 <? str_len method)%Z || negb (str_all is_ascii_graphic method)
  then Err (InvalidIdentifier "derivation method" "must be 1-64 printable ASCII chars")
  else if (512 <? str_len note)%Z
  then Err (InvalidIdentifier "derivation note" "must be at most 512 chars")
  else Ok (mkDerivationInfo method source_events note).

Record EventProvenance := mkEventProvenance {
  prov_origin : OriginKind;
  prov_source : string;
  prov_parser_version : VersionLabel;
  prov_derivation : option DerivationInfo
}.

Definition EventProvenance_new (origin : OriginKind) (source : string) (parser_version : VersionLabel)
  : AuditResult EventProvenance :=
  let valid :=
    len_in 1 64 source && str_all (fun c => is_ascii_graphic c && negb (Ascii.eqb c " "%char)) source in
  if negb valid
  then Err (InvalidIdentifier "provenance source"
              "must be 1-64 printable ASCII chars without spaces")
  else Ok (mkEventProvenance origin source parser_version None).

Definition with_derivation (p : EventProvenance) (info : DerivationInfo) : EventProvenance :=
  mkEventProvenance (prov_origin p) (prov_source p) (prov_parser_version p) (Some info).

(** Placement metadata: [ledger_sequence] is an [i64], the others are [u32]. *)
Record EventOrder := mkEventOrder {
  ledger_sequence : option Z;
  transaction_position : option Z;
  operation_index : option Z;
  event_index : option Z
}.

Definition EventOrder_default : EventOrder := mkEventOrder None None None None.

Record AuditEvent := mkAuditEvent {
  event_id : EventId;
  kind : EventKind;
  schema_version : Z;
  network : NetworkId;
  provenance : EventProvenance;
  observed_at : option Timestamp;
  order : EventOrder;
  ledger : option LedgerReference;
  transaction : option TransactionReference;
  operation : option OperationReference;
  token : option TokenReference;
  actor : option AccountReference;
  subject : option AccountReference;
  decision : option PolicyDecisionReference;
  enforcement : option EnforcementResultReference;
  outcome : option DecisionResult;
  reason : option ReasonCode;
  details : BTreeMap string string
}.

Definition AuditEvent_new (event_id : EventId) (kind : EventKind) (network : NetworkId)
    (provenance : EventProvenance) : AuditEvent :=
  mkAuditEvent event_id kind EVENT_SCHEMA_VERSION network provenance None EventOrder_default
    None None None None None None None None None None [].

(** The labelled networks of the references an event carries, in the order the
    validation loop visits them. *)
Definition reference_networks (e : AuditEvent) : list (string * option NetworkId) :=
  [ ("ledger", option_map ledger_network (ledger e));
    ("transaction", option_map tx_network (transaction e));
    ("token", option_map token_network (token e));
    ("actor", option_map acct_network (actor e));
    ("subject", option_map acct_network (subject e)) ].

Fixpoint check_networks (here : NetworkId) (l : list (string * option NetworkId)) : AuditResult unit :=
  match l with
  | [] => Ok tt
  | (label, Some net) :: l =>
      if decide (net = here) then check_networks here l
      else Err (InvalidEvent (label +:+ " reference is on network `" +:+ network_str net
                                +:+ "` but the event is on `" +:+ network_str here +:+ "`"))
  | (_, None) :: l => check_networks here l
  end.

Definition AuditEvent_validate (e : AuditEvent) : AuditResult unit :=
  if negb (schema_version e =? EVENT_SCHEMA_VERSION)%Z
  then Err (UnsupportedSchema ("event schema version " +:+ z_to_string (schema_version e)
              +:+ " is not supported (expected " +:+ z_to_string EVENT_SCHEMA_VERSION +:+ ")"))
  else if bool_decide (prov_origin (provenance e) = Derived)
          && match prov_derivation (provenance e) with None => true | Some _ => false end
  then Err (InvalidEvent "derived events must carry derivation info")
  else
    let? _ := check_networks (network e) (reference_networks e) in
    match operation e with
    | Some op =>
        let? tx := ok_or (transaction e)
                     (InvalidEvent "operation reference requires a transaction reference") in
        if decide (op_transaction op = tx) then Ok tt
        else Err (InvalidEvent "operation reference must match its transaction reference")
    | None => Ok tt
    end.

#[export] Instance DerivationInfo_eq_dec : EqDecision DerivationInfo.
Proof. solve_decision. Defined.
#[export] Instance EventProvenance_eq_dec : EqDecision EventProvenance.
Proof. solve_decision. Defined.
#[export] Instance EventOrder_eq_dec : EqDecision EventOrder.
Proof. solve_decision. Defined.
#[export] Instance details_eq_dec : EqDecision (BTreeMap string string).
Proof. unfold BTreeMap. apply _. Defined.
#[export] Instance AuditEvent_eq_dec : EqDecision AuditEvent.
Proof. solve_decision. Defined.

(** ** What validation guarantees *)

Lemma check_networks_Ok_iff here l :
  check_networks here l = Ok tt <-> forall label net, In (label, Some net) l -> net = here.
Proof.
  induction l as [|[label [net|]] l IH]; simpl; [split; [by intros _ ? ? []|done]| |].
  - case_decide as Hd; [subst net|].
    + rewrite IH. split; [intros Hl lb n [[= _ <-]|Hin]; eauto | eauto].
    + split; [done|]. intros Hl. specialize (Hl label net (or_introl eq_refl)). done.
  - rewrite IH. split; [intros Hl lb n [?|Hin]; [done|eauto] | eauto].
Qed.

(** The declarative meaning of a valid event. *)
Record event_valid (e : AuditEvent) : Prop := {
  ev_schema : schema_version e = EVENT_SCHEMA_VERSION;
  ev_derived : prov_origin (provenance e) = Derived -> is_Some (prov_derivation (provenance e));
  ev_ledger : forall l, ledger e = Some l -> ledger_network l = network e;
  ev_transaction : forall t, transaction e = Some t -> tx_network t = network e;
  ev_token : forall t, token e = Some t -> token_network t = network e;
  ev_actor : forall a, actor e = Some a -> acct_network a = network e;
  ev_subject : forall a, subject e = Some a -> acct_network a = network e;
  ev_operation : forall op, operation e = Some op -> transaction e = Some (op_transaction op)
}.

Lemma reference_networks_iff e :
  check_networks (network e) (reference_networks e) = Ok tt <->
  (forall l, ledger e = Some l -> ledger_network l = network e)
  /\ (forall t, transaction e = Some t -> tx_network t = network e)
  /\ (forall t, token e = Some t -> token_network t = network e)
  /\ (forall a, actor e = Some a -> acct_network a = network e)
  /\ (forall a, subject e = Some a -> acct_network a = network e).
Proof.
  rewrite check_networks_Ok_iff. unfold reference_networks. simpl. split.
  - intros Hl. repeat split; intros x Hx; rewrite Hx in Hl; simpl in Hl; eapply Hl; eauto 10.
  - intros (H1 & H2 & H3 & H4 & H5) label net Hin.
    repeat destruct Hin as [[= _ E]|Hin];
      try (match type of E with option_map _ ?o = _ => destruct o eqn:Eo end;
           simpl in E; [injection E as <-; eauto | done]).
    done.
Qed.

Lemma AuditEvent_validate_Ok_iff e : AuditEvent_validate e = Ok tt <-> event_valid e.
Proof.
  unfold AuditEvent_validate. split.
  - intros H. ok_inv. rewrite negb_false_iff, Z.eqb_eq in Hb.
    destruct v. apply reference_networks_iff in Hok as (H1 & H2 & H3 & H4 & H5).
    constructor; try done.
    + intros Ho. rewrite (bool_decide_eq_true_2 _ Ho) in Hb0. simpl in Hb0.
      destruct (prov_derivation (provenance e)); [eauto | done].
    + intros op Hop. rewrite Hop in H. ok_inv. case_decide; [by subst | done].
  - intros [Hs Hd H1 H2 H3 H4 H5 Hop].
    rewrite Hs, Z.eqb_refl. cbn [negb].
    assert (bool_decide (prov_origin (provenance e) = Derived)
            && match prov_derivation (provenance e) with None => true | Some _ => false end = false) as ->.
    { case_bool_decide as Ho; [|done]. by destruct (Hd Ho) as [? ->]. }
    rewrite (proj2 (reference_networks_iff e)) by done. cbn [rbind].
    destruct (operation e) as [op|]; [|done].
    rewrite (Hop op eq_refl). simpl. by rewrite decide_True.
Qed.
