(* ===== verification/IntegrityModel.v ===== *)
(** * The integrity data model ([crates/audit-core/src/integrity.rs])

    Digests, verification statuses and outcomes, and the integrity manifest with
    its structural validation. *)

From S2P Require Import Prelude Text Errors Identifiers Timestamps Correlation.

Record IntegrityDigest := mkIntegrityDigest { dig_algorithm : string; dig_value : string }.

Definition SHA256 : string := "sha-256".

Definition IntegrityDigest_sha256 (value : string) : AuditResult IntegrityDigest :=
  let valid := (String.length value =? 64)%nat && str_all is_lower_hex value in
  if negb valid
  then Err (InvalidIdentifier "integrity digest" "must be 64 lowercase hex chars")
  else Ok (mkIntegrityDigest SHA256 value).

Inductive IntegrityScheme : Type := StandaloneScheme | ChainedScheme.

Definition IntegrityScheme_as_str (s : IntegrityScheme) : string :=
  match s with StandaloneScheme => "standalone" | ChainedScheme => "chained" end.

Inductive IntegrityStatus : Type :=
| Verified
| DigestMismatch
| MissingDigest
| BrokenChain
| UnsupportedAlgorithm
| RecordMissing.

Definition IntegrityStatus_as_str (s : IntegrityStatus) : string :=
  match s with
  | Verified => "verified"
  | DigestMismatch => "digest-mismatch"
  | MissingDigest => "missing-digest"
  | BrokenChain => "broken-chain"
  | UnsupportedAlgorithm => "unsupported-algorithm"
  | RecordMissing => "record-missing"
  end.

Definition is_verified (s : IntegrityStatus) : bool :=
  match s with Verified => true | _ => false end.

Record VerificationOutcome := mkVerificationOutcome {
  vo_record_id : RecordId;
  vo_status : IntegrityStatus;
  vo_expected : option string;
  vo_computed : option string;
  vo_detail : option string
}.

Record VerificationFailure := mkVerificationFailure {
  vf_status : IntegrityStatus;
  vf_record_id : option RecordId;
  vf_detail : string
}.

Record ManifestEntry := mkManifestEntry { me_record_id : RecordId; me_digest : IntegrityDigest }.

Definition INTEGRITY_MANIFEST_SCHEMA_VERSION : Z := 1.

Record IntegrityManifest := mkIntegrityManifest {
  im_manifest_id : ManifestId;
  im_schema_version : Z;
  im_generated_at : Timestamp;
  im_software_version : string;
  im_from_ledger : option Z;
  im_to_ledger : option Z;
  im_record_count : Z;
  im_entries : list ManifestEntry;
  im_aggregate_digest : option IntegrityDigest
}.

Definition IntegrityManifest_new (manifest_id : ManifestId) (generated_at : Timestamp)
    (software_version : string) (from_ledger to_ledger : option Z) (entries : list ManifestEntry)
    (aggregate_digest : option IntegrityDigest) : IntegrityManifest :=
  let record_count := zlen entries in
  mkIntegrityManifest manifest_id INTEGRITY_MANIFEST_SCHEMA_VERSION generated_at software_version
    from_ledger to_ledger record_count entries aggregate_digest.

(** [if let (Some(from), Some(to))]: both bounds present and inverted. *)
Definition inverted_range (from_ledger to_ledger : option Z) : bool :=
  match from_ledger, to_ledger with
  | Some from, Some to => (to <? from)%Z
  | _, _ => false
  end.

Definition IntegrityManifest_validate (m : IntegrityManifest) : AuditResult unit :=
  if negb (im_schema_version m =? INTEGRITY_MANIFEST_SCHEMA_VERSION)%Z
  then Err (UnsupportedSchema ("integrity manifest schema version "
              +:+ z_to_string (im_schema_version m) +:+ " is not supported (expected "
              +:+ z_to_string INTEGRITY_MANIFEST_SCHEMA_VERSION +:+ ")"))
  else if inverted_range (im_from_ledger m) (im_to_ledger m)
  then Err (ValidationFailure "manifest ledger range start exceeds its end")
  else if negb (im_record_count m =? zlen (im_entries m))%Z
  then Err (ValidationFailure ("manifest declares " +:+ z_to_string (im_record_count m)
              +:+ " records but carries " +:+ z_to_string (zlen (im_entries m))))
  else Ok tt.

#[export] Instance IntegrityDigest_eq_dec : EqDecision IntegrityDigest.
Proof. solve_decision. Defined.
#[export] Instance IntegrityStatus_eq_dec : EqDecision IntegrityStatus.
Proof. solve_decision. Defined.
#[export] Instance VerificationOutcome_eq_dec : EqDecision VerificationOutcome.
Proof. solve_decision. Defined.
#[export] Instance ManifestEntry_eq_dec : EqDecision ManifestEntry.
Proof. solve_decision. Defined.

Lemma IntegrityManifest_new_validate id at_ sv from to entries agg :
  inverted_range from to = false ->
  IntegrityManifest_validate (IntegrityManifest_new id at_ sv from to entries agg) = Ok tt.
Proof.
  intros Hr. unfold IntegrityManifest_validate, IntegrityManifest_new. simpl.
  by rewrite Hr, Z.eqb_refl.
Qed.
