(* ===== verification/Records.v ===== *)
(** * Audit records ([crates/audit-core/src/record.rs], [audit.rs])

    A record wraps a validated event with its content-derived id, its
    classification and its integrity slot.  The JSON encoding of events
    ([serde_json]) is a parameter. *)

From S2P Require Import Prelude Text BTree Errors Identifiers Timestamps Classification.
From S2P Require Import Correlation Events IntegrityModel.

Definition RECORD_SCHEMA_VERSION : Z := 1.
Definition DEFAULT_RECORD_CLASSIFICATION : DataClassification := Confidential.

Record RecordIntegrity := mkRecordIntegrity {
  ri_digest : IntegrityDigest;
  ri_prev_digest : option IntegrityDigest;
  ri_chained : bool
}.

Record AuditRecord := mkAuditRecord {
  record_id : RecordId;
  event : AuditEvent;
  recorded_at : Timestamp;
  rec_schema_version : Z;
  classification : DataClassification;
  redactions : FieldClassifications;
  supersedes : option RecordId;
  correction_reason : option string;
  integrity : option RecordIntegrity
}.

Definition set_classification (c : DataClassification) (r : AuditRecord) : AuditRecord :=
  mkAuditRecord (record_id r) (event r) (recorded_at r) (rec_schema_version r) c (redactions r)
    (supersedes r) (correction_reason r) (integrity r).
Definition set_redactions (p : FieldClassifications) (r : AuditRecord) : AuditRecord :=
  mkAuditRecord (record_id r) (event r) (recorded_at r) (rec_schema_version r) (classification r) p
    (supersedes r) (correction_reason r) (integrity r).
Definition set_integrity (i : option RecordIntegrity) (r : AuditRecord) : AuditRecord :=
  mkAuditRecord (record_id r) (event r) (recorded_at r) (rec_schema_version r) (classification r)
    (redactions r) (supersedes r) (correction_reason r) i.
Definition set_correction (s : RecordId) (why : string) (r : AuditRecord) : AuditRecord :=
  mkAuditRecord (record_id r) (event r) (recorded_at r) (rec_schema_version r) (classification r)
    (redactions r) (Some s) (Some why) (integrity r).

(** [canonical_json] ([serialization.rs]): the serde encoding, its failure
    mapped by [From<serde_json::Error>]. *)
Definition canonical_json {A} `{Serialize A} (value : A) : AuditResult string :=
  map_err SerializationFailure (to_vec value).

Definition event_canonical_bytes `{Serialize AuditEvent} (e : AuditEvent) : AuditResult string :=
  canonical_json e.

Definition record_canonical_bytes `{Serialize AuditRecord} (r : AuditRecord) : AuditResult string :=
  canonical_json r.

Section FromEvent.
Context `{Sha256, Serialize AuditEvent}.

(** [now] is the clock reading. *)
Definition from_event (e : AuditEvent) (now : Timestamp) : AuditResult AuditRecord :=
  let? _ := AuditEvent_validate e in
  let? bytes := event_canonical_bytes e in
  let record_id := derive_bytes bytes in
  Ok (mkAuditRecord record_id e now RECORD_SCHEMA_VERSION DEFAULT_RECORD_CLASSIFICATION
        [] None None None).

Definition from_event_classified (e : AuditEvent) (c : DataClassification) (now : Timestamp)
  : AuditResult AuditRecord :=
  let? record := from_event e now in
  Ok (set_classification c record).

Definition correction (original : AuditRecord) (why : string) (e : AuditEvent) (now : Timestamp)
  : AuditResult AuditRecord :=
  if negb (bool_decide (kind e = RecordCorrected))
  then Err (InvalidEvent "correction records require kind `record-corrected`")
  else if trim_is_empty why
  then Err (ValidationFailure "correction reason must not be empty")
  else if (512 <? str_len why)%Z
  then Err (ValidationFailure "correction reason must be at most 512 chars")
  else
    let? record := from_event e now in
    Ok (set_correction (record_id original) why record).
End FromEvent.

Definition AuditRecord_validate (r : AuditRecord) : AuditResult unit :=
  let? _ := AuditEvent_validate (event r) in
  if negb (rec_schema_version r =? RECORD_SCHEMA_VERSION)%Z
  then Err (UnsupportedSchema ("record schema version " +:+ z_to_string (rec_schema_version r)
              +:+ " is not supported (expected " +:+ z_to_string RECORD_SCHEMA_VERSION +:+ ")"))
  else
    match kind (event r) with
    | RecordCorrected =>
        match supersedes r, correction_reason r with
        | None, _ => Err (InvalidEvent "record-corrected events must carry a supersedes link")
        | Some _, None => Err (InvalidEvent "record-corrected events must carry a correction reason")
        | Some _, Some _ => Ok tt
        end
    | _ =>
        match supersedes r, correction_reason r with
        | None, None => Ok tt
        | _, _ => Err (InvalidEvent "correction links are only valid on record-corrected events")
        end
    end.

Definition rec_event_id (r : AuditRecord) : EventId := event_id (event r).
Definition rec_kind (r : AuditRecord) : EventKind := kind (event r).

#[export] Instance RecordIntegrity_eq_dec : EqDecision RecordIntegrity.
Proof. solve_decision. Defined.
#[export] Instance field_classes_eq_dec : EqDecision FieldClassifications.
Proof. unfold FieldClassifications, BTreeMap. apply _. Defined.
#[export] Instance AuditRecord_eq_dec : EqDecision AuditRecord.
Proof. solve_decision. Defined.

(** ** Facts shared by the services that record events *)

Section FromEventFacts.
Context `{Sha256, Serialize AuditEvent}.

Lemma from_event_Ok_inv e now r :
  from_event e now = Ok r ->
  AuditEvent_validate e = Ok tt
  /\ exists bytes, event_canonical_bytes e = Ok bytes
     /\ r = mkAuditRecord (derive_bytes bytes) e now RECORD_SCHEMA_VERSION
              DEFAULT_RECORD_CLASSIFICATION [] None None None.
Proof. unfold from_event. intros Hf. ok_inv. destruct v. eauto. Qed.

(** A freshly built record passes validation unless it needs correction links. *)
Lemma from_event_validate e now r :
  from_event e now = Ok r -> kind e <> RecordCorrected -> AuditRecord_validate r = Ok tt.
Proof.
  intros (Hv & bytes & _ & ->)%from_event_Ok_inv Hk. unfold AuditRecord_validate. simpl.
  rewrite Hv. simpl. destruct (kind e); done.
Qed.

Lemma from_event_classified_Ok_inv e c now r :
  from_event_classified e c now = Ok r ->
  exists r0, from_event e now = Ok r0 /\ r = set_classification c r0.
Proof. unfold from_event_classified. intros Hf. ok_inv. eauto. Qed.
End FromEventFacts.

(** Validation does not read the classification, policy or integrity slots. *)
Lemma validate_set_classification c r :
  AuditRecord_validate (set_classification c r) = AuditRecord_validate r.
Proof. reflexivity. Qed.
Lemma validate_set_redactions p r : AuditRecord_validate (set_redactions p r) = AuditRecord_validate r.
Proof. reflexivity. Qed.
Lemma validate_set_integrity i r : AuditRecord_validate (set_integrity i r) = AuditRecord_validate r.
Proof. reflexivity. Qed.

#[export] Hint Rewrite validate_set_classification validate_set_redactions validate_set_integrity : audit.
