(* ===== verification/Samples.v ===== *)
(** * Concrete instances for the witnesses

    A toy hash with 32-byte digests and toy JSON encoders instantiate the
    parameters of the model, and a few records serve as concrete inputs.  The
    instances are local to the proofs that name them: nothing here is an
    [Instance] other files pick up by accident. *)

From S2P Require Import Prelude Text BTree Errors Identifiers Timestamps Classification.
From S2P Require Import Correlation Events IntegrityModel Records.

Definition zeros32 : string := String.concat "" (repeat (String (ascii_of_N 0) "") 32).

(** The first 32 bytes, padded with zero bytes. *)
Definition toy_sha : Sha256 := fun x => str_take 32 (x +:+ zeros32).

(** A checksum as a 32-byte digest: enough to tell a few inputs apart. *)
Fixpoint checksum (acc : Z) (s : string) : Z :=
  match s with
  | EmptyString => acc
  | String c s => checksum ((acc * 257 + Z.of_N (N_of_ascii c)) mod 999999999989)%Z s
  end.

Definition sum_sha : Sha256 := fun x => str_take 32 (z_to_string (checksum 7 x) +:+ zeros32).

(** Both toys print a text and keep its first 32 characters. *)
Lemma padded_length s : String.length (str_take 32 (s +:+ zeros32)) = 32%nat.
Proof.
  apply str_take_length. rewrite length_append. change (String.length zeros32) with 32%nat. lia.
Qed.

Lemma toy_sha_laws : @Sha256Laws toy_sha.
Proof. intros x. apply padded_length. Qed.
Lemma sum_sha_laws : @Sha256Laws sum_sha.
Proof. intros x. apply padded_length. Qed.

Definition toy_strings : JsonStrings := fun l => "[" +:+ String.concat "," l +:+ "]".
Definition toy_event_json : Serialize AuditEvent := fun e => Ok ("{" +:+ as_str (event_id e) +:+ "}").
Definition toy_record_json : Serialize AuditRecord := fun r =>
  Ok ("{" +:+ as_str (record_id r)
      +:+ match integrity r with Some i => dig_value (ri_digest i) | None => "" end +:+ "}").
Definition toy_entries_json : Serialize (list ManifestEntry) := fun l =>
  Ok ("[" +:+ String.concat "," (map (fun e => dig_value (me_digest e)) l) +:+ "]").

Definition testnet : NetworkId := mkNetworkId "testnet".
Definition v1 : VersionLabel := mkVersionLabel "1.0".
Definition sample_provenance : EventProvenance := mkEventProvenance OnChain "rpc" v1 None.
Definition sample_event (id : string) : AuditEvent :=
  AuditEvent_new (mkId (mkStableId "evt" id)) TransferAuthorized testnet sample_provenance.
Definition sample_record (n : string) (at_ : Z) : AuditRecord :=
  mkAuditRecord (mkId (mkStableId "rec" ("rec_" +:+ n))) (sample_event ("evt_" +:+ n))
    (mkTimestamp at_) RECORD_SCHEMA_VERSION Confidential [] None None None.
