(* ===== verification/Pagination.v ===== *)
(** * Cursor pagination ([crates/audit-core/src/pagination.rs],
    [crates/storage/src/pagination.rs])

    Opaque cursors, bounded page requests, pages, and the position key that
    orders audit history and encodes losslessly into a cursor. *)

From S2P Require Import Prelude Text BTree Errors Identifiers Timestamps Correlation Events.
From S2P Require Import IntegrityModel Records.

(** ** Cursors and pages (audit-core) *)

Definition MAX_PAGE_SIZE : Z := 1000.

Record Cursor := mkCursor { cursor_str : string }.

Definition cursor_char (c : ascii) : bool := is_ascii_alphanumeric c || char_in "_-.~:/+=|" c.

Definition Cursor_new (value : string) : AuditResult Cursor :=
  let valid := len_in 1 128 value && str_all cursor_char value in
  if valid then Ok (mkCursor value)
  else Err (InvalidIdentifier "cursor" "must be 1-128 URL-safe printable ASCII chars").

Record PageRequest := mkPageRequest { pr_limit : Z; pr_cursor : option Cursor }.

Definition PageRequest_with_cursor (limit : Z) (cursor : option Cursor) : AuditResult PageRequest :=
  if negb ((1 <=? limit) && (limit <=? MAX_PAGE_SIZE))%Z
  then Err (ValidationFailure ("page limit " +:+ z_to_string limit +:+ " is outside 1..="
              +:+ z_to_string MAX_PAGE_SIZE))
  else Ok (mkPageRequest limit cursor).

Definition PageRequest_new (limit : Z) : AuditResult PageRequest := PageRequest_with_cursor limit None.

Record Page (T : Type) := mkPage { page_items : list T; page_next_cursor : option Cursor }.
Arguments mkPage {T} _ _.
Arguments page_items {T} _.
Arguments page_next_cursor {T} _.

Definition Page_empty {T} : Page T := mkPage [] None.
Definition page_has_more {T} (p : Page T) : bool :=
  match page_next_cursor p with Some _ => true | None => false end.

(** ** Position keys (storage) *)

Record PositionKey := mkPositionKey {
  pk_ledger : option Z;
  pk_operation : option Z;
  pk_event : option Z;
  pk_recorded_at : Z;
  pk_record_id : RecordId
}.

Definition cmp_unknown_last {T} `{Compare T} (a b : option T) : comparison :=
  match a, b with
  | Some x, Some y => compare x y
  | Some _, None => Lt
  | None, Some _ => Gt
  | None, None => Eq
  end.

Definition PositionKey_cmp (a b : PositionKey) : comparison :=
  then_with (cmp_unknown_last (pk_ledger a) (pk_ledger b))
    (then_with (cmp_unknown_last (pk_operation a) (pk_operation b))
       (then_with (cmp_unknown_last (pk_event a) (pk_event b))
          (then_with (compare (pk_recorded_at a) (pk_recorded_at b))
             (compare (pk_record_id a) (pk_record_id b))))).

Definition PositionKey_of (record : AuditRecord) : PositionKey :=
  let order := order (event record) in
  mkPositionKey (ledger_sequence order) (operation_index order) (event_index order)
    (unix_seconds (recorded_at record)) (record_id record).

(** [v.map(|x| x.to_string()).unwrap_or_else(|| "-".into())]. *)
Definition field_to_string (v : option Z) : string :=
  match v with Some x => z_to_string x | None => "-" end.

Definition cursor_raw (k : PositionKey) : string :=
  field_to_string (pk_ledger k) +:+ "|" +:+ field_to_string (pk_operation k) +:+ "|"
    +:+ field_to_string (pk_event k) +:+ "|" +:+ z_to_string (pk_recorded_at k) +:+ "|"
    +:+ as_str (pk_record_id k).

(** [Cursor::new(&raw).expect(...)]: [None] is the panic of [expect]. *)
Definition to_cursor (k : PositionKey) : option Cursor :=
  match Cursor_new (cursor_raw k) with
  | Ok c => Some c
  | Err _ => None
  end.

Definition parse_field (parse : string -> option Z) (s name : string) : AuditResult (option Z) :=
  if String.eqb s "-" then Ok None
  else match parse s with
       | Some z => Ok (Some z)
       | None => Err (InvalidIdentifier "cursor" (name +:+ " is not an integer"))
       end.

Definition from_cursor (cursor : Cursor) : AuditResult PositionKey :=
  match split "|"%char (cursor_str cursor) with
  | [p0; p1; p2; p3; p4] =>
      let? recorded_at := ok_or (parse_i64 p3)
                            (InvalidIdentifier "cursor" "recorded_at is not an integer") in
      let? record_id := from_checked p4 in
      let? ledger := parse_field parse_i64 p0 "ledger" in
      let? operation := parse_field parse_u32 p1 "operation" in
      let? event := parse_field parse_u32 p2 "event" in
      Ok (mkPositionKey ledger operation event recorded_at record_id)
  | _ => Err (InvalidIdentifier "cursor" "expected 5 position fields")
  end.

#[export] Instance Cursor_eq_dec : EqDecision Cursor.
Proof. solve_decision. Defined.
#[export] Instance PositionKey_eq_dec : EqDecision PositionKey.
Proof. solve_decision. Defined.

(** ** The order is a lawful total order *)

#[export] Instance PositionKey_compare : Compare PositionKey := PositionKey_cmp.

Definition pk_tuple (k : PositionKey) :=
  (pk_ledger k, (pk_operation k, (pk_event k, (pk_recorded_at k, pk_record_id k)))).

Lemma PositionKey_cmp_tuple a b : PositionKey_cmp a b = compare (pk_tuple a) (pk_tuple b).
Proof. reflexivity. Qed.

#[export] Instance PositionKey_compare_laws : CompareLaws PositionKey.
Proof.
  split; unfold compare, PositionKey_compare; intros *; rewrite !PositionKey_cmp_tuple.
  - rewrite compare_eq_iff. split; [|by intros ->]. destruct x, y. unfold pk_tuple. simpl. congruence.
  - apply compare_antisym.
  - apply compare_lt_trans.
Qed.

(** ** Cursor round trip *)

(** The machine ranges of a key's fields, a well-formed record id, and an id
    short enough for the 128-byte cursor. *)
Record key_wf (k : PositionKey) : Prop := {
  kw_ledger : forall z, pk_ledger k = Some z -> in_i64 z;
  kw_operation : forall z, pk_operation k = Some z -> in_u32 z;
  kw_event : forall z, pk_event k = Some z -> in_u32 z;
  kw_recorded_at : in_i64 (pk_recorded_at k);
  kw_record_id : id_wf (pk_record_id k);
  kw_record_id_len : (str_len (as_str (pk_record_id k)) <= 64)%Z
}.

Definition plain_char (c : ascii) : bool := cursor_char c && negb (Ascii.eqb c "|"%char).

Lemma plain_cursor s : str_all plain_char s = true -> str_all cursor_char s = true.
Proof. apply str_all_impl. by apply bytes_impl. Qed.
Lemma plain_no_sep s : str_all plain_char s = true -> no_sep "|"%char s = true.
Proof. apply str_all_impl. by apply bytes_impl. Qed.
Lemma int_plain z : str_all plain_char (z_to_string z) = true.
Proof. eapply str_all_impl; [|apply z_to_string_chars]. by apply bytes_impl. Qed.
Lemma field_plain v : str_all plain_char (field_to_string v) = true.
Proof. destruct v; [apply int_plain | done]. Qed.

Lemma rec_id_plain (id : RecordId) : id_wf id -> str_all plain_char (as_str id) = true.
Proof.
  intros (_ & E & body & Hv & _ & Hhex)%from_checked_Ok_iff. rewrite Hv.
  rewrite !str_all_append. simpl. eapply str_all_impl; [|exact Hhex]. by apply bytes_impl.
Qed.

Lemma field_len_i64 v : (forall z, v = Some z -> in_i64 z) -> (str_len (field_to_string v) <= 20)%Z.
Proof. destruct v; simpl; [intros H; apply z_to_string_length_i64; auto | intros; done]. Qed.
Lemma field_len_u32 v : (forall z, v = Some z -> in_u32 z) -> (str_len (field_to_string v) <= 10)%Z.
Proof. destruct v; simpl; [intros H; apply z_to_string_length_u32; auto | intros; done]. Qed.

Lemma cursor_raw_plain k : id_wf (pk_record_id k) -> str_all cursor_char (cursor_raw k) = true.
Proof.
  intros Hid. unfold cursor_raw. rewrite !str_all_append.
  rewrite !(plain_cursor _ (field_plain _)), (plain_cursor _ (int_plain _)),
    (plain_cursor _ (rec_id_plain _ Hid)). done.
Qed.

Lemma cursor_raw_length k : key_wf k -> (1 <= str_len (cursor_raw k) <= 128)%Z.
Proof.
  intros [Hl Ho He Hr _ Hid]. unfold cursor_raw. rewrite !str_len_append.
  pose proof (field_len_i64 _ Hl). pose proof (field_len_u32 _ Ho). pose proof (field_len_u32 _ He).
  pose proof (z_to_string_length_i64 _ Hr).
  pose proof (str_len_nonneg (field_to_string (pk_ledger k))).
  pose proof (str_len_nonneg (field_to_string (pk_operation k))).
  pose proof (str_len_nonneg (field_to_string (pk_event k))).
  pose proof (str_len_nonneg (z_to_string (pk_recorded_at k))).
  pose proof (str_len_nonneg (as_str (pk_record_id k))).
  change (str_len "|") with 1%Z. lia.
Qed.

Lemma to_cursor_wf k : key_wf k -> to_cursor k = Some (mkCursor (cursor_raw k)).
Proof.
  intros Hk. unfold to_cursor, Cursor_new.
  rewrite (proj2 (len_in_iff 1 128 _) (cursor_raw_length k Hk)),
    (cursor_raw_plain k (kw_record_id k Hk)). done.
Qed.

Lemma cursor_raw_split k :
  id_wf (pk_record_id k) ->
  split "|"%char (cursor_raw k) =
    [ field_to_string (pk_ledger k); field_to_string (pk_operation k); field_to_string (pk_event k);
      z_to_string (pk_recorded_at k); as_str (pk_record_id k) ].
Proof.
  intros Hid. unfold cursor_raw.
  rewrite !(split_app_str "|"%char) by (apply plain_no_sep; first [apply field_plain | apply int_plain]).
  by rewrite (split_last "|"%char) by (apply plain_no_sep; by apply rec_id_plain).
Qed.

Lemma parse_field_round parse v name :
  (forall z, v = Some z -> parse (z_to_string z) = Some z) ->
  parse_field parse (field_to_string v) name = Ok v.
Proof.
  intros Hp. unfold parse_field, field_to_string. destruct v as [z|]; [|done].
  destruct (String.eqb_spec (z_to_string z) "-") as [E|_]; [by apply z_to_string_not_dash in E|].
  by rewrite (Hp z eq_refl).
Qed.

Lemma from_cursor_raw k : key_wf k -> from_cursor (mkCursor (cursor_raw k)) = Ok k.
Proof.
  intros [Hl Ho He Hr Hid _]. unfold from_cursor. simpl cursor_str.
  rewrite cursor_raw_split by done. rewrite (parse_i64_to_string _ Hr). cbn [ok_or rbind].
  rewrite Hid. cbn [rbind].
  rewrite !parse_field_round by eauto using parse_i64_to_string, parse_u32_to_string.
  by destruct k.
Qed.

(** C36 Position keys encode losslessly: for every key whose fields have their
    machine ranges and whose record id is well formed and at most 64 bytes (a
    content-derived id has 36), building the cursor does not panic and parsing
    the cursor gives the key back. *)
Theorem cursor_round_trip k :
  key_wf k -> exists c, to_cursor k = Some c /\ from_cursor c = Ok k.
Proof.
  intros Hk. exists (mkCursor (cursor_raw k)). split; [by apply to_cursor_wf | by apply from_cursor_raw].
Qed.

Definition sample_key : PositionKey :=
  mkPositionKey (Some 100%Z) None (Some 3%Z) (-5)%Z (mkId (mkStableId "rec" "rec_0a")).

Lemma sample_key_wf : key_wf sample_key.
Proof.
  split; simpl; try (intros z [= <-]); unfold in_i64, in_u32, i64_min, i64_max, u32_max; try lia;
    try reflexivity; done.
Qed.

Lemma cursor_round_trip_witness :
  exists c, to_cursor sample_key = Some c /\ from_cursor c = Ok sample_key.
Proof. apply cursor_round_trip. exact sample_key_wf. Defined.

(** The indexing document says that events without a placement sort by their
    record id, which is stable across runs.  Their position key compares the
    recording time first: whichever of two is recorded earlier comes first. *)
Theorem unplaced_order_is_arrival a b :
  order (event a) = EventOrder_default -> order (event b) = EventOrder_default ->
  (unix_seconds (recorded_at a) < unix_seconds (recorded_at b))%Z ->
  compare (PositionKey_of a) (PositionKey_of b) = Lt.
Proof.
  intros Ha Hb Hlt. unfold compare, PositionKey_compare, PositionKey_cmp, PositionKey_of. simpl.
  rewrite Ha, Hb. simpl. unfold compare, Z_compare. by rewrite (proj2 (Z.compare_lt_iff _ _) Hlt).
Qed.
