(* ===== verification/Storage.v ===== *)
(** * The storage contract ([crates/storage])

    Store errors, declarative queries and their builder, write batches, and the
    [EventStore] trait as a type class with the contract its documentation
    states ([EventStoreLaws]): an append-only history of validated records,
    idempotent by event id. *)

From S2P Require Import Prelude Text BTree Errors Identifiers Timestamps Correlation Events.
From S2P Require Import IntegrityModel Records Pagination.

(** ** Errors ([errors.rs]) *)

Inductive StoreError : Type :=
| NotFound (d : string)
| Duplicate (d : string)
| InvalidCursor (d : string)
| StoreInvalidQuery (d : string)
| BatchRejected (d : string)
| IntegrityMismatch (d : string)
| Unsupported (d : string)
| StoreStorageFailure (d : string).

Definition StoreResult (T : Type) : Type := result T StoreError.

Definition StoreError_to_string (e : StoreError) : string :=
  match e with
  | NotFound d => "record not found: " +:+ d
  | Duplicate d => "duplicate record: " +:+ d
  | InvalidCursor d => "invalid cursor: " +:+ d
  | StoreInvalidQuery d => "invalid query: " +:+ d
  | BatchRejected d => "batch rejected: " +:+ d
  | IntegrityMismatch d => "integrity mismatch: " +:+ d
  | Unsupported d => "unsupported operation: " +:+ d
  | StoreStorageFailure d => "storage failure: " +:+ d
  end.

Definition StoreError_from_core (err : AuditError) : StoreError :=
  match err with
  | DuplicateEvent d => Duplicate d
  | InvalidEvent d => StoreInvalidQuery d
  | IntegrityFailure d => IntegrityMismatch d
  | StorageFailure d => StoreStorageFailure d
  | other => StoreStorageFailure (AuditError_to_string other)
  end.

(** ** Queries ([query.rs]) *)

Inductive SortDirection : Type := Ascending | Descending.

#[export] Instance SortDirection_eq_dec : EqDecision SortDirection.
Proof. solve_decision. Defined.

Record AuditQuery := mkAuditQuery {
  q_network : option NetworkId;
  q_token : option TokenReference;
  q_account : option string;
  q_transaction : option string;
  q_policy : option string;
  q_decision : option DecisionResult;
  q_event_kinds : list EventKind;
  q_time_range : option TimeRange;
  q_sort : SortDirection
}.

(** [option.is_some_and(p)]. *)
Definition is_some_and {A} (o : option A) (p : A -> bool) : bool :=
  match o with None => false | Some x => p x end.

Definition involves_account (e : AuditEvent) (account : string) : bool :=
  is_some_and (actor e) (fun a => String.eqb (account_str (acct_account a)) account)
  || is_some_and (subject e) (fun a => String.eqb (account_str (acct_account a)) account).

(** Each conjunct is one [if let] of the source, skipped when the filter is absent. *)
Definition matches (q : AuditQuery) (record : AuditRecord) : bool :=
  let e := event record in
  is_none_or (q_network q) (fun n => bool_decide (network e = n))
  && is_none_or (q_token q) (fun t => bool_decide (token e = Some t))
  && is_none_or (q_account q) (fun a => involves_account e a)
  && is_none_or (q_transaction q) (fun h =>
       is_some_and (transaction e) (fun t => String.eqb (txhash_str (tx_hash t)) h))
  && is_none_or (q_policy q) (fun p =>
       is_some_and (decision e) (fun d => String.eqb (contract_str (policy_contract (pdr_policy d))) p))
  && is_none_or (q_decision q) (fun d =>
       bool_decide (outcome e = Some d)
       || is_some_and (decision e) (fun x => bool_decide (pdr_result x = d)))
  && (match q_event_kinds q with
      | [] => true
      | kinds => bool_decide (kind e ∈ kinds)
      end)
  && is_none_or (q_time_range q) (fun r =>
       let at_ := default (recorded_at record) (observed_at e) in
       TimeRange_contains r at_).

Record AuditQueryBuilder := mkAuditQueryBuilder {
  b_network : option NetworkId;
  b_token : option TokenReference;
  b_account : option string;
  b_transaction : option string;
  b_policy : option string;
  b_decision : option DecisionResult;
  b_event_kinds : list EventKind;
  b_time_range : option TimeRange;
  b_sort : SortDirection
}.

Definition AuditQuery_builder : AuditQueryBuilder :=
  mkAuditQueryBuilder None None None None None None [] None Ascending.

Definition with_network (n : NetworkId) (b : AuditQueryBuilder) : AuditQueryBuilder :=
  mkAuditQueryBuilder (Some n) (b_token b) (b_account b) (b_transaction b) (b_policy b)
    (b_decision b) (b_event_kinds b) (b_time_range b) (b_sort b).
Definition with_token (t : TokenReference) (b : AuditQueryBuilder) : AuditQueryBuilder :=
  mkAuditQueryBuilder (b_network b) (Some t) (b_account b) (b_transaction b) (b_policy b)
    (b_decision b) (b_event_kinds b) (b_time_range b) (b_sort b).
Definition with_account (a : string) (b : AuditQueryBuilder) : AuditQueryBuilder :=
  mkAuditQueryBuilder (b_network b) (b_token b) (Some a) (b_transaction b) (b_policy b)
    (b_decision b) (b_event_kinds b) (b_time_range b) (b_sort b).
Definition with_transaction (h : string) (b : AuditQueryBuilder) : AuditQueryBuilder :=
  mkAuditQueryBuilder (b_network b) (b_token b) (b_account b) (Some h) (b_policy b)
    (b_decision b) (b_event_kinds b) (b_time_range b) (b_sort b).
Definition with_policy (p : string) (b : AuditQueryBuilder) : AuditQueryBuilder :=
  mkAuditQueryBuilder (b_network b) (b_token b) (b_account b) (b_transaction b) (Some p)
    (b_decision b) (b_event_kinds b) (b_time_range b) (b_sort b).
Definition with_decision (d : DecisionResult) (b : AuditQueryBuilder) : AuditQueryBuilder :=
  mkAuditQueryBuilder (b_network b) (b_token b) (b_account b) (b_transaction b) (b_policy b)
    (Some d) (b_event_kinds b) (b_time_range b) (b_sort b).
Definition with_event_kinds (ks : list EventKind) (b : AuditQueryBuilder) : AuditQueryBuilder :=
  mkAuditQueryBuilder (b_network b) (b_token b) (b_account b) (b_transaction b) (b_policy b)
    (b_decision b) ks (b_time_range b) (b_sort b).
Definition with_time_range (r : TimeRange) (b : AuditQueryBuilder) : AuditQueryBuilder :=
  mkAuditQueryBuilder (b_network b) (b_token b) (b_account b) (b_transaction b) (b_policy b)
    (b_decision b) (b_event_kinds b) (Some r) (b_sort b).
Definition sorted (d : SortDirection) (b : AuditQueryBuilder) : AuditQueryBuilder :=
  mkAuditQueryBuilder (b_network b) (b_token b) (b_account b) (b_transaction b) (b_policy b)
    (b_decision b) (b_event_kinds b) (b_time_range b) d.

Definition build_unchecked (b : AuditQueryBuilder) : AuditQuery :=
  mkAuditQuery (b_network b) (b_token b) (b_account b) (b_transaction b) (b_policy b)
    (b_decision b) (b_event_kinds b) (b_time_range b) (b_sort b).

Definition build (b : AuditQueryBuilder) : AuditResult AuditQuery :=
  match b_network b, b_token b with
  | Some network, Some token =>
      if decide (token_network token = network) then Ok (build_unchecked b)
      else Err (InvalidQuery ("token filter is on network `" +:+ network_str (token_network token)
                  +:+ "` but the query is on `" +:+ network_str network +:+ "`"))
  | _, _ => Ok (build_unchecked b)
  end.

(** ** Batches ([transaction.rs]) *)

Record WriteBatch := mkWriteBatch { wb_records : list AuditRecord }.

Fixpoint batch_check (seen_events : gset EventId) (seen_records : gset RecordId)
    (records : list AuditRecord) : AuditResult unit :=
  match records with
  | [] => Ok tt
  | record :: records =>
      let? _ := AuditRecord_validate record in
      if decide (rec_event_id record ∈ seen_events)
      then Err (DuplicateEvent ("batch contains duplicate event " +:+ as_str (rec_event_id record)))
      else if decide (record_id record ∈ seen_records)
      then Err (DuplicateEvent ("batch contains duplicate record " +:+ as_str (record_id record)))
      else batch_check ({[ rec_event_id record ]} ∪ seen_events)
             ({[ record_id record ]} ∪ seen_records) records
  end.

Definition WriteBatch_new (records : list AuditRecord) : AuditResult WriteBatch :=
  let? _ := batch_check ∅ ∅ records in
  Ok (mkWriteBatch records).

Definition WriteBatch_empty : WriteBatch := mkWriteBatch [].

Record BatchOutcome := mkBatchOutcome { bo_inserted : nat; bo_duplicates : nat }.

Definition BatchOutcome_describe (o : BatchOutcome) : string :=
  "inserted " +:+ z_to_string (Z.of_nat (bo_inserted o)) +:+ ", duplicate "
    +:+ z_to_string (Z.of_nat (bo_duplicates o)).

Inductive InsertOutcome : Type := Inserted | DuplicateInsert.

Definition changed (o : InsertOutcome) : bool :=
  match o with Inserted => true | DuplicateInsert => false end.

(** ** The [EventStore] trait ([store.rs]) *)

(** The store is threaded: an operation on [&mut self] gives the new state with
    its result.  [None] from [es_query] is a panic. *)
Class EventStore (S : Type) := {
  es_insert : S -> AuditRecord -> S * StoreResult InsertOutcome;
  es_insert_batch : S -> WriteBatch -> S * StoreResult BatchOutcome;
  es_get : S -> RecordId -> StoreResult AuditRecord;
  es_get_by_event : S -> EventId -> StoreResult (option AuditRecord);
  es_contains_event : S -> EventId -> StoreResult bool;
  es_query : S -> AuditQuery -> PageRequest -> option (StoreResult (Page AuditRecord));
  es_len : S -> nat;
  es_last_position : S -> option PositionKey
}.

Definition es_is_empty {S} `{EventStore S} (s : S) : bool := (es_len s =? 0)%nat.

Definition validate_insertable (record : AuditRecord) : StoreResult unit :=
  map_err StoreError_from_core (AuditRecord_validate record).

(** A record the history can take: neither its event nor its record id is there. *)
Definition fresh_in (history : list AuditRecord) (r : AuditRecord) : Prop :=
  rec_event_id r ∉ map rec_event_id history /\ record_id r ∉ map record_id history.

(** The records of a batch whose events the history does not hold yet. *)
Definition absent_from (history records : list AuditRecord) : list AuditRecord :=
  List.filter (fun r => bool_decide (rec_event_id r ∉ map rec_event_id history)) records.

(** The history matching a query, in position order or its reverse. *)
Definition query_view (q : AuditQuery) (history : list AuditRecord) : list AuditRecord :=
  match q_sort q with
  | Ascending => List.filter (matches q) history
  | Descending => List.filter (matches q) (rev history)
  end.

(** The page a request for at most [n] records must serve when [rest] of the
    matching history is still unserved: its first [n] records, and a cursor on
    the last of them when something is left. *)
Definition serve (n : nat) (rest : list AuditRecord) : Page AuditRecord :=
  mkPage (take n rest)
    (if (n <? length rest)%nat
     then match last (take n rest) with
          | Some r => to_cursor (PositionKey_of r)
          | None => None
          end
     else None).

(** The cursor a client holds after [served]: none before the first page, then
    the position of the last record it was given. *)
Definition resume_point (served : list AuditRecord) (c : option Cursor) : Prop :=
  match last served with
  | None => c = None
  | Some r => c = to_cursor (PositionKey_of r)
  end.

(** What a store promises: it holds a history, sorted by position, of validated
    records; inserting appends exactly the fresh ones; reads return the history. *)
Class EventStoreLaws (S : Type) `{EventStore S} := {
  es_inv : S -> Prop;
  es_history : S -> list AuditRecord;
  es_history_sorted s : es_inv s ->
    StronglySorted (fun a b => compare (PositionKey_of a) (PositionKey_of b) = Lt) (es_history s);
  es_history_valid s : es_inv s -> Forall (fun r => AuditRecord_validate r = Ok tt) (es_history s);
  es_history_nodup s : es_inv s ->
    NoDup (map rec_event_id (es_history s)) /\ NoDup (map record_id (es_history s));
  es_insert_fresh s r : es_inv s -> AuditRecord_validate r = Ok tt -> fresh_in (es_history s) r ->
    exists s', es_insert s r = (s', Ok Inserted) /\ es_inv s' /\ es_history s' ≡ₚ r :: es_history s;
  es_insert_duplicate s r : es_inv s -> AuditRecord_validate r = Ok tt ->
    rec_event_id r ∈ map rec_event_id (es_history s) -> es_insert s r = (s, Ok DuplicateInsert);
  es_insert_invalid s r e : AuditRecord_validate r = Err e ->
    es_insert s r = (s, Err (StoreError_from_core e));
  es_insert_batch_new s rs b : es_inv s -> WriteBatch_new rs = Ok b ->
    Forall (fun r => record_id r ∉ map record_id (es_history s)) (absent_from (es_history s) rs) ->
    exists s', es_insert_batch s b
               = (s', Ok (mkBatchOutcome (length (absent_from (es_history s) rs))
                            (length rs - length (absent_from (es_history s) rs))))
      /\ es_inv s' /\ es_history s' ≡ₚ (absent_from (es_history s) rs ++ es_history s)%list
      /\ (absent_from (es_history s) rs = [] -> s' = s);
  es_contains_iff s e : es_inv s ->
    es_contains_event s e = Ok (bool_decide (e ∈ map rec_event_id (es_history s)));
  es_get_In s r : es_inv s -> r ∈ es_history s -> es_get s (record_id r) = Ok r;
  es_get_sound s i r : es_inv s -> es_get s i = Ok r -> r ∈ es_history s /\ record_id r = i;
  es_get_by_event_In s r : es_inv s -> r ∈ es_history s ->
    es_get_by_event s (rec_event_id r) = Ok (Some r);
  es_len_spec s : es_inv s -> es_len s = length (es_history s);
  es_query_serves s q limit served rest c : es_inv s ->
    Forall (fun r => key_wf (PositionKey_of r)) (es_history s) ->
    (1 <= limit <= MAX_PAGE_SIZE)%Z ->
    query_view q (es_history s) = (served ++ rest)%list -> resume_point served c ->
    es_query s q (mkPageRequest limit c) = Some (Ok (serve (Z.to_nat limit) rest))
}.

(** ** Facts on batches *)

Lemma batch_check_Ok_iff se sr records :
  batch_check se sr records = Ok tt <->
  Forall (fun r => AuditRecord_validate r = Ok tt) records
  /\ NoDup (map rec_event_id records) /\ NoDup (map record_id records)
  /\ Forall (fun r => rec_event_id r ∉ se /\ record_id r ∉ sr) records.
Proof.
  revert se sr. induction records as [|r records IH]; intros se sr; simpl.
  { split; [|done]. intros _. repeat split; constructor. }
  rewrite !Forall_cons, !NoDup_cons.
  assert (forall (se' : gset EventId) (sr' : gset RecordId),
    Forall (fun x => rec_event_id x ∉ {[rec_event_id r]} ∪ se' /\ record_id x ∉ {[record_id r]} ∪ sr') records
    <-> rec_event_id r ∉ map rec_event_id records /\ record_id r ∉ map record_id records
        /\ Forall (fun x => rec_event_id x ∉ se' /\ record_id x ∉ sr') records) as Hsplit.
  { clear IH. intros se' sr'. induction records as [|x records IH]; simpl.
    - split; [|constructor]. intros _. repeat split; try constructor; apply not_elem_of_nil.
    - rewrite !Forall_cons, IH. set_solver. }
  split.
  - intros Hc. ok_inv. destruct v. do 2 (case_decide; [done|]).
    apply IH in Hc as (Hv & Hne & Hnr & (? & ? & ?)%Hsplit). done.
  - intros ((Hv & Hvs) & (Hn1 & Hne) & (Hn2 & Hnr) & (H1 & H2) & Hin).
    rewrite Hv. simpl. rewrite !decide_False by done. apply IH. by rewrite Hsplit.
Qed.

(** A batch is built exactly from validated records with distinct ids. *)
Lemma WriteBatch_new_Ok_iff records b :
  WriteBatch_new records = Ok b <->
  b = mkWriteBatch records
  /\ Forall (fun r => AuditRecord_validate r = Ok tt) records
  /\ NoDup (map rec_event_id records) /\ NoDup (map record_id records).
Proof.
  unfold WriteBatch_new. split.
  - intros Hb. ok_inv. destruct v. apply batch_check_Ok_iff in Hok as (? & ? & ? & _). done.
  - intros (-> & Hv & He & Hr).
    rewrite (proj2 (batch_check_Ok_iff ∅ ∅ records)); [done|]. repeat split; try done.
    apply Forall_forall. set_solver.
Qed.
