(* ===== verification/MemoryStore.v ===== *)
(** * The in-memory event store ([crates/memory-store])

    [MemoryEventStore] and its implementation of [EventStore], the query
    helpers, the representation invariant and the proof that it keeps the
    storage contract; pagination is in [MemoryPaging]. *)

From S2P Require Import Prelude Text BTree Errors Identifiers Timestamps Correlation Events.
From S2P Require Import IntegrityModel Records Samples Pagination Storage.
Open Scope nat_scope.
Open Scope list_scope.

Record MemoryEventStore := mkMemoryEventStore {
  records : BTreeMap PositionKey AuditRecord;
  by_event : gmap EventId RecordId;
  by_record : gmap RecordId PositionKey
}.

Definition MemoryEventStore_new : MemoryEventStore := mkMemoryEventStore [] ∅ ∅.

(** The three map inserts [insert] and the commit phase of [insert_batch] share. *)
Definition commit (s : MemoryEventStore) (record : AuditRecord) : MemoryEventStore :=
  let key := PositionKey_of record in
  mkMemoryEventStore (bt_insert key record (records s))
    (<[rec_event_id record := record_id record]> (by_event s))
    (<[record_id record := key]> (by_record s)).

Definition has_event (s : MemoryEventStore) (event_id : EventId) : bool :=
  match by_event s !! event_id with Some _ => true | None => false end.

Definition insert (s : MemoryEventStore) (record : AuditRecord)
  : MemoryEventStore * StoreResult InsertOutcome :=
  match map_err StoreError_from_core (AuditRecord_validate record) with
  | Err e => (s, Err e)
  | Ok _ =>
      if has_event s (rec_event_id record) then (s, Ok DuplicateInsert)
      else (commit s record, Ok Inserted)
  end.

(** Phase 1 of a batch: validation against the unchanged store, accumulating
    [to_insert], [inserted] and [duplicates]. *)
Fixpoint batch_phase1 (s : MemoryEventStore) (to_insert : list AuditRecord) (inserted duplicates : nat)
    (batch : list AuditRecord) : StoreResult (list AuditRecord * nat * nat) :=
  match batch with
  | [] => Ok (to_insert, inserted, duplicates)
  | record :: batch =>
      let? _ := map_err StoreError_from_core (AuditRecord_validate record) in
      if has_event s (rec_event_id record)
      then batch_phase1 s to_insert inserted (duplicates + 1) batch
      else batch_phase1 s (to_insert ++ [record]) (inserted + 1) duplicates batch
  end.

Definition insert_batch (s : MemoryEventStore) (batch : WriteBatch)
  : MemoryEventStore * StoreResult BatchOutcome :=
  match batch_phase1 s [] 0 0 (wb_records batch) with
  | Err e => (s, Err e)
  | Ok (to_insert, inserted, duplicates) =>
      (fold_left commit to_insert s, Ok (mkBatchOutcome inserted duplicates))
  end.

Definition get (s : MemoryEventStore) (rid : RecordId) : StoreResult AuditRecord :=
  let? key := ok_or (by_record s !! rid) (NotFound ("record " +:+ as_str rid)) in
  ok_or (bt_get key (records s)) (NotFound ("record " +:+ as_str rid)).

Definition get_by_event (s : MemoryEventStore) (eid : EventId) : StoreResult (option AuditRecord) :=
  match by_event s !! eid with
  | Some rid => let? r := get s rid in Ok (Some r)
  | None => Ok None
  end.

Definition contains_event (s : MemoryEventStore) (eid : EventId) : StoreResult bool :=
  Ok (has_event s eid).

(** [iter().position(p).unwrap_or(len)]. *)
Fixpoint position_or_len {A} (p : A -> bool) (l : list A) : nat :=
  match l with
  | [] => 0
  | x :: l => if p x then 0 else S (position_or_len p l)
  end.

Definition matched (s : MemoryEventStore) (q : AuditQuery) : list AuditRecord :=
  if decide (q_sort q = Ascending)
  then List.filter (matches q) (bt_values (records s))
  else List.filter (matches q) (rev (bt_values (records s))).

Definition past (sort : SortDirection) (boundary key : PositionKey) : bool :=
  if decide (sort = Ascending) then is_gt (compare key boundary) else is_lt (compare key boundary).

Definition query_start (q : AuditQuery) (l : list AuditRecord) (cursor : option Cursor)
  : StoreResult nat :=
  match cursor with
  | None => Ok 0
  | Some cursor =>
      let? boundary := map_err (fun e => InvalidCursor (AuditError_to_string e)) (from_cursor cursor) in
      Ok (position_or_len (fun r => past (q_sort q) boundary (PositionKey_of r)) l)
  end.

(** [None] is the panic of [to_cursor]. *)
Definition query (s : MemoryEventStore) (q : AuditQuery) (page : PageRequest)
  : option (StoreResult (Page AuditRecord)) :=
  let matched := matched s q in
  match query_start q matched (pr_cursor page) with
  | Err e => Some (Err e)
  | Ok start =>
      let end_ := Nat.min (start + Z.to_nat (pr_limit page)) (length matched) in
      let items := take (end_ - start) (drop start matched) in
      if (end_ <? length matched)%nat && (start <? end_)%nat
      then match matched !! (end_ - 1) with
           | Some r => match to_cursor (PositionKey_of r) with
                       | Some c => Some (Ok (mkPage items (Some c)))
                       | None => None
                       end
           | None => None
           end
      else Some (Ok (mkPage items None))
  end.

Definition store_len (s : MemoryEventStore) : nat := length (records s).
Definition last_position (s : MemoryEventStore) : option PositionKey := bt_last_key (records s).

#[export] Instance MemoryEventStore_EventStore : EventStore MemoryEventStore := {
  es_insert := insert;
  es_insert_batch := insert_batch;
  es_get := get;
  es_get_by_event := get_by_event;
  es_contains_event := contains_event;
  es_query := query;
  es_len := store_len;
  es_last_position := last_position
}.

(** ** Query helpers ([query.rs]) *)

Section QueryHelpers.
Context {S : Type} `{EventStore S}.

Definition page_request (limit : Z) : StoreResult PageRequest :=
  map_err (fun e => StoreInvalidQuery (AuditError_to_string e)) (PageRequest_new limit).

Definition build_query (f : AuditQueryBuilder -> AuditQueryBuilder) : StoreResult AuditQuery :=
  map_err (fun e => StoreInvalidQuery (AuditError_to_string e)) (build (f AuditQuery_builder)).

(** The body the three helpers share: build, bound the page, query. *)
Definition run_query (store : S) (f : AuditQueryBuilder -> AuditQueryBuilder) (limit : Z)
  : option (StoreResult (Page AuditRecord)) :=
  match build_query f with
  | Err e => Some (Err e)
  | Ok q => match page_request limit with
            | Err e => Some (Err e)
            | Ok page => es_query store q page
            end
  end.

Definition by_account (store : S) (account : string) (limit : Z) :=
  run_query store (with_account account) limit.
Definition by_transaction (store : S) (hash : string) (limit : Z) :=
  run_query store (with_transaction hash) limit.
Definition denied (store : S) (limit : Z) := run_query store (with_decision Denied) limit.
End QueryHelpers.

(** ** The representation invariant *)

Record store_inv (s : MemoryEventStore) : Prop := {
  si_wf : bt_wf (records s);
  si_keys : Forall (fun p => fst p = PositionKey_of (snd p)) (records s);
  si_valid : Forall (fun p => AuditRecord_validate (snd p) = Ok tt) (records s);
  si_event : forall e i, by_event s !! e = Some i <->
    exists r, In r (bt_values (records s)) /\ rec_event_id r = e /\ record_id r = i;
  si_record : forall i k, by_record s !! i = Some k <->
    exists r, In r (bt_values (records s)) /\ record_id r = i /\ PositionKey_of r = k
}.

Definition history (s : MemoryEventStore) : list AuditRecord := bt_values (records s).

Lemma store_inv_new : store_inv MemoryEventStore_new.
Proof.
  constructor; simpl; try by constructor.
  - intros e i. rewrite lookup_empty. split; [done|]. by intros (? & [] & _).
  - intros i k. rewrite lookup_empty. split; [done|]. by intros (? & [] & _).
Qed.

Section Invariant.
Variable s : MemoryEventStore.
Hypothesis Hs : store_inv s.

Lemma history_entry r : In r (history s) <-> In (PositionKey_of r, r) (records s).
Proof.
  unfold history, bt_values. rewrite in_map_iff. split; [|by exists (PositionKey_of r, r)].
  intros ([k r'] & E & Hin). simpl in E. subst r'.
  pose proof (si_keys s Hs) as Hk. rewrite Forall_forall in Hk.
  specialize (Hk (k, r) (proj2 (list_elem_of_In _ _) Hin)). simpl in Hk. by subst k.
Qed.

Lemma has_event_iff e : has_event s e = true <-> e ∈ map rec_event_id (history s).
Proof.
  unfold has_event. rewrite list_elem_of_In, in_map_iff. split.
  - destruct (by_event s !! e) as [i|] eqn:E; [|done]. intros _.
    apply (si_event s Hs) in E as (r & Hin & He & _). eauto.
  - intros (r & He & Hin).
    by rewrite (proj2 (si_event s Hs e (record_id r))) by eauto.
Qed.

Lemma by_record_None_iff i : by_record s !! i = None <-> i ∉ map record_id (history s).
Proof.
  rewrite list_elem_of_In, in_map_iff. split.
  - intros E (r & <- & Hin).
    by rewrite (proj2 (si_record s Hs (record_id r) (PositionKey_of r))) in E by eauto.
  - intros Hn. destruct (by_record s !! i) as [k|] eqn:E; [|done].
    apply (si_record s Hs) in E as (r & Hin & He & _). exfalso. eauto.
Qed.

(** A record id names one position, hence one record. *)
Lemma record_id_inj r r' :
  In r (history s) -> In r' (history s) -> record_id r = record_id r' -> r = r'.
Proof.
  intros Hr Hr' E.
  assert (by_record s !! record_id r = Some (PositionKey_of r)) as E1 by (apply (si_record s Hs); eauto).
  assert (by_record s !! record_id r = Some (PositionKey_of r')) as E2 by (apply (si_record s Hs); eauto).
  apply history_entry in Hr, Hr'.
  assert (PositionKey_of r = PositionKey_of r') as Ek by congruence. rewrite Ek in Hr.
  apply (bt_In_get _ _ _ (si_wf s Hs)) in Hr, Hr'. congruence.
Qed.

Lemma event_id_inj r r' :
  In r (history s) -> In r' (history s) -> rec_event_id r = rec_event_id r' -> r = r'.
Proof.
  intros Hr Hr' E. apply record_id_inj; [done | done |].
  assert (by_event s !! rec_event_id r = Some (record_id r)) by (apply (si_event s Hs); eauto).
  assert (by_event s !! rec_event_id r = Some (record_id r')) by (apply (si_event s Hs); eauto).
  congruence.
Qed.

Lemma history_get r : In r (history s) -> get s (record_id r) = Ok r.
Proof.
  intros Hin. unfold get.
  rewrite (proj2 (si_record s Hs (record_id r) (PositionKey_of r))) by eauto. simpl.
  by rewrite (bt_In_get _ _ _ (si_wf s Hs) (proj1 (history_entry r) Hin)).
Qed.

Lemma history_get_sound i r : get s i = Ok r -> In r (history s) /\ record_id r = i.
Proof.
  unfold get. intros Hg. ok_inv. apply (si_record s Hs) in Hok as (r' & Hin & Hi & <-).
  apply history_entry in Hin as He. apply (bt_In_get _ _ _ (si_wf s Hs)) in He.
  assert (r' = r) as -> by congruence. done.
Qed.

Lemma history_get_by_event r : In r (history s) -> get_by_event s (rec_event_id r) = Ok (Some r).
Proof.
  intros Hin. unfold get_by_event.
  rewrite (proj2 (si_event s Hs (rec_event_id r) (record_id r))) by eauto.
  by rewrite history_get.
Qed.

Lemma bt_get_fresh r : by_record s !! record_id r = None -> bt_get (PositionKey_of r) (records s) = None.
Proof.
  intros Hn. destruct (bt_get (PositionKey_of r) (records s)) as [r'|] eqn:E; [|done].
  apply bt_get_Some_In in E. exfalso.
  pose proof (si_keys s Hs) as Hk. rewrite Forall_forall in Hk.
  specialize (Hk _ (proj2 (list_elem_of_In _ _) E)). simpl in Hk.
  assert (record_id r = record_id r') as Ei by (apply (f_equal pk_record_id) in Hk; exact Hk).
  apply by_record_None_iff in Hn. apply Hn, list_elem_of_In, in_map_iff.
  exists r'. split; [done|]. unfold history, bt_values. apply in_map_iff. by exists (PositionKey_of r, r').
Qed.

Lemma commit_history r :
  by_record s !! record_id r = None -> history (commit s r) ≡ₚ r :: history s.
Proof.
  intros Hn. unfold history, bt_values. simpl.
  by rewrite (bt_insert_perm _ r _ (si_wf s Hs) (bt_get_fresh r Hn)).
Qed.

Lemma history_sorted :
  StronglySorted (fun a b => compare (PositionKey_of a) (PositionKey_of b) = Lt) (history s).
Proof.
  pose proof (bt_keys_sorted _ (si_wf s Hs)) as Hsort.
  assert (bt_keys (records s) = map PositionKey_of (history s)) as E.
  { unfold bt_keys, history, bt_values. rewrite map_map. apply map_ext_in.
    intros p Hp. pose proof (si_keys s Hs) as Hk. rewrite Forall_forall in Hk.
    apply Hk. by apply list_elem_of_In. }
  rewrite E in Hsort. revert Hsort. generalize (history s). clear.
  induction l as [|r l IH]; simpl; intros Hsort; constructor;
    apply StronglySorted_inv in Hsort as [? Hall]; [auto|].
  by rewrite Forall_map in Hall.
Qed.

Lemma history_valid : Forall (fun r => AuditRecord_validate r = Ok tt) (history s).
Proof. unfold history, bt_values. rewrite Forall_map. apply (si_valid s Hs). Qed.

Lemma NoDup_map_history {B} (f : AuditRecord -> B) :
  (forall r r', In r (history s) -> In r' (history s) -> f r = f r' -> r = r') ->
  NoDup (map f (history s)).
Proof.
  pose proof history_sorted as Hsort. revert Hsort. generalize (history s). clear.
  induction l as [|r l IH]; simpl; intros Hsort Hinj; constructor;
    apply StronglySorted_inv in Hsort as [Hsort Hall].
  - intros (r' & E & Hin%list_elem_of_In)%list_elem_of_fmap.
    specialize (Hinj r r' (or_introl eq_refl) (or_intror Hin) E). subst r'.
    rewrite Forall_forall in Hall. apply list_elem_of_In in Hin. apply Hall in Hin.
    by apply compare_lt_irrefl in Hin.
  - apply IH; auto.
Qed.
End Invariant.

(** Committing a fresh record keeps the invariant. *)
Lemma commit_inv s r :
  store_inv s -> AuditRecord_validate r = Ok tt -> fresh_in (history s) r -> store_inv (commit s r).
Proof.
  intros Hs Hv [Hfe Hfr].
  assert (by_record s !! record_id r = None) as Hn by by apply by_record_None_iff.
  assert (forall x, In x (history (commit s r)) <-> x = r \/ In x (history s)) as Hin.
  { intros x. rewrite <- !list_elem_of_In, (commit_history s Hs r Hn), elem_of_cons. done. }
  constructor.
  - apply bt_insert_wf, (si_wf s Hs).
  - apply bt_insert_Forall; [done | apply (si_keys s Hs)].
  - apply bt_insert_Forall; [done | apply (si_valid s Hs)].
  - intros e i. fold (history (commit s r)). simpl by_event. rewrite lookup_insert_Some. split.
    + intros [[<- <-]|[Hne Hl]]; [exists r; rewrite Hin; auto|].
      apply (si_event s Hs) in Hl as (x & Hx & Ex). exists x. rewrite Hin. auto.
    + intros (x & [->|Hx]%Hin & <- & <-); [auto|]. right.
      split; [|apply (si_event s Hs); eauto]. intros E. apply Hfe. rewrite E.
      apply list_elem_of_In, in_map. done.
  - intros i k. fold (history (commit s r)). simpl by_record. rewrite lookup_insert_Some. split.
    + intros [[<- <-]|[Hne Hl]]; [exists r; rewrite Hin; auto|].
      apply (si_record s Hs) in Hl as (x & Hx & Ex). exists x. rewrite Hin. auto.
    + intros (x & [->|Hx]%Hin & <- & <-); [auto|]. right.
      split; [|apply (si_record s Hs); eauto]. intros E. apply Hfr. rewrite E.
      apply list_elem_of_In, in_map. done.
Qed.

#[export] Hint Resolve store_inv_new commit_inv history_sorted history_valid : audit.

(** ** The store keeps the storage contract *)

Lemma insert_fresh_spec s r :
  store_inv s -> AuditRecord_validate r = Ok tt -> fresh_in (history s) r ->
  exists s', insert s r = (s', Ok Inserted) /\ store_inv s' /\ history s' ≡ₚ r :: history s.
Proof.
  intros Hs Hv Hf. exists (commit s r). unfold insert. rewrite Hv. simpl.
  destruct (has_event s (rec_event_id r)) eqn:E.
  - apply (has_event_iff s Hs) in E. by destruct Hf.
  - split; [done|]. split; [by apply commit_inv|].
    apply commit_history; [done|]. apply by_record_None_iff; [done | by destruct Hf].
Qed.

Lemma insert_duplicate_spec s r :
  store_inv s -> AuditRecord_validate r = Ok tt -> rec_event_id r ∈ map rec_event_id (history s) ->
  insert s r = (s, Ok DuplicateInsert).
Proof.
  intros Hs Hv Hd. unfold insert. rewrite Hv. simpl. by rewrite (proj2 (has_event_iff s Hs _) Hd).
Qed.

(** ** Batches *)

(** The sequential reference: one [insert] after another, counting outcomes. *)
Fixpoint insert_all (s : MemoryEventStore) (rs : list AuditRecord) : MemoryEventStore * (nat * nat) :=
  match rs with
  | [] => (s, (0, 0))
  | r :: rs =>
      let '(s1, o) := insert s r in
      let '(s2, (i, d)) := insert_all s1 rs in
      match o with
      | Ok Inserted => (s2, (S i, d))
      | Ok DuplicateInsert => (s2, (i, S d))
      | Err _ => (s2, (i, d))
      end
  end.

Definition new_records (s : MemoryEventStore) (rs : list AuditRecord) : list AuditRecord :=
  List.filter (fun r => negb (has_event s (rec_event_id r))) rs.
Definition old_records (s : MemoryEventStore) (rs : list AuditRecord) : list AuditRecord :=
  List.filter (fun r => has_event s (rec_event_id r)) rs.

Lemma batch_phase1_spec s rs acc i d :
  Forall (fun r => AuditRecord_validate r = Ok tt) rs ->
  batch_phase1 s acc i d rs =
    Ok (acc ++ new_records s rs, i + length (new_records s rs), d + length (old_records s rs)).
Proof.
  unfold new_records, old_records. intros Hv. revert acc i d.
  induction Hv as [|r rs Hr _ IH]; intros acc i d; simpl.
  - by rewrite app_nil_r, !Nat.add_0_r.
  - rewrite Hr. simpl. destruct (has_event s (rec_event_id r)); simpl; rewrite IH.
    + by rewrite <- !Nat.add_assoc.
    + by rewrite <- app_assoc, <- !Nat.add_assoc.
Qed.

Lemma batch_phase1_Err s rs acc i d e :
  batch_phase1 s acc i d rs = Err e -> exists r e', In r rs /\ AuditRecord_validate r = Err e'
                                                   /\ e = StoreError_from_core e'.
Proof.
  revert acc i d. induction rs as [|r rs IH]; intros acc i d; simpl; [done|].
  destruct (AuditRecord_validate r) as [[]|e'] eqn:E; simpl.
  - destruct (has_event s (rec_event_id r)); intros (x & e'' & Hx & Hv & He)%IH;
      exists x, e''; auto.
  - intros [= <-]. exists r, e'. auto.
Qed.

Lemma has_event_commit_ne s r e : rec_event_id r <> e -> has_event (commit s r) e = has_event s e.
Proof. intros Hne. unfold has_event. simpl. by rewrite lookup_insert_ne. Qed.

Lemma new_records_commit s r rs :
  rec_event_id r ∉ map rec_event_id rs -> new_records (commit s r) rs = new_records s rs.
Proof.
  intros Hn. unfold new_records. apply filter_ext_in. intros x Hx.
  rewrite has_event_commit_ne; [done|]. intros E. apply Hn. rewrite E.
  by apply list_elem_of_In, in_map.
Qed.

Lemma old_records_commit s r rs :
  rec_event_id r ∉ map rec_event_id rs -> old_records (commit s r) rs = old_records s rs.
Proof.
  intros Hn. unfold old_records. apply filter_ext_in. intros x Hx.
  rewrite has_event_commit_ne; [done|]. intros E. apply Hn. rewrite E.
  by apply list_elem_of_In, in_map.
Qed.

Lemma insert_all_spec s rs :
  Forall (fun r => AuditRecord_validate r = Ok tt) rs -> NoDup (map rec_event_id rs) ->
  insert_all s rs =
    (fold_left commit (new_records s rs) s, (length (new_records s rs), length (old_records s rs))).
Proof.
  intros Hv. revert s. induction Hv as [|r rs Hr Hv IH]; intros s Hnd; [done|].
  simpl in Hnd. apply NoDup_cons in Hnd as [Hn Hnd].
  simpl. unfold insert. rewrite Hr. simpl. unfold new_records, old_records. simpl.
  destruct (has_event s (rec_event_id r)) eqn:E; simpl; rewrite IH by done; [done|].
  fold (new_records (commit s r) rs). fold (old_records (commit s r) rs).
  rewrite new_records_commit, old_records_commit by done. done.
Qed.

Lemma commits_spec rs s :
  store_inv s -> Forall (fun r => AuditRecord_validate r = Ok tt) rs ->
  NoDup (map rec_event_id rs) -> NoDup (map record_id rs) -> Forall (fresh_in (history s)) rs ->
  store_inv (fold_left commit rs s) /\ history (fold_left commit rs s) ≡ₚ rs ++ history s.
Proof.
  revert s. induction rs as [|r rs IH]; intros s Hs Hv He Hr Hf; simpl; [done|].
  apply Forall_cons in Hv as [Hv Hvs], Hf as [Hf Hfs].
  simpl in He, Hr. apply NoDup_cons in He as [He Hes], Hr as [Hr Hrs].
  assert (history (commit s r) ≡ₚ r :: history s) as Hh.
  { apply commit_history; [done|]. apply by_record_None_iff; [done | by destruct Hf]. }
  destruct (IH (commit s r)) as [Hs' Hh']; try done.
  - by apply commit_inv.
  - rewrite Forall_forall in *. intros x Hx. destruct (Hfs x Hx) as [? ?].
    split; rewrite Hh; simpl; rewrite elem_of_cons; intros [E|?]; try done.
    + apply He. rewrite <- E. apply list_elem_of_In, in_map. by apply list_elem_of_In.
    + apply Hr. rewrite <- E. apply list_elem_of_In, in_map. by apply list_elem_of_In.
  - split; [done|]. rewrite Hh', Hh. by rewrite Permutation_middle.
Qed.

Lemma new_records_absent s rs : store_inv s -> new_records s rs = absent_from (history s) rs.
Proof.
  intros Hs. apply filter_ext. intros r. pose proof (has_event_iff s Hs (rec_event_id r)) as Hi.
  case_bool_decide as Hn; destruct (has_event s (rec_event_id r)); try done.
  - exfalso. apply Hn. by apply Hi.
  - by apply Hi in Hn.
Qed.

Lemma old_records_length s rs : length (old_records s rs) = length rs - length (new_records s rs).
Proof.
  unfold old_records, new_records. rewrite <- (List.filter_length (fun r => has_event s (rec_event_id r)) rs). lia.
Qed.

Lemma NoDup_map_filter {A B} (f : A -> B) p (l : list A) : NoDup (map f l) -> NoDup (map f (List.filter p l)).
Proof.
  induction l as [|x l IH]; simpl; [done|]. intros [Hn Hl]%NoDup_cons.
  destruct (p x); simpl; [|auto]. apply NoDup_cons. split; [|auto].
  rewrite list_elem_of_In, in_map_iff. intros (y & E & [Hy _]%filter_In). apply Hn.
  rewrite <- E. apply list_elem_of_In, in_map. done.
Qed.

Lemma Forall_filter_keep {A} (P : A -> Prop) p (l : list A) : Forall P l -> Forall P (List.filter p l).
Proof. rewrite !List.Forall_forall. intros Hl x [Hx _]%filter_In. auto. Qed.

Lemma insert_batch_spec s rs b :
  store_inv s -> WriteBatch_new rs = Ok b ->
  Forall (fun r => record_id r ∉ map record_id (history s)) (absent_from (history s) rs) ->
  exists s', insert_batch s b
             = (s', Ok (mkBatchOutcome (length (absent_from (history s) rs))
                          (length rs - length (absent_from (history s) rs))))
    /\ store_inv s' /\ history s' ≡ₚ absent_from (history s) rs ++ history s
    /\ (absent_from (history s) rs = [] -> s' = s).
Proof.
  intros Hs (-> & Hv & He & Hr)%WriteBatch_new_Ok_iff Hf.
  unfold insert_batch. simpl. rewrite batch_phase1_spec by done. simpl.
  rewrite old_records_length, new_records_absent by done. eexists. split; [done|].
  destruct (commits_spec (absent_from (history s) rs) s) as [Hs' Hh]; try done.
  - by apply Forall_filter_keep.
  - by apply NoDup_map_filter.
  - by apply NoDup_map_filter.
  - rewrite Forall_forall in *. intros r Hin. split; [|by apply Hf].
    apply list_elem_of_In, filter_In in Hin as [_ Hin]. by apply bool_decide_eq_true in Hin.
  - split; [done|]. split; [done|]. by intros ->.
Qed.

(** C35 A batch built by [WriteBatch::new] is never refused, and committing it
    is the same as inserting its records one by one: the same final store, and
    the counts of the outcomes the insertions report. *)
Theorem insert_batch_sequential s recs b :
  WriteBatch_new recs = Ok b ->
  insert_batch s b =
    (fst (insert_all s recs),
     Ok (mkBatchOutcome (fst (snd (insert_all s recs))) (snd (snd (insert_all s recs))))).
Proof.
  intros (-> & Hv & Hne & _)%WriteBatch_new_Ok_iff.
  unfold insert_batch. simpl. rewrite batch_phase1_spec by done.
  by rewrite insert_all_spec by done.
Qed.

(** C1 Inserting keeps the representation invariant and the history
    append-only and idempotent: for a store satisfying the invariant, [insert]
    of any record whose record id is new (or whose event is already present)
    leads to a store satisfying it; the history gains exactly the validated
    records whose event was absent; a repeated insertion changes nothing; and
    an invalid record changes nothing. *)
Theorem insert_append_only_idempotent s r :
  store_inv s ->
  (rec_event_id r ∉ map rec_event_id (history s) -> record_id r ∉ map record_id (history s)) ->
  let s' := fst (insert s r) in
  store_inv s'
  /\ match snd (insert s r) with
     | Ok Inserted => history s' ≡ₚ r :: history s
                      /\ AuditRecord_validate r = Ok tt
                      /\ rec_event_id r ∉ map rec_event_id (history s)
                      /\ get s' (record_id r) = Ok r
     | Ok DuplicateInsert => s' = s /\ rec_event_id r ∈ map rec_event_id (history s)
     | Err e => s' = s /\ exists e', AuditRecord_validate r = Err e' /\ e = StoreError_from_core e'
     end
  /\ (AuditRecord_validate r = Ok tt -> insert s' r = (s', Ok DuplicateInsert)).
Proof.
  intros Hs Hfresh. destruct (AuditRecord_validate r) as [[]|e] eqn:Hv.
  - destruct (decide (rec_event_id r ∈ map rec_event_id (history s))) as [Hin|Hin].
    + rewrite (insert_duplicate_spec s r Hs Hv Hin). simpl. split; [done|]. split; [done|].
      intros _. by apply insert_duplicate_spec.
    + destruct (insert_fresh_spec s r Hs Hv (conj Hin (Hfresh Hin))) as (s' & E & Hs' & Hh).
      rewrite E. simpl. split; [done|].
      assert (In r (history s')) as Hr by (apply list_elem_of_In; rewrite Hh; apply elem_of_cons; auto).
      split; [eauto using history_get|].
      intros _. apply insert_duplicate_spec; [done | done |]. by apply list_elem_of_In, in_map.
  - unfold insert. rewrite Hv. simpl. split; [done|]. split; [eauto|]. done.
Qed.

(** Concrete inputs: a batch of two records, one of them already stored. *)
Definition stored_one : MemoryEventStore := fst (insert MemoryEventStore_new (sample_record "a" 10)).
Definition batch_two : list AuditRecord := [sample_record "a" 10; sample_record "b" 20].

Lemma insert_batch_sequential_witness :
  insert_batch stored_one (mkWriteBatch batch_two)
  = (fst (insert_all stored_one batch_two), Ok (mkBatchOutcome 1 1)).
Proof.
  exact (insert_batch_sequential stored_one batch_two (mkWriteBatch batch_two) eq_refl).
Defined.

Lemma insert_append_only_idempotent_witness :
  history stored_one ≡ₚ [sample_record "a" 10]
  /\ insert stored_one (sample_record "a" 10) = (stored_one, Ok DuplicateInsert).
Proof.
  destruct (insert_append_only_idempotent MemoryEventStore_new (sample_record "a" 10)) as (_ & (Hh & Hv & _) & Hd).
  - exact store_inv_new.
  - intros _. by apply not_elem_of_nil.
  - split; [exact Hh | by apply Hd].
Defined.
