(* ===== verification/MemoryPaging.v ===== *)
(** * The in-memory store keeps the storage contract

    Position lookup in a sorted history, the pages [query] serves, and the
    instance of [EventStoreLaws]. *)

From S2P Require Import Prelude Text BTree Errors Identifiers Timestamps Correlation Events.
From S2P Require Import IntegrityModel Records Pagination Storage MemoryStore.
Open Scope nat_scope.
Open Scope list_scope.

(** Strict order of the records of a view. *)
Definition view_lt (sort : SortDirection) (a b : AuditRecord) : Prop :=
  match sort with
  | Ascending => compare (PositionKey_of a) (PositionKey_of b) = Lt
  | Descending => compare (PositionKey_of b) (PositionKey_of a) = Lt
  end.

Section SortedLists.
Context {A : Type} (R : A -> A -> Prop).

Lemma StronglySorted_filter (p : A -> bool) l : StronglySorted R l -> StronglySorted R (List.filter p l).
Proof.
  induction 1 as [|x l Hl IH Hx]; simpl; [constructor|]. destruct (p x); [|done].
  constructor; [done|]. apply Forall_forall. intros y Hy.
  rewrite list_elem_of_In, filter_In, <- list_elem_of_In in Hy. destruct Hy.
  rewrite Forall_forall in Hx. auto.
Qed.

Lemma StronglySorted_app_iff l k :
  StronglySorted R (l ++ k) <->
  StronglySorted R l /\ StronglySorted R k /\ (forall x y, x ∈ l -> y ∈ k -> R x y).
Proof.
  induction l as [|x l IH]; simpl.
  - split; [|tauto]. intros Hk. repeat split; [constructor | done | by intros ? ? ?%elem_of_nil].
  - split.
    + intros [(Hl & Hk & Hlk)%IH [Hxl Hxk]%Forall_app]%StronglySorted_inv.
      split; [by constructor|]. split; [done|]. rewrite Forall_forall in Hxk.
      intros a b [->|Ha]%elem_of_cons Hb; auto.
    + intros ([Hl Hx]%StronglySorted_inv & Hk & Hlk). constructor.
      * apply IH. repeat split; [done | done |]. intros; apply Hlk; [by apply elem_of_cons; right | done].
      * apply Forall_app. split; [done|]. apply Forall_forall. intros y Hy. apply Hlk; [|done].
        apply elem_of_cons. auto.
Qed.
End SortedLists.

Lemma StronglySorted_rev {A} (R : A -> A -> Prop) l :
  StronglySorted R l -> StronglySorted (fun a b => R b a) (rev l).
Proof.
  induction 1 as [|x l Hl IH Hx]; simpl; [constructor|].
  apply StronglySorted_app_iff. split; [done|]. split; [by repeat constructor|].
  intros a b Ha ->%list_elem_of_singleton. rewrite Forall_forall in Hx. apply Hx.
  by rewrite list_elem_of_In, in_rev, <- list_elem_of_In.
Qed.

Lemma matched_view s q : matched s q = query_view q (history s).
Proof. unfold matched, query_view, history. by destruct (q_sort q). Qed.

Lemma view_sorted s q : store_inv s -> StronglySorted (view_lt (q_sort q)) (query_view q (history s)).
Proof.
  intros Hs. unfold query_view. pose proof (history_sorted s Hs) as Hh.
  destruct (q_sort q); apply StronglySorted_filter; [done | by apply StronglySorted_rev].
Qed.

(** The records of a view come from the history. *)
Lemma view_key_wf q h r :
  Forall (fun r => key_wf (PositionKey_of r)) h -> r ∈ query_view q h -> key_wf (PositionKey_of r).
Proof.
  intros Hwf Hin. rewrite Forall_forall in Hwf. apply Hwf. rewrite list_elem_of_In in *.
  unfold query_view in Hin. destruct (q_sort q); apply filter_In in Hin as [Hin _]; [done|].
  by apply in_rev.
Qed.

(** A record at or before the boundary is not past it; one after it is. *)
Lemma past_refl sort k : past sort k k = false.
Proof. unfold past. rewrite compare_refl. by case_decide. Qed.

Lemma past_before sort a b :
  view_lt sort a b -> past sort (PositionKey_of b) (PositionKey_of a) = false.
Proof.
  unfold past, view_lt. destruct sort; intros Hlt; [|rewrite compare_antisym]; rewrite Hlt; done.
Qed.

Lemma past_after sort a b :
  view_lt sort a b -> past sort (PositionKey_of a) (PositionKey_of b) = true.
Proof.
  unfold past, view_lt. destruct sort; intros Hlt; [rewrite compare_antisym|]; rewrite Hlt; done.
Qed.

Lemma position_or_len_app {A} (p : A -> bool) l k :
  Forall (fun x => p x = false) l -> position_or_len p (l ++ k) = length l + position_or_len p k.
Proof. induction 1 as [|x l Hx _ IH]; simpl; [done|]. by rewrite Hx, IH. Qed.

(** The position the store resumes from is the number of records served. *)
Lemma resume_position sort served r rest :
  StronglySorted (view_lt sort) ((served ++ [r]) ++ rest) ->
  position_or_len (fun x => past sort (PositionKey_of r) (PositionKey_of x)) ((served ++ [r]) ++ rest)
  = length (served ++ [r]).
Proof.
  intros (Hs & _ & Hlt)%StronglySorted_app_iff. rewrite position_or_len_app.
  - destruct rest as [|y rest]; simpl; [lia|]. rewrite past_after; [lia|]. apply Hlt; set_solver.
  - apply StronglySorted_app_iff in Hs as (_ & _ & Hl). apply Forall_app. split.
    + apply Forall_forall. intros x Hx. apply past_before, Hl; set_solver.
    + repeat constructor. apply past_refl.
Qed.

Lemma query_start_resume s q served rest c :
  store_inv s -> Forall (fun r => key_wf (PositionKey_of r)) (history s) ->
  query_view q (history s) = served ++ rest -> resume_point served c ->
  query_start q (query_view q (history s)) c = Ok (length served).
Proof.
  intros Hs Hwf Hv Hc. pose proof (view_sorted s q Hs) as Hsort. rewrite Hv in *.
  unfold resume_point in Hc. destruct served as [|r served _] using rev_ind; [simpl in Hc; by subst c|].
  rewrite last_snoc in Hc.
  assert (key_wf (PositionKey_of r)) as Hk by (apply (view_key_wf q (history s)); [done | rewrite Hv; set_solver]).
  rewrite (to_cursor_wf _ Hk) in Hc. subst c. unfold query_start. rewrite from_cursor_raw by done.
  simpl. by rewrite resume_position.
Qed.

(** [end] and the slice in terms of what is left to serve. *)
Lemma take_clamped {A} n (l : list A) : take (Nat.min n (length l)) l = take n l.
Proof.
  destruct (Nat.le_ge_cases n (length l)) as [Hl|Hl].
  - by rewrite Nat.min_l.
  - rewrite Nat.min_r by done. by rewrite !take_ge.
Qed.

Lemma last_take_lookup {A} (l : list A) n :
  0 < n -> n < length l -> last (take n l) = l !! (n - 1).
Proof.
  intros H0 Hn. rewrite last_lookup, length_take, Nat.min_l by lia.
  rewrite lookup_take_lt by lia. by replace (pred n) with (n - 1) by lia.
Qed.

Lemma query_serves_rest s q limit served rest c :
  store_inv s -> Forall (fun r => key_wf (PositionKey_of r)) (history s) ->
  (1 <= limit <= MAX_PAGE_SIZE)%Z -> query_view q (history s) = served ++ rest ->
  resume_point served c ->
  query s q (mkPageRequest limit c) = Some (Ok (serve (Z.to_nat limit) rest)).
Proof.
  intros Hs Hwf Hl Hv Hc. unfold query. rewrite matched_view. simpl pr_cursor. simpl pr_limit.
  rewrite (query_start_resume s q served rest c Hs Hwf Hv Hc), Hv, drop_app_length, length_app.
  set (n := Z.to_nat limit). assert (0 < n) as Hn by (unfold n; lia).
  replace (Nat.min (length served + n) (length served + length rest))
    with (length served + Nat.min n (length rest)) by lia.
  replace (length served + Nat.min n (length rest) - length served)
    with (Nat.min n (length rest)) by lia.
  rewrite take_clamped. unfold serve.
  destruct (Nat.ltb_spec n (length rest)) as [Hlt|Hge].
  - rewrite Nat.min_l by lia.
    rewrite (proj2 (Nat.ltb_lt (length served + n) _)), (proj2 (Nat.ltb_lt (length served) _)) by lia.
    simpl. rewrite lookup_app_r by lia.
    replace (length served + n - 1 - length served) with (n - 1) by lia.
    rewrite last_take_lookup by lia. destruct (lookup_lt_is_Some_2 rest (n - 1)) as [r Hr]; [lia|].
    rewrite Hr. apply list_elem_of_lookup_2 in Hr.
    by rewrite (to_cursor_wf (PositionKey_of r)) by (apply (view_key_wf q (history s)); [done | rewrite Hv; set_solver]).
  - rewrite Nat.min_r by lia. by rewrite Nat.ltb_irrefl.
Qed.

#[export] Instance MemoryEventStore_laws : EventStoreLaws MemoryEventStore.
Proof.
  refine {| es_inv := store_inv; es_history := history |}; simpl.
  - apply history_sorted.
  - apply history_valid.
  - intros s Hs. split; apply NoDup_map_history; eauto using event_id_inj, record_id_inj.
  - apply insert_fresh_spec.
  - apply insert_duplicate_spec.
  - intros s r e He. unfold insert. by rewrite He.
  - apply insert_batch_spec.
  - intros s e Hs. unfold contains_event. f_equal. symmetry.
    destruct (has_event s e) eqn:E.
    + apply bool_decide_eq_true. by apply has_event_iff.
    + apply bool_decide_eq_false. rewrite <- (has_event_iff s Hs). congruence.
  - intros s r Hs Hin%list_elem_of_In. by apply history_get.
  - intros s i r Hs Hg. rewrite list_elem_of_In. by apply history_get_sound.
  - intros s r Hs Hin%list_elem_of_In. by apply history_get_by_event.
  - intros s Hs. unfold store_len, history, bt_values. by rewrite length_map.
  - apply query_serves_rest.
Defined.
