(* ===== verification/LivePaging.v ===== *)
(** * Paging while history grows

    A client pages through a query while writers keep appending: the pages of the
    scan come from different states of one growing history.  What the client ends
    up with, in terms of the storage contract. *)

From S2P Require Import Prelude Text BTree Errors Identifiers Timestamps Correlation Events.
From S2P Require Import IntegrityModel Records Samples Pagination Storage MemoryStore MemoryPaging.
Open Scope nat_scope.
Open Scope list_scope.

(** ** Views *)

Lemma view_lt_trans sort a b c : view_lt sort a b -> view_lt sort b c -> view_lt sort a c.
Proof. destruct sort; simpl; intros Hab Hbc; eapply compare_lt_trans; eauto. Qed.

Lemma view_lt_irrefl sort a : ~ view_lt sort a a.
Proof. destruct sort; simpl; by rewrite compare_refl. Qed.

Lemma elem_of_view q h r : r ∈ query_view q h <-> r ∈ h /\ matches q r = true.
Proof.
  unfold query_view. destruct (q_sort q); rewrite list_elem_of_In, filter_In, ?list_elem_of_In; [done|].
  by rewrite <- in_rev.
Qed.

Lemma view_sorted_of q h :
  StronglySorted (fun a b => compare (PositionKey_of a) (PositionKey_of b) = Lt) h ->
  StronglySorted (view_lt (q_sort q)) (query_view q h).
Proof.
  intros Hh. unfold query_view. destruct (q_sort q); apply StronglySorted_filter; [done | by apply StronglySorted_rev].
Qed.

(** Every member of a sorted list is at or before its last. *)
Lemma sorted_last sort l x r :
  StronglySorted (view_lt sort) l -> last l = Some r -> x ∈ l -> x = r \/ view_lt sort x r.
Proof.
  intros Hs Hl Hx. apply last_Some in Hl as [l' ->].
  apply StronglySorted_app_iff in Hs as (_ & _ & Hlt). apply elem_of_app in Hx as [Hx|Hx].
  - right. apply Hlt; [done | by apply list_elem_of_singleton].
  - left. by apply list_elem_of_singleton in Hx.
Qed.

(** A page without a cursor is the last. *)
Definition last_page (page : Page AuditRecord) : bool :=
  match page_next_cursor page with None => true | Some _ => false end.

Section Live.
Context {S : Type} `{EventStoreLaws S}.
Variables (q : AuditQuery) (limit : Z).
Hypothesis Hlimit : (1 <= limit <= MAX_PAGE_SIZE)%Z.

Local Abbreviation lt := (view_lt (q_sort q)).

(** A store whose history has machine-sized positions. *)
Definition pageable (s : S) : Prop :=
  es_inv s /\ Forall (fun r => key_wf (PositionKey_of r)) (es_history s).

(** The store only gained records. *)
Definition extended (s s' : S) : Prop := exists new, es_history s' ≡ₚ new ++ es_history s.

(** A scan begun at [s0]: the store now, what was served, the client's cursor,
    and whether the last page said there is no more. *)
Inductive live (s0 : S) : S -> list AuditRecord -> option Cursor -> bool -> Prop :=
| live_start : pageable s0 -> live s0 s0 [] None false
| live_grow s s' acc c fin :
    live s0 s acc c fin -> pageable s' -> extended s s' -> live s0 s' acc c fin
| live_page s acc c page :
    live s0 s acc c false -> es_query s q (mkPageRequest limit c) = Some (Ok page) ->
    live s0 s (acc ++ page_items page) (page_next_cursor page) (last_page page).

(** Still to come: nothing has been served yet, or the last served is before it. *)
Definition to_come (acc : list AuditRecord) (r : AuditRecord) : Prop :=
  match last acc with None => True | Some x => lt x r end.

Record scan_ok (s0 s : S) (acc : list AuditRecord) (c : option Cursor) (fin : bool) : Prop := {
  so_pageable : pageable s;
  so_sorted : StronglySorted lt acc;
  so_sound r : r ∈ acc -> r ∈ query_view q (es_history s);
  so_start r : r ∈ es_history s0 -> r ∈ es_history s;
  so_cursor : fin = false -> resume_point acc c;
  so_complete r : r ∈ query_view q (es_history s0) -> r ∈ acc \/ (fin = false /\ to_come acc r)
}.

(** The view splits where the scan stands. *)
Lemma scan_split s0 s acc c :
  scan_ok s0 s acc c false ->
  exists before rest, query_view q (es_history s) = before ++ rest /\ resume_point before c
    /\ (forall r, r ∈ rest <-> r ∈ query_view q (es_history s) /\ to_come acc r)
    /\ StronglySorted lt rest.
Proof.
  intros [[Hs _] Hsort Hsound _ Hc _]. specialize (Hc eq_refl).
  pose proof (view_sorted_of q _ (es_history_sorted s Hs)) as Hv. unfold resume_point, to_come in *.
  destruct (last acc) as [x|] eqn:El.
  2: { exists [], (query_view q (es_history s)). split; [done|]. split; [done|]. split; [naive_solver | done]. }
  pose proof (last_Some_elem_of _ _ El) as Hx. apply Hsound, list_elem_of_split in Hx as (l1 & l2 & E).
  rewrite E in Hv |- *. exists (l1 ++ [x]), l2. split; [by rewrite <- app_assoc|]. rewrite last_snoc. split; [done|].
  apply StronglySorted_app_iff in Hv as (_ & [Hl2 Hx2]%StronglySorted_inv & Hlt). split; [|done].
  rewrite Forall_forall in Hx2. intros r. split.
  - intros Hr. split; [set_solver | by apply Hx2].
  - intros [Hr Hxr]. apply elem_of_app in Hr as [Hr|[->|Hr]%elem_of_cons]; [| by apply view_lt_irrefl in Hxr | done].
    exfalso. apply (view_lt_irrefl (q_sort q) x). eapply view_lt_trans; [exact Hxr | apply Hlt; set_solver].
Qed.

(** The page served there. *)
Lemma scan_page s0 s acc c :
  scan_ok s0 s acc c false ->
  exists rest, es_query s q (mkPageRequest limit c) = Some (Ok (serve (Z.to_nat limit) rest))
    /\ (forall r, r ∈ rest <-> r ∈ query_view q (es_history s) /\ to_come acc r) /\ StronglySorted lt rest.
Proof.
  intros Hok. destruct (scan_split _ _ _ _ Hok) as (before & rest & E & Hb & Hr & Hsort).
  destruct Hok as [[Hs Hk] _ _ _ _ _]. exists rest. split; [|done].
  by apply (es_query_serves s q limit before rest c).
Qed.

Lemma scan_ok_page s0 s acc c page :
  scan_ok s0 s acc c false -> es_query s q (mkPageRequest limit c) = Some (Ok page) ->
  scan_ok s0 s (acc ++ page_items page) (page_next_cursor page) (last_page page).
Proof.
  intros Hok Eq. destruct (scan_page _ _ _ _ Hok) as (rest & Es & Hrest & Hsort).
  rewrite Es in Eq. injection Eq as <-. set (n := Z.to_nat limit). assert (0 < n) as Hn by (unfold n; lia).
  destruct Hok as [Hp Ha Hsound Hstart _ Hcomp]. unfold last_page, serve. cbn [page_items page_next_cursor].
  pose proof Hsort as Hsplit. rewrite <- (take_drop n rest) in Hsplit.
  apply StronglySorted_app_iff in Hsplit as (Ht & _ & Htd).
  assert (forall r, r ∈ take n rest -> r ∈ query_view q (es_history s) /\ to_come acc r) as Htake.
  { intros r Hr. apply Hrest. rewrite <- (take_drop n rest). set_solver. }
  assert (n < length rest -> exists r, last (take n rest) = Some r /\ is_Some (to_cursor (PositionKey_of r))
            /\ last (acc ++ take n rest) = Some r) as Hz.
  { intros Hlt. destruct (lookup_lt_is_Some_2 rest (n - 1)) as [r Hr]; [lia|].
    exists r. rewrite last_app, last_take_lookup, Hr by lia. split; [done|]. split; [|done].
    rewrite to_cursor_wf; [eauto|]. destruct Hp as [_ Hk]. apply (view_key_wf q (es_history s)); [done|].
    apply Hrest. by eapply list_elem_of_lookup_2. }
  constructor; [done | | | done | |].
  - apply StronglySorted_app_iff. split; [done|]. split; [done|]. intros x y Hx Hy%Htake.
    destruct Hy as [_ Hy]. unfold to_come in Hy. destruct (last acc) as [l|] eqn:El.
    + destruct (sorted_last _ _ _ _ Ha El Hx) as [->|Hxl]; [done | by eapply view_lt_trans].
    + apply last_None in El as ->. by apply elem_of_nil in Hx.
  - intros r [Hr|Hr%Htake]%elem_of_app; [by apply Hsound | by destruct Hr].
  - destruct (Nat.ltb_spec n (length rest)) as [Hlt|Hge]; [|done].
    destruct (Hz Hlt) as (r & -> & _ & Hl). intros _. unfold resume_point. by rewrite Hl.
  - intros r Hr. destruct (Hcomp r Hr) as [Hin|[_ Htc]]; [left; set_solver|].
    assert (r ∈ rest) as Hin.
    { apply Hrest. split; [|done]. apply elem_of_view in Hr as [Hr Hm]. apply elem_of_view. auto. }
    rewrite <- (take_drop n rest) in Hin. apply elem_of_app in Hin as [Hin|Hin]; [left; set_solver|]. right.
    assert (n < length rest) as Hlt.
    { destruct (decide (n < length rest)); [done|]. rewrite drop_ge in Hin by lia. by apply elem_of_nil in Hin. }
    destruct (Hz Hlt) as (z & El & [cz Hcz] & Hl). rewrite (proj2 (Nat.ltb_lt _ _) Hlt), El, Hcz.
    split; [done|]. unfold to_come. rewrite Hl. apply Htd; [|done]. by apply last_Some_elem_of.
Qed.

Lemma live_ok s0 s acc c fin : live s0 s acc c fin -> scan_ok s0 s acc c fin.
Proof.
  induction 1 as [Hp|s s' acc c fin _ IH Hp [new Hh]|s acc c page _ IH Eq].
  - constructor; try done; [constructor | by intros r ?%elem_of_nil|]. intros r Hr. right. done.
  - destruct IH as [_ Ha Hsound Hstart Hc Hcomp]. constructor; try done.
    + intros r Hr%Hsound. apply elem_of_view in Hr as [Hr Hm]. apply elem_of_view. split; [|done].
      rewrite Hh. apply elem_of_app. by right.
    + intros r Hr%Hstart. rewrite Hh. apply elem_of_app. by right.
  - by eapply scan_ok_page.
Qed.
End Live.

(** ** Claims *)

(** C20 A scan that writers interleave with is exact.  Let a client follow the
    cursors of the in-memory store from the first page to the last, the store
    gaining records at any moment in between.  Every page request is answered;
    the records served come in strict position order of the query, so none is
    served twice; each is a matching record of the store; and once a page says
    there is no more, every matching record that was there when the scan began
    has been served.  (A record added behind the cursor meanwhile is not.) *)
Theorem live_scan_exact q limit (s0 s : MemoryEventStore) served c finished :
  (1 <= limit <= MAX_PAGE_SIZE)%Z -> live q limit s0 s served c finished ->
  StronglySorted (view_lt (q_sort q)) served
  /\ (forall r, r ∈ served -> r ∈ history s /\ matches q r = true)
  /\ (finished = true -> forall r, r ∈ history s0 -> matches q r = true -> r ∈ served)
  /\ (finished = false -> exists page, query s q (mkPageRequest limit c) = Some (Ok page)
         /\ (last_page page = false -> page_items page <> [])).
Proof.
  intros Hl Hlive. pose proof (live_ok q limit Hl _ _ _ _ _ Hlive) as Hok.
  split; [apply Hok|]. split; [intros r Hr; by apply elem_of_view, (so_sound _ _ _ _ _ _ Hok)|]. split.
  - intros -> r Hr Hm. pose proof (so_complete _ _ _ _ _ _ Hok r) as Hc.
    destruct Hc as [Hin|[Hf _]]; [by apply elem_of_view | exact Hin | discriminate Hf].
  - intros ->. destruct (scan_page q limit Hl _ _ _ _ Hok) as (rest & E & _). exists (serve (Z.to_nat limit) rest).
    split; [exact E|]. unfold last_page, serve. cbn [page_items page_next_cursor]. destruct (Nat.ltb_spec (Z.to_nat limit) (length rest)); [|done].
    intros _ Ht. apply (f_equal length) in Ht. rewrite length_take in Ht. simpl in Ht. lia.
Qed.

(** ** A scan of two records, with two more arriving after its first page *)

Definition position_okb (r : AuditRecord) : bool :=
  match PositionKey_of r with
  | mkPositionKey None None None t id =>
      (i64_min <=? t)%Z && (t <=? i64_max)%Z && (str_len (as_str id) <=? 64)%Z
      && match from_checked (as_str id) with Ok id' => bool_decide (id' = id) | Err _ => false end
  | _ => false
  end.

Lemma position_okb_wf r : position_okb r = true -> key_wf (PositionKey_of r).
Proof.
  unfold position_okb. destruct (PositionKey_of r) as [[|] [|] [|] t id]; try done.
  rewrite !andb_true_iff, !Z.leb_le. intros [[[Hlo Hhi] Hlen] Hid].
  constructor; simpl; try done. unfold id_wf. destruct (from_checked _); [|done].
  by apply bool_decide_eq_true in Hid as ->.
Qed.

Lemma insert_pageable (s : MemoryEventStore) r :
  pageable s -> AuditRecord_validate r = Ok tt -> fresh_in (history s) r -> position_okb r = true ->
  pageable (fst (insert s r)) /\ extended s (fst (insert s r)).
Proof.
  intros [Hs Hk] Hv Hf Hp. destruct (insert_fresh_spec s r Hs Hv Hf) as (s' & -> & Hs' & Hh).
  split; [split; [exact Hs'|]|by exists [r]]. cbn [fst es_history MemoryEventStore_laws]. rewrite Hh.
  constructor; [by apply position_okb_wf | exact Hk].
Qed.

Definition arrives (s : MemoryEventStore) (n : string) (t : Z) : MemoryEventStore := fst (insert s (sample_record n t)).
Definition early : MemoryEventStore := arrives (arrives MemoryEventStore_new "0b" 6) "0d" 8.
Definition grown : MemoryEventStore := arrives (arrives early "0a" 5) "0c" 7.
Definition everything : AuditQuery := build_unchecked AuditQuery_builder.

Local Ltac arrived s := apply (insert_pageable s);
  [| reflexivity | split; apply (bool_decide_unpack _); vm_compute; exact I | reflexivity].

Lemma early_pageable : pageable early.
Proof.
  unfold early, arrives. arrived (arrives MemoryEventStore_new "0b" 6). arrived MemoryEventStore_new.
  split; [exact store_inv_new | constructor].
Qed.

Lemma grown_pageable : pageable grown /\ extended early grown.
Proof.
  destruct (insert_pageable early (sample_record "0a" 5)) as [Hp [n1 He]];
    [exact early_pageable | reflexivity | split; apply (bool_decide_unpack _); vm_compute; exact I | reflexivity |].
  destruct (insert_pageable (arrives early "0a" 5) (sample_record "0c" 7)) as [Hp' [n2 He']];
    [exact Hp | reflexivity | split; apply (bool_decide_unpack _); vm_compute; exact I | reflexivity |].
  split; [exact Hp'|]. exists (n2 ++ n1). rewrite <- app_assoc, <- He. exact He'.
Qed.

(** The late record ahead of the cursor is served, the one behind it is not. *)
Lemma interleaved :
  live everything 1 early grown [sample_record "0b" 6; sample_record "0c" 7; sample_record "0d" 8] None true.
Proof.
  destruct (query early everything (mkPageRequest 1 None)) as [[p1|]|] eqn:E1; vm_compute in E1; try discriminate E1.
  injection E1 as <-.
  pose proof (live_page everything 1 early early [] None _ (live_start _ _ _ early_pageable) ltac:(vm_compute; reflexivity)) as H1'.
  pose proof (live_grow _ _ _ _ grown _ _ _ H1' (proj1 grown_pageable) (proj2 grown_pageable)) as H2'.
  pose proof (live_page everything 1 early grown _ _ _ H2' ltac:(vm_compute; reflexivity)) as H3'.
  exact (live_page everything 1 early grown _ _ _ H3' ltac:(vm_compute; reflexivity)).
Qed.

Lemma live_scan_exact_witness :
  sample_record "0d" 8 ∈ [sample_record "0b" 6; sample_record "0c" 7; sample_record "0d" 8].
Proof.
  apply (proj1 (proj2 (proj2 (live_scan_exact everything 1 early grown _ None true
           ltac:(unfold MAX_PAGE_SIZE; lia) interleaved))) eq_refl); [|reflexivity].
  apply (bool_decide_unpack _). vm_compute. exact I.
Defined.
