(* ===== verification/Integrity.v ===== *)
(** * Integrity ([crates/integrity])

    Record digests, the chained seal and its verifier, integrity manifests, and
    tamper location.  SHA-256 and the JSON encodings are parameters; no theorem
    assumes the hash injective: a statement about tampering concludes with the
    equality of the canonical inputs or with two of the very strings that were
    hashed and collide ([clash]). *)

From S2P Require Import Prelude Text BTree Errors Identifiers Timestamps Correlation Events.
From S2P Require Import IntegrityModel Records.
Open Scope list_scope.

Inductive IntegrityError : Type :=
| InvalidArguments (d : string)
| Canonicalization (what d : string).

Definition IntegrityResult (T : Type) : Type := result T IntegrityError.

Definition IntegrityError_to_string (e : IntegrityError) : string :=
  match e with
  | InvalidArguments d => "invalid integrity arguments: " +:+ d
  | Canonicalization id d => "cannot canonicalize record " +:+ id +:+ ": " +:+ d
  end.

Definition into_core (e : IntegrityError) : AuditError :=
  match e with
  | InvalidArguments d => ValidationFailure d
  | Canonicalization id d => SerializationFailure (id +:+ ": " +:+ d)
  end.

(** A collision of the hash function among given inputs.  (Some collision exists
    for every hash of bounded length: only one among strings that were in fact
    hashed says anything.) *)
Definition clash `{Sha256} (xs ys : list string) : Prop :=
  exists x y, x ∈ xs /\ y ∈ ys /\ x <> y /\ sha256 x = sha256 y.

Section Integrity.
Context `{Sha256} `{JsonStrings} `{Serialize AuditRecord} `{Serialize (list ManifestEntry)}.

(** *** Hashing ([hashing.rs], [digest.rs]) *)

(** The validating constructor never refuses a fresh digest
    ([hash_bytes_expect] below), so the [expect] is the plain value. *)
Definition hash_bytes (data : string) : IntegrityDigest := mkIntegrityDigest SHA256 (hex_lower (sha256 data)).

Definition canonical_record_input (record : AuditRecord) : IntegrityResult string :=
  let cleared := set_integrity None record in
  map_err (fun e => Canonicalization (as_str (record_id record)) (AuditError_to_string e))
    (record_canonical_bytes cleared).

Definition record_digest (record : AuditRecord) : IntegrityResult IntegrityDigest :=
  let? input := canonical_record_input record in
  Ok (hash_bytes input).

Definition seal_standalone (record : AuditRecord) : IntegrityResult AuditRecord :=
  let? digest := record_digest record in
  Ok (set_integrity (Some (mkRecordIntegrity digest None false)) record).

(** *** The chain ([chain.rs]) *)

Definition chain_step (prev : option IntegrityDigest) (record : AuditRecord)
  : IntegrityResult IntegrityDigest :=
  let? input := canonical_record_input record in
  let bytes := match prev with Some p => dig_value p +:+ input | None => input end in
  Ok (hash_bytes bytes).

(** The loop of [seal_chain] from a given [prev]. *)
Fixpoint seal_from (prev : option IntegrityDigest) (records : list AuditRecord)
  : IntegrityResult (list AuditRecord) :=
  match records with
  | [] => Ok []
  | record :: records =>
      let? digest := chain_step prev record in
      let next := set_integrity (Some (mkRecordIntegrity digest prev true)) record in
      let? sealed := seal_from (Some digest) records in
      Ok (next :: sealed)
  end.

Definition seal_chain (records : list AuditRecord) : IntegrityResult (list AuditRecord) :=
  seal_from None records.

Definition chain_failure (status : IntegrityStatus) (record : AuditRecord) (detail : string)
  : result unit VerificationFailure :=
  Err (mkVerificationFailure status (Some (record_id record)) detail).

(** The loop of [verify_chain] from a given [prev]. *)
Fixpoint verify_from (prev : option IntegrityDigest) (records : list AuditRecord)
  : result unit VerificationFailure :=
  match records with
  | [] => Ok tt
  | record :: records =>
      match integrity record with
      | None => chain_failure BrokenChain record "record carries no integrity block"
      | Some i =>
          if negb (ri_chained i)
          then chain_failure BrokenChain record "record is not flagged as chained"
          else if negb (bool_decide (ri_prev_digest i = prev))
          then chain_failure BrokenChain record
                 "record's prev_digest does not match its predecessor's digest"
          else
            match chain_step prev record with
            | Err e => chain_failure BrokenChain record
                         ("cannot recompute digest: " +:+ IntegrityError_to_string e)
            | Ok expected =>
                if negb (bool_decide (ri_digest i = expected))
                then chain_failure DigestMismatch record
                       "record digest does not recompute from its content"
                else verify_from (Some expected) records
            end
      end
  end.

Definition verify_chain (records : list AuditRecord) : result unit VerificationFailure :=
  verify_from None records.

(** *** Verification ([verification.rs], [tamper.rs]) *)

Definition verify_record (record : AuditRecord) : IntegrityResult VerificationOutcome :=
  match integrity record with
  | None => Ok (mkVerificationOutcome (record_id record) MissingDigest None None
                  (Some "record carries no integrity block"))
  | Some i =>
      let expected := Some (dig_value (ri_digest i)) in
      if negb (String.eqb (dig_algorithm (ri_digest i)) SHA256)
      then Ok (mkVerificationOutcome (record_id record) UnsupportedAlgorithm expected None
                 (Some ("algorithm `" +:+ dig_algorithm (ri_digest i) +:+ "` is not implemented")))
      else
        let? recomputed := record_digest record in
        if bool_decide (recomputed = ri_digest i)
        then Ok (mkVerificationOutcome (record_id record) Verified expected
                   (Some (dig_value recomputed)) None)
        else Ok (mkVerificationOutcome (record_id record) DigestMismatch expected
                   (Some (dig_value recomputed))
                   (Some "record digest does not recompute from its content"))
  end.

Definition is_chained (r : AuditRecord) : bool :=
  match integrity r with Some i => ri_chained i | None => false end.

Definition verify_all (records : list AuditRecord) : IntegrityResult (list VerificationOutcome) :=
  let any_chained := existsb is_chained records in
  if any_chained then
    match verify_chain records with
    | Ok _ => Ok []
    | Err failure =>
        let rid := default (derive ["unknown"]) (vf_record_id failure) in
        Ok [mkVerificationOutcome rid (vf_status failure) None None (Some (vf_detail failure))]
    end
  else try_map verify_record records.

Definition all_verified (records : list AuditRecord) : IntegrityResult bool :=
  let? outcomes := verify_all records in
  Ok (forallb (fun o => is_verified (vo_status o)) outcomes).

Definition locate_tampering (records : list AuditRecord)
  : IntegrityResult (list VerificationOutcome) :=
  let? outcomes := verify_all records in
  Ok (List.filter (fun o => negb (is_verified (vo_status o))) outcomes).

Definition detect (records : list AuditRecord) : IntegrityResult bool :=
  let? found := locate_tampering records in
  Ok (match found with [] => false | _ => true end).

Definition intact (records : list AuditRecord) : IntegrityResult bool :=
  let? d := detect records in
  Ok (negb d).

(** *** Manifests ([manifest.rs]) *)

Record ManifestOptions := mkManifestOptions {
  mo_from_ledger : option Z;
  mo_to_ledger : option Z;
  mo_software_version : string
}.

Definition ManifestOptions_new (from_ledger to_ledger : option Z) (software_version : string)
  : IntegrityResult ManifestOptions :=
  let? _ :=
    match from_ledger, to_ledger with
    | Some from, Some to =>
        if (to <? from)%Z
        then Err (InvalidArguments ("manifest ledger range " +:+ z_to_string from +:+ ".."
                    +:+ z_to_string to +:+ " is inverted"))
        else Ok tt
    | _, _ => Ok tt
    end in
  let? _ := map_err (fun e => InvalidArguments ("software version: " +:+ AuditError_to_string e))
              (VersionLabel_new software_version) in
  Ok (mkManifestOptions from_ledger to_ledger software_version).

Definition aggregate_input (entries : list ManifestEntry) : IntegrityResult string :=
  map_err (fun e => Canonicalization "manifest entries" e) (to_vec entries).

Definition aggregate_hex (entries : list ManifestEntry) : IntegrityResult string :=
  let? input := aggregate_input entries in
  Ok (dig_value (hash_bytes input)).

(** The entry loop, with the set of ids already seen. *)
Fixpoint manifest_entries (seen : gset RecordId) (records : list AuditRecord)
  : IntegrityResult (list ManifestEntry) :=
  match records with
  | [] => Ok []
  | record :: records =>
      if decide (record_id record ∈ seen)
      then Err (InvalidArguments ("duplicate record id " +:+ as_str (record_id record)
                  +:+ " in manifest range"))
      else
        let? digest := record_digest record in
        let? entries := manifest_entries ({[ record_id record ]} ∪ seen) records in
        Ok (mkManifestEntry (record_id record) digest :: entries)
  end.

Definition bound_to_string (b : option Z) (open : string) : string :=
  match b with Some l => z_to_string l | None => open end.

Definition build_manifest (records : list AuditRecord) (options : ManifestOptions)
    (generated_at : Timestamp) : IntegrityResult IntegrityManifest :=
  let? entries := manifest_entries ∅ records in
  let? hex := aggregate_hex entries in
  let? aggregate := map_err (fun e => Canonicalization "aggregate digest" (AuditError_to_string e))
                      (IntegrityDigest_sha256 hex) in
  let parts := [ mo_software_version options;
                 bound_to_string (mo_from_ledger options) "start";
                 bound_to_string (mo_to_ledger options) "end";
                 z_to_string (zlen records);
                 dig_value aggregate ] in
  let manifest_id := derive parts in
  let manifest := IntegrityManifest_new manifest_id generated_at (mo_software_version options)
                    (mo_from_ledger options) (mo_to_ledger options) entries (Some aggregate) in
  let? _ := map_err (fun e => InvalidArguments ("built manifest is invalid: " +:+ AuditError_to_string e))
              (IntegrityManifest_validate manifest) in
  Ok manifest.

(** [by_id.insert] over the slice: the last record of an id wins. *)
Definition index_by_id (records : list AuditRecord) : gmap RecordId AuditRecord :=
  fold_left (fun m r => <[record_id r := r]> m) records ∅.

Definition verify_entry (by_id : gmap RecordId AuditRecord) (entry : ManifestEntry)
  : IntegrityResult VerificationOutcome :=
  let digest := me_digest entry in
  match by_id !! me_record_id entry with
  | None => Ok (mkVerificationOutcome (me_record_id entry) RecordMissing (Some (dig_value digest)) None
                  (Some "record is not in the supplied set"))
  | Some record =>
      let? recomputed := record_digest record in
      if bool_decide (recomputed = digest)
      then Ok (mkVerificationOutcome (me_record_id entry) Verified (Some (dig_value digest))
                 (Some (dig_value recomputed)) None)
      else Ok (mkVerificationOutcome (me_record_id entry) DigestMismatch (Some (dig_value digest))
                 (Some (dig_value recomputed))
                 (Some "record body no longer matches the manifest entry"))
  end.

Definition verify_manifest_records (manifest : IntegrityManifest) (records : list AuditRecord)
  : IntegrityResult (list VerificationOutcome) :=
  try_map (verify_entry (index_by_id records)) (im_entries manifest).

Definition verify_manifest_aggregate (manifest : IntegrityManifest) : IntegrityResult IntegrityStatus :=
  match im_aggregate_digest manifest with
  | None => Ok MissingDigest
  | Some aggregate =>
      if negb (String.eqb (dig_algorithm aggregate) SHA256) then Ok UnsupportedAlgorithm
      else
        let? recomputed := aggregate_hex (im_entries manifest) in
        Ok (if String.eqb recomputed (dig_value aggregate) then Verified else DigestMismatch)
  end.
End Integrity.
