(* ===== verification/IntegrityProofs.v ===== *)
(** * Integrity: what sealing and verification guarantee

    Sealing verifies, verification accepts exactly the sealed histories, a
    verified chain with the same final digest has the same content (or two of
    the strings hashed collide), and manifests check what they were built from. *)

From S2P Require Import Prelude Text BTree Errors Identifiers Timestamps Correlation Events.
From S2P Require Import IntegrityModel Records Samples Integrity.
Open Scope list_scope.

(** Documented behaviour of [serde_json] on a struct: the encoding is a JSON
    object, so it starts with a brace. *)
Class JsonObject (A : Type) `{Serialize A} : Prop :=
  json_object : forall (x : A) b, to_vec x = Ok b -> exists t, b = String "{"%char t.

(** ** Hexadecimal encoding is injective *)

Lemma hex_pair_inj (a b : ascii) :
  hex_digit (N.shiftr (N_of_ascii a) 4) = hex_digit (N.shiftr (N_of_ascii b) 4) ->
  hex_digit (N.land (N_of_ascii a) 15) = hex_digit (N.land (N_of_ascii b) 15) -> a = b.
Proof.
  intros E1 E2.
  assert (forall n m, (n < 16)%N -> (m < 16)%N -> hex_digit n = hex_digit m -> n = m) as Hinj.
  { intros n m Hn Hm E.
    assert (forallb (fun i => forallb (fun j =>
      implb (Ascii.eqb (hex_digit (N.of_nat i)) (hex_digit (N.of_nat j))) (i =? j)%nat)
      (seq 0 16)) (seq 0 16) = true) as Hall by reflexivity.
    rewrite forallb_forall in Hall. specialize (Hall (N.to_nat n) ltac:(apply in_seq; lia)).
    rewrite forallb_forall in Hall. specialize (Hall (N.to_nat m) ltac:(apply in_seq; lia)).
    rewrite !N2Nat.id, E, Ascii.eqb_refl in Hall. simpl in Hall. apply Nat.eqb_eq in Hall. lia. }
  pose proof (N_of_ascii_bounded a). pose proof (N_of_ascii_bounded b).
  change 15%N with (N.ones 4) in E2. rewrite !N.land_ones in E2. rewrite !N.shiftr_div_pow2 in E1.
  change (2 ^ 4)%N with 16%N in *.
  apply Hinj in E1; [|by apply N.Div0.div_lt_upper_bound | by apply N.Div0.div_lt_upper_bound].
  apply Hinj in E2; [|by apply N.mod_lt | by apply N.mod_lt].
  rewrite <- (ascii_N_embedding a), <- (ascii_N_embedding b). f_equal.
  rewrite (N.div_mod (N_of_ascii a) 16), (N.div_mod (N_of_ascii b) 16) by done. congruence.
Qed.

Lemma hex_lower_inj s t : hex_lower s = hex_lower t -> s = t.
Proof.
  revert t. induction s as [|a s IH]; intros [|b t]; try done.
  change (hex_lower (String a s)) with
    (String (hex_digit (N.shiftr (N_of_ascii a) 4))
       (String (hex_digit (N.land (N_of_ascii a) 15)) (hex_lower s))).
  change (hex_lower (String b t)) with
    (String (hex_digit (N.shiftr (N_of_ascii b) 4))
       (String (hex_digit (N.land (N_of_ascii b) 15)) (hex_lower t))).
  intros [= E1 E2 E3]. f_equal; [by apply hex_pair_inj | by apply IH].
Qed.

Section Proofs.
Context `{Sha256} `{JsonStrings} `{Serialize AuditRecord} `{Serialize (list ManifestEntry)}.

(** ** Digests do not depend on the integrity slot *)

Lemma canonical_input_set_integrity i r :
  canonical_record_input (set_integrity i r) = canonical_record_input r.
Proof. reflexivity. Qed.
Lemma record_digest_set_integrity i r : record_digest (set_integrity i r) = record_digest r.
Proof. reflexivity. Qed.
Lemma chain_step_set_integrity p i r : chain_step p (set_integrity i r) = chain_step p r.
Proof. reflexivity. Qed.
Hint Rewrite canonical_input_set_integrity record_digest_set_integrity chain_step_set_integrity : audit.

Lemma set_integrity_same r i : integrity r = i -> set_integrity i r = r.
Proof. by destruct r; intros <-. Qed.

Lemma clash_app_l xs xs' ys : clash xs ys -> clash (xs ++ xs') ys.
Proof. intros (x & y & Hx & Hy & Hc). exists x, y. split; [apply elem_of_app; by left | done]. Qed.

Lemma clash_app_r xs ys ys' : clash xs ys -> clash xs (ys ++ ys').
Proof. intros (x & y & Hx & Hy & Hc). exists x, y. split; [done|]. split; [apply elem_of_app; by left | done]. Qed.

(** Equal digests of two inputs: equal inputs, or these collide. *)
Lemma hash_bytes_eq x y xs ys :
  x ∈ xs -> y ∈ ys -> hash_bytes x = hash_bytes y -> x = y \/ clash xs ys.
Proof.
  intros Hx Hy [= E%hex_lower_inj]. destruct (string_dec x y) as [|Hne]; [by left|].
  right. by exists x, y.
Qed.

(** ** The chain *)

(** Verification accepts exactly what sealing would produce again. *)
Lemma verify_from_iff prev l : verify_from prev l = Ok tt <-> seal_from prev l = Ok l.
Proof.
  revert prev. induction l as [|r l IH]; intros prev; simpl; [done|]. split.
  - destruct (integrity r) as [i|] eqn:Ei; [|done].
    destruct (negb (ri_chained i)) eqn:Ec; [done|].
    case_bool_decide as Ep; [simpl|done].
    destruct (chain_step prev r) as [d|e] eqn:Es; [|done].
    case_bool_decide as Ed; [simpl|done].
    intros Hl%IH. rewrite Hl. simpl.
    rewrite set_integrity_same; [done|]. rewrite Ei. f_equal.
    destruct i; simpl in *. apply negb_false_iff in Ec. by subst.
  - intros Hs. ok_inv.
    assert (integrity r = Some (mkRecordIntegrity v prev true)) as Ei by by rewrite <- Hs.
    rewrite Ei. simpl. rewrite bool_decide_true by done. simpl.
    rewrite Hok, bool_decide_true by done. simpl. by apply IH.
Qed.

Lemma seal_from_idem prev l l' : seal_from prev l = Ok l' -> seal_from prev l' = Ok l'.
Proof.
  revert prev l'. induction l as [|r l IH]; intros prev l'; simpl; intros Hs; ok_inv; [done|].
  simpl. rewrite chain_step_set_integrity, Hok. simpl. by rewrite (IH _ _ Hok0).
Qed.

Lemma seal_from_body prev l l' :
  seal_from prev l = Ok l' -> map (set_integrity None) l' = map (set_integrity None) l.
Proof.
  revert prev l'. induction l as [|r l IH]; intros prev l'; simpl; intros Hs; ok_inv; [done|].
  simpl. f_equal. eauto.
Qed.

Lemma seal_from_total prev l :
  Forall (fun r => is_ok (canonical_record_input r) = true) l ->
  exists l', seal_from prev l = Ok l'.
Proof.
  intros Hl. revert prev. induction Hl as [|r l Hr _ IH]; intros prev; simpl; [eauto|].
  unfold chain_step. destruct (canonical_record_input r) as [b|]; [simpl|done].
  match goal with |- context [seal_from ?p l] => destruct (IH p) as [l' ->] end. simpl. eauto.
Qed.

(** The digest a chain ends with. *)
Fixpoint final_digest (prev : option IntegrityDigest) (l : list AuditRecord)
  : IntegrityResult (option IntegrityDigest) :=
  match l with
  | [] => Ok prev
  | r :: l => let? d := chain_step prev r in final_digest (Some d) l
  end.

Definition stored_digest (r : AuditRecord) : option IntegrityDigest :=
  match integrity r with Some i => Some (ri_digest i) | None => None end.

Lemma final_digest_snoc prev l r :
  final_digest prev (l ++ [r]) =
    (let? p := final_digest prev l in let? d := chain_step p r in Ok (Some d)).
Proof.
  revert prev. induction l as [|x l IH]; intros prev; simpl; [done|].
  destruct (chain_step prev x); simpl; [apply IH | done].
Qed.

Lemma sealed_final prev l :
  seal_from prev l = Ok l ->
  final_digest prev l = Ok (match last l with Some r => stored_digest r | None => prev end).
Proof.
  revert prev. induction l as [|r l IH]; intros prev; [done|]. simpl. intros Hs. ok_inv.
  rewrite Hok. simpl. rewrite (IH _ Hok0). f_equal.
  rewrite last_cons. destruct (last l); [done|]. simpl. by rewrite <- Hs.
Qed.
End Proofs.

Section Tamper.
Context `{Sha256Laws} `{JsonObject AuditRecord}.

(** The [expect] of [hash_bytes] cannot panic. *)
Lemma hash_bytes_expect data : IntegrityDigest_sha256 (hex_lower (sha256 data)) = Ok (hash_bytes data).
Proof.
  unfold IntegrityDigest_sha256. rewrite hex_lower_length, sha256_length, hex_lower_all. done.
Qed.

Lemma canonical_input_brace r b :
  canonical_record_input r = Ok b -> exists t, b = String "{"%char t.
Proof.
  unfold canonical_record_input, record_canonical_bytes, canonical_json. intros Hb. ok_inv.
  eauto using json_object.
Qed.

(** The strings the standalone digests of records hash. *)
Definition standalone_inputs (l : list AuditRecord) : list string :=
  omap (fun r => match canonical_record_input r with Ok b => Some b | Err _ => None end) l.

(** What is hashed for a record with canonical input [b]. *)
Definition chain_input (p : option IntegrityDigest) (b : string) : string :=
  match p with Some p => dig_value p +:+ b | None => b end.

Lemma chain_step_hash p r d :
  chain_step p r = Ok d ->
  exists b, canonical_record_input r = Ok b /\ d = hash_bytes (chain_input p b).
Proof. unfold chain_step. intros Hs. ok_inv. eauto. Qed.

(** The strings hashed along a chain. *)
Fixpoint chain_inputs (p : option IntegrityDigest) (l : list AuditRecord) : list string :=
  match l with
  | [] => []
  | r :: l =>
      match canonical_record_input r with
      | Ok b => chain_input p b :: chain_inputs (Some (hash_bytes (chain_input p b))) l
      | Err _ => []
      end
  end.

Lemma chain_inputs_snoc p l r q b :
  final_digest p l = Ok q -> canonical_record_input r = Ok b ->
  chain_inputs p (l ++ [r]) = chain_inputs p l ++ [chain_input q b].
Proof.
  revert p. induction l as [|x l IH]; intros p; simpl.
  - intros [= ->] ->. done.
  - intros Hf Hb. ok_inv. apply chain_step_hash in Hok as (bx & -> & ->). simpl. f_equal. by apply IH.
Qed.

(** The digests of a chain are fresh hashes: 64 lower-case hex characters. *)
Definition fresh_digest (p : IntegrityDigest) : Prop := exists x, p = hash_bytes x.

Lemma final_digest_fresh l p :
  final_digest None l = Ok p ->
  match p with Some d => l <> [] /\ fresh_digest d | None => l = [] end.
Proof.
  destruct l as [|r l _] using rev_ind; [by intros [= <-]|].
  rewrite final_digest_snoc. intros Hf. ok_inv. destruct v as [d0|];
    apply chain_step_hash in Hok0 as (b & _ & ->); (split; [by destruct l | eexists; done]).
Qed.

Lemma fresh_digest_length d : fresh_digest d -> String.length (dig_value d) = 64%nat.
Proof. intros [x ->]. simpl. by rewrite hex_lower_length, sha256_length. Qed.

Lemma fresh_digest_no_brace d s t : fresh_digest d -> dig_value d +:+ s <> String "{"%char t.
Proof.
  intros Hd E. pose proof (fresh_digest_length d Hd) as Hlen. destruct Hd as [x ->]. simpl in *.
  pose proof (hex_lower_all (sha256 x)) as Hall.
  destruct (hex_lower (sha256 x)) as [|c h]; [done|]. simpl in E. injection E as -> _. done.
Qed.

(** Chain inputs are unambiguous: the optional predecessor digest and the
    record body can be read back from the hashed bytes. *)
Lemma chain_input_inj p1 p2 b1 b2 t1 t2 :
  (forall d, p1 = Some d -> fresh_digest d) -> (forall d, p2 = Some d -> fresh_digest d) ->
  b1 = String "{"%char t1 -> b2 = String "{"%char t2 ->
  chain_input p1 b1 = chain_input p2 b2 -> p1 = p2 /\ b1 = b2.
Proof.
  intros Hf1 Hf2 -> ->. unfold chain_input. destruct p1 as [d1|], p2 as [d2|].
  - specialize (Hf1 _ eq_refl). specialize (Hf2 _ eq_refl).
    intros [Ed Eb]%append_inj_length; [|by rewrite !fresh_digest_length].
    split; [|done]. destruct Hf1 as [x ->], Hf2 as [y ->]. simpl in Ed. unfold hash_bytes. congruence.
  - intros E. by apply fresh_digest_no_brace in E; auto.
  - intros E. symmetry in E. by apply fresh_digest_no_brace in E; auto.
  - done.
Qed.

Definition same_body (a b : AuditRecord) : Prop := canonical_record_input a = canonical_record_input b.

Lemma final_digest_inj l1 l2 p :
  final_digest None l1 = Ok p -> final_digest None l2 = Ok p ->
  Forall2 same_body l1 l2 \/ clash (chain_inputs None l1) (chain_inputs None l2).
Proof.
  revert l2 p. induction l1 as [|r1 l1 IH] using rev_ind; intros l2 p;
    destruct l2 as [|r2 l2 _] using rev_ind; try rewrite !final_digest_snoc; intros Hf1 Hf2.
  - left. constructor.
  - simpl in Hf1. ok_inv. done.
  - simpl in Hf2. ok_inv. done.
  - ok_inv.
    apply chain_step_hash in Hok0 as (b2 & Hb2 & ->), Hok2 as (b1 & Hb1 & E).
    destruct (canonical_input_brace _ _ Hb1) as [t1 Ht1], (canonical_input_brace _ _ Hb2) as [t2 Ht2].
    rewrite (chain_inputs_snoc _ _ _ _ _ Hok1 Hb1), (chain_inputs_snoc _ _ _ _ _ Hok Hb2).
    match goal with |- _ \/ clash (?xs ++ [?x]) (?ys ++ [?y]) =>
      destruct (hash_bytes_eq x y (xs ++ [x]) (ys ++ [y])) as [Ei|]; [set_solver | set_solver | done | | by right]
    end.
    eapply chain_input_inj in Ei as [-> ->]; [| | | done | done].
    + destruct (IH _ _ Hok1 Hok) as [Hall|]; [left|right; by apply clash_app_l, clash_app_r].
      apply Forall2_app; [done|]. constructor; [|constructor]. unfold same_body. congruence.
    + intros d ->. by apply final_digest_fresh in Hok1 as [].
    + intros d ->. by apply final_digest_fresh in Hok as [].
Qed.
End Tamper.

(** ** Manifests *)

Section Manifests.
Context `{Sha256} `{JsonStrings} `{Serialize AuditRecord} `{Serialize (list ManifestEntry)}.

Lemma manifest_entries_Ok seen l es :
  manifest_entries seen l = Ok es ->
  Forall2 (fun r e => me_record_id e = record_id r /\ record_digest r = Ok (me_digest e)) l es
  /\ NoDup (map record_id l) /\ Forall (fun r => record_id r ∉ seen) l.
Proof.
  revert seen es. induction l as [|r l IH]; intros seen es; simpl; intros Hm.
  - ok_inv. repeat split; constructor.
  - case_decide as Hd; [done|]. ok_inv. apply IH in Hok0 as (H2e & Hnd & Hs).
    rewrite Forall_forall in Hs. repeat split.
    + by constructor.
    + constructor; [|done]. intros (x & E & Hx)%list_elem_of_fmap. specialize (Hs x Hx). set_solver.
    + constructor; [done|]. apply Forall_forall. intros x Hx. specialize (Hs x Hx). set_solver.
Qed.

Lemma index_by_id_go l (m : gmap RecordId AuditRecord) i r :
  NoDup (map record_id l) ->
  fold_left (fun m r => <[record_id r := r]> m) l m !! i = Some r <->
  (r ∈ l /\ record_id r = i) \/ (m !! i = Some r /\ i ∉ map record_id l).
Proof.
  revert m. induction l as [|x l IH]; intros m Hnd; simpl.
  - set_solver.
  - simpl in Hnd. apply NoDup_cons in Hnd as [Hx Hnd]. rewrite IH by done.
    rewrite lookup_insert_Some, !elem_of_cons. split.
    + intros [[Hr Hi]|[[[Hi ->]|[Hne Hm]] Hn]]; [auto | auto |].
      right. split; [done|]. intros [->|]; done.
    + intros [[[->|Hr] Hi]|[Hm Hn]]; [|auto|].
      * subst i. right. auto.
      * right. split; [right; split; [intros Hx'|done] | intros ?]; apply Hn; auto.
Qed.

Lemma index_by_id_iff l i r :
  NoDup (map record_id l) -> index_by_id l !! i = Some r <-> r ∈ l /\ record_id r = i.
Proof.
  intros Hnd. unfold index_by_id. rewrite index_by_id_go by done. rewrite lookup_empty.
  split; [intros [?|[? _]]; done | auto].
Qed.

(** An entry verifies exactly when the record of its id is supplied and its
    content still has the recorded digest. *)
Lemma verify_entry_Verified_iff l e o :
  NoDup (map record_id l) -> verify_entry (index_by_id l) e = Ok o ->
  vo_status o = Verified <->
  exists r, r ∈ l /\ record_id r = me_record_id e /\ record_digest r = Ok (me_digest e).
Proof.
  intros Hnd Ho. unfold verify_entry in Ho.
  destruct (index_by_id l !! me_record_id e) as [r|] eqn:E.
  - pose proof (proj1 (index_by_id_iff l _ r Hnd) E) as [Hin Hid]. ok_inv.
    case_bool_decide as Hd; simpl in Ho; ok_inv.
    + split; [intros _; exists r; by subst | done].
    + split; [done|]. intros (r' & Hin' & Hid' & Hd').
      rewrite (proj2 (index_by_id_iff l _ r' Hnd) (conj Hin' Hid')) in E. congruence.
  - ok_inv. split; [done|]. intros (r' & Hin' & Hid' & _).
    by rewrite (proj2 (index_by_id_iff l _ r' Hnd) (conj Hin' Hid')) in E.
Qed.

Lemma verify_entry_built l e r :
  NoDup (map record_id l) -> r ∈ l -> me_record_id e = record_id r -> record_digest r = Ok (me_digest e) ->
  verify_entry (index_by_id l) e =
    Ok (mkVerificationOutcome (record_id r) Verified (Some (dig_value (me_digest e)))
          (Some (dig_value (me_digest e))) None).
Proof.
  intros Hnd Hin Hid Hd. unfold verify_entry. rewrite Hid.
  rewrite (proj2 (index_by_id_iff l _ r Hnd)) by done. rewrite Hd. simpl.
  by rewrite bool_decide_true.
Qed.

Lemma build_manifest_Ok_inv l opts now m :
  build_manifest l opts now = Ok m ->
  manifest_entries ∅ l = Ok (im_entries m)
  /\ (exists hex, aggregate_hex (im_entries m) = Ok hex
      /\ im_aggregate_digest m = Some (mkIntegrityDigest SHA256 hex))
  /\ IntegrityManifest_validate m = Ok tt /\ im_generated_at m = now
  /\ im_from_ledger m = mo_from_ledger opts /\ im_to_ledger m = mo_to_ledger opts.
Proof.
  unfold build_manifest. intros Hm. ok_inv. destruct v2. simpl.
  unfold IntegrityDigest_sha256 in Hok1. ok_inv. repeat split; eauto.
Qed.

Definition outcome_for (r : AuditRecord) (o : VerificationOutcome) : Prop :=
  vo_record_id o = record_id r /\ vo_status o = Verified.
End Manifests.

(** ** Claims *)

Section Claims.
Context `{Sha256} `{JsonStrings} `{Serialize AuditRecord} `{Serialize (list ManifestEntry)}.

(** C11 The chain verifier accepts exactly the sealed histories: it succeeds on
    a list of records if and only if sealing that list again gives the very
    same records; and the output of sealing is always accepted, differs from
    its input in the integrity slots only, and exists whenever every record
    can be canonicalised. *)
Theorem verify_chain_iff_sealed :
  (forall l, verify_chain l = Ok tt <-> seal_chain l = Ok l)
  /\ (forall l l', seal_chain l = Ok l' ->
        verify_chain l' = Ok tt /\ map (set_integrity None) l' = map (set_integrity None) l)
  /\ (forall l, Forall (fun r => is_ok (canonical_record_input r) = true) l ->
        exists l', seal_chain l = Ok l').
Proof.
  unfold verify_chain, seal_chain. split; [intros l; apply verify_from_iff|]. split.
  - intros l l' Hs. split; [by eapply verify_from_iff, seal_from_idem | by eapply seal_from_body].
  - intros l Hl. by apply seal_from_total.
Qed.
End Claims.

(** C2 Tampering with a chained history is detected: if two non-empty histories
    both verify and end with the same stored digest, they have the same length
    and, position by position, the same canonical content, or else two of the
    strings hashed along the two chains are different and have the same SHA-256.
    So altering, inserting, deleting or reordering records under an unchanged
    final digest is detected, short of breaking the hash on those strings. *)
Theorem chain_tamper_evident `{Sha256Laws} `{JsonObject AuditRecord} l1 l2 d :
  verify_chain l1 = Ok tt -> verify_chain l2 = Ok tt ->
  (last l1 ≫= stored_digest) = Some d -> (last l2 ≫= stored_digest) = Some d ->
  Forall2 same_body l1 l2 \/ clash (chain_inputs None l1) (chain_inputs None l2).
Proof.
  intros Hv1 Hv2 Hd1 Hd2.
  assert (forall l, verify_chain l = Ok tt -> (last l ≫= stored_digest) = Some d ->
                    final_digest None l = Ok (Some d)) as Hf.
  { intros l Hv Hd. rewrite sealed_final by by apply verify_from_iff.
    destruct (last l); [|done]. simpl in Hd. by rewrite Hd. }
  eapply final_digest_inj; eauto.
Qed.

Section ToyWitness.
Local Existing Instances toy_sha toy_sha_laws toy_strings toy_record_json toy_entries_json.

Lemma toy_record_object : JsonObject AuditRecord.
Proof. intros r b [= <-]. eexists. reflexivity. Qed.

Definition sealed2 : list AuditRecord :=
  match seal_chain [sample_record "0a" 1; sample_record "0b" 2] with
  | Ok l => l
  | Err _ => []
  end.

Lemma sealed2_ok : verify_chain sealed2 = Ok tt /\ is_Some (last sealed2 ≫= stored_digest).
Proof. split; [vm_compute; reflexivity | eexists; vm_compute; reflexivity]. Qed.

Lemma chain_tamper_evident_witness :
  Forall2 same_body sealed2 sealed2 \/ clash (chain_inputs None sealed2) (chain_inputs None sealed2).
Proof.
  destruct sealed2_ok as [Hv [d Hd]]. pose proof toy_record_object as Hj.
  exact (chain_tamper_evident sealed2 sealed2 d Hv Hv Hd Hd).
Defined.
End ToyWitness.

(** What the claim below states, for the evidence verifier to use. *)
Lemma built_manifest_verifies `{Sha256} `{JsonStrings} `{Serialize AuditRecord}
    `{Serialize (list ManifestEntry)} recs recs' opts now m :
  build_manifest recs opts now = Ok m -> recs' ≡ₚ recs ->
  (exists os, verify_manifest_records m recs' = Ok os /\ Forall2 outcome_for recs os)
  /\ verify_manifest_aggregate m = Ok Verified
  /\ IntegrityManifest_validate m = Ok tt
  /\ zlen (im_entries m) = zlen recs.
Proof.
  intros (He & (hex & Hh & Ha) & Hv & _)%build_manifest_Ok_inv Hp.
  apply manifest_entries_Ok in He as (H2e & Hnd & _). split; [|split; [|split; [done|]]].
  - unfold verify_manifest_records. rewrite <- Hp in Hnd.
    assert (forall r, r ∈ recs -> r ∈ recs') as Hin by (intros r; by rewrite Hp).
    clear Hp Ha Hh Hv. revert H2e Hin. generalize (im_entries m). clear m.
    induction recs as [|r rs IH]; intros es H2e Hin.
    + apply Forall2_nil_inv_l in H2e as ->. exists []. by split.
    + apply Forall2_cons_inv_l in H2e as (e & es' & [Hid Hd] & H2e & ->).
      destruct (IH es' H2e) as (os & Hos & Hf); [set_solver|]. simpl.
      rewrite (verify_entry_built recs' e r) by (done || set_solver). simpl. rewrite Hos. simpl.
      eexists. split; [reflexivity|]. by constructor.
  - unfold verify_manifest_aggregate. rewrite Ha. simpl. rewrite Hh. simpl. by rewrite String.eqb_refl.
  - unfold zlen. by rewrite (Forall2_length _ _ _ H2e).
Qed.

(** A manifest checks what it was built from: when [build_manifest] succeeds
    it has one entry per record, verifying it against the same records in any
    order reports every entry [Verified] with the recorded ids in order, its
    aggregate digest verifies and its structure validates. *)
Theorem manifest_build_verify `{Sha256} `{JsonStrings} `{Serialize AuditRecord}
    `{Serialize (list ManifestEntry)} recs recs' opts now m :
  build_manifest recs opts now = Ok m -> recs' ≡ₚ recs ->
  (exists os, verify_manifest_records m recs' = Ok os /\ Forall2 outcome_for recs os)
  /\ verify_manifest_aggregate m = Ok Verified
  /\ IntegrityManifest_validate m = Ok tt
  /\ zlen (im_entries m) = zlen recs.
Proof. apply built_manifest_verifies. Qed.

Section ManifestWitness.
Local Existing Instances toy_sha toy_sha_laws toy_strings toy_record_json toy_entries_json.

Definition two_records : list AuditRecord := [sample_record "0a" 1; sample_record "0b" 2].
Definition sample_options : ManifestOptions := mkManifestOptions None (Some 7%Z) "1.0".

Lemma manifest_build_verify_witness :
  match build_manifest two_records sample_options (mkTimestamp 9) with
  | Ok m => verify_manifest_aggregate m = Ok Verified
  | Err _ => False
  end.
Proof.
  destruct (build_manifest two_records sample_options (mkTimestamp 9)) as [m|e] eqn:E.
  - destruct (manifest_build_verify two_records two_records sample_options (mkTimestamp 9) m E
                (Permutation_refl _)) as (_ & Ha & _). exact Ha.
  - vm_compute in E. discriminate E.
Defined.
End ManifestWitness.
