(* ===== verification/TamperLocation.v ===== *)
(** * Where tampering is found

    What [locate_tampering] says of a history that was sealed and then touched:
    which record it names and why, for content altered under the stored digests
    and for intact records removed, repeated or moved. *)

From S2P Require Import Prelude Text BTree Errors Identifiers Timestamps Correlation Events.
From S2P Require Import IntegrityModel Records Samples Integrity IntegrityProofs.
Open Scope list_scope.

Section Location.
Context `{Sha256} `{JsonStrings} `{Serialize AuditRecord}.
Implicit Types (l sealed pre post : list AuditRecord) (p : option IntegrityDigest).

(** ** Reading a chain piecewise *)

Lemma verify_from_app p pre post q :
  verify_from p pre = Ok tt -> final_digest p pre = Ok q ->
  verify_from p (pre ++ post) = verify_from q post.
Proof.
  revert p. induction pre as [|r pre IH]; intros p; simpl; [by intros _ [= ->]|].
  destruct (integrity r) as [i|]; [|done]. destruct (negb (ri_chained i)); [done|].
  destruct (negb (bool_decide (ri_prev_digest i = p))); [done|].
  destruct (chain_step p r) as [d|]; [|done]. simpl.
  destruct (negb (bool_decide (ri_digest i = d))); [done | apply IH].
Qed.

Lemma verified_final p l : verify_from p l = Ok tt -> exists q, final_digest p l = Ok q.
Proof. intros Hv%verify_from_iff. eexists. by apply sealed_final. Qed.

(** The verdict on one record behind a chain ending in [p]. *)
Lemma verified_cons p r l :
  verify_from p (r :: l) = Ok tt ->
  exists b, canonical_record_input r = Ok b
    /\ integrity r = Some (mkRecordIntegrity (hash_bytes (chain_input p b)) p true)
    /\ verify_from (Some (hash_bytes (chain_input p b))) l = Ok tt.
Proof.
  intros Hv. pose proof (proj1 (verify_from_iff p (r :: l)) Hv) as Hs. simpl in Hs. ok_inv.
  apply chain_step_hash in Hok as (b & Hb & ->). exists b. split; [done|].
  assert (integrity r = Some (mkRecordIntegrity (hash_bytes (chain_input p b)) p true)) as Ei by by rewrite <- Hs.
  split; [done|]. by apply verify_from_iff.
Qed.

Lemma verified_app p pre post :
  verify_from p (pre ++ post) = Ok tt ->
  verify_from p pre = Ok tt /\ exists q, final_digest p pre = Ok q /\ verify_from q post = Ok tt.
Proof.
  revert p. induction pre as [|r pre IH]; intros p; simpl; [by eauto|].
  intros Hv. pose proof (verified_cons p r (pre ++ post) Hv) as (b & Hb & Ei & Hrest).
  apply IH in Hrest as (Hp & q & Hq & Hrest).
  assert (chain_step p r = Ok (hash_bytes (chain_input p b))) as Es by (unfold chain_step; by rewrite Hb).
  rewrite Ei. simpl. rewrite Es, !bool_decide_true by done. simpl. eauto.
Qed.

Lemma chain_inputs_app p pre post q :
  verify_from p pre = Ok tt -> final_digest p pre = Ok q ->
  chain_inputs p (pre ++ post) = chain_inputs p pre ++ chain_inputs q post.
Proof.
  revert p. induction pre as [|r pre IH]; intros p; simpl; [by intros _ [= ->]|].
  intros (b & Hb & _ & Hv)%verified_cons. unfold chain_step. rewrite Hb. simpl. intros Hq. f_equal. by apply IH.
Qed.

(** ** Content altered under the stored digests *)

(** [l] is [sealed] with its first altered record at [r]: the records before it
    still have their content, [r] does not. *)
Inductive first_altered sealed l (r : AuditRecord) : Prop :=
| altered_at pre pre' s rest post :
    sealed = pre ++ s :: rest -> l = pre' ++ r :: post ->
    Forall2 same_body pre pre' -> ~ same_body s r -> first_altered sealed l r.

Lemma first_altered_cons sealed l s x r :
  same_body s x -> first_altered sealed l r -> first_altered (s :: sealed) (x :: l) r.
Proof.
  intros Hb [pre pre' s' rest post -> -> Hpre Hs].
  by apply (altered_at _ _ _ (s :: pre) (x :: pre') s' rest post); [| |constructor|].
Qed.

Lemma verify_from_altered p sealed l :
  verify_from p sealed = Ok tt -> map integrity l = map integrity sealed ->
  (verify_from p l = Ok tt /\ Forall2 same_body sealed l)
  \/ (exists r f, first_altered sealed l r /\ verify_from p l = Err f /\ vf_record_id f = Some (record_id r)
        /\ (is_ok (canonical_record_input r) = true -> vf_status f = DigestMismatch)
        /\ is_verified (vf_status f) = false)
  \/ clash (chain_inputs p sealed) (chain_inputs p l).
Proof.
  revert p l. induction sealed as [|s sealed IH]; intros p [|x l] Hv Hi; try done; [by left|].
  apply verified_cons in Hv as (b & Hb & Ei & Hv). injection Hi as Ex Hi. rewrite Ei in Ex.
  assert (forall b', canonical_record_input x = Ok b' -> b <> b' -> ~ same_body s x) as Hne.
  { unfold same_body. intros b' Hb' Hn E. congruence. }
  simpl. rewrite Ex. simpl. rewrite (bool_decide_true _ eq_refl). unfold chain_step. simpl.
  destruct (canonical_record_input x) as [b'|e] eqn:Eb'; simpl.
  2: { right. left. exists x. eexists. split; [|by repeat split; rewrite ?Eb'].
       apply (altered_at _ _ x [] [] s sealed l); [done.. |]. unfold same_body. congruence. }
  case_bool_decide as Ed; simpl.
  - rewrite Hb. change (match p with Some p => dig_value p +:+ b' | None => b' end) with (chain_input p b') in *.
    destruct (string_dec b b') as [<-|Hn].
    + destruct (IH _ l Hv Hi) as [[Hl Hall]|[(r & f & Hr & Hf)|(y & z & Hy & Hz & Hc)]].
      * left. split; [done|]. constructor; [unfold same_body; congruence | done].
      * right. left. exists r, f. split; [|done]. apply first_altered_cons; [unfold same_body; congruence | done].
      * right. right. exists y, z. split; [by right|]. split; [by right | done].
    + right. right. exists (chain_input p b), (chain_input p b'). split; [left|]. split; [left|].
      split; [|by injection Ed as Ed%hex_lower_inj]. unfold chain_input. destruct p; [|done].
      intros E. by apply append_inj_l in E.
  - right. left. exists x. eexists. split; [|by repeat split].
    apply (altered_at _ _ x [] [] s sealed l); [done.. |]. apply (Hne b'); [done|]. intros <-. by apply Ed.
Qed.
End Location.

(** ** Intact records removed, repeated or moved *)

Section Misplacement.
Context `{Sha256Laws} `{JsonObject AuditRecord}.
Implicit Types (l sealed pre post rest : list AuditRecord).

(** [l] follows [sealed] up to [r], which is not the record that came there. *)
Inductive first_misplaced sealed l (r : AuditRecord) : Prop :=
| misplaced_at pre rest post :
    sealed = pre ++ rest -> l = pre ++ r :: post -> head rest <> Some r -> first_misplaced sealed l r.

Lemma clash_weaken xs xs' ys ys' : clash xs ys -> xs ⊆ xs' -> ys ⊆ ys' -> clash xs' ys'.
Proof. intros (x & y & Hx & Hy & Hc) Hxs Hys. exists x, y. auto. Qed.

(** The digest a piece of a verified chain ends with determines the piece. *)
Lemma chain_point sealed pre pre' post post' q :
  verify_chain sealed = Ok tt -> sealed = pre ++ post -> sealed = pre' ++ post' ->
  final_digest None pre = Ok q -> final_digest None pre' = Ok q ->
  pre = pre' \/ clash (chain_inputs None sealed) (chain_inputs None sealed).
Proof.
  intros Hv E E' Hq Hq'. destruct (final_digest_inj pre pre' q Hq Hq') as [Hall|Hc].
  - left. apply Forall2_length in Hall. rewrite E in E'. by apply app_inj_1 in E' as [-> _].
  - right. apply (clash_weaken _ _ _ _ Hc).
    + rewrite E. rewrite E in Hv. apply verified_app in Hv as (Hp & q1 & Hq1 & _).
      rewrite (chain_inputs_app _ _ _ _ Hp Hq1). set_solver.
    + rewrite E'. rewrite E' in Hv. apply verified_app in Hv as (Hp & q1 & Hq1 & _).
      rewrite (chain_inputs_app _ _ _ _ Hp Hq1). set_solver.
Qed.

Lemma verify_from_misplaced sealed pre rest q l :
  verify_chain sealed = Ok tt -> sealed = pre ++ rest -> final_digest None pre = Ok q ->
  Forall (fun r => r ∈ sealed) l ->
  (verify_from q l = Ok tt /\ l `prefix_of` rest)
  \/ (exists r f, first_misplaced sealed (pre ++ l) r /\ verify_from q l = Err f
        /\ vf_record_id f = Some (record_id r) /\ vf_status f = BrokenChain)
  \/ clash (chain_inputs None sealed) (chain_inputs None sealed).
Proof.
  intros Hv. revert pre rest q. induction l as [|x l IH]; intros pre rest q E Hq Hl.
  { left. split; [done | apply prefix_nil]. }
  apply Forall_cons in Hl as [Hx Hl]. apply list_elem_of_split in Hx as (pre2 & post2 & E2).
  assert (forall p l1 l2, sealed = l1 ++ x :: l2 -> final_digest None l1 = Ok p ->
            exists d, integrity x = Some (mkRecordIntegrity d p true) /\ chain_step p x = Ok d) as Hprev.
  { intros p l1 l2 El Hp. unfold verify_chain in Hv. rewrite El in Hv.
    apply verified_app in Hv as (_ & p' & Hp' & (b & Hb & Ei & _)%verified_cons).
    assert (p' = p) as -> by congruence. eexists. split; [exact Ei|]. unfold chain_step. by rewrite Hb. }
  assert (exists q2, final_digest None pre2 = Ok q2) as [q2 Hq2].
  { unfold verify_chain in Hv. rewrite E2 in Hv. apply verified_app in Hv as (_ & q2 & Hq2 & _). by exists q2. }
  destruct (Hprev q2 pre2 post2 E2 Hq2) as (d & Ei & Es).
  destruct (decide (q2 = q)) as [->|Hne].
  - destruct (chain_point sealed pre pre2 rest (x :: post2) q Hv E E2 Hq Hq2) as [<-|Hc]; [|by right; right].
    assert (rest = x :: post2) as -> by (apply (app_inv_head pre); congruence).
    destruct (IH (pre ++ [x]) post2 (Some d)) as [[Hok Hpre]|[(r & f & Hr & Hf)|Hc]]; [| | done | | | by right; right].
    + by rewrite <- app_assoc.
    + rewrite final_digest_snoc, Hq. simpl. by rewrite Es.
    + left. split; [|by apply prefix_cons]. simpl. rewrite Ei. simpl. by rewrite Es, !bool_decide_true.
    + right. left. exists r, f. rewrite <- app_assoc in Hr. split; [exact Hr|].
      split; [|apply Hf]. simpl. rewrite Ei. simpl. rewrite Es, !bool_decide_true by done. apply Hf.
  - right. left. exists x, (mkVerificationFailure BrokenChain (Some (record_id x))
      "record's prev_digest does not match its predecessor's digest"). split.
    + apply (misplaced_at _ _ x pre rest l); [done..|]. destruct rest as [|y rest]; [done|]. intros [= ->].
      destruct (Hprev q pre rest E Hq) as (d' & Ei' & _). congruence.
    + split; [|by split]. simpl. rewrite Ei. simpl. by rewrite bool_decide_false.
Qed.
End Misplacement.

(** ** What is reported *)

Section Report.
Context `{Sha256} `{JsonStrings} `{Serialize AuditRecord}.

Lemma locate_Ok l : existsb is_chained l = true -> verify_chain l = Ok tt -> locate_tampering l = Ok [].
Proof. intros Hc Hv. unfold locate_tampering, verify_all. by rewrite Hc, Hv. Qed.

Lemma locate_Err l f r :
  existsb is_chained l = true -> verify_chain l = Err f -> vf_record_id f = Some (record_id r) ->
  is_verified (vf_status f) = false ->
  locate_tampering l = Ok [mkVerificationOutcome (record_id r) (vf_status f) None None (Some (vf_detail f))].
Proof.
  intros Hc Hv Hr Hs. unfold locate_tampering, verify_all. rewrite Hc, Hv. simpl. by rewrite Hs, Hr.
Qed.

Lemma verified_all_chained p l : verify_from p l = Ok tt -> Forall (fun r => is_chained r = true) l.
Proof.
  revert p. induction l as [|r l IH]; intros p Hv; [done|].
  apply verified_cons in Hv as (b & _ & Ei & Hv). constructor; [by unfold is_chained; rewrite Ei | eauto].
Qed.
End Report.

(** ** Claims *)

(** C17 Tampering with a chained history is located.  Take any history the chain
    verifier accepts.  If the content of some of its records is altered while
    the stored digests are left, the detector names the first altered record,
    and nothing else, with [DigestMismatch].  If its intact records are removed,
    repeated or moved, it names the first record out of place, and nothing else,
    with [BrokenChain].  It stays silent only when no content changed, and when
    all that happened is that the end of the history was cut off.  The only
    other possibility is that two of the strings hashed along the chains are
    different and have the same SHA-256. *)
Theorem tampering_located `{Sha256Laws} `{JsonStrings} `{JsonObject AuditRecord} sealed l :
  verify_chain sealed = Ok tt ->
  (map integrity l = map integrity sealed ->
     (locate_tampering l = Ok [] /\ Forall2 same_body sealed l)
     \/ (exists r o, first_altered sealed l r /\ locate_tampering l = Ok [o] /\ vo_record_id o = record_id r
           /\ (is_ok (canonical_record_input r) = true -> vo_status o = DigestMismatch))
     \/ clash (chain_inputs None sealed) (chain_inputs None l))
  /\ (Forall (fun r => r ∈ sealed) l ->
     (locate_tampering l = Ok [] /\ l `prefix_of` sealed)
     \/ (exists r o, first_misplaced sealed l r /\ locate_tampering l = Ok [o] /\ vo_record_id o = record_id r
           /\ vo_status o = BrokenChain)
     \/ clash (chain_inputs None sealed) (chain_inputs None sealed)).
Proof.
  intros Hv. pose proof (verified_all_chained None sealed Hv) as Hch. rewrite Forall_forall in Hch.
  assert (forall l', (l' = [] \/ existsb is_chained l' = true) -> verify_chain l' = Ok tt -> locate_tampering l' = Ok []) as Hok.
  { intros l' [->|Hc] Hl; [done | by apply locate_Ok]. }
  split; intros Hl.
  - assert (l = [] \/ existsb is_chained l = true) as Hc.
    { destruct l as [|x l], sealed as [|s sealed]; try done; [by left | right]. injection Hl as Ex _.
      simpl. unfold is_chained at 1. rewrite Ex. specialize (Hch s ltac:(left)). unfold is_chained in Hch. by rewrite Hch. }
    destruct (verify_from_altered None sealed l Hv Hl) as [[Hl' Hall]|[(r & f & Hr & Hf & Hid & Hst & Hnv)|Hcl]].
    + left. split; [by apply Hok | done].
    + right. left. destruct Hc as [->|Hc]; [done|]. exists r. eexists. split; [done|].
      split; [by apply locate_Err|]. by split.
    + by right; right.
  - assert (l = [] \/ existsb is_chained l = true) as Hc.
    { destruct l as [|x l]; [by left | right]. apply Forall_cons in Hl as [Hx _]. simpl. by rewrite Hch. }
    destruct (verify_from_misplaced sealed [] sealed None l Hv eq_refl eq_refl Hl)
      as [[Hl' Hall]|[(r & f & Hr & Hf & Hid & Hst)|Hcl]].
    + left. split; [by apply Hok | done].
    + right. left. destruct Hc as [->|Hc]; [done|]. exists r. eexists. split; [done|].
      split; [apply locate_Err; try done; by rewrite Hst|]. by split.
    + by right; right.
Qed.

Section LocationWitness.
Local Existing Instances sum_sha sum_sha_laws toy_strings.

(** The second of two sealed records moved in time, and the two exchanged. *)
Definition moved_in_time (r : AuditRecord) (t : Timestamp) : AuditRecord :=
  mkAuditRecord (record_id r) (event r) t (rec_schema_version r) (classification r) (redactions r)
    (supersedes r) (correction_reason r) (integrity r).
Local Instance timed_record_json : Serialize AuditRecord := fun r =>
  Ok ("{" +:+ as_str (record_id r) +:+ "," +:+ z_to_string (unix_seconds (recorded_at r)) +:+ "}").

Lemma timed_record_object : JsonObject AuditRecord.
Proof. intros r b [= <-]. eexists. reflexivity. Qed.

Definition sealed3 : list AuditRecord :=
  match seal_chain [sample_record "0a" 1; sample_record "0b" 2; sample_record "0c" 3] with
  | Ok l => l
  | Err _ => []
  end.
Definition altered3 : list AuditRecord := alter (fun r => moved_in_time r (mkTimestamp 9)) 1%nat sealed3.
Definition shortened3 : list AuditRecord := delete 1%nat sealed3.

Lemma tampering_located_witness :
  verify_chain sealed3 = Ok tt
  /\ ((exists r o, first_altered sealed3 altered3 r /\ locate_tampering altered3 = Ok [o]
         /\ vo_record_id o = record_id (sample_record "0b" 2) /\ vo_status o = DigestMismatch)
      \/ clash (chain_inputs None sealed3) (chain_inputs None altered3))
  /\ ((exists r o, first_misplaced sealed3 shortened3 r /\ locate_tampering shortened3 = Ok [o]
         /\ vo_record_id o = record_id (sample_record "0c" 3) /\ vo_status o = BrokenChain)
      \/ clash (chain_inputs None sealed3) (chain_inputs None sealed3)).
Proof.
  pose proof timed_record_object as Hj.
  assert (verify_chain sealed3 = Ok tt) as Hv by (vm_compute; reflexivity).
  split; [exact Hv|]. split.
  - destruct (proj1 (tampering_located sealed3 altered3 Hv) ltac:(vm_compute; reflexivity))
      as [[E _]|[(r & o & Hr & E & Hid & Hst)|Hc]]; [vm_compute in E; discriminate E | | by right].
    left. exists r, o. vm_compute in E. injection E as <-. by repeat split.
  - destruct (proj2 (tampering_located sealed3 shortened3 Hv)) as [[E _]|[(r & o & Hr & E & Hid & Hst)|Hc]].
    + repeat constructor.
    + vm_compute in E. discriminate E.
    + left. exists r, o. vm_compute in E. injection E as <-. by repeat split.
    + by right.
Defined.
End LocationWitness.
