(* ===== verification/AccessModel.v ===== *)
(** * Auditor access: the data model ([crates/audit-core/src/authorization.rs])

    Roles, actions, scopes, decisions and access-log entries. *)

From S2P Require Import Prelude Text BTree Errors Identifiers Timestamps Classification.
From S2P Require Import Correlation Events.

Inductive AuditorRole : Type :=
| ReadOnlyReviewer
| Auditor
| SeniorAuditor
| Investigator
| ComplianceOfficer
| Administrator.

Definition AuditorRole_as_str (r : AuditorRole) : string :=
  match r with
  | ReadOnlyReviewer => "read-only-reviewer"
  | Auditor => "auditor"
  | SeniorAuditor => "senior-auditor"
  | Investigator => "investigator"
  | ComplianceOfficer => "compliance-officer"
  | Administrator => "administrator"
  end.

Record AuditorIdentity := mkAuditorIdentity { ai_auditor_id : AuditorId; ai_role : AuditorRole }.

Inductive AccessAction : Type :=
| ReadRecord
| Query
| InspectTransaction
| InspectPolicy
| InspectDenied
| CreateInvestigation
| ViewInvestigation
| GenerateEvidence
| GenerateReport
| ExportRecords
| RequestProtectedData
| VerifyIntegrity.

Definition AccessAction_as_str (a : AccessAction) : string :=
  match a with
  | ReadRecord => "read-record"
  | Query => "query"
  | InspectTransaction => "inspect-transaction"
  | InspectPolicy => "inspect-policy"
  | InspectDenied => "inspect-denied"
  | CreateInvestigation => "create-investigation"
  | ViewInvestigation => "view-investigation"
  | GenerateEvidence => "generate-evidence"
  | GenerateReport => "generate-report"
  | ExportRecords => "export-records"
  | RequestProtectedData => "request-protected-data"
  | VerifyIntegrity => "verify-integrity"
  end.

(** The derived [Debug]: the variant's name. *)
Definition AccessAction_debug (a : AccessAction) : string :=
  match a with
  | ReadRecord => "ReadRecord"
  | Query => "Query"
  | InspectTransaction => "InspectTransaction"
  | InspectPolicy => "InspectPolicy"
  | InspectDenied => "InspectDenied"
  | CreateInvestigation => "CreateInvestigation"
  | ViewInvestigation => "ViewInvestigation"
  | GenerateEvidence => "GenerateEvidence"
  | GenerateReport => "GenerateReport"
  | ExportRecords => "ExportRecords"
  | RequestProtectedData => "RequestProtectedData"
  | VerifyIntegrity => "VerifyIntegrity"
  end.

Inductive AccessResult : Type := AccessGranted | AccessDenied | OutOfScope.

Definition AccessResult_as_str (r : AccessResult) : string :=
  match r with
  | AccessGranted => "granted"
  | AccessDenied => "denied"
  | OutOfScope => "out-of-scope"
  end.

Inductive AccessScope : Type :=
| ScopeAll
| ScopeNetwork (n : NetworkId)
| ScopeToken (t : TokenReference)
| ScopeContract (c : ContractReference)
| ScopeAccountClass (c : string)
| ScopeInvestigation (c : CaseId)
| ScopeTimeRange (r : TimeRange)
| ScopeEventKind (k : EventKind)
| ScopeClassification (c : DataClassification).

Definition describe (s : AccessScope) : string :=
  match s with
  | ScopeAll => "all"
  | ScopeNetwork n => "network:" +:+ network_str n
  | ScopeToken t => "token:" +:+ TokenReference_display t
  | ScopeContract c => "contract:" +:+ ContractReference_display c
  | ScopeAccountClass c => "account-class:" +:+ c
  | ScopeInvestigation c => "case:" +:+ as_str c
  | ScopeTimeRange r =>
      match tr_start r, tr_end r with
      | Some a, Some b => "time:" +:+ z_to_string (unix_seconds a) +:+ ".." +:+ z_to_string (unix_seconds b)
      | Some a, None => "time:" +:+ z_to_string (unix_seconds a) +:+ ".."
      | None, Some b => "time:.." +:+ z_to_string (unix_seconds b)
      | None, None => "time:all"
      end
  | ScopeEventKind k => "kind:" +:+ EventKind_as_str k
  | ScopeClassification c => "classification:" +:+ DataClassification_as_str c
  end.

Record AuthorizationDecision := mkAuthorizationDecision {
  ad_allowed : bool;
  ad_action : AccessAction;
  ad_scope : string;
  ad_reason : option string;
  ad_decided_by : option AuditorId;
  ad_decided_at : Timestamp
}.

Definition AuthorizationDecision_new (allowed : bool) (action : AccessAction) (scope : string)
    (decided_by : option AuditorId) (decided_at : Timestamp) : AuthorizationDecision :=
  mkAuthorizationDecision allowed action scope None decided_by decided_at.

Definition with_reason (reason : string) (d : AuthorizationDecision) : AuthorizationDecision :=
  mkAuthorizationDecision (ad_allowed d) (ad_action d) (ad_scope d) (Some reason) (ad_decided_by d)
    (ad_decided_at d).

Record AuditAccessEntry := mkAuditAccessEntry {
  ae_entry_id : AccessEntryId;
  ae_auditor : AuditorId;
  ae_action : AccessAction;
  ae_scope : string;
  ae_target : option string;
  ae_result : AccessResult;
  ae_accessed_at : Timestamp;
  ae_classification : option DataClassification
}.

Definition AuditAccessEntry_new (entry_id : AccessEntryId) (auditor : AuditorId)
    (action : AccessAction) (scope : string) (target : option string) (result_ : AccessResult)
    (accessed_at : Timestamp) : AuditAccessEntry :=
  mkAuditAccessEntry entry_id auditor action scope target result_ accessed_at None.

Definition entry_with_classification (c : DataClassification) (e : AuditAccessEntry) : AuditAccessEntry :=
  mkAuditAccessEntry (ae_entry_id e) (ae_auditor e) (ae_action e) (ae_scope e) (ae_target e)
    (ae_result e) (ae_accessed_at e) (Some c).

Definition validate_scope_label (label : string) : AuditResult unit :=
  let valid :=
    len_in 1 256 label && str_all (fun c => is_ascii_graphic c || Ascii.eqb c " "%char) label in
  if valid then Ok tt
  else Err (InvalidIdentifier "scope label" "must be 1-256 printable ASCII chars").

#[export] Instance AuditorRole_eq_dec : EqDecision AuditorRole.
Proof. solve_decision. Defined.
#[export] Instance AccessAction_eq_dec : EqDecision AccessAction.
Proof. solve_decision. Defined.
#[export] Instance AccessResult_eq_dec : EqDecision AccessResult.
Proof. solve_decision. Defined.
#[export] Instance AccessScope_eq_dec : EqDecision AccessScope.
Proof. solve_decision. Defined.

Lemma AccessAction_as_str_inj a b : AccessAction_as_str a = AccessAction_as_str b -> a = b.
Proof. by destruct a, b. Qed.
