(* ===== verification/Authorization.v ===== *)
(** * Authorization ([crates/authorization])

    Role permissions and their overrides, scope containment, credentials, the
    grant registry and the authorizer, whose decision is characterised exactly. *)

From S2P Require Import Prelude Text BTree Errors Identifiers Timestamps Classification.
From S2P Require Import Correlation Events AccessModel.
Open Scope list_scope.

Inductive AuthorizationError : Type :=
| UnknownAuditor (a : string)
| InvalidCredential (a : string)
| CredentialExpired (a : string) (at_ : Z)
| EmptyGrant (a : string)
| InvalidScope (d : string)
| UnloggableScope (d : string)
| AccessLogFailure (d : string)
| AuthInternal (d : string).

Definition AuthorizationResult (T : Type) : Type := result T AuthorizationError.

Definition AuthorizationError_to_string (e : AuthorizationError) : string :=
  match e with
  | UnknownAuditor a => "auditor " +:+ a +:+ " has no grants registered"
  | InvalidCredential a => "credential for auditor " +:+ a +:+ " is not valid"
  | CredentialExpired a t => "credential for auditor " +:+ a +:+ " expired at " +:+ z_to_string t
  | EmptyGrant a => "grant for auditor " +:+ a +:+ " has no scopes"
  | InvalidScope d => "invalid scope: " +:+ d
  | UnloggableScope d => "scope label rejected: " +:+ d
  | AccessLogFailure d => "access entry could not be recorded: " +:+ d
  | AuthInternal d => "internal authorization error: " +:+ d
  end.

(** ** Roles ([roles.rs]) *)

Definition actions_for_role (role : AuditorRole) : list AccessAction :=
  match role with
  | ReadOnlyReviewer =>
      [ReadRecord; Query; InspectTransaction; InspectPolicy; VerifyIntegrity]
  | Auditor =>
      [ReadRecord; Query; InspectTransaction; InspectPolicy; InspectDenied; ViewInvestigation;
       VerifyIntegrity]
  | SeniorAuditor =>
      [ReadRecord; Query; InspectTransaction; InspectPolicy; InspectDenied; ViewInvestigation;
       GenerateEvidence; GenerateReport; ExportRecords; VerifyIntegrity]
  | Investigator =>
      [ReadRecord; Query; InspectTransaction; InspectPolicy; InspectDenied; CreateInvestigation;
       ViewInvestigation; GenerateEvidence; VerifyIntegrity]
  | ComplianceOfficer =>
      [ReadRecord; Query; InspectTransaction; InspectPolicy; InspectDenied; ViewInvestigation;
       GenerateEvidence; GenerateReport; ExportRecords; RequestProtectedData; VerifyIntegrity]
  | Administrator =>
      [ReadRecord; Query; InspectTransaction; InspectPolicy; InspectDenied; CreateInvestigation;
       ViewInvestigation; GenerateEvidence; GenerateReport; ExportRecords; RequestProtectedData;
       VerifyIntegrity]
  end.

Definition role_allows (role : AuditorRole) (action : AccessAction) : bool :=
  bool_decide (action ∈ actions_for_role role).

(** ** Permission sets ([permissions.rs]) *)

Record PermissionSet := mkPermissionSet {
  ps_role : AuditorRole;
  additions : list AccessAction;
  removals : list AccessAction
}.

Definition from_role (role : AuditorRole) : PermissionSet := mkPermissionSet role [] [].

(** [retain(|a| *a != action)]. *)
Definition retain_ne (action : AccessAction) (l : list AccessAction) : list AccessAction :=
  List.filter (fun a => negb (bool_decide (a = action))) l.

Definition allow (p : PermissionSet) (action : AccessAction) : PermissionSet :=
  let removals := retain_ne action (removals p) in
  let additions := if bool_decide (action ∈ additions p) then additions p
                   else additions p ++ [action] in
  mkPermissionSet (ps_role p) additions removals.

Definition deny (p : PermissionSet) (action : AccessAction) : PermissionSet :=
  let additions := retain_ne action (additions p) in
  let removals := if role_allows (ps_role p) action && negb (bool_decide (action ∈ removals p))
                  then removals p ++ [action] else removals p in
  mkPermissionSet (ps_role p) additions removals.

Definition allows (p : PermissionSet) (action : AccessAction) : bool :=
  if bool_decide (action ∈ removals p) then false
  else bool_decide (action ∈ additions p) || bool_decide (action ∈ actions_for_role (ps_role p)).

Definition push_new (l : list AccessAction) (a : AccessAction) : list AccessAction :=
  if bool_decide (a ∈ l) then l else l ++ [a].

Definition effective (p : PermissionSet) : list AccessAction :=
  let set := actions_for_role (ps_role p) in
  let set := fold_left push_new (additions p) set in
  let set := fold_left (fun l a => retain_ne a l) (removals p) set in
  sort_by (cmp_key AccessAction_as_str) set.

Inductive PermissionReason : Type := GrantedByRole | GrantedByOverride | ExplicitlyDenied | NotGranted.

Definition explain (p : PermissionSet) (action : AccessAction) : PermissionReason :=
  if bool_decide (action ∈ removals p) then ExplicitlyDenied
  else if bool_decide (action ∈ additions p) then GrantedByOverride
  else if role_allows (ps_role p) action then GrantedByRole
  else NotGranted.

(** Two loops: the first offending entry is reported. *)
Definition PermissionSet_validate (p : PermissionSet) : AuthorizationResult unit :=
  match find (fun a => role_allows (ps_role p) a) (additions p) with
  | Some a => Err (AuthInternal ("action " +:+ AccessAction_debug a +:+ " is already granted by role "
                     +:+ AuditorRole_as_str (ps_role p)))
  | None =>
      match find (fun a => negb (role_allows (ps_role p) a)) (removals p) with
      | Some a => Err (AuthInternal ("action " +:+ AccessAction_debug a +:+ " is not granted by role "
                         +:+ AuditorRole_as_str (ps_role p) +:+ " and cannot be removed"))
      | None => Ok tt
      end
  end.

(** ** Scopes ([scopes.rs]) *)

Definition classification_covers (granted requested : DataClassification) : bool :=
  class_le requested granted.

Definition range_contains (granted requested : TimeRange) : bool :=
  let start_ok := match tr_start granted, tr_start requested with
                  | Some g, Some r => (unix_seconds g <=? unix_seconds r)%Z
                  | None, _ => true
                  | Some _, None => false
                  end in
  let end_ok := match tr_end granted, tr_end requested with
                | Some g, Some r => (unix_seconds r <=? unix_seconds g)%Z
                | None, _ => true
                | Some _, None => false
                end in
  start_ok && end_ok.

Definition contains (granted requested : AccessScope) : bool :=
  match granted, requested with
  | ScopeAll, _ => true
  | ScopeNetwork n, ScopeNetwork r => bool_decide (r = n)
  | ScopeToken t, ScopeToken r => bool_decide (r = t)
  | ScopeContract c, ScopeContract r => bool_decide (r = c)
  | ScopeAccountClass c, ScopeAccountClass r => String.eqb r c
  | ScopeInvestigation c, ScopeInvestigation r => bool_decide (r = c)
  | ScopeTimeRange grant, ScopeTimeRange req => range_contains grant req
  | ScopeEventKind k, ScopeEventKind r => bool_decide (r = k)
  | ScopeClassification c, ScopeClassification r => classification_covers c r
  | _, _ => false
  end.

Definition any_contains (granted : list AccessScope) (requested : AccessScope) : bool :=
  existsb (fun scope => contains scope requested) granted.

Definition scope_for_classification (c : DataClassification) : AccessScope := ScopeClassification c.

Definition covers_classification (granted : list AccessScope) (c : DataClassification) : bool :=
  any_contains granted (scope_for_classification c).

(** ** Credentials ([credentials.rs]) *)

Record Credential := mkCredential {
  cred_auditor : AuditorId;
  cred_material : string;
  cred_expires_at : Timestamp;
  cred_revoked : bool
}.

Definition Credential_new (auditor : AuditorId) (material : string) (expires_at : Timestamp) : Credential :=
  mkCredential auditor material expires_at false.
Definition Credential_revoke (c : Credential) : Credential :=
  mkCredential (cred_auditor c) (cred_material c) (cred_expires_at c) true.
Definition reference `{Sha256} (c : Credential) : string := sha256_hex (cred_material c).
Definition expired_at (c : Credential) (now : Timestamp) : bool := is_at_or_after now (cred_expires_at c).
Definition is_valid_at (c : Credential) (now : Timestamp) : bool :=
  negb (cred_revoked c) && negb (expired_at c now).

Definition Credential_verify (c : Credential) (claiming : AuditorId) (now : Timestamp)
  : AuthorizationResult unit :=
  if negb (bool_decide (cred_auditor c = claiming)) then Err (InvalidCredential (as_str (cred_auditor c)))
  else if cred_revoked c then Err (InvalidCredential (as_str (cred_auditor c)))
  else if expired_at c now
  then Err (CredentialExpired (as_str (cred_auditor c)) (unix_seconds (cred_expires_at c)))
  else Ok tt.

Inductive CredentialStatus : Type := Valid | Absent | Mismatch | Revoked | Expired.

#[export] Instance CredentialStatus_eq_dec : EqDecision CredentialStatus.
Proof. solve_decision. Defined.

(** ** Registry ([registry.rs]) *)

Record Grant := mkGrant {
  gr_auditor : AuditorId;
  gr_role : AuditorRole;
  gr_scopes : list AccessScope;
  gr_credential : option Credential
}.

Definition Grant_new (auditor : AuditorId) (role : AuditorRole) : Grant := mkGrant auditor role [] None.
Definition with_scope (scope : AccessScope) (g : Grant) : Grant :=
  mkGrant (gr_auditor g) (gr_role g)
    (if bool_decide (scope ∈ gr_scopes g) then gr_scopes g else gr_scopes g ++ [scope])
    (gr_credential g).
Definition with_credential (c : Credential) (g : Grant) : Grant :=
  mkGrant (gr_auditor g) (gr_role g) (gr_scopes g) (Some c).
Definition permissions (g : Grant) : PermissionSet := from_role (gr_role g).

Record Registry := mkRegistry { grants : BTreeMap AuditorId Grant }.

Definition Registry_new : Registry := mkRegistry [].

Definition register (r : Registry) (g : Grant) : Registry * AuthorizationResult unit :=
  match gr_scopes g with
  | [] => (r, Err (EmptyGrant (as_str (gr_auditor g))))
  | _ :: _ =>
      match PermissionSet_validate (permissions g) with
      | Err e => (r, Err e)
      | Ok _ => (mkRegistry (bt_insert (gr_auditor g) g (grants r)), Ok tt)
      end
  end.

Definition Registry_revoke (r : Registry) (a : AuditorId) : Registry * bool :=
  (mkRegistry (bt_remove a (grants r)), bt_contains a (grants r)).

Definition grant (r : Registry) (a : AuditorId) : AuthorizationResult Grant :=
  ok_or (bt_get a (grants r)) (UnknownAuditor (as_str a)).

(** A mutation through [grant_mut]. *)
Definition grant_mut (r : Registry) (a : AuditorId) (f : Grant -> Grant) : AuthorizationResult Registry :=
  let? g := grant r a in
  Ok (mkRegistry (bt_insert a (f g) (grants r))).

Definition Registry_contains (r : Registry) (a : AuditorId) : bool := bt_contains a (grants r).

(** ** The authorizer ([authorizer.rs]) *)

Definition GRANTED : string := "GRANTED".
Definition CREDENTIAL_INVALID : string := "CREDENTIAL_INVALID".
Definition CREDENTIAL_EXPIRED : string := "CREDENTIAL_EXPIRED".
Definition ACTION_DENIED : string := "ACTION_DENIED".
Definition SCOPE_OUT_OF_BOUNDS : string := "SCOPE_OUT_OF_BOUNDS".
Definition UNKNOWN_AUDITOR : string := "UNKNOWN_AUDITOR".

Record CredentialCheck := mkCredentialCheck { cc_present : bool; cc_status : CredentialStatus }.

Definition decision_of (allowed : bool) (action : AccessAction) (scope : string)
    (decided_by : option AuditorId) (decided_at : Timestamp) (reason : string) : AuthorizationDecision :=
  with_reason reason (AuthorizationDecision_new allowed action scope decided_by decided_at).

(** The check [authorize] and [credential_status] both make. *)
Definition check_credential (g : Grant) (auditor : AuditorId) (now : Timestamp) : CredentialCheck :=
  match gr_credential g with
  | Some cred =>
      let status := match Credential_verify cred auditor now with
                    | Ok _ => Valid
                    | Err (CredentialExpired _ _) => Expired
                    | Err _ => Mismatch
                    end in
      mkCredentialCheck true status
  | None => mkCredentialCheck false Absent
  end.

(** [now] is the clock reading. *)
Definition authorize (reg : Registry) (now : Timestamp) (auditor : AuditorId) (action : AccessAction)
    (requested_scope : AccessScope) : AuthorizationResult AuthorizationDecision :=
  let scope_label := describe requested_scope in
  let deny_with reason := Ok (decision_of false action scope_label (Some auditor) now reason) in
  match grant reg auditor with
  | Err (UnknownAuditor _) => deny_with UNKNOWN_AUDITOR
  | Err e => Err e
  | Ok g =>
      let credential_check := check_credential g auditor now in
      if negb (bool_decide (cc_status credential_check = Valid))
      then deny_with (match cc_status credential_check with
                      | Expired => CREDENTIAL_EXPIRED
                      | _ => CREDENTIAL_INVALID
                      end)
      else if negb (allows (permissions g) action) then deny_with ACTION_DENIED
      else if negb (any_contains (gr_scopes g) requested_scope) then deny_with SCOPE_OUT_OF_BOUNDS
      else Ok (decision_of true action scope_label (Some auditor) now GRANTED)
  end.

Definition credential_status (reg : Registry) (now : Timestamp) (auditor : AuditorId)
  : AuthorizationResult CredentialCheck :=
  let? g := grant reg auditor in
  Ok (check_credential g auditor now).

Definition entry_for_decision `{Sha256, JsonStrings} (d : AuthorizationDecision) (target : option string)
  : AuthorizationResult AuditAccessEntry :=
  let? auditor := ok_or (ad_decided_by d) (AuthInternal "decision lacks attribution") in
  let entry_id := derive [ as_str auditor; AccessAction_as_str (ad_action d); ad_scope d;
                           z_to_string (unix_seconds (ad_decided_at d)) ] in
  let result_ := if ad_allowed d then AccessGranted
                 else if bool_decide (ad_reason d = Some SCOPE_OUT_OF_BOUNDS) then OutOfScope
                 else AccessDenied in
  Ok (AuditAccessEntry_new entry_id auditor (ad_action d) (ad_scope d) target result_ (ad_decided_at d)).

(** ** Facts *)

Lemma is_some_and_grant r a g : grant r a = Ok g <-> bt_get a (grants r) = Some g.
Proof. apply ok_or_Ok_iff. Qed.

Lemma Credential_verify_Ok_iff c a now :
  Credential_verify c a now = Ok tt <->
  cred_auditor c = a /\ cred_revoked c = false /\ (unix_seconds now < unix_seconds (cred_expires_at c))%Z.
Proof.
  unfold Credential_verify, expired_at, is_at_or_after.
  case_bool_decide; simpl; [|split; [done | by intros []]].
  destruct (cred_revoked c); [split; [done | by intros (_ & ? & _)]|].
  destruct (Z.leb_spec (unix_seconds (cred_expires_at c)) (unix_seconds now)); split; try done; lia.
Qed.

Lemma check_credential_Valid_iff g a now :
  cc_status (check_credential g a now) = Valid <->
  exists c, gr_credential g = Some c /\ Credential_verify c a now = Ok tt.
Proof.
  unfold check_credential. destruct (gr_credential g) as [c|]; simpl.
  - destruct (Credential_verify c a now) as [[]|[]] eqn:E; split; try done; try eauto;
      intros (c' & [= <-] & E'); congruence.
  - split; [done | by intros (? & ? & _)].
Qed.

Lemma any_contains_iff gs sc : any_contains gs sc = true <-> exists s, s ∈ gs /\ contains s sc = true.
Proof.
  unfold any_contains. rewrite existsb_exists.
  split; intros (s & Hs & Hc); exists s; (split; [by apply list_elem_of_In | done]).
Qed.

Lemma retain_ne_spec a l x : x ∈ retain_ne a l <-> x ∈ l /\ x <> a.
Proof.
  unfold retain_ne. rewrite !list_elem_of_In, filter_In, negb_true_iff, bool_decide_eq_false. done.
Qed.

Lemma elem_of_snoc_if {A} `{EqDecision A} (a x : A) l :
  x ∈ (if bool_decide (a ∈ l) then l else l ++ [a]) <-> x ∈ l \/ x = a.
Proof. case_bool_decide; set_solver. Qed.

Lemma allows_iff p a :
  allows p a = true <-> a ∉ removals p /\ (a ∈ additions p \/ a ∈ actions_for_role (ps_role p)).
Proof.
  unfold allows. case_bool_decide; [split; [done | by intros []]|].
  rewrite orb_true_iff, !bool_decide_eq_true. tauto.
Qed.

Lemma fold_push_new_spec l s x : x ∈ fold_left push_new l s <-> x ∈ s \/ x ∈ l.
Proof.
  revert s. induction l as [|a l IH]; intros s; simpl; [set_solver|].
  rewrite IH. unfold push_new. rewrite elem_of_snoc_if. set_solver.
Qed.

Lemma fold_retain_spec l s x : x ∈ fold_left (fun l a => retain_ne a l) l s <-> x ∈ s /\ x ∉ l.
Proof.
  revert s. induction l as [|a l IH]; intros s; simpl; [set_solver|].
  rewrite IH, retain_ne_spec. set_solver.
Qed.

Lemma effective_iff p a : a ∈ effective p <-> allows p a = true.
Proof.
  unfold effective. rewrite sort_by_perm, fold_retain_spec, fold_push_new_spec, allows_iff. tauto.
Qed.

Lemma deny_removals p a x :
  x ∈ removals (deny p a) <-> x ∈ removals p \/ (x = a /\ a ∈ actions_for_role (ps_role p)).
Proof.
  unfold deny, role_allows. simpl. do 2 case_bool_decide; simpl; set_solver.
Qed.

(** ** Claims *)

(** C3 The authorizer decides every request, and allows it exactly when the
    auditor has a grant whose credential is the auditor's own, not revoked and
    not expired at the clock reading, whose role's permissions include the
    action, and one of whose scopes contains the requested scope.  The decision
    is attributed to the auditor, the action, the scope and the instant, and
    carries the reason [GRANTED] exactly when it allows. *)
Theorem authorize_exact reg now a act sc :
  exists d, authorize reg now a act sc = Ok d
    /\ ad_decided_by d = Some a /\ ad_action d = act /\ ad_scope d = describe sc
    /\ ad_decided_at d = now
    /\ (ad_allowed d = true <->
          exists g c, bt_get a (grants reg) = Some g /\ gr_credential g = Some c
            /\ cred_auditor c = a /\ cred_revoked c = false
            /\ (unix_seconds now < unix_seconds (cred_expires_at c))%Z
            /\ act ∈ actions_for_role (gr_role g)
            /\ exists s, s ∈ gr_scopes g /\ contains s sc = true)
    /\ (ad_allowed d = true <-> ad_reason d = Some GRANTED).
Proof.
  unfold authorize. destruct (grant reg a) as [g|e] eqn:Eg.
  - apply is_some_and_grant in Eg.
    pose proof (check_credential_Valid_iff g a now) as Hcred.
    setoid_rewrite Credential_verify_Ok_iff in Hcred.
    pose proof (allows_iff (permissions g) act) as Hact. pose proof (any_contains_iff (gr_scopes g) sc) as Hsc.
    case_bool_decide as Hv; cbn [negb].
    2: { eexists. split; [reflexivity|]. repeat split; try done.
         - intros (g' & c & Hg & Hc & Ha & Hr & Ht & _). exfalso. apply Hv, Hcred.
           assert (g' = g) as -> by congruence. eauto.
         - by destruct (cc_status (check_credential g a now)). }
    apply Hcred in Hv as (c & Hc & Ha & Hr & Ht).
    destruct (allows (permissions g) act) eqn:E1; cbn [negb].
    2: { eexists. split; [reflexivity|]. repeat split; try done.
         intros (g' & c' & Hg & _ & _ & _ & _ & Hin & _). assert (g' = g) as -> by congruence.
         assert (false = true) as Hf; [|done]. apply Hact. set_solver. }
    destruct (any_contains (gr_scopes g) sc) eqn:E2; cbn [negb].
    2: { eexists. split; [reflexivity|]. repeat split; try done.
         intros (g' & c' & Hg & _ & _ & _ & _ & _ & Hs). assert (g' = g) as -> by congruence.
         by apply Hsc in Hs. }
    eexists. split; [reflexivity|]. repeat split; try done. intros _. exists g, c.
    apply proj1 in Hact. destruct (Hact eq_refl) as [_ [Hx|Hx]]; [by apply elem_of_nil in Hx|].
    do 6 (split; [done|]). by apply Hsc.
  - unfold grant, ok_or in Eg. destruct (bt_get a (grants reg)) eqn:E; [done|]. injection Eg as <-.
    eexists. split; [reflexivity|]. repeat split; try done. by intros (? & ? & ? & _).
Qed.

Lemma range_contains_sound g r t :
  range_contains g r = true -> TimeRange_contains r t = true -> TimeRange_contains g t = true.
Proof.
  unfold range_contains, TimeRange_contains, is_none_or. rewrite !andb_true_iff.
  destruct (tr_start g), (tr_end g), (tr_start r), (tr_end r); rewrite ?Z.leb_le; intuition lia.
Qed.

Lemma range_contains_complete g r :
  (exists t, TimeRange_contains r t = true) ->
  (forall t, TimeRange_contains r t = true -> TimeRange_contains g t = true) ->
  range_contains g r = true.
Proof.
  unfold range_contains, TimeRange_contains, is_none_or. intros [t0 Ht0] Hall.
  rewrite andb_true_iff in *.
  assert (forall z, (match tr_start r with Some s => unix_seconds s <= z | None => True end)%Z ->
                    (match tr_end r with Some e => z <= unix_seconds e | None => True end)%Z ->
     (match tr_start g with Some s => unix_seconds s <= z | None => True end)%Z
     /\ (match tr_end g with Some e => z <= unix_seconds e | None => True end)%Z) as Hz.
  { intros z Hs He. specialize (Hall (mkTimestamp z)). rewrite !andb_true_iff in Hall. simpl in Hall.
    destruct (tr_start r), (tr_end r), (tr_start g), (tr_end g); rewrite ?Z.leb_le in Hall; intuition. }
  clear Hall. destruct Ht0 as [Hs He]. split.
  - destruct (tr_start g) as [gs|]; [|done].
    destruct (tr_start r) as [rs|]; destruct (tr_end r) as [re|]; rewrite ?Z.leb_le in *.
    + specialize (Hz (unix_seconds rs)). lia.
    + specialize (Hz (unix_seconds rs)). lia.
    + specialize (Hz (Z.min (unix_seconds re) (unix_seconds gs - 1))). lia.
    + specialize (Hz (unix_seconds gs - 1)%Z). lia.
  - destruct (tr_end g) as [ge|]; [|done].
    destruct (tr_end r) as [re|]; destruct (tr_start r) as [rs|]; rewrite ?Z.leb_le in *.
    + specialize (Hz (unix_seconds re)). lia.
    + specialize (Hz (unix_seconds re)). lia.
    + specialize (Hz (Z.max (unix_seconds rs) (unix_seconds ge + 1))). lia.
    + specialize (Hz (unix_seconds ge + 1)%Z). lia.
Qed.

(** Scope containment is a preorder with [all] at the top, and it is exactly
    inclusion where scopes have an extension: a granted time range contains a
    non-empty requested one if and only if every instant of the request is in
    the grant, and a granted classification ceiling covers exactly the
    classifications up to it. *)
Theorem scope_containment_preorder :
  (forall s, contains s s = true)
  /\ (forall a b c, contains a b = true -> contains b c = true -> contains a c = true)
  /\ (forall s, contains ScopeAll s = true)
  /\ (forall s, contains s ScopeAll = true -> s = ScopeAll)
  /\ (forall g r, (exists t, TimeRange_contains r t = true) ->
        (contains (ScopeTimeRange g) (ScopeTimeRange r) = true <->
         forall t, TimeRange_contains r t = true -> TimeRange_contains g t = true))
  /\ (forall g r, contains (ScopeClassification g) (ScopeClassification r) = true <->
        (class_rank r <= class_rank g)%Z).
Proof.
  split; [|split; [|split; [|split; [|split]]]].
  - intros []; simpl; rewrite ?bool_decide_eq_true, ?String.eqb_eq; try done.
    + unfold range_contains. destruct (tr_start r), (tr_end r); rewrite ?Z.leb_refl; done.
    + apply class_le_refl.
  - intros a b c. destruct a, b; simpl; try done; destruct c; simpl;
      rewrite ?bool_decide_eq_true, ?String.eqb_eq; try congruence.
    + unfold range_contains. destruct (tr_start r), (tr_end r), (tr_start r0), (tr_end r0),
        (tr_start r1), (tr_end r1); rewrite !andb_true_iff, ?Z.leb_le; intuition (lia || done).
    + intros Hab Hbc. unfold classification_covers in *. eauto using class_le_trans.
  - done.
  - by intros [].
  - intros g r Hne. simpl. split; [|by apply range_contains_complete].
    intros Hc t. by apply range_contains_sound.
  - intros g r. apply Z.leb_le.
Qed.

(** Permission overrides do what their names say: allowing (denying) an
    action makes exactly that action allowed (refused) and leaves every other
    action alone; the effective list holds exactly the allowed actions, sorted
    by name; [explain] agrees with [allows]; and the role matrix is a hierarchy
    with the administrator at the top. *)
Theorem permission_overrides p a b :
  allows (allow p a) b = (bool_decide (b = a) || allows p b)
  /\ allows (deny p a) b = (negb (bool_decide (b = a)) && allows p b)
  /\ (b ∈ effective p <-> allows p b = true)
  /\ StronglySorted (cmp_le (cmp_key AccessAction_as_str)) (effective p)
  /\ (allows p b = true <-> explain p b = GrantedByRole \/ explain p b = GrantedByOverride)
  /\ role_allows Administrator b = true
  /\ (role_allows ReadOnlyReviewer b = true -> role_allows Auditor b = true)
  /\ (role_allows Auditor b = true ->
        role_allows SeniorAuditor b = true /\ role_allows Investigator b = true)
  /\ (role_allows SeniorAuditor b = true -> role_allows ComplianceOfficer b = true).
Proof.
  split; [|split; [|split; [|split; [|split; [|split; [|split; [|split]]]]]]].
  - apply eq_true_iff_eq. rewrite orb_true_iff, bool_decide_eq_true, !allows_iff. unfold allow. simpl.
    rewrite retain_ne_spec, elem_of_snoc_if. destruct (decide (b = a)); naive_solver.
  - apply eq_true_iff_eq. rewrite andb_true_iff, negb_true_iff, bool_decide_eq_false, !allows_iff.
    rewrite deny_removals. simpl. rewrite retain_ne_spec. destruct (decide (b = a)); naive_solver.
  - apply effective_iff.
  - apply sort_by_key_sorted.
  - rewrite allows_iff. unfold explain, role_allows.
    repeat case_bool_decide; naive_solver.
  - by destruct b.
  - by destruct b.
  - by destruct b.
  - by destruct b.
Qed.

(** The documentation of [roles.rs] says the authorizer additionally requires
    an [all] scope of an administrator; it does not: an administrator whose only
    scope is one network is allowed every action on that network. *)
Theorem administrator_needs_no_all_scope :
  exists reg now a n, (forall g, bt_get a (grants reg) = Some g ->
                         gr_role g = Administrator /\ gr_scopes g = [ScopeNetwork n])
    /\ forall act, exists d, authorize reg now a act (ScopeNetwork n) = Ok d /\ ad_allowed d = true.
Proof.
  set (a := mkId (mkStableId "aud" "aud_01") : AuditorId). set (n := mkNetworkId "testnet").
  set (g := with_credential (Credential_new a "k" (mkTimestamp 10))
              (with_scope (ScopeNetwork n) (Grant_new a Administrator))).
  exists (fst (register Registry_new g)), (mkTimestamp 1), a, n. split.
  - intros g' [= <-]. done.
  - intros act. eexists. split; [by destruct act | by destruct act].
Qed.
