(* ===== verification/Privacy.v ===== *)
(** * Privacy ([crates/privacy]) and retention ([crates/audit-core/src/retention.rs])

    Disclosure ceilings, field-level redaction, record disclosure, and the
    retention policy evaluation. *)

From S2P Require Import Prelude Text BTree Errors Identifiers Timestamps Classification.
From S2P Require Import Correlation Events IntegrityModel Records AccessModel Authorization.
Open Scope list_scope.

(** ** Ceilings ([ceiling.rs]) *)

Definition next_level (c : DataClassification) : option DataClassification :=
  match c with
  | Public => Some Operational
  | Operational => Some Confidential
  | Confidential => Some Restricted
  | Restricted => Some HighlyRestricted
  | HighlyRestricted => None
  end.

(** The loop over the granted scopes with its early return on [All]; the outer
    option is [None] when the loop returned. *)
Fixpoint most_sensitive_grant (acc : option DataClassification) (granted : list AccessScope)
  : option (option DataClassification) :=
  match granted with
  | [] => Some acc
  | ScopeAll :: _ => None
  | ScopeClassification c :: granted =>
      most_sensitive_grant (Some (match acc with Some current => class_max current c | None => c end)) granted
  | _ :: granted => most_sensitive_grant acc granted
  end.

(** [None]: no ceiling, everything may be disclosed. *)
Definition disclosure_ceiling (granted : list AccessScope) : option DataClassification :=
  match most_sensitive_grant None granted with
  | None => None
  | Some None => Some Public
  | Some (Some most_sensitive) => next_level most_sensitive
  end.

(** ** Redaction ([redaction.rs]) *)

Definition REDACTED_MARKER : string := "[redacted]".
Definition is_redacted (value : string) : bool := String.eqb value REDACTED_MARKER.

Definition field_classification (key : string) (redactions : FieldClassifications)
    (default : DataClassification) : DataClassification :=
  match bt_get key redactions with Some c => c | None => default end.

Definition is_disclosable (c ceiling : DataClassification) : bool := negb (is_at_least c ceiling).

(** The result is collected from an iterator in key order with the keys
    unchanged, so it has the entries of [details] in their order. *)
Definition redact_details (details : BTreeMap string string) (redactions : FieldClassifications)
    (default ceiling : DataClassification) : BTreeMap string string :=
  map (fun '(key, value) =>
         let c := field_classification key redactions default in
         let disclosed := if is_disclosable c ceiling then value else REDACTED_MARKER in
         (key, disclosed)) details.

Definition redacted_keys (details : BTreeMap string string) (redactions : FieldClassifications)
    (default ceiling : DataClassification) : list string :=
  map fst (List.filter (fun p => negb (is_disclosable (field_classification (fst p) redactions default) ceiling))
             details).

(** ** Disclosure ([disclosure.rs]) *)

Definition disclose_details (record : AuditRecord) (ceiling : option DataClassification)
  : BTreeMap string string :=
  match ceiling with
  | None => details (event record)
  | Some ceiling => redact_details (details (event record)) (redactions record) (classification record) ceiling
  end.

Definition record_redacted_keys (record : AuditRecord) (ceiling : option DataClassification) : list string :=
  match ceiling with
  | None => []
  | Some ceiling => redacted_keys (details (event record)) (redactions record) (classification record) ceiling
  end.

Record RecordDisclosure := mkRecordDisclosure {
  rd_record_id : RecordId;
  rd_kind : EventKind;
  rd_network : NetworkId;
  rd_recorded_at : Timestamp;
  rd_details : BTreeMap string string;
  rd_redacted_keys : list string
}.

Definition disclose (record : AuditRecord) (ceiling : option DataClassification) : RecordDisclosure :=
  mkRecordDisclosure (record_id record) (kind (event record)) (network (event record))
    (recorded_at record) (disclose_details record ceiling) (record_redacted_keys record ceiling).

(** ** Retention ([retention.rs]) *)

(** The day count is a [u64]. *)
Inductive RetentionPeriod : Type := Indefinite | Days (days : Z).

Definition is_indefinite (p : RetentionPeriod) : bool := match p with Indefinite => true | Days _ => false end.

Definition RetentionPeriod_as_str (p : RetentionPeriod) : string :=
  match p with
  | Indefinite => "indefinite"
  | Days n => "days:" +:+ z_to_string n
  end.

Record RetentionPolicy := mkRetentionPolicy {
  retention : RetentionPeriod;
  archived : bool;
  legal_hold : bool;
  investigation_case : option CaseId;
  deletion_allowed : bool
}.

Definition default_evidence : RetentionPolicy := mkRetentionPolicy Indefinite false false None false.
Definition for_days (days : Z) : RetentionPolicy := mkRetentionPolicy (Days days) false false None false.
Definition with_legal_hold (p : RetentionPolicy) : RetentionPolicy :=
  mkRetentionPolicy (retention p) (archived p) true (investigation_case p) (deletion_allowed p).
Definition with_investigation (c : CaseId) (p : RetentionPolicy) : RetentionPolicy :=
  mkRetentionPolicy (retention p) (archived p) (legal_hold p) (Some c) (deletion_allowed p).
Definition with_deletion_allowed (p : RetentionPolicy) : RetentionPolicy :=
  mkRetentionPolicy (retention p) (archived p) (legal_hold p) (investigation_case p) true.

Record RetentionStatus := mkRetentionStatus {
  period_elapsed : bool;
  eligible_for_archival : bool;
  eligible_for_deletion : bool;
  holds : list string
}.

(** [days as i64 * 86_400] as a release build computes it: the cast and the
    product wrap (a build with overflow checks panics where the product is out
    of range). *)
Definition retention_seconds (days : Z) : Z := wrap_i64 (wrap_i64 days * 86400).

Definition evaluate (policy : RetentionPolicy) (recorded_at now : Timestamp) : RetentionStatus :=
  let period_elapsed :=
    match retention policy with
    | Indefinite => false
    | Days days =>
        let elapsed := saturate_i64 (unix_seconds now - unix_seconds recorded_at) in
        (retention_seconds days <=? elapsed)%Z
    end in
  let holds :=
    (if legal_hold policy then ["legal-hold"] else [])
    ++ match investigation_case policy with Some case => ["investigation:" +:+ as_str case] | None => [] end in
  let held := match holds with [] => false | _ => true end in
  let eligible_for_archival := period_elapsed && negb held in
  let eligible_for_deletion := deletion_allowed policy && period_elapsed && negb held in
  mkRetentionStatus period_elapsed eligible_for_archival eligible_for_deletion holds.

(** ** Facts *)

(** What a ceiling lets through. *)
Definition below (ceiling : option DataClassification) (c : DataClassification) : bool :=
  match ceiling with None => true | Some k => is_disclosable c k end.

Lemma below_next_level m c : below (next_level m) c = class_le c m.
Proof. by destruct m, c. Qed.

Lemma most_sensitive_spec acc gs :
  match most_sensitive_grant acc gs with
  | None => forall c, covers_classification gs c = true
  | Some m => forall c,
      match m with Some m => class_le c m | None => false end
      = (match acc with Some a => class_le c a | None => false end || covers_classification gs c)
  end.
Proof.
  revert acc. induction gs as [|s gs IH]; intros acc; simpl.
  - intros c. by rewrite orb_false_r.
  - destruct s; simpl; try apply IH; try done.
    specialize (IH (Some (match acc with Some current => class_max current c | None => c end))).
    destruct (most_sensitive_grant _ gs) as [m|].
    + intros c'. rewrite IH. unfold covers_classification, any_contains, classification_covers. simpl.
      destruct acc as [a|]; [|by rewrite orb_false_l].
      by rewrite class_le_max, orb_assoc.
    + intros c'. unfold covers_classification, any_contains in *. simpl. by rewrite IH, orb_true_r.
Qed.

Lemma disclosure_ceiling_covers gs c : below (disclosure_ceiling gs) c = covers_classification gs c.
Proof.
  unfold disclosure_ceiling. pose proof (most_sensitive_spec None gs) as Hm.
  destruct (most_sensitive_grant None gs) as [[m|]|].
  - rewrite below_next_level. by rewrite (Hm c).
  - specialize (Hm c). simpl in Hm. rewrite <- Hm. by destruct c.
  - simpl. by rewrite Hm.
Qed.

Lemma redact_keys d r def k : bt_keys (redact_details d r def k) = bt_keys d.
Proof.
  unfold bt_keys, redact_details. rewrite map_map. apply map_ext. by intros [].
Qed.

Lemma redact_get d r def k key :
  bt_get key (redact_details d r def k) =
    option_map (fun v => if is_disclosable (field_classification key r def) k then v else REDACTED_MARKER)
      (bt_get key d).
Proof.
  induction d as [|[key' v] d IH]; simpl; [done|].
  destruct (compare key key') eqn:E; [|done|done]. apply compare_eq_iff in E. by subst.
Qed.

(** ** Claims *)

(** The disclosure ceiling of a set of granted scopes lets through exactly
    the classifications the authorizer's scope check covers, so what a reader
    may see and what a reader may request agree. *)
Theorem ceiling_agrees_with_authorizer gs c :
  (match disclosure_ceiling gs with
   | None => true
   | Some ceiling => is_disclosable c ceiling
   end) = covers_classification gs c.
Proof. apply disclosure_ceiling_covers. Qed.

(** C8 Disclosure under the ceiling of a set of scopes keeps every key, shows a
    value exactly when the scopes cover its classification and the marker
    otherwise, lists exactly the withheld keys in key order, and leaks nothing:
    two detail maps with the same keys that agree on the covered values have
    the same disclosure. *)
Theorem disclosure_no_leak gs rec :
  let field k := field_classification k (redactions rec) (classification rec) in
  let shown k := covers_classification gs (field k) in
  let out := disclose rec (disclosure_ceiling gs) in
  bt_wf (details (event rec)) ->
  bt_keys (rd_details out) = bt_keys (details (event rec))
  /\ (forall k, bt_get k (rd_details out) =
        option_map (fun v => if shown k then v else REDACTED_MARKER) (bt_get k (details (event rec))))
  /\ rd_redacted_keys out = List.filter (fun k => negb (shown k)) (bt_keys (details (event rec)))
  /\ (forall rec',
        bt_wf (details (event rec')) ->
        redactions rec' = redactions rec -> classification rec' = classification rec ->
        bt_keys (details (event rec')) = bt_keys (details (event rec)) ->
        (forall k, shown k = true ->
           bt_get k (details (event rec')) = bt_get k (details (event rec))) ->
        rd_details (disclose rec' (disclosure_ceiling gs)) = rd_details out
        /\ rd_redacted_keys (disclose rec' (disclosure_ceiling gs)) = rd_redacted_keys out).
Proof.
  intros field shown out Hwf.
  assert (forall r, bt_keys (rd_details (disclose r (disclosure_ceiling gs))) = bt_keys (details (event r))) as Hkeys.
  { intros r. simpl. unfold disclose_details. destruct (disclosure_ceiling gs); [apply redact_keys | done]. }
  assert (forall r k, bt_get k (rd_details (disclose r (disclosure_ceiling gs))) =
     option_map (fun v => if covers_classification gs
                              (field_classification k (redactions r) (classification r))
                          then v else REDACTED_MARKER) (bt_get k (details (event r)))) as Hget.
  { intros r k. simpl. unfold disclose_details. rewrite <- disclosure_ceiling_covers. unfold below.
    destruct (disclosure_ceiling gs); [apply redact_get|]. by destruct (bt_get k _). }
  assert (forall r, rd_redacted_keys (disclose r (disclosure_ceiling gs)) =
     List.filter (fun k => negb (covers_classification gs
                            (field_classification k (redactions r) (classification r))))
       (bt_keys (details (event r)))) as Hred.
  { intros r. simpl. unfold record_redacted_keys, redacted_keys, bt_keys.
    induction (details (event r)) as [|[k v] d IH].
    - by destruct (disclosure_ceiling gs).
    - simpl. rewrite <- IH, <- disclosure_ceiling_covers. unfold below.
      destruct (disclosure_ceiling gs); simpl; [|done]. by destruct (is_disclosable _ _). }
  split; [apply Hkeys|]. split; [apply Hget|]. split; [apply Hred|].
  intros rec' Hwf' Er Ec Ek Hv. split; [|by unfold out; rewrite !Hred, Er, Ec, Ek].
  apply bt_ext.
  - apply bt_wf_of_keys. rewrite Hkeys. by apply bt_keys_sorted.
  - apply bt_wf_of_keys. unfold out. rewrite Hkeys. by apply bt_keys_sorted.
  - intros k. unfold out. rewrite !Hget, Er, Ec. fold (field k). fold (shown k).
    destruct (shown k) eqn:E; [by rewrite Hv|].
    assert (bt_contains k (details (event rec)) = bt_contains k (details (event rec'))) as Hc
      by (apply eq_true_iff_eq; rewrite !bt_contains_iff, Ek; done).
    unfold bt_contains in Hc.
    by destruct (bt_get k (details (event rec))), (bt_get k (details (event rec'))).
Qed.

Definition leaky_record : AuditRecord :=
  mkAuditRecord (mkId (mkStableId "rec" "rec_01"))
    (mkAuditEvent (mkId (mkStableId "evt" "evt_01")) AuditAccess 1 (mkNetworkId "testnet")
       (mkEventProvenance OnChain "rpc" (mkVersionLabel "1") None) None EventOrder_default
       None None None None None None None None None None [("a", "1"); ("b", "2")])
    (mkTimestamp 0) 1 Confidential [("a", Restricted)] None None None.

Lemma disclosure_no_leak_witness :
  bt_wf (details (event leaky_record))
  /\ bt_keys (rd_details (disclose leaky_record (disclosure_ceiling [ScopeClassification Confidential])))
     = ["a"; "b"].
Proof.
  assert (bt_wf (details (event leaky_record))) as Hwf by (repeat constructor).
  split; [exact Hwf|].
  exact (proj1 (disclosure_no_leak [ScopeClassification Confidential] leaky_record Hwf)).
Defined.

(** C39 Retention: a record is eligible for deletion exactly when deletion is
    allowed, no hold applies and the period has elapsed, and for day counts
    whose seconds fit an [i64] (and clock readings whose difference fits) the
    period has elapsed exactly when [days * 86400] seconds have passed;
    indefinite retention never elapses; eligibility for deletion implies
    eligibility for archival.  Outside those bounds the [as i64] cast wraps: a
    period of [u64::MAX] days is a negative one and counts as elapsed for a
    record written this very second, which deletion then takes if allowed. *)
Theorem retention_evaluate p rec_at now :
  let s := evaluate p rec_at now in
  let held := legal_hold p || match investigation_case p with Some _ => true | None => false end in
  eligible_for_archival s = (period_elapsed s && negb held)
  /\ eligible_for_deletion s = (deletion_allowed p && eligible_for_archival s)
  /\ (retention p = Indefinite -> period_elapsed s = false)
  /\ (forall days, retention p = Days days -> (0 <= days)%Z -> in_i64 (days * 86400) ->
        in_i64 (unix_seconds now - unix_seconds rec_at) ->
        period_elapsed s = (days * 86400 <=? unix_seconds now - unix_seconds rec_at)%Z)
  /\ period_elapsed (evaluate (for_days u64_max) now now) = true
  /\ eligible_for_deletion (evaluate (with_deletion_allowed (for_days u64_max)) now now) = true.
Proof.
  unfold evaluate. simpl. rewrite Z.sub_diag. split; [|split; [|split; [|split; [|done]]]].
  - by destruct (legal_hold p), (investigation_case p).
  - by rewrite andb_assoc.
  - by intros ->.
  - intros days -> Hd Hdays Hdiff. unfold retention_seconds.
    rewrite saturate_i64_small by done.
    rewrite (wrap_i64_small days) by (unfold in_i64, i64_min, i64_max in *; lia).
    by rewrite wrap_i64_small.
Qed.
