(* ===== verification/Cases.v ===== *)
(** * Investigation cases ([crates/audit-core/src/investigation.rs])

    The case state machine, its append-only timeline, findings and notes, and
    the structural validation of a case. *)

From S2P Require Import Prelude Text Errors Identifiers Timestamps Correlation.
Open Scope list_scope.

Inductive CaseStatus : Type := Open | Investigating | Escalated | Resolved | Closed.

#[export] Instance CaseStatus_eq_dec : EqDecision CaseStatus.
Proof. solve_decision. Defined.

Definition CaseStatus_as_str (s : CaseStatus) : string :=
  match s with
  | Open => "open"
  | Investigating => "investigating"
  | Escalated => "escalated"
  | Resolved => "resolved"
  | Closed => "closed"
  end.

Definition can_transition (from to : CaseStatus) : bool :=
  match from, to with
  | Open, Investigating
  | Open, Escalated
  | Investigating, Escalated
  | Investigating, Resolved
  | Escalated, Investigating
  | Escalated, Resolved
  | Resolved, Closed
  | Resolved, Open
  | Closed, Open => true
  | _, _ => false
  end.

Definition is_terminal (s : CaseStatus) : bool := match s with Closed => true | _ => false end.

Inductive Priority : Type := PriorityLow | PriorityMedium | PriorityHigh | PriorityCritical.

Inductive TimelineEntryKind : Type :=
| TransactionObserved
| PolicyDecision
| EnforcementDecision
| TimelineAccountFrozen
| Denial
| AuthorizationChanged_
| AuditorAccess
| TimelineEvidenceGenerated
| FindingAdded
| StatusChanged
| NoteAdded.

Definition TimelineEntryKind_as_str (k : TimelineEntryKind) : string :=
  match k with
  | TransactionObserved => "transaction-observed"
  | PolicyDecision => "policy-decision"
  | EnforcementDecision => "enforcement-decision"
  | TimelineAccountFrozen => "account-frozen"
  | Denial => "denial"
  | AuthorizationChanged_ => "authorization-change"
  | AuditorAccess => "auditor-access"
  | TimelineEvidenceGenerated => "evidence-generated"
  | FindingAdded => "finding-added"
  | StatusChanged => "status-changed"
  | NoteAdded => "note-added"
  end.

Record TimelineEntry := mkTimelineEntry {
  tl_at : Timestamp;
  tl_kind : TimelineEntryKind;
  tl_actor : option AuditorId;
  tl_record : option RecordId;
  tl_provenance : string;
  tl_detail : option string
}.

Definition TimelineEntry_new (at_ : Timestamp) (kind : TimelineEntryKind) (provenance : string)
  : AuditResult TimelineEntry :=
  if str_is_empty provenance || (64 <? str_len provenance)%Z
  then Err (InvalidIdentifier "timeline provenance" "must be 1-64 chars")
  else Ok (mkTimelineEntry at_ kind None None provenance None).

Definition with_actor (a : AuditorId) (e : TimelineEntry) : TimelineEntry :=
  mkTimelineEntry (tl_at e) (tl_kind e) (Some a) (tl_record e) (tl_provenance e) (tl_detail e).
Definition with_record (r : RecordId) (e : TimelineEntry) : TimelineEntry :=
  mkTimelineEntry (tl_at e) (tl_kind e) (tl_actor e) (Some r) (tl_provenance e) (tl_detail e).
Definition with_detail (d : string) (e : TimelineEntry) : TimelineEntry :=
  mkTimelineEntry (tl_at e) (tl_kind e) (tl_actor e) (tl_record e) (tl_provenance e) (Some d).

Inductive FindingKind : Type := PolicyVerdict | EnforcementVerdict | Anomaly | Pattern | FindingIntegrity.
Inductive Severity : Type := Info | SeverityLow | SeverityMedium | SeverityHigh | SeverityCritical.

Definition Severity_as_str (s : Severity) : string :=
  match s with
  | Info => "info"
  | SeverityLow => "low"
  | SeverityMedium => "medium"
  | SeverityHigh => "high"
  | SeverityCritical => "critical"
  end.

Record Finding := mkFinding {
  finding_id : FindingId;
  finding_kind : FindingKind;
  finding_severity : Severity;
  finding_summary : string;
  finding_related : list RecordId;
  finding_created_at : Timestamp;
  finding_created_by : AuditorId
}.

Definition Finding_new (id : FindingId) (kind : FindingKind) (severity : Severity) (summary : string)
    (created_at : Timestamp) (created_by : AuditorId) : AuditResult Finding :=
  if str_is_empty summary || (512 <? str_len summary)%Z
  then Err (ValidationFailure "finding summary must be 1-512 chars")
  else Ok (mkFinding id kind severity summary [] created_at created_by).

Definition with_related_records (rs : list RecordId) (f : Finding) : Finding :=
  mkFinding (finding_id f) (finding_kind f) (finding_severity f) (finding_summary f) rs
    (finding_created_at f) (finding_created_by f).

Record Note := mkNote {
  note_id : NoteId;
  note_author : AuditorId;
  note_body : string;
  note_created_at : Timestamp
}.

Definition Note_new (id : NoteId) (author : AuditorId) (body : string) (created_at : Timestamp)
  : AuditResult Note :=
  if str_is_empty body || (4096 <? str_len body)%Z
  then Err (ValidationFailure "note body must be 1-4096 chars")
  else Ok (mkNote id author body created_at).

Record RelatedReferences := mkRelatedReferences {
  rel_records : list RecordId;
  rel_transactions : list TransactionReference;
  rel_accounts : list AccountReference;
  rel_tokens : list TokenReference;
  rel_policies : list PolicyReference
}.

Definition RelatedReferences_empty : RelatedReferences := mkRelatedReferences [] [] [] [] [].
Definition list_is_empty {A} (l : list A) : bool := match l with [] => true | _ => false end.
Definition related_is_empty (x : RelatedReferences) : bool :=
  list_is_empty (rel_records x) && list_is_empty (rel_transactions x) && list_is_empty (rel_accounts x)
  && list_is_empty (rel_tokens x) && list_is_empty (rel_policies x).
Definition add_record (r : RecordId) (x : RelatedReferences) : RelatedReferences :=
  mkRelatedReferences (rel_records x ++ [r]) (rel_transactions x) (rel_accounts x) (rel_tokens x)
    (rel_policies x).
Definition add_transaction (t : TransactionReference) (x : RelatedReferences) : RelatedReferences :=
  mkRelatedReferences (rel_records x) (rel_transactions x ++ [t]) (rel_accounts x) (rel_tokens x)
    (rel_policies x).

Record InvestigationCase := mkInvestigationCase {
  case_id : CaseId;
  case_title : string;
  case_status : CaseStatus;
  case_priority : Priority;
  case_created_at : Timestamp;
  case_created_by : AuditorId;
  assigned_to : option AuditorId;
  case_related : RelatedReferences;
  timeline : list TimelineEntry;
  findings : list Finding;
  notes : list Note;
  closed_at : option Timestamp;
  closed_reason : option string
}.

Definition case_open (id : CaseId) (title : string) (priority : Priority) (created_at : Timestamp)
    (created_by : AuditorId) : AuditResult InvestigationCase :=
  if str_is_empty title || (200 <? str_len title)%Z
  then Err (ValidationFailure "case title must be 1-200 chars")
  else Ok (mkInvestigationCase id title Open priority created_at created_by None
             RelatedReferences_empty [] [] [] None None).

(** Pushes a timeline entry; the other updates of the methods below. *)
Definition push_entry (e : TimelineEntry) (c : InvestigationCase) : InvestigationCase :=
  mkInvestigationCase (case_id c) (case_title c) (case_status c) (case_priority c) (case_created_at c)
    (case_created_by c) (assigned_to c) (case_related c) (timeline c ++ [e]) (findings c) (notes c)
    (closed_at c) (closed_reason c).
Definition set_assigned (a : AuditorId) (c : InvestigationCase) : InvestigationCase :=
  mkInvestigationCase (case_id c) (case_title c) (case_status c) (case_priority c) (case_created_at c)
    (case_created_by c) (Some a) (case_related c) (timeline c) (findings c) (notes c) (closed_at c)
    (closed_reason c).
Definition set_status (s : CaseStatus) (c : InvestigationCase) : InvestigationCase :=
  mkInvestigationCase (case_id c) (case_title c) s (case_priority c) (case_created_at c)
    (case_created_by c) (assigned_to c) (case_related c) (timeline c) (findings c) (notes c)
    (closed_at c) (closed_reason c).
Definition set_closure (at_ : Timestamp) (reason : option string) (c : InvestigationCase) : InvestigationCase :=
  mkInvestigationCase (case_id c) (case_title c) (case_status c) (case_priority c) (case_created_at c)
    (case_created_by c) (assigned_to c) (case_related c) (timeline c) (findings c) (notes c)
    (Some at_) reason.
Definition set_related (x : RelatedReferences) (c : InvestigationCase) : InvestigationCase :=
  mkInvestigationCase (case_id c) (case_title c) (case_status c) (case_priority c) (case_created_at c)
    (case_created_by c) (assigned_to c) x (timeline c) (findings c) (notes c) (closed_at c)
    (closed_reason c).
Definition push_finding (f : Finding) (c : InvestigationCase) : InvestigationCase :=
  mkInvestigationCase (case_id c) (case_title c) (case_status c) (case_priority c) (case_created_at c)
    (case_created_by c) (assigned_to c) (case_related c) (timeline c) (findings c ++ [f]) (notes c)
    (closed_at c) (closed_reason c).
Definition push_note (n : Note) (c : InvestigationCase) : InvestigationCase :=
  mkInvestigationCase (case_id c) (case_title c) (case_status c) (case_priority c) (case_created_at c)
    (case_created_by c) (assigned_to c) (case_related c) (timeline c) (findings c) (notes c ++ [n])
    (closed_at c) (closed_reason c).

Definition assign (investigator : AuditorId) (at_ : Timestamp) (c : InvestigationCase)
  : AuditResult InvestigationCase :=
  let c := set_assigned investigator c in
  let? e := TimelineEntry_new at_ StatusChanged "auditor-action" in
  Ok (push_entry (with_detail "case assigned" (with_actor investigator e)) c).

Definition change_status (to : CaseStatus) (at_ : Timestamp) (by_ : AuditorId) (reason : option string)
    (c : InvestigationCase) : AuditResult InvestigationCase :=
  if negb (can_transition (case_status c) to)
  then Err (ValidationFailure ("cannot transition case from " +:+ CaseStatus_as_str (case_status c)
              +:+ " to " +:+ CaseStatus_as_str to))
  else
    let? e := TimelineEntry_new at_ StatusChanged "auditor-action" in
    let arrow := CaseStatus_as_str (case_status c) +:+ " -> " +:+ CaseStatus_as_str to in
    let e := with_detail arrow (with_actor by_ e) in
    let e := match reason with
             | Some r => with_detail (arrow +:+ " (" +:+ r +:+ ")") e
             | None => e
             end in
    let c := set_status to (push_entry e c) in
    Ok (if decide (to = Closed) then set_closure at_ reason c else c).

Definition add_related_record (record : RecordId) (kind : TimelineEntryKind) (at_ : Timestamp)
    (c : InvestigationCase) : AuditResult InvestigationCase :=
  let c := set_related (add_record record (case_related c)) c in
  let? e := TimelineEntry_new at_ kind "audit-record" in
  Ok (push_entry (with_record record e) c).

Definition case_add_finding (f : Finding) (at_ : Timestamp) (c : InvestigationCase)
  : AuditResult InvestigationCase :=
  let? e := TimelineEntry_new at_ FindingAdded "auditor-action" in
  Ok (push_finding f (push_entry (with_actor (finding_created_by f) e) c)).

Definition case_add_note (n : Note) (c : InvestigationCase) : AuditResult InvestigationCase :=
  let? e := TimelineEntry_new (note_created_at n) NoteAdded "auditor-action" in
  Ok (push_note n (push_entry (with_actor (note_author n) e) c)).

Definition needs_actor (k : TimelineEntryKind) : bool :=
  match k with FindingAdded | StatusChanged | NoteAdded => true | _ => false end.

Definition bad_entry (e : TimelineEntry) : bool :=
  match tl_actor e with None => needs_actor (tl_kind e) | Some _ => false end.

Definition case_validate (c : InvestigationCase) : AuditResult unit :=
  let? _ :=
    match case_status c with
    | Closed =>
        match closed_at c with
        | None => Err (ValidationFailure "closed cases must record closed_at")
        | Some _ => Ok tt
        end
    | _ =>
        match closed_at c, closed_reason c with
        | None, None => Ok tt
        | _, _ => Err (ValidationFailure "only closed cases may carry closure fields")
        end
    end in
  if existsb bad_entry (timeline c)
  then Err (ValidationFailure "auditor-action timeline entries must carry an actor")
  else Ok tt.

(** ** The case as a state machine *)

(** One call of a mutating method. *)
Inductive case_step : InvestigationCase -> InvestigationCase -> Prop :=
| step_assign c c' i at_ : assign i at_ c = Ok c' -> case_step c c'
| step_status c c' to at_ by_ reason : change_status to at_ by_ reason c = Ok c' -> case_step c c'
| step_related c c' r k at_ : add_related_record r k at_ c = Ok c' -> case_step c c'
| step_finding c c' f at_ : case_add_finding f at_ c = Ok c' -> case_step c c'
| step_note c c' n : case_add_note n c = Ok c' -> case_step c c'.

(** A sequence of calls. *)
Inductive case_reach (c : InvestigationCase) : InvestigationCase -> Prop :=
| reach_refl : case_reach c c
| reach_step c1 c2 : case_reach c c1 -> case_step c1 c2 -> case_reach c c2.

(** The content of a later state extends that of an earlier one. *)
Record extends (c c' : InvestigationCase) : Prop := {
  ext_id : case_id c' = case_id c;
  ext_title : case_title c' = case_title c;
  ext_created : case_created_at c' = case_created_at c /\ case_created_by c' = case_created_by c;
  ext_timeline : timeline c `prefix_of` timeline c';
  ext_findings : findings c `prefix_of` findings c';
  ext_notes : notes c `prefix_of` notes c';
  ext_records : rel_records (case_related c) `prefix_of` rel_records (case_related c')
}.

Lemma extends_refl c : extends c c.
Proof. split; done. Qed.
Lemma extends_trans c1 c2 c3 : extends c1 c2 -> extends c2 c3 -> extends c1 c3.
Proof. intros [? ? [] ? ? ? ?] [? ? [] ? ? ? ?]. split; try (etrans; eauto); split; congruence. Qed.

Lemma new_entry_Ok at_ k p e :
  TimelineEntry_new at_ k p = Ok e -> e = mkTimelineEntry at_ k None None p None.
Proof. unfold TimelineEntry_new. intros He. by ok_inv. Qed.

(** Unfolds a successful method call. *)
Ltac case_inv H :=
  unfold assign, change_status, add_related_record, case_add_finding, case_add_note in H; ok_inv;
  repeat match goal with
    | E : TimelineEntry_new _ _ _ = Ok _ |- _ => apply new_entry_Ok in E; subst
    end.

Lemma step_extends c c' : case_step c c' -> extends c c'.
Proof.
  intros Hs. destruct Hs as [c c' i at_ Hc|c c' to at_ by_ reason Hc|c c' r k at_ Hc|c c' f at_ Hc|c c' n Hc];
    case_inv Hc; [| case_decide | | |];
    split; simpl; try done; try (by split); by eexists.
Qed.

(** Each call pushes exactly one timeline entry. *)
Lemma step_timeline c c' : case_step c c' -> exists e, timeline c' = timeline c ++ [e].
Proof.
  intros Hs. destruct Hs as [c c' i at_ Hc|c c' to at_ by_ reason Hc|c c' r k at_ Hc|c c' f at_ Hc|c c' n Hc];
    case_inv Hc; [| case_decide | | |]; simpl; eauto.
Qed.

Lemma step_entries c c' :
  case_step c c' -> (forall r k at_, add_related_record r k at_ c = Ok c' -> needs_actor k = false) ->
  existsb bad_entry (timeline c) = false -> existsb bad_entry (timeline c') = false.
Proof.
  intros Hs Hk Hb.
  destruct Hs as [c c' i at_ Hc|c c' to at_ by_ reason Hc|c c' r k at_ Hc|c c' f at_ Hc|c c' n Hc];
    [| |specialize (Hk r k at_ Hc)| |]; case_inv Hc;
    [|case_decide; destruct reason| | |]; simpl; rewrite existsb_app, Hb; simpl;
    unfold bad_entry; simpl; rewrite ?Hk; done.
Qed.

(** A closed case has its closing time; a case never closed has no closure fields. *)
Definition closure_ok (c : InvestigationCase) : Prop :=
  (case_status c = Closed -> is_Some (closed_at c))
  /\ (closed_at c = None -> closed_reason c = None).

Lemma step_closure c c' : case_step c c' -> closure_ok c -> closure_ok c'.
Proof.
  unfold closure_ok. intros Hs [H1 H2].
  destruct Hs as [c c' i at_ Hc|c c' to at_ by_ reason Hc|c c' r k at_ Hc|c c' f at_ Hc|c c' n Hc];
    case_inv Hc; try done. case_decide as Hd; simpl; [split; [eauto | done]|]. done.
Qed.

(** A case is append-only over any sequence of method calls: its identity,
    title and creation never change, and its timeline, findings, notes and
    linked records only grow at the end, the timeline by exactly one entry per
    call; a case that is closed has recorded when. *)
Theorem case_append_only c0 id title pr at_ by_ c :
  case_open id title pr at_ by_ = Ok c0 -> case_reach c0 c ->
  extends c0 c /\ closure_ok c
  /\ forall c', case_step c c' -> extends c c' /\ length (timeline c') = S (length (timeline c)).
Proof.
  intros Ho Hr. unfold case_open in Ho. ok_inv.
  assert (extends (mkInvestigationCase id title Open pr at_ by_ None RelatedReferences_empty
                     [] [] [] None None) c /\ closure_ok c) as [He Hc].
  { induction Hr as [|c1 c2 Hr [He Hc] Hs]; [split; [apply extends_refl | done]|].
    split; [eauto using extends_trans, step_extends | eauto using step_closure]. }
  split; [done|]. split; [done|]. intros c' Hs. split; [by apply step_extends|].
  destruct (step_timeline c c' Hs) as [e ->]. rewrite length_app. simpl. lia.
Qed.

Definition aud1 : AuditorId := mkId (mkStableId "aud" "aud_01").
Definition case1 : CaseId := mkId (mkStableId "case" "case_01").
Definition opened1 : InvestigationCase :=
  mkInvestigationCase case1 "t" Open PriorityLow (mkTimestamp 1) aud1 None RelatedReferences_empty
    [] [] [] None None.

Lemma case_append_only_witness : extends opened1 opened1 /\ closure_ok opened1.
Proof.
  assert (case_open case1 "t" PriorityLow (mkTimestamp 1) aud1 = Ok opened1) as Ho by reflexivity.
  destruct (case_append_only opened1 case1 "t" PriorityLow (mkTimestamp 1) aud1 opened1 Ho
              (reach_refl opened1)) as (He & Hc & _).
  split; assumption.
Defined.

(** ** The documented lifecycle *)

(** The transitions the documentation allows, one constructor per arrow: those of
    the vectors under [test-vectors/investigation/lifecycle/valid], and the
    escalation of a case under investigation, which [docs/investigation.md] draws. *)
Inductive lifecycle_edge : CaseStatus -> CaseStatus -> Prop :=
| edge_begin : lifecycle_edge Open Investigating
| edge_escalate_unread : lifecycle_edge Open Escalated
| edge_escalate : lifecycle_edge Investigating Escalated
| edge_hand_back : lifecycle_edge Escalated Investigating
| edge_resolve : lifecycle_edge Investigating Resolved
| edge_resolve_escalated : lifecycle_edge Escalated Resolved
| edge_close : lifecycle_edge Resolved Closed
| edge_return : lifecycle_edge Resolved Open
| edge_reopen : lifecycle_edge Closed Open.

Create HintDb cases.
#[export] Hint Constructors lifecycle_edge case_step case_reach : cases.

Lemma can_transition_iff from to : can_transition from to = true <-> lifecycle_edge from to.
Proof. split; [destruct from, to; simpl; intros; (done || constructor) | by intros []]. Qed.

(** What a status change writes on the timeline. *)
Definition status_note (from to : CaseStatus) (reason : option string) : string :=
  let arrow := CaseStatus_as_str from +:+ " -> " +:+ CaseStatus_as_str to in
  match reason with Some r => arrow +:+ " (" +:+ r +:+ ")" | None => arrow end.

(** A status change, on both of its branches. *)
Lemma change_status_spec to at_ by_ reason c :
  match change_status to at_ by_ reason c with
  | Ok c' =>
      lifecycle_edge (case_status c) to /\ case_status c' = to
      /\ timeline c' = timeline c ++ [mkTimelineEntry at_ StatusChanged (Some by_) None "auditor-action"
                                        (Some (status_note (case_status c) to reason))]
      /\ closed_at c' = (if decide (to = Closed) then Some at_ else closed_at c)
      /\ closed_reason c' = (if decide (to = Closed) then reason else closed_reason c)
  | Err _ => ~ lifecycle_edge (case_status c) to
  end.
Proof.
  unfold change_status. destruct (can_transition (case_status c) to) eqn:E; simpl.
  - apply can_transition_iff in E. unfold status_note. destruct reason; case_decide; auto.
  - rewrite <- can_transition_iff. congruence.
Qed.

(** Along an arrow the change succeeds; and no other call moves the status. *)
Lemma edge_step c to : lifecycle_edge (case_status c) to -> exists c', case_step c c' /\ case_status c' = to.
Proof.
  intros He. pose proof (change_status_spec to (case_created_at c) (case_created_by c) None c) as Hs.
  destruct (change_status _ _ _ _ _) as [c'|e] eqn:E; [|done]. exists c'. split; [by eapply step_status | by apply Hs].
Qed.

Lemma step_edge c c' :
  case_step c c' -> case_status c' = case_status c \/ lifecycle_edge (case_status c) (case_status c').
Proof.
  intros Hs. destruct Hs as [c c' i at_ Hc|c c' to at_ by_ reason Hc|c c' r k at_ Hc|c c' f at_ Hc|c c' n Hc];
    [left|right|left..]; [by case_inv Hc| |by case_inv Hc..].
  pose proof (change_status_spec to at_ by_ reason c) as Hs. rewrite Hc in Hs. by destruct Hs as (He & -> & _).
Qed.

Lemma reach_trans c1 c2 c3 : case_reach c1 c2 -> case_reach c2 c3 -> case_reach c1 c3.
Proof. intros H1 H2. induction H2; eauto with cases. Qed.

(** Every status can be reached from every other. *)
Lemma lifecycle_connected from to : rtc lifecycle_edge from to.
Proof.
  assert (rtc lifecycle_edge from Open) as H1.
  { destruct from; [by constructor|..]; do 4 (eapply rtc_l; [by eauto with cases|]; try by constructor). }
  etrans; [exact H1|]. clear. destruct to.
  - done.
  - by apply rtc_once, edge_begin.
  - by apply rtc_once, edge_escalate_unread.
  - eapply rtc_l; [apply edge_begin|]. by apply rtc_once, edge_resolve.
  - eapply rtc_l; [apply edge_begin|]. eapply rtc_l; [apply edge_resolve|]. by apply rtc_once, edge_close.
Qed.

Lemma path_reach c to : rtc lifecycle_edge (case_status c) to -> exists c', case_reach c c' /\ case_status c' = to.
Proof.
  intros Hp. remember (case_status c) as from eqn:E. revert c E.
  induction Hp as [from|from mid to He Hp IH]; intros c ->; [eauto with cases|].
  destruct (edge_step c mid He) as (c1 & Hs & Em). destruct (IH c1 (eq_sym Em)) as (c2 & Hr & Et).
  exists c2. split; [|done]. eapply reach_trans; [|exact Hr]. eauto with cases.
Qed.

(** A status that is not the first one was entered along an arrow. *)
Lemma reach_entered c0 c :
  case_reach c0 c -> case_status c <> case_status c0 ->
  exists c1, case_reach c0 c1 /\ case_reach c1 c /\ lifecycle_edge (case_status c1) (case_status c).
Proof.
  intros Hr. induction Hr as [|c1 c2 Hr IH Hs]; [done|]. intros Hne.
  destruct (step_edge _ _ Hs) as [E|He]; [|by eauto 10 with cases].
  rewrite E in *. destruct (IH Hne) as (c3 & H1 & H2 & H3). exists c3. eauto with cases.
Qed.

(** Closure fields, once set, stay set. *)
Lemma step_closed_at c c' : case_step c c' -> is_Some (closed_at c) -> is_Some (closed_at c').
Proof.
  intros Hs [t Ht].
  destruct Hs as [c c' i at_ Hc|c c' to at_ by_ reason Hc|c c' r k at_ Hc|c c' f at_ Hc|c c' n Hc];
    case_inv Hc; [| case_decide | | |]; simpl; eauto.
Qed.

Lemma reach_closed_at c c' : case_reach c c' -> is_Some (closed_at c) -> is_Some (closed_at c').
Proof. intros Hr Hc. induction Hr; eauto using step_closed_at. Qed.

(** A call that sets them closes the case. *)
Lemma step_closes c c' : case_step c c' -> closed_at c = None -> is_Some (closed_at c') -> case_status c' = Closed.
Proof.
  intros Hs Hn [t Ht].
  destruct Hs as [c c' i at_ Hc|c c' to at_ by_ reason Hc|c c' r k at_ Hc|c c' f at_ Hc|c c' n Hc];
    case_inv Hc; try (simpl in *; congruence). case_decide; simpl in *; congruence.
Qed.

(** The case has been closed on its way from [c0] to [c]. *)
Definition was_closed (c0 c : InvestigationCase) : Prop :=
  exists c1, case_reach c0 c1 /\ case_reach c1 c /\ case_status c1 = Closed.

Lemma closed_at_iff c0 c :
  closure_ok c0 -> closed_at c0 = None -> case_reach c0 c -> is_Some (closed_at c) <-> was_closed c0 c.
Proof.
  intros Hc0 Hn Hr. split.
  - induction Hr as [|c1 c2 Hr IH Hs]; [rewrite Hn; by intros []|]. intros Hc2.
    destruct (closed_at c1) eqn:E.
    + destruct IH as (c3 & H1 & H2 & H3); [eauto|]. exists c3. eauto with cases.
    + exists c2. split; [by econstructor|]. split; [constructor | by eapply step_closes].
  - intros (c1 & H1 & H2 & H3). eapply reach_closed_at; [exact H2|].
    assert (closure_ok c1) as [Hc1 _]; [|by apply Hc1]. clear - Hc0 H1. induction H1; eauto using step_closure.
Qed.

Lemma case_validate_iff c :
  closure_ok c ->
  is_ok (case_validate c) = true <->
  existsb bad_entry (timeline c) = false /\ (case_status c = Closed \/ closed_at c = None).
Proof.
  intros [Hc Hr]. unfold case_validate.
  destruct (case_status c), (closed_at c) eqn:E; try rewrite (Hr eq_refl); simpl;
    destruct (existsb bad_entry (timeline c)); simpl; try (intuition congruence).
  all: by destruct (Hc eq_refl).
Qed.

(** C34 The lifecycle of a case.  Take a case opened by [open] and in any state
    that calls of its methods lead to.  A status change succeeds exactly along
    the nine documented transitions ([lifecycle_edge]); it then sets the status,
    pushes one entry with the time, the actor and the two statuses, and sets the
    closure fields exactly when it closes the case.  No other call moves the
    status.  Every status can still be reached.  A closed case was resolved
    before, and investigated or escalated before that.  The case carries
    [closed_at] exactly if it has been closed at some point, and it passes its
    own validation exactly if its auditor entries name their actors and it is
    closed now or never was: a case that is reopened, at once or later, is
    invalid until it is closed again. *)
Theorem case_status_machine id title pr at0 by0 c0 c :
  case_open id title pr at0 by0 = Ok c0 -> case_reach c0 c ->
  (forall to at_ by_ reason,
     match change_status to at_ by_ reason c with
     | Ok c' =>
         lifecycle_edge (case_status c) to /\ case_status c' = to
         /\ timeline c' = timeline c ++ [mkTimelineEntry at_ StatusChanged (Some by_) None "auditor-action"
                                           (Some (status_note (case_status c) to reason))]
         /\ closed_at c' = (if decide (to = Closed) then Some at_ else closed_at c)
         /\ closed_reason c' = (if decide (to = Closed) then reason else closed_reason c)
     | Err _ => ~ lifecycle_edge (case_status c) to
     end)
  /\ (forall c', case_step c c' ->
        case_status c' = case_status c
        \/ exists to at_ by_ reason, change_status to at_ by_ reason c = Ok c')
  /\ (forall st, exists c', case_reach c c' /\ case_status c' = st)
  /\ (case_status c = Closed ->
       exists c1 c2, case_reach c0 c1 /\ case_reach c1 c2 /\ case_reach c2 c
         /\ (case_status c1 = Investigating \/ case_status c1 = Escalated) /\ case_status c2 = Resolved)
  /\ (is_Some (closed_at c) <-> was_closed c0 c)
  /\ (is_ok (case_validate c) = true <->
       existsb bad_entry (timeline c) = false /\ (case_status c = Closed \/ ~ was_closed c0 c)).
Proof.
  intros Ho Hr.
  assert (case_status c0 = Open /\ closed_at c0 = None /\ closure_ok c0) as (Es & Ec & Hc0)
    by (unfold case_open in Ho; by ok_inv).
  assert (closure_ok c) as Hc by (clear - Hc0 Hr; induction Hr; eauto using step_closure).
  split; [intros; apply change_status_spec|].
  split; [intros c' Hs; destruct Hs as [c c' i at_ Hs|c c' to at_ by_ reason Hs|c c' r k at_ Hs|c c' f at_ Hs|c c' n Hs];
    [left|right|left..]; [by case_inv Hs | eauto | by case_inv Hs..]|].
  split; [intros st; apply path_reach, lifecycle_connected|].
  split; [|split; [by apply closed_at_iff|]].
  - intros Hcl. destruct (reach_entered c0 c Hr) as (c2 & H1 & H2 & He); [congruence|]. rewrite Hcl in He.
    assert (case_status c2 = Resolved) as E2 by (inversion He; congruence).
    destruct (reach_entered c0 c2 H1) as (c1 & H3 & H4 & He'); [congruence|]. rewrite E2 in He'.
    exists c1, c2. repeat (split; [done|]). split; [|done]. inversion He'; auto.
  - rewrite case_validate_iff, <- (closed_at_iff c0 c Hc0 Ec Hr) by done.
    destruct (closed_at c); split; intros [H1 H2]; (split; [done|]); destruct H2 as [H2|H2]; auto; try done.
    destruct H2. eauto.
Qed.

(** A case that is investigated, resolved, closed and reopened. *)
Definition reopened1 : AuditResult InvestigationCase :=
  let? c := change_status Investigating (mkTimestamp 2) aud1 None opened1 in
  let? c := change_status Resolved (mkTimestamp 3) aud1 None c in
  let? c := change_status Closed (mkTimestamp 4) aud1 (Some "done") c in
  change_status Open (mkTimestamp 5) aud1 None c.

Lemma case_status_machine_witness :
  match reopened1 with
  | Ok c =>
      was_closed opened1 c /\ case_status c = Open /\ is_ok (case_validate c) = false
      /\ exists c', case_reach c c' /\ case_status c' = Closed
  | Err _ => False
  end.
Proof.
  assert (case_open case1 "t" PriorityLow (mkTimestamp 1) aud1 = Ok opened1) as Ho by reflexivity.
  assert (forall c, reopened1 = Ok c -> case_reach opened1 c) as Hr.
  { unfold reopened1. intros c Hc. ok_inv. do 4 (eapply reach_step; [|eapply step_status; eassumption]). constructor. }
  destruct reopened1 as [c|e] eqn:E; [|vm_compute in E; discriminate E].
  destruct (case_status_machine case1 "t" PriorityLow (mkTimestamp 1) aud1 opened1 c Ho (Hr c eq_refl))
    as (_ & _ & Hreach & _ & Hat & _).
  vm_compute in E. injection E as <-.
  split; [apply Hat; eexists; reflexivity|]. split; [reflexivity|]. split; [reflexivity|]. apply Hreach.
Defined.
