(* ===== verification/ReportModel.v ===== *)
(** * Evidence and report data ([crates/audit-core/src/evidence.rs],
    [crates/audit-core/src/report.rs])

    Evidence artifacts with their provenance, and reports with their queries and
    summaries.  Canonical bytes go through the JSON parameter with the integrity
    slots cleared. *)

From S2P Require Import Prelude Text BTree Errors Identifiers Timestamps Classification.
From S2P Require Import Correlation Events IntegrityModel Records.
Open Scope list_scope.

(** ** Evidence *)

Definition EVIDENCE_SCHEMA_VERSION : Z := 1.

Inductive EvidenceKind : Type :=
| TransactionEvidence
| ComplianceDecisionEvidence
| EnforcementEvidence
| InvestigationEvidence
| HistoricalActivityEvidence
| IntegrityEvidence.

Definition EvidenceKind_as_str (k : EvidenceKind) : string :=
  match k with
  | TransactionEvidence => "transaction-evidence"
  | ComplianceDecisionEvidence => "compliance-decision-evidence"
  | EnforcementEvidence => "enforcement-evidence"
  | InvestigationEvidence => "investigation-evidence"
  | HistoricalActivityEvidence => "historical-activity-evidence"
  | IntegrityEvidence => "integrity-evidence"
  end.

Record EvidenceProvenance := mkEvidenceProvenance {
  ep_source_records : list RecordId;
  ep_source_events : list EventId;
  ep_parser_version : VersionLabel;
  ep_generator_version : VersionLabel
}.

Definition EvidenceProvenance_new (source_records : list RecordId) (source_events : list EventId)
    (parser_version generator_version : VersionLabel) : AuditResult EvidenceProvenance :=
  match source_records, source_events with
  | [], [] => Err (MalformedEvidence "evidence provenance must name at least one source record or event")
  | _, _ => Ok (mkEvidenceProvenance source_records source_events parser_version generator_version)
  end.

Record EvidenceArtifact := mkEvidenceArtifact {
  ea_evidence_id : EvidenceId;
  ea_kind : EvidenceKind;
  ea_provenance : EvidenceProvenance;
  ea_generated_at : Timestamp;
  ea_generated_by : option AuditorId;
  ea_schema_version : Z;
  ea_digest : option IntegrityDigest;
  ea_manifest_id : option ManifestId
}.

Definition EvidenceArtifact_new (id : EvidenceId) (kind : EvidenceKind) (provenance : EvidenceProvenance)
    (generated_at : Timestamp) (generated_by : option AuditorId) : EvidenceArtifact :=
  mkEvidenceArtifact id kind provenance generated_at generated_by EVIDENCE_SCHEMA_VERSION None None.

Definition artifact_with_digest (d : IntegrityDigest) (a : EvidenceArtifact) : EvidenceArtifact :=
  mkEvidenceArtifact (ea_evidence_id a) (ea_kind a) (ea_provenance a) (ea_generated_at a)
    (ea_generated_by a) (ea_schema_version a) (Some d) (ea_manifest_id a).
Definition artifact_with_manifest (m : ManifestId) (a : EvidenceArtifact) : EvidenceArtifact :=
  mkEvidenceArtifact (ea_evidence_id a) (ea_kind a) (ea_provenance a) (ea_generated_at a)
    (ea_generated_by a) (ea_schema_version a) (ea_digest a) (Some m).

Definition EvidenceArtifact_validate (a : EvidenceArtifact) : AuditResult unit :=
  if negb (ea_schema_version a =? EVIDENCE_SCHEMA_VERSION)%Z
  then Err (UnsupportedSchema ("evidence schema version " +:+ z_to_string (ea_schema_version a)
              +:+ " is not supported (expected " +:+ z_to_string EVIDENCE_SCHEMA_VERSION +:+ ")"))
  else Ok tt.

(** The artifact with its integrity slots cleared. *)
Definition artifact_content (a : EvidenceArtifact) : EvidenceArtifact :=
  mkEvidenceArtifact (ea_evidence_id a) (ea_kind a) (ea_provenance a) (ea_generated_at a)
    (ea_generated_by a) (ea_schema_version a) None None.

Definition artifact_canonical_bytes `{Serialize EvidenceArtifact} (a : EvidenceArtifact) : AuditResult string :=
  canonical_json (artifact_content a).

(** ** Reports *)

Definition REPORT_SCHEMA_VERSION : Z := 1.

Inductive ReportKind : Type :=
| ComplianceActivity
| ApprovedTransactions
| DeniedTransactions
| FlaggedTransactions
| EnforcementActivity
| AccountActivity
| TokenActivity
| Investigations
| Incidents
| EvidenceSummary
| IntegrityVerification.

#[export] Instance ReportKind_eq_dec : EqDecision ReportKind.
Proof. solve_decision. Defined.

Definition ReportKind_as_str (k : ReportKind) : string :=
  match k with
  | ComplianceActivity => "compliance-activity"
  | ApprovedTransactions => "approved-transactions"
  | DeniedTransactions => "denied-transactions"
  | FlaggedTransactions => "flagged-transactions"
  | EnforcementActivity => "enforcement-activity"
  | AccountActivity => "account-activity"
  | TokenActivity => "token-activity"
  | Investigations => "investigations"
  | Incidents => "incidents"
  | EvidenceSummary => "evidence-summary"
  | IntegrityVerification => "integrity-verification"
  end.

Record ReportQuery := mkReportQuery {
  rq_time_range : option TimeRange;
  rq_network : option string;
  rq_tokens : list TokenReference;
  rq_event_kinds : list EventKind;
  rq_outcome : option DecisionResult;
  rq_account : option AccountId;
  rq_ceiling : option DataClassification
}.

Definition ReportQuery_all : ReportQuery := mkReportQuery None None [] [] None None None.
Definition ReportQuery_with_outcome (d : DecisionResult) : ReportQuery :=
  mkReportQuery None None [] [] (Some d) None None.

Record GeneratorVersions := mkGeneratorVersions {
  gv_report_schema : Z;
  gv_parser_version : VersionLabel;
  gv_generator_version : VersionLabel
}.

(** The counters are [u64]. *)
Record ReportSummary := mkReportSummary {
  rs_total_records : Z;
  rs_by_outcome : BTreeMap DecisionResult Z;
  rs_by_kind : BTreeMap EventKind Z;
  rs_by_reason : BTreeMap string Z
}.

Definition ReportSummary_default : ReportSummary := mkReportSummary 0 [] [] [].

Record Report := mkReport {
  rp_report_id : ReportId;
  rp_kind : ReportKind;
  rp_generated_at : Timestamp;
  rp_generated_by : option AuditorId;
  rp_schema_version : Z;
  rp_query : ReportQuery;
  rp_versions : GeneratorVersions;
  rp_record_refs : list TransactionReference;
  rp_summary : ReportSummary;
  rp_digest : option IntegrityDigest
}.

Definition Report_new (id : ReportId) (kind : ReportKind) (generated_at : Timestamp) (q : ReportQuery)
    (versions : GeneratorVersions) : Report :=
  mkReport id kind generated_at None REPORT_SCHEMA_VERSION q versions [] ReportSummary_default None.
Definition with_generated_by (a : AuditorId) (r : Report) : Report :=
  mkReport (rp_report_id r) (rp_kind r) (rp_generated_at r) (Some a) (rp_schema_version r) (rp_query r)
    (rp_versions r) (rp_record_refs r) (rp_summary r) (rp_digest r).
Definition with_rows (rows : list TransactionReference) (r : Report) : Report :=
  mkReport (rp_report_id r) (rp_kind r) (rp_generated_at r) (rp_generated_by r) (rp_schema_version r)
    (rp_query r) (rp_versions r) rows (rp_summary r) (rp_digest r).
Definition with_summary (s : ReportSummary) (r : Report) : Report :=
  mkReport (rp_report_id r) (rp_kind r) (rp_generated_at r) (rp_generated_by r) (rp_schema_version r)
    (rp_query r) (rp_versions r) (rp_record_refs r) s (rp_digest r).
Definition report_set_digest (d : option IntegrityDigest) (r : Report) : Report :=
  mkReport (rp_report_id r) (rp_kind r) (rp_generated_at r) (rp_generated_by r) (rp_schema_version r)
    (rp_query r) (rp_versions r) (rp_record_refs r) (rp_summary r) d.
Definition report_with_digest (d : IntegrityDigest) (r : Report) : Report := report_set_digest (Some d) r.

Definition Report_validate (r : Report) : AuditResult unit :=
  if negb (rp_schema_version r =? REPORT_SCHEMA_VERSION)%Z
  then Err (UnsupportedSchema ("report schema version " +:+ z_to_string (rp_schema_version r)
              +:+ " is not supported (expected " +:+ z_to_string REPORT_SCHEMA_VERSION +:+ ")"))
  else if negb (gv_report_schema (rp_versions r) =? REPORT_SCHEMA_VERSION)%Z
  then Err (UnsupportedSchema "report versions disagree with the report schema")
  else Ok tt.

Definition report_canonical_bytes `{Serialize Report} (r : Report) : AuditResult string :=
  canonical_json (report_set_digest None r).

Record ReportRequest := mkReportRequest {
  rr_report_id : option ReportId;
  rr_kind : ReportKind;
  rr_query : ReportQuery;
  rr_requested_by : AuditorId;
  rr_requested_at : Timestamp
}.

Definition ReportRequest_new (kind : ReportKind) (q : ReportQuery) (by_ : AuditorId) (at_ : Timestamp)
  : ReportRequest := mkReportRequest None kind q by_ at_.
