(* ===== verification/Encoding.v ===== *)
(** * The canonical encodings ([#[derive(Serialize)]] in [crates/audit-core])

    The document each type of the data model is written as: a struct is the
    object of its fields in declaration order, an absent option is [null], a
    newtype is its content, a fieldless enum its kebab-case name, a [BTreeMap] the
    object of its entries in key order, an id its text.  The text [serde_json]
    prints for a document is in {!Json}; that [to_vec] returns that text is the
    documented behaviour the class [SerdeJson] names. *)

From S2P Require Import Prelude Text BTree Json Errors Identifiers Timestamps Classification.
From S2P Require Import Correlation Events IntegrityModel Records ReportModel.
Open Scope list_scope.

(** ** Encoders and their laws *)

(** [encodable] are the values the code's types admit: an id's prefix, which the
    text does not repeat, is the one of its type. *)
Class Encode (A : Type) := { to_json : A -> Json; encodable : A -> Prop }.
Class EncodeLaws (A : Type) `{Encode A} : Prop :=
  to_json_inj : forall a b : A, encodable a -> encodable b -> to_json a = to_json b -> a = b.
(** What may sit in an option: [None] is [null]. *)
Class NotNull (A : Type) `{Encode A} : Prop := to_json_not_null : forall a : A, to_json a <> JNull.

(** A type encoded through another. *)
Definition encode_as {A B} `{Encode B} (f : A -> B) : Encode A :=
  {| to_json := fun a => to_json (f a); encodable := fun a => encodable (f a) |}.

(** A fieldless enum. *)
Definition encode_label {A} (label : A -> string) : Encode A :=
  {| to_json := fun a => JString (label a); encodable := fun _ => True |}.

#[export] Instance string_encode : Encode string := encode_label (fun s => s).
#[export] Instance Z_encode : Encode Z := {| to_json := JInt; encodable := fun _ => True |}.
#[export] Instance bool_encode : Encode bool := {| to_json := JBool; encodable := fun _ => True |}.

#[export] Instance option_encode {A} `{Encode A} : Encode (option A) :=
  {| to_json := fun o => match o with Some a => to_json a | None => JNull end;
     encodable := fun o => match o with Some a => encodable a | None => True end |}.
#[export] Instance list_encode {A} `{Encode A} : Encode (list A) :=
  {| to_json := fun l => JArray (map to_json l); encodable := fun l => Forall encodable l |}.

(** Map keys are written as strings. *)
Class KeyText (K : Type) := key_text : K -> string.
Class KeyTextLaws (K : Type) `{KeyText K} : Prop := key_text_inj : forall a b : K, key_text a = key_text b -> a = b.
#[export] Instance btree_encode {K V} `{KeyText K} `{Encode V} : Encode (BTreeMap K V) :=
  {| to_json := fun m => JObject (map (fun p => (key_text (fst p), to_json (snd p))) m);
     encodable := fun m => Forall (fun p => encodable (snd p)) m |}.

(** A struct lists its fields in declaration order. *)
Definition Member : Type := (string * Json) * Prop.
Definition member {A} `{Encode A} (name : string) (a : A) : Member := ((name, to_json a), encodable a).
Class Struct (A : Type) := members : A -> list Member.
#[export] Instance struct_encode {A} `{Struct A} : Encode A :=
  {| to_json := fun a => JObject (map fst (members a));
     encodable := fun a => foldr (fun m P => snd m /\ P) True (members a) |}.

#[export] Instance string_laws : EncodeLaws string.
Proof. intros a b _ _ [=]. done. Qed.
#[export] Instance Z_laws : EncodeLaws Z.
Proof. intros a b _ _ [=]. done. Qed.
#[export] Instance bool_laws : EncodeLaws bool.
Proof. intros a b _ _ [=]. done. Qed.

#[export] Instance option_laws {A} `{EncodeLaws A} `{!NotNull A} : EncodeLaws (option A).
Proof.
  intros [a|] [b|] Ha Hb E; try done.
  - f_equal. by apply to_json_inj.
  - by destruct (to_json_not_null a E).
  - by destruct (to_json_not_null b (eq_sym E)).
Qed.

#[export] Instance list_laws {A} `{EncodeLaws A} : EncodeLaws (list A).
Proof.
  intros l. induction l as [|a l IH]; intros [|b l'] Hl Hl' E; try done.
  apply Forall_cons in Hl as [Ha Hl], Hl' as [Hb Hl'].
  cbn in E. injection E as Ea El. f_equal; [by apply to_json_inj|].
  apply IH; [done | done|]. cbn. by rewrite El.
Qed.

#[export] Instance btree_laws {K V} `{KeyTextLaws K} `{EncodeLaws V} : EncodeLaws (BTreeMap K V).
Proof.
  intros m. induction m as [|[k v] m IH]; intros [|[k' v'] m'] Hm Hm' E; try done.
  apply Forall_cons in Hm as [Hv Hm], Hm' as [Hv' Hm'].
  cbn in E. injection E as Ek Ev Em. f_equal; [f_equal; [by apply key_text_inj | by apply to_json_inj]|].
  apply IH; [done | done|]. cbn. by rewrite Em.
Qed.

#[export] Instance string_not_null : NotNull string.
Proof. done. Qed.
#[export] Instance Z_not_null : NotNull Z.
Proof. done. Qed.
#[export] Instance struct_not_null {A} `{Struct A} : NotNull A.
Proof. done. Qed.

#[export] Instance string_key : KeyText string := fun s => s.
#[export] Instance string_key_laws : KeyTextLaws string.
Proof. by intros a b. Qed.

(** Reading a struct back, field by field. *)
Lemma member_inj {A} `{EncodeLaws A} (name : string) (a b : A) (ms ms' : list (string * Json)) (P P' : Prop) :
  encodable a /\ P -> encodable b /\ P' ->
  (name, to_json a) :: ms = (name, to_json b) :: ms' -> (a = b /\ P /\ P' /\ ms = ms').
Proof. intros [Ha Hp] [Hb Hp'] E. injection E as E1 E2. repeat split; try done. by apply to_json_inj. Qed.

Lemma struct_inj {A} `{Struct A} (a b : A) :
  encodable a -> encodable b -> to_json a = to_json b ->
  foldr (fun m P => snd m /\ P) True (members a) /\ foldr (fun m P => snd m /\ P) True (members b)
  /\ map fst (members a) = map fst (members b).
Proof. intros Ha Hb [= E]. done. Qed.

(** The laws of a struct from its members [S], and of an enum.  The encodings of
    the fields stay folded: only the list of members is unfolded. *)
Tactic Notation "struct_laws" reference(S) :=
  intros a b Ha Hb E; apply (struct_inj _ _ Ha) in E as (Ha' & Hb' & E); [|exact Hb]; clear Ha Hb;
  cbv [members S member map foldr fst snd] in Ha', Hb', E;
  repeat (apply (member_inj _ _ _ _ _ _ _ Ha' Hb') in E as (? & Ha & Hb & E);
          clear Ha' Hb'; rename Ha into Ha', Hb into Hb'); clear Ha' Hb' E; destruct a, b; f_equal; assumption.
Ltac label_laws := by intros [] [] _ _.

(** ** The data model ([identifiers.rs], [timestamps.rs], [correlation.rs]) *)

#[export] Instance IdOf_encode {p} : Encode (IdOf p) :=
  {| to_json := fun id => JString (as_str id); encodable := id_wf |}.
#[export] Instance NetworkId_encode : Encode NetworkId := encode_as network_str.
#[export] Instance AccountId_encode : Encode AccountId := encode_as account_str.
#[export] Instance ContractId_encode : Encode ContractId := encode_as contract_str.
#[export] Instance TransactionHash_encode : Encode TransactionHash := encode_as txhash_str.
#[export] Instance ReasonCode_encode : Encode ReasonCode := encode_as reason_str.
#[export] Instance VersionLabel_encode : Encode VersionLabel := encode_as version_str.
#[export] Instance Timestamp_encode : Encode Timestamp := encode_as unix_seconds.
#[export] Instance DecisionResult_encode : Encode DecisionResult := encode_label DecisionResult_as_str.

#[export] Instance IdOf_laws {p} : EncodeLaws (IdOf p).
Proof. intros a b Ha Hb [= E]. by apply id_wf_inj. Qed.
#[export] Instance NetworkId_laws : EncodeLaws NetworkId.
Proof. intros [] [] _ _ [= ->]. done. Qed.
#[export] Instance AccountId_laws : EncodeLaws AccountId.
Proof. intros [] [] _ _ [= ->]. done. Qed.
#[export] Instance ContractId_laws : EncodeLaws ContractId.
Proof. intros [] [] _ _ [= ->]. done. Qed.
#[export] Instance TransactionHash_laws : EncodeLaws TransactionHash.
Proof. intros [] [] _ _ [= ->]. done. Qed.
#[export] Instance ReasonCode_laws : EncodeLaws ReasonCode.
Proof. intros [] [] _ _ [= ->]. done. Qed.
#[export] Instance VersionLabel_laws : EncodeLaws VersionLabel.
Proof. intros [] [] _ _ [= ->]. done. Qed.
#[export] Instance Timestamp_laws : EncodeLaws Timestamp.
Proof. intros [] [] _ _ [= ->]. done. Qed.
#[export] Instance DecisionResult_laws : EncodeLaws DecisionResult.
Proof. label_laws. Qed.

#[export] Instance IdOf_not_null {p} : NotNull (IdOf p).
Proof. done. Qed.
#[export] Instance AccountId_not_null : NotNull AccountId.
Proof. done. Qed.
#[export] Instance ContractId_not_null : NotNull ContractId.
Proof. done. Qed.
#[export] Instance ReasonCode_not_null : NotNull ReasonCode.
Proof. done. Qed.
#[export] Instance Timestamp_not_null : NotNull Timestamp.
Proof. done. Qed.
#[export] Instance DecisionResult_not_null : NotNull DecisionResult.
Proof. done. Qed.

#[export] Instance LedgerReference_members : Struct LedgerReference := fun l =>
  [ member "network" (ledger_network l); member "sequence" (ledger_sequence_of l);
    member "close_time" (ledger_close_time l) ].
#[export] Instance LedgerReference_laws : EncodeLaws LedgerReference.
Proof. struct_laws LedgerReference_members. Qed.

#[export] Instance TransactionReference_members : Struct TransactionReference := fun t =>
  [ member "network" (tx_network t); member "hash" (tx_hash t) ].
#[export] Instance TransactionReference_laws : EncodeLaws TransactionReference.
Proof. struct_laws TransactionReference_members. Qed.

#[export] Instance OperationReference_members : Struct OperationReference := fun o =>
  [ member "transaction" (op_transaction o); member "index" (op_index o); member "op_type" (op_type o) ].
#[export] Instance OperationReference_laws : EncodeLaws OperationReference.
Proof. struct_laws OperationReference_members. Qed.

#[export] Instance AccountReference_members : Struct AccountReference := fun a =>
  [ member "network" (acct_network a); member "account" (acct_account a) ].
#[export] Instance AccountReference_laws : EncodeLaws AccountReference.
Proof. struct_laws AccountReference_members. Qed.

#[export] Instance TokenReference_members : Struct TokenReference := fun t =>
  [ member "network" (token_network t); member "contract" (token_contract t);
    member "asset_code" (token_asset_code t); member "issuer" (token_issuer t) ].
#[export] Instance TokenReference_laws : EncodeLaws TokenReference.
Proof. struct_laws TokenReference_members. Qed.

#[export] Instance PolicyReference_members : Struct PolicyReference := fun p =>
  [ member "policy" (policy_contract p); member "version" (policy_version p);
    member "digest" (policy_digest p) ].
#[export] Instance PolicyReference_laws : EncodeLaws PolicyReference.
Proof. struct_laws PolicyReference_members. Qed.

#[export] Instance PolicyDecisionReference_members : Struct PolicyDecisionReference := fun p =>
  [ member "policy" (pdr_policy p); member "result" (pdr_result p); member "reason" (pdr_reason p);
    member "decided_at" (pdr_decided_at p) ].
#[export] Instance PolicyDecisionReference_laws : EncodeLaws PolicyDecisionReference.
Proof. struct_laws PolicyDecisionReference_members. Qed.

#[export] Instance EnforcementResultReference_members : Struct EnforcementResultReference := fun r =>
  [ member "hook" (enf_hook r); member "hook_version" (enf_hook_version r);
    member "result" (enf_result r); member "reason" (enf_reason r) ].
#[export] Instance EnforcementResultReference_laws : EncodeLaws EnforcementResultReference.
Proof. struct_laws EnforcementResultReference_members. Qed.

(** ** Events and records ([event.rs], [integrity.rs], [record.rs]) *)

(** [rename_all = "kebab-case"]. *)
Definition OriginKind_label (o : OriginKind) : string :=
  match o with
  | OnChain => "on-chain"
  | Derived => "derived"
  | Imported => "imported"
  | Simulated => "simulated"
  end.

#[export] Instance EventKind_encode : Encode EventKind := encode_label EventKind_as_str.
#[export] Instance EventKind_laws : EncodeLaws EventKind.
Proof. label_laws. Qed.
#[export] Instance OriginKind_encode : Encode OriginKind := encode_label OriginKind_label.
#[export] Instance OriginKind_laws : EncodeLaws OriginKind.
Proof. label_laws. Qed.

#[export] Instance DerivationInfo_members : Struct DerivationInfo := fun i =>
  [ member "method" (drv_method i); member "source_events" (drv_source_events i); member "note" (drv_note i) ].
#[export] Instance DerivationInfo_laws : EncodeLaws DerivationInfo.
Proof. struct_laws DerivationInfo_members. Qed.

#[export] Instance EventProvenance_members : Struct EventProvenance := fun p =>
  [ member "origin" (prov_origin p); member "source" (prov_source p);
    member "parser_version" (prov_parser_version p); member "derivation" (prov_derivation p) ].
#[export] Instance EventProvenance_laws : EncodeLaws EventProvenance.
Proof. struct_laws EventProvenance_members. Qed.

#[export] Instance EventOrder_members : Struct EventOrder := fun o =>
  [ member "ledger_sequence" (ledger_sequence o); member "transaction_position" (transaction_position o);
    member "operation_index" (operation_index o); member "event_index" (event_index o) ].
#[export] Instance EventOrder_laws : EncodeLaws EventOrder.
Proof. struct_laws EventOrder_members. Qed.

#[export] Instance AuditEvent_members : Struct AuditEvent := fun e =>
  [ member "event_id" (event_id e);
    member "kind" (kind e);
    member "schema_version" (schema_version e);
    member "network" (network e);
    member "provenance" (provenance e);
    member "observed_at" (observed_at e);
    member "order" (order e);
    member "ledger" (ledger e);
    member "transaction" (transaction e);
    member "operation" (operation e);
    member "token" (token e);
    member "actor" (actor e);
    member "subject" (subject e);
    member "decision" (decision e);
    member "enforcement" (enforcement e);
    member "outcome" (outcome e);
    member "reason" (reason e);
    member "details" (details e) ].
#[export] Instance AuditEvent_laws : EncodeLaws AuditEvent.
Proof. struct_laws AuditEvent_members. Qed.

#[export] Instance IntegrityDigest_members : Struct IntegrityDigest := fun d =>
  [ member "algorithm" (dig_algorithm d); member "value" (dig_value d) ].
#[export] Instance IntegrityDigest_laws : EncodeLaws IntegrityDigest.
Proof. struct_laws IntegrityDigest_members. Qed.

#[export] Instance ManifestEntry_members : Struct ManifestEntry := fun e =>
  [ member "record_id" (me_record_id e); member "digest" (me_digest e) ].
#[export] Instance ManifestEntry_laws : EncodeLaws ManifestEntry.
Proof. struct_laws ManifestEntry_members. Qed.

#[export] Instance DataClassification_encode : Encode DataClassification := encode_label DataClassification_as_str.
#[export] Instance DataClassification_laws : EncodeLaws DataClassification.
Proof. label_laws. Qed.
#[export] Instance DataClassification_not_null : NotNull DataClassification.
Proof. done. Qed.
#[export] Instance FieldClassifications_encode : Encode FieldClassifications := btree_encode.
#[export] Instance FieldClassifications_laws : EncodeLaws FieldClassifications := btree_laws.

#[export] Instance RecordIntegrity_members : Struct RecordIntegrity := fun i =>
  [ member "digest" (ri_digest i); member "prev_digest" (ri_prev_digest i); member "chained" (ri_chained i) ].
#[export] Instance RecordIntegrity_laws : EncodeLaws RecordIntegrity.
Proof. struct_laws RecordIntegrity_members. Qed.

#[export] Instance AuditRecord_members : Struct AuditRecord := fun r =>
  [ member "record_id" (record_id r);
    member "event" (event r);
    member "recorded_at" (recorded_at r);
    member "schema_version" (rec_schema_version r);
    member "classification" (classification r);
    member "redactions" (redactions r);
    member "supersedes" (supersedes r);
    member "correction_reason" (correction_reason r);
    member "integrity" (integrity r) ].
#[export] Instance AuditRecord_laws : EncodeLaws AuditRecord.
Proof. struct_laws AuditRecord_members. Qed.

(** ** Evidence and reports ([evidence.rs], [report.rs]) *)

#[export] Instance EvidenceKind_encode : Encode EvidenceKind := encode_label EvidenceKind_as_str.
#[export] Instance EvidenceKind_laws : EncodeLaws EvidenceKind.
Proof. label_laws. Qed.

#[export] Instance EvidenceProvenance_members : Struct EvidenceProvenance := fun p =>
  [ member "source_records" (ep_source_records p); member "source_events" (ep_source_events p);
    member "parser_version" (ep_parser_version p); member "generator_version" (ep_generator_version p) ].
#[export] Instance EvidenceProvenance_laws : EncodeLaws EvidenceProvenance.
Proof. struct_laws EvidenceProvenance_members. Qed.

#[export] Instance EvidenceArtifact_members : Struct EvidenceArtifact := fun a =>
  [ member "evidence_id" (ea_evidence_id a);
    member "kind" (ea_kind a);
    member "provenance" (ea_provenance a);
    member "generated_at" (ea_generated_at a);
    member "generated_by" (ea_generated_by a);
    member "schema_version" (ea_schema_version a);
    member "digest" (ea_digest a);
    member "manifest_id" (ea_manifest_id a) ].
#[export] Instance EvidenceArtifact_laws : EncodeLaws EvidenceArtifact.
Proof. struct_laws EvidenceArtifact_members. Qed.

#[export] Instance ReportKind_encode : Encode ReportKind := encode_label ReportKind_as_str.
#[export] Instance ReportKind_laws : EncodeLaws ReportKind.
Proof. label_laws. Qed.

#[export] Instance TimeRange_members : Struct TimeRange := fun r =>
  [ member "start" (tr_start r); member "end" (tr_end r) ].
#[export] Instance TimeRange_laws : EncodeLaws TimeRange.
Proof. struct_laws TimeRange_members. Qed.

#[export] Instance ReportQuery_members : Struct ReportQuery := fun q =>
  [ member "time_range" (rq_time_range q);
    member "network" (rq_network q);
    member "tokens" (rq_tokens q);
    member "event_kinds" (rq_event_kinds q);
    member "outcome" (rq_outcome q);
    member "account" (rq_account q);
    member "classification_ceiling" (rq_ceiling q) ].
#[export] Instance ReportQuery_laws : EncodeLaws ReportQuery.
Proof. struct_laws ReportQuery_members. Qed.

#[export] Instance GeneratorVersions_members : Struct GeneratorVersions := fun v =>
  [ member "report_schema" (gv_report_schema v); member "parser_version" (gv_parser_version v);
    member "generator_version" (gv_generator_version v) ].
#[export] Instance GeneratorVersions_laws : EncodeLaws GeneratorVersions.
Proof. struct_laws GeneratorVersions_members. Qed.

(** Enum keys of a map are written as their names. *)
#[export] Instance DecisionResult_key : KeyText DecisionResult := DecisionResult_as_str.
#[export] Instance DecisionResult_key_laws : KeyTextLaws DecisionResult.
Proof. by intros [] []. Qed.
#[export] Instance EventKind_key : KeyText EventKind := EventKind_as_str.
#[export] Instance EventKind_key_laws : KeyTextLaws EventKind.
Proof. by intros [] []. Qed.

#[export] Instance ReportSummary_members : Struct ReportSummary := fun s =>
  [ member "total_records" (rs_total_records s); member "by_outcome" (rs_by_outcome s);
    member "by_kind" (rs_by_kind s); member "by_reason" (rs_by_reason s) ].
#[export] Instance ReportSummary_laws : EncodeLaws ReportSummary.
Proof. struct_laws ReportSummary_members. Qed.

#[export] Instance Report_members : Struct Report := fun r =>
  [ member "report_id" (rp_report_id r);
    member "kind" (rp_kind r);
    member "generated_at" (rp_generated_at r);
    member "generated_by" (rp_generated_by r);
    member "schema_version" (rp_schema_version r);
    member "query" (rp_query r);
    member "versions" (rp_versions r);
    member "record_refs" (rp_record_refs r);
    member "summary" (rp_summary r);
    member "digest" (rp_digest r) ].
#[export] Instance Report_laws : EncodeLaws Report.
Proof. struct_laws Report_members. Qed.

(** ** The text *)

(** Documented behaviour of [serde_json]: [to_vec] of a derived encoding is the
    compact text of its document, and does not fail. *)
Class SerdeJson (A : Type) `{Encode A} `{Serialize A} : Prop :=
  serde_text : forall a : A, to_vec a = Ok (json_print (to_json a)).

(** Such an encoder. *)
Definition json_text {A} `{Encode A} : Serialize A := fun a => Ok (json_print (to_json a)).

(** The same for slices of strings. *)
Class SerdeStrings `{JsonStrings} : Prop :=
  serde_strings : forall parts : list string, json_strings parts = json_print (to_json parts).
Definition json_text_strings : JsonStrings := fun parts => json_print (to_json parts).

(** A derived id determines the parts it was derived from. *)
Lemma derive_inj `{Sha256} `{SerdeStrings} {p} parts parts' :
  derive (prefix := p) parts = derive parts' ->
  parts = parts' \/ short_clash (json_strings parts) (json_strings parts').
Proof.
  intros E. apply (derive_bytes_inj (p := p)) in E as [E|Hc]; [left | by right].
  rewrite !serde_strings in E. apply json_print_inj in E. apply to_json_inj; [| |done]; by apply Forall_true.
Qed.
