(* ===== verification/AuditEvents.v ===== *)
(** * Semantic audit events ([crates/audit-events])

    Event identities, the observed and derived envelope builders, and the
    projection of every semantic event into an [AuditEvent]. *)

From S2P Require Import Prelude Text BTree Errors Identifiers Timestamps Classification.
From S2P Require Import Correlation Events IntegrityModel AccessModel Cases Records.
From S2P Require Import ReportModel.
Open Scope list_scope.

Inductive EventError : Type :=
| UnsupportedEventType (d : string)
| EvUnsupportedVersion (d : string)
| MalformedPayload (d : string)
| MissingField (d : string)
| InvalidFieldValue (field detail : string)
| AmbiguousOrder (d : string)
| NotDerivable (d : string).

Definition EventResult (T : Type) : Type := result T EventError.

Definition EventError_to_string (e : EventError) : string :=
  match e with
  | UnsupportedEventType d => "unsupported event type: " +:+ d
  | EvUnsupportedVersion d => "unsupported event version: " +:+ d
  | MalformedPayload d => "malformed event payload: " +:+ d
  | MissingField d => "missing field: " +:+ d
  | InvalidFieldValue field detail => "invalid value for " +:+ field +:+ ": " +:+ detail
  | AmbiguousOrder d => "ambiguous ordering: " +:+ d
  | NotDerivable d => "not derivable: " +:+ d
  end.

Definition EventError_into_core (e : EventError) : AuditError :=
  match e with
  | UnsupportedEventType d => UnsupportedEvent d
  | EvUnsupportedVersion d => UnsupportedEventVersion d
  | MalformedPayload d | MissingField d | AmbiguousOrder d => InvalidEvent d
  | InvalidFieldValue field detail => InvalidEvent ("invalid value for " +:+ field +:+ ": " +:+ detail)
  | NotDerivable d => InvalidEvent d
  end.

Definition field_err (field : string) (e : AuditError) : EventError :=
  InvalidFieldValue field (AuditError_to_string e).

(** ** Transactions ([transaction.rs]) *)

Inductive TxStatus : Type := Succeeded | Failed | Unknown.
Definition TxStatus_as_str (s : TxStatus) : string :=
  match s with Succeeded => "succeeded" | Failed => "failed" | Unknown => "unknown" end.

Record TransactionContext := mkTransactionContext {
  tc_network : NetworkId;
  tc_hash : string;
  tc_ledger_sequence : option Z;
  tc_close_time : option Timestamp;
  tc_status : TxStatus
}.

Definition to_reference (tx : TransactionContext) : EventResult TransactionReference :=
  map_err (field_err "transaction.hash")
    (let? hash := TransactionHash_new (tc_hash tx) in Ok (mkTransactionReference (tc_network tx) hash)).

Definition ledger_reference (tx : TransactionContext) : EventResult (option LedgerReference) :=
  match tc_ledger_sequence tx with
  | Some seq =>
      map_err (field_err "ledger.sequence")
        (let? l := LedgerReference_new (tc_network tx) seq (tc_close_time tx) in Ok (Some l))
  | None => Ok None
  end.

(** [OperationPosition] is a [u32] index. *)
Definition operation_reference (tx : TransactionReference) (position : Z) (op_type : option string)
  : AuditResult OperationReference := OperationReference_new tx position op_type.

(** ** Field updates of an event *)

Definition place (tx : option TransactionReference) (l : option LedgerReference) (at_ : option Timestamp)
    (o : EventOrder) (e : AuditEvent) : AuditEvent :=
  mkAuditEvent (event_id e) (kind e) (schema_version e) (network e) (provenance e) at_ o l tx
    (operation e) (token e) (actor e) (subject e) (decision e) (enforcement e) (outcome e) (reason e)
    (details e).
Definition set_operation (op : option OperationReference) (e : AuditEvent) : AuditEvent :=
  mkAuditEvent (event_id e) (kind e) (schema_version e) (network e) (provenance e) (observed_at e)
    (order e) (ledger e) (transaction e) op (token e) (actor e) (subject e) (decision e)
    (enforcement e) (outcome e) (reason e) (details e).
Definition set_token (t : option TokenReference) (e : AuditEvent) : AuditEvent :=
  mkAuditEvent (event_id e) (kind e) (schema_version e) (network e) (provenance e) (observed_at e)
    (order e) (ledger e) (transaction e) (operation e) t (actor e) (subject e) (decision e)
    (enforcement e) (outcome e) (reason e) (details e).
Definition set_actor (a : option AccountReference) (e : AuditEvent) : AuditEvent :=
  mkAuditEvent (event_id e) (kind e) (schema_version e) (network e) (provenance e) (observed_at e)
    (order e) (ledger e) (transaction e) (operation e) (token e) a (subject e) (decision e)
    (enforcement e) (outcome e) (reason e) (details e).
Definition set_subject (a : option AccountReference) (e : AuditEvent) : AuditEvent :=
  mkAuditEvent (event_id e) (kind e) (schema_version e) (network e) (provenance e) (observed_at e)
    (order e) (ledger e) (transaction e) (operation e) (token e) (actor e) a (decision e)
    (enforcement e) (outcome e) (reason e) (details e).
Definition set_outcome (enf : option EnforcementResultReference) (o : option DecisionResult)
    (r : option ReasonCode) (e : AuditEvent) : AuditEvent :=
  mkAuditEvent (event_id e) (kind e) (schema_version e) (network e) (provenance e) (observed_at e)
    (order e) (ledger e) (transaction e) (operation e) (token e) (actor e) (subject e) (decision e)
    enf o r (details e).
(** [event.details.insert(k, v)]. *)
Definition detail (k v : string) (e : AuditEvent) : AuditEvent :=
  mkAuditEvent (event_id e) (kind e) (schema_version e) (network e) (provenance e) (observed_at e)
    (order e) (ledger e) (transaction e) (operation e) (token e) (actor e) (subject e) (decision e)
    (enforcement e) (outcome e) (reason e) (bt_insert k v (details e)).
Definition detail_opt (k : string) (v : option string) (e : AuditEvent) : AuditEvent :=
  match v with Some v => detail k v e | None => e end.

Section Events.
Context `{Sha256, JsonStrings}.

(** ** Identity ([event_id.rs]) *)

Definition derive_event_id (parts : list string) : EventId := derive parts.

(** Optional parts are pushed when present. *)
Definition opt_part {A} (label : string) (f : A -> string) (o : option A) : list string :=
  match o with Some x => [label +:+ f x] | None => [] end.

Definition onchain_event_id (network : string) (tx_hash : option string) (op_index event_index : option Z)
    (kind : EventKind) : EventResult EventId :=
  match tx_hash with
  | None => Err (NotDerivable "an on-chain event identity requires a transaction hash")
  | Some tx =>
      Ok (derive_event_id
            ([network; tx] ++ opt_part "op:" z_to_string op_index
               ++ opt_part "ev:" z_to_string event_index ++ [EventKind_as_str kind]))
  end.

Definition derived_event_id (network method : string) (source_refs : list string) : EventId :=
  derive_event_id ([network; "derived:" +:+ method] ++ source_refs).

Record EventSlot := mkEventSlot { slot_operation : option Z; slot_event : option Z }.
Definition EventSlot_default : EventSlot := mkEventSlot None None.

Definition tx_order (tx : TransactionContext) (slot : EventSlot) : EventOrder :=
  mkEventOrder (tc_ledger_sequence tx) None (slot_operation slot) (slot_event slot).

Definition observed_audit_event_base (kind : EventKind) (network : NetworkId) (source : string)
    (parser : VersionLabel) (tx : TransactionContext) (slot : EventSlot) : EventResult AuditEvent :=
  let? tx_ref := to_reference tx in
  let? event_id := onchain_event_id (network_str network) (Some (tc_hash tx)) (slot_operation slot)
                     (slot_event slot) kind in
  let? ledger := ledger_reference tx in
  let? provenance := map_err (field_err "provenance") (EventProvenance_new OnChain source parser) in
  Ok (place (Some tx_ref) ledger (tc_close_time tx) (tx_order tx slot)
        (AuditEvent_new event_id kind network provenance)).

Record DerivationSource := mkDerivationSource {
  ds_method : string;
  ds_note : string;
  ds_source_refs : list string;
  ds_tx : option TransactionContext;
  ds_source_events : list EventId
}.

Definition derived_audit_event_base (kind : EventKind) (network : NetworkId) (source : string)
    (parser : VersionLabel) (d : DerivationSource) (slot : EventSlot) : EventResult AuditEvent :=
  let event_id := derived_event_id (network_str network) (ds_method d) (ds_source_refs d) in
  let? info := map_err (field_err "derivation")
                 (DerivationInfo_new (ds_method d) (ds_source_events d) (ds_note d)) in
  let? provenance := map_err (field_err "provenance") (EventProvenance_new Derived source parser) in
  let provenance := with_derivation provenance info in
  let event := AuditEvent_new event_id kind network provenance in
  match ds_tx d with
  | Some tx =>
      let? tx_ref := to_reference tx in
      let? ledger := ledger_reference tx in
      Ok (place (Some tx_ref) ledger (tc_close_time tx) (tx_order tx slot) event)
  | None => Ok event
  end.

(** ** References by validated constructors *)

Definition token_of (here : NetworkId) (field s : string) : EventResult TokenReference :=
  map_err (field_err field)
    (let? c := ContractId_new s in Ok (TokenReference_for_contract here c)).
Definition account_of (here : NetworkId) (field s : string) : EventResult AccountReference :=
  map_err (field_err field) (let? a := AccountId_new s in Ok (mkAccountReference here a)).

(** [if let Some(s) = o { event.x = Some(make(s)?) }]. *)
Definition opt_ref {A} (make : string -> EventResult A) (set : option A -> AuditEvent -> AuditEvent)
    (o : option string) (e : AuditEvent) : EventResult AuditEvent :=
  match o with
  | Some s => let? x := make s in Ok (set (Some x) e)
  | None => Ok e
  end.

(** ** Transfer outcomes ([transfer.rs]) *)

Record TransferOutcome := mkTransferOutcome {
  to_token : string;
  to_from : option string;
  to_to : option string;
  to_outcome : DecisionResult;
  to_reason : option ReasonCode;
  to_hook : option EnforcementResultReference
}.

Definition TransferOutcome_kind (t : TransferOutcome) : EventKind :=
  match to_outcome t with
  | Allowed => TransferAuthorized
  | Denied => TransferDenied
  | Flagged => TransferFlagged
  end.

Definition id_str (s : string) : string := s.

Definition transfer_refs (t : TransferOutcome) (tx : TransactionContext) (op : Z) : list string :=
  ["tx:" +:+ tc_hash tx; "op:" +:+ z_to_string op; "token:" +:+ to_token t]
    ++ opt_part "from:" id_str (to_from t) ++ opt_part "to:" id_str (to_to t)
    ++ ["outcome:" +:+ DecisionResult_as_str (to_outcome t)].

Definition TransferOutcome_into_audit_event (t : TransferOutcome) (network_ : NetworkId) (source : string)
    (parser : VersionLabel) (tx : TransactionContext) (op : Z) (slot : EventSlot)
  : EventResult AuditEvent :=
  if str_is_empty (to_token t) then Err (MissingField "token")
  else
    let? e := derived_audit_event_base (TransferOutcome_kind t) network_ source parser
                (mkDerivationSource "transaction-outcome-analysis"
                   "transfer outcome reconstructed from the recorded transaction and enforcement decision"
                   (transfer_refs t tx op) (Some tx) []) slot in
    let e := set_outcome (to_hook t) (Some (to_outcome t)) (to_reason t) e in
    let? tx_ref := ok_or (transaction e) (MissingField "transaction") in
    let? opref := map_err (field_err "operation") (operation_reference tx_ref op (Some "transfer")) in
    let e := set_operation (Some opref) e in
    let? tok := token_of (network e) "token" (to_token t) in
    let e := set_token (Some tok) e in
    let? e := opt_ref (account_of (network e) "from") set_actor (to_from t) e in
    opt_ref (account_of (network e) "to") set_subject (to_to t) e.

(** ** Freeze transitions ([freeze.rs]) *)

Record FreezeTransition := mkFreezeTransition {
  fz_kind : EventKind;
  fz_token : string;
  fz_account : string
}.

Definition FreezeTransition_new (kind : EventKind) (token account : string) : EventResult FreezeTransition :=
  match kind with
  | AccountFrozen | AccountUnfrozen => Ok (mkFreezeTransition kind token account)
  | _ => Err (InvalidFieldValue "kind" ("`" +:+ EventKind_as_str kind +:+ "` is not a freeze-transition kind"))
  end.

Definition FreezeTransition_into_audit_event (f : FreezeTransition) (network_ : NetworkId)
    (source : string) (parser : VersionLabel) (tx : TransactionContext) (slot : EventSlot)
  : EventResult AuditEvent :=
  let? tok := token_of network_ "token" (fz_token f) in
  let? acc := account_of network_ "account" (fz_account f) in
  let? e := observed_audit_event_base (fz_kind f) network_ source parser tx slot in
  Ok (set_subject (Some acc) (set_token (Some tok) e)).

(** ** Compliance ([compliance.rs]) *)

Record ComplianceConfigChanged := mkComplianceConfigChanged {
  ccc_policy : option string;
  ccc_sac_passthrough : bool
}.

Definition bool_to_string (b : bool) : string := if b then "true" else "false".

Definition ComplianceConfigChanged_into_audit_event (c : ComplianceConfigChanged)
    (network_ : NetworkId) (source : string) (parser : VersionLabel) (tx : TransactionContext)
    (slot : EventSlot) : EventResult AuditEvent :=
  let? e := observed_audit_event_base ConfigurationChanged network_ source parser tx slot in
  let e := detail "sac_passthrough" (bool_to_string (ccc_sac_passthrough c)) e in
  match ccc_policy c with
  | Some policy =>
      let? policy := map_err (field_err "policy") (ContractId_new policy) in
      Ok (detail "policy_contract" (contract_str policy) e)
  | None => Ok e
  end.

Record ComplianceDecisionEvent := mkComplianceDecision {
  cd_token : option string;
  cd_account : option string;
  cd_decision : DecisionResult;
  cd_reason : option ReasonCode
}.

Definition compliance_refs (c : ComplianceDecisionEvent) : list string :=
  opt_part "token:" id_str (cd_token c) ++ opt_part "account:" id_str (cd_account c)
    ++ ["decision:" +:+ DecisionResult_as_str (cd_decision c)]
    ++ opt_part "reason:" reason_str (cd_reason c).

Definition ComplianceDecision_into_audit_event (c : ComplianceDecisionEvent) (network_ : NetworkId)
    (source : string) (parser : VersionLabel) (tx : option TransactionContext) (slot : EventSlot)
  : EventResult AuditEvent :=
  let? e := derived_audit_event_base ComplianceDecision network_ source parser
              (mkDerivationSource "observed-decision"
                 "compliance decision recorded from an authorized observer" (compliance_refs c) tx []) slot in
  let e := set_outcome (enforcement e) (Some (cd_decision c)) (cd_reason c) e in
  let? e := opt_ref (token_of (network e) "token") set_token (cd_token c) e in
  opt_ref (account_of (network e) "account") set_subject (cd_account c) e.

(** ** Policy versions ([policy.rs]) and sanctions ([sanctions.rs]) *)

Record PolicyVersionChange := mkPolicyVersionChange {
  pvc_network : NetworkId;
  pvc_source : string;
  pvc_parser : VersionLabel;
  pvc_policy : string;
  pvc_from_version : option string;
  pvc_to_version : string;
  pvc_digest : option string
}.

Definition validate_digest (d : string) : bool := (String.length d =? 64)%nat && str_all is_lower_hex d.

Definition PolicyVersionChange_into_audit_event (p : PolicyVersionChange) (slot : EventSlot)
  : EventResult AuditEvent :=
  let? e := derived_audit_event_base PolicyVersionChanged (pvc_network p) (pvc_source p) (pvc_parser p)
              (mkDerivationSource "policy-version-observed"
                 "policy version rotation observed and recorded for historical correlation"
                 [pvc_policy p; default "?" (pvc_from_version p); pvc_to_version p] None []) slot in
  let e := detail "policy" (pvc_policy p) e in
  let e := detail_opt "from_version" (pvc_from_version p) e in
  let e := detail "to_version" (pvc_to_version p) e in
  Ok (match pvc_digest p with
      | Some d => if validate_digest d then detail "digest" d e else e
      | None => e
      end).

Record SanctionsFlag := mkSanctionsFlag {
  sf_token : option string;
  sf_account : string;
  sf_rule : string
}.

Definition SanctionsFlag_into_audit_event (s : SanctionsFlag) (network_ : NetworkId) (source : string)
    (parser : VersionLabel) (tx : option TransactionContext) (slot : EventSlot) : EventResult AuditEvent :=
  let? e := derived_audit_event_base TransferFlagged network_ source parser
              (mkDerivationSource "sanctions-screening-result"
                 "sanctions screening flagged the account; recorded for investigation"
                 (["account:" +:+ sf_account s; "rule:" +:+ sf_rule s]
                    ++ opt_part "token:" id_str (sf_token s)) tx []) slot in
  let? acc := account_of (network e) "account" (sf_account s) in
  let e := set_subject (Some acc) e in
  let e := detail "flag" "sanctions" e in
  let e := detail "rule" (sf_rule s) e in
  opt_ref (token_of (network e) "token") set_token (sf_token s) e.

(** ** Authorization changes and access ([authorization.rs]) *)

Inductive ChangeKind : Type := ChangeGranted | ChangeRevoked.
Definition ChangeKind_as_str (c : ChangeKind) : string :=
  match c with ChangeGranted => "granted" | ChangeRevoked => "revoked" end.

Record AuthorizationChange := mkAuthorizationChange {
  ac_network : NetworkId;
  ac_source : string;
  ac_parser : VersionLabel;
  ac_subject : AuditorId;
  ac_actor : option AuditorId;
  ac_change : ChangeKind;
  ac_role : AuditorRole;
  ac_scope : string
}.

Definition AuthorizationChange_into_audit_event (c : AuthorizationChange) (slot : EventSlot)
  : EventResult AuditEvent :=
  let refs := [as_str (ac_subject c); ac_scope c] ++ opt_part "" as_str (ac_actor c) in
  let? e := derived_audit_event_base AuthorizationChanged (ac_network c) (ac_source c) (ac_parser c)
              (mkDerivationSource "authorization-change-recorded"
                 "authorization grant or revocation recorded for the audit trail" refs None []) slot in
  let e := detail "change" (ChangeKind_as_str (ac_change c)) e in
  let e := detail "role" (AuditorRole_as_str (ac_role c)) e in
  let e := detail "scope" (ac_scope c) e in
  let e := detail "subject" (as_str (ac_subject c)) e in
  Ok (detail_opt "actor" (option_map as_str (ac_actor c)) e).

Definition access_recorded_event (entry : AuditAccessEntry) (network_ : NetworkId) (source : string)
    (parser : VersionLabel) (slot : EventSlot) : EventResult AuditEvent :=
  let source_refs := [ as_str (ae_auditor entry); AccessAction_as_str (ae_action entry); ae_scope entry ] in
  let? e := derived_audit_event_base AuditAccess network_ source parser
              (mkDerivationSource "audit-access-log"
                 "auditor access to audit data recorded (the audit trail auditing itself)"
                 source_refs None []) slot in
  let e := detail "entry" (as_str (ae_entry_id entry)) e in
  let e := detail "action" (AccessAction_as_str (ae_action entry)) e in
  let e := detail "scope" (ae_scope entry) e in
  let e := detail "result" (AccessResult_as_str (ae_result entry)) e in
  let e := detail_opt "target" (ae_target entry) e in
  let e := detail "auditor" (as_str (ae_auditor entry)) e in
  let e := detail "accessed_at" (z_to_string (unix_seconds (ae_accessed_at entry))) e in
  Ok (detail_opt "classification" (option_map DataClassification_as_str (ae_classification entry)) e).

(** ** Lifecycles ([investigation.rs], [evidence.rs], [report.rs], [audit.rs]) *)

Inductive LifecycleKind : Type := Opened | Updated | LifecycleClosed.
Definition lifecycle_event_kind (k : LifecycleKind) : EventKind :=
  match k with
  | Opened => InvestigationOpened
  | Updated => InvestigationUpdated
  | LifecycleClosed => InvestigationClosed
  end.

Record InvestigationLifecycle := mkInvestigationLifecycle {
  il_network : NetworkId;
  il_source : string;
  il_parser : VersionLabel;
  il_case : CaseId;
  il_actor : AuditorId;
  il_kind : LifecycleKind;
  il_sequence : Z;
  il_status : CaseStatus;
  il_summary : option string
}.

Definition InvestigationLifecycle_into_audit_event (l : InvestigationLifecycle) (slot : EventSlot)
  : EventResult AuditEvent :=
  let sequence := "step:" +:+ z_to_string (il_sequence l) in
  let? e := derived_audit_event_base (lifecycle_event_kind (il_kind l)) (il_network l) (il_source l)
              (il_parser l)
              (mkDerivationSource "investigation-lifecycle"
                 "case lifecycle step recorded by the investigation service"
                 [as_str (il_case l); as_str (il_actor l); sequence] None []) slot in
  let e := detail "case" (as_str (il_case l)) e in
  let e := detail "actor" (as_str (il_actor l)) e in
  let e := detail "status" (CaseStatus_as_str (il_status l)) e in
  Ok (detail_opt "summary" (il_summary l) e).

Record EvidenceLifecycle := mkEvidenceLifecycle {
  el_network : NetworkId;
  el_source : string;
  el_parser : VersionLabel;
  el_evidence : EvidenceId;
  el_kind : EvidenceKind;
  el_record_count : Z;
  el_manifest : option ManifestId;
  el_digest : option IntegrityDigest
}.

Definition EvidenceLifecycle_into_audit_event (l : EvidenceLifecycle) (slot : EventSlot)
  : EventResult AuditEvent :=
  let kind_label := EvidenceKind_as_str (el_kind l) in
  let count := z_to_string (el_record_count l) in
  let? e := derived_audit_event_base EvidenceGenerated (el_network l) (el_source l) (el_parser l)
              (mkDerivationSource "evidence-generation"
                 "evidence artifact generation recorded by the evidence service"
                 [as_str (el_evidence l); kind_label; count] None []) slot in
  let e := detail "evidence" (as_str (el_evidence l)) e in
  let e := detail "kind" kind_label e in
  let e := detail "records" count e in
  let e := detail_opt "manifest" (option_map as_str (el_manifest l)) e in
  Ok (detail_opt "digest" (option_map dig_value (el_digest l)) e).

Record ReportLifecycle := mkReportLifecycle {
  rl_network : NetworkId;
  rl_source : string;
  rl_parser : VersionLabel;
  rl_report : ReportId;
  rl_kind : ReportKind;
  rl_record_count : Z;
  rl_digest : option IntegrityDigest
}.

Definition ReportLifecycle_into_audit_event (l : ReportLifecycle) (slot : EventSlot)
  : EventResult AuditEvent :=
  let kind_label := ReportKind_as_str (rl_kind l) in
  let count := z_to_string (rl_record_count l) in
  let? e := derived_audit_event_base ReportGenerated (rl_network l) (rl_source l) (rl_parser l)
              (mkDerivationSource "report-generation" "report generation recorded by the reporting service"
                 [as_str (rl_report l); kind_label; count] None []) slot in
  let e := detail "report" (as_str (rl_report l)) e in
  let e := detail "kind" kind_label e in
  let e := detail "records" count e in
  Ok (detail_opt "digest" (option_map dig_value (rl_digest l)) e).

Record EvidenceGeneratedEvent := mkEvidenceGenerated {
  eg_network : NetworkId;
  eg_source : string;
  eg_parser : VersionLabel;
  eg_evidence : EvidenceId;
  eg_kind : EvidenceKind;
  eg_record_count : Z;
  eg_generated_by : AuditorId
}.

Definition EvidenceGenerated_into_audit_event (g : EvidenceGeneratedEvent) (slot : EventSlot)
  : EventResult AuditEvent :=
  let? e := derived_audit_event_base EvidenceGenerated (eg_network g) (eg_source g) (eg_parser g)
              (mkDerivationSource "evidence-generation-recorded"
                 "evidence artifact generation recorded for the audit trail"
                 [as_str (eg_evidence g); EvidenceKind_as_str (eg_kind g); as_str (eg_generated_by g)]
                 None []) slot in
  let e := detail "evidence" (as_str (eg_evidence g)) e in
  let e := detail "kind" (EvidenceKind_as_str (eg_kind g)) e in
  let e := detail "record_count" (z_to_string (eg_record_count g)) e in
  Ok (detail "by" (as_str (eg_generated_by g)) e).

Record ReportGeneratedEvent := mkReportGenerated {
  rg_network : NetworkId;
  rg_source : string;
  rg_parser : VersionLabel;
  rg_report : ReportId;
  rg_kind : string;
  rg_record_count : Z;
  rg_generated_by : AuditorId
}.

Definition ReportGenerated_into_audit_event (g : ReportGeneratedEvent) (slot : EventSlot)
  : EventResult AuditEvent :=
  let? e := derived_audit_event_base ReportGenerated (rg_network g) (rg_source g) (rg_parser g)
              (mkDerivationSource "report-generation-recorded"
                 "report generation recorded for the audit trail"
                 [as_str (rg_report g); rg_kind g] None []) slot in
  let e := detail "report" (as_str (rg_report g)) e in
  let e := detail "kind" (rg_kind g) e in
  let e := detail "record_count" (z_to_string (rg_record_count g)) e in
  Ok (detail "by" (as_str (rg_generated_by g)) e).

Record RecordCorrectedEvent := mkRecordCorrected {
  rc_network : NetworkId;
  rc_source : string;
  rc_parser : VersionLabel;
  rc_supersedes : RecordId;
  rc_reason : string;
  rc_corrected_by : AuditorId
}.

Definition RecordCorrected_into_audit_event (c : RecordCorrectedEvent) (slot : EventSlot)
  : EventResult AuditEvent :=
  let? e := derived_audit_event_base RecordCorrected (rc_network c) (rc_source c) (rc_parser c)
              (mkDerivationSource "record-correction"
                 "correction appended; the original record is preserved unmodified"
                 [as_str (rc_supersedes c)] None []) slot in
  let e := detail "supersedes" (as_str (rc_supersedes c)) e in
  let e := detail "reason" (rc_reason c) e in
  Ok (detail "by" (as_str (rc_corrected_by c)) e).
End Events.

(** ** Declared sensitivity ([classify.rs]) *)

Definition declared (kind : EventKind) : list (string * DataClassification) :=
  match kind with
  | ReportGenerated =>
      [("report", Operational); ("kind", Public); ("records", Operational); ("digest", Public)]
  | EvidenceGenerated =>
      [("evidence", Operational); ("kind", Public); ("records", Operational); ("manifest", Operational);
       ("digest", Public)]
  | InvestigationOpened | InvestigationUpdated | InvestigationClosed =>
      [("case", Operational); ("actor", Operational); ("status", Operational); ("summary", Confidential)]
  | _ => []
  end.

Definition detail_policy (e : AuditEvent) : FieldClassifications :=
  fold_left (fun policy '(key, c) => if bt_contains key (details e) then bt_insert key c policy else policy)
    (declared (kind e)) [].

(** ** Validity of the projections *)

Create HintDb events.

Lemma valid_detail k v e : event_valid e -> event_valid (detail k v e).
Proof. by intros []; constructor. Qed.
Lemma valid_detail_opt k v e : event_valid e -> event_valid (detail_opt k v e).
Proof. destruct v; [apply valid_detail | done]. Qed.
Lemma valid_outcome h o r e : event_valid e -> event_valid (set_outcome h o r e).
Proof. by intros []; constructor. Qed.
Lemma valid_token t e : event_valid e -> token_network t = network e -> event_valid (set_token (Some t) e).
Proof. intros [] Ht. constructor; simpl; try done. by intros ? [= <-]. Qed.
Lemma valid_actor a e : event_valid e -> acct_network a = network e -> event_valid (set_actor (Some a) e).
Proof. intros [] Ht. constructor; simpl; try done. by intros ? [= <-]. Qed.
Lemma valid_subject a e : event_valid e -> acct_network a = network e -> event_valid (set_subject (Some a) e).
Proof. intros [] Ht. constructor; simpl; try done. by intros ? [= <-]. Qed.
Lemma valid_operation op e :
  event_valid e -> transaction e = Some (op_transaction op) -> event_valid (set_operation (Some op) e).
Proof. intros [] Ht. constructor; simpl; try done. by intros ? [= <-]. Qed.

Lemma token_of_network here field s t : token_of here field s = Ok t -> token_network t = here.
Proof. unfold token_of. intros Ht. by ok_inv. Qed.
Lemma account_of_network here field s a : account_of here field s = Ok a -> acct_network a = here.
Proof. unfold account_of. intros Ha. by ok_inv. Qed.

#[export] Hint Resolve valid_detail valid_detail_opt valid_outcome valid_token valid_actor valid_subject
  valid_operation token_of_network account_of_network : events.

Lemma to_reference_network tx r : to_reference tx = Ok r -> tx_network r = tc_network tx.
Proof. unfold to_reference. intros Hr. by ok_inv. Qed.

Lemma ledger_reference_network tx l :
  ledger_reference tx = Ok (Some l) -> ledger_network l = tc_network tx.
Proof.
  unfold ledger_reference, LedgerReference_new. destruct (tc_ledger_sequence tx); intros Hl; [|done].
  ok_inv. done.
Qed.

Lemma valid_new id k n p :
  (prov_origin p = Derived -> is_Some (prov_derivation p)) -> event_valid (AuditEvent_new id k n p).
Proof. intros Hp. by constructor. Qed.

Lemma valid_place tx r l at_ o e :
  event_valid e -> operation e = None -> to_reference tx = Ok r -> ledger_reference tx = Ok l ->
  tc_network tx = network e -> event_valid (place (Some r) l at_ o e).
Proof.
  intros [] Hop Hr Hl Hn. apply to_reference_network in Hr. constructor; simpl; try done.
  - intros l' ->. apply ledger_reference_network in Hl. congruence.
  - intros t [= <-]. congruence.
  - by rewrite Hop.
Qed.

(** The error of [field_err]-mapped lookups aside, an update that may attach a reference. *)
Lemma opt_ref_valid {A} (make : string -> EventResult A) set o e e' :
  opt_ref make set o e = Ok e' ->
  (forall s x, make s = Ok x -> event_valid e -> event_valid (set (Some x) e)) ->
  event_valid e -> event_valid e'.
Proof. unfold opt_ref. destruct o; intros He Hset Hv; ok_inv; eauto. Qed.

Section Projections.
Context `{Sha256, JsonStrings}.

Lemma derived_base_valid k n src parser d slot e :
  derived_audit_event_base k n src parser d slot = Ok e ->
  (forall tx, ds_tx d = Some tx -> tc_network tx = n) ->
  event_valid e /\ network e = n /\ kind e = k /\ operation e = None
  /\ event_id e = derived_event_id (network_str n) (ds_method d) (ds_source_refs d).
Proof.
  unfold derived_audit_event_base. intros He Hn. ok_inv.
  assert (event_valid (AuditEvent_new (derived_event_id (network_str n) (ds_method d) (ds_source_refs d))
            k n (with_derivation v0 v))) as Hv by (apply valid_new; intros _; simpl; eauto).
  destruct (ds_tx d) as [tx|]; ok_inv; [|done].
  split; [|done]. eapply valid_place; eauto.
Qed.

Lemma observed_base_valid k n src parser tx slot e :
  observed_audit_event_base k n src parser tx slot = Ok e -> tc_network tx = n ->
  event_valid e /\ network e = n /\ kind e = k.
Proof.
  unfold observed_audit_event_base. intros He Hn. ok_inv. split; [|done].
  eapply valid_place; eauto. apply valid_new. unfold EventProvenance_new in Hok2. ok_inv. done.
Qed.

(** A derived event without a transaction exists whenever its source label is
    a valid one (the method and note labels of the crate are constants). *)
Lemma derived_base_total k n src parser m note refs slot prov :
  DerivationInfo_new m [] note = Ok (mkDerivationInfo m [] note) ->
  EventProvenance_new Derived src parser = Ok prov ->
  exists e, derived_audit_event_base k n src parser (mkDerivationSource m note refs None []) slot = Ok e.
Proof. intros Hd Hp. unfold derived_audit_event_base. simpl. rewrite Hd, Hp. simpl. eauto. Qed.
End Projections.

(** Opens a projection up to its base event. *)
Ltac projection He :=
  ok_inv;
  match goal with
  | H : derived_audit_event_base _ _ _ _ _ _ = Ok ?e |- _ =>
      let Hv := fresh "Hv" in let Hn := fresh "Hn" in let Hk := fresh "Hk" in
      let Hop := fresh "Hop" in let Hid := fresh "Hid" in
      apply derived_base_valid in H as (Hv & Hn & Hk & Hop & Hid);
      [|simpl; try (by intros ? [=]); try (by intros ? [= <-]); eauto]
  | H : observed_audit_event_base _ _ _ _ _ _ = Ok ?e |- _ =>
      let Hv := fresh "Hv" in let Hn := fresh "Hn" in let Hk := fresh "Hk" in
      apply observed_base_valid in H as (Hv & Hn & Hk); [|by auto]
  end.

Section ProjectionFacts.
Context `{Sha256, JsonStrings}.

Lemma lifecycle_event_valid l slot e :
  InvestigationLifecycle_into_audit_event l slot = Ok e ->
  event_valid e /\ kind e = lifecycle_event_kind (il_kind l)
  /\ event_id e = derived_event_id (network_str (il_network l)) "investigation-lifecycle"
       [as_str (il_case l); as_str (il_actor l); "step:" +:+ z_to_string (il_sequence l)].
Proof.
  unfold InvestigationLifecycle_into_audit_event. intros He. projection He.
  split; [auto 20 with events|]. destruct (il_summary l); simpl; auto.
Qed.

Lemma evidence_event_valid l slot e :
  EvidenceLifecycle_into_audit_event l slot = Ok e -> event_valid e /\ kind e = EvidenceGenerated.
Proof.
  unfold EvidenceLifecycle_into_audit_event. intros He. projection He.
  split; [auto 20 with events|]. destruct (el_manifest l), (el_digest l); simpl; auto.
Qed.

Lemma report_event_valid l slot e :
  ReportLifecycle_into_audit_event l slot = Ok e -> event_valid e /\ kind e = ReportGenerated.
Proof.
  unfold ReportLifecycle_into_audit_event. intros He. projection He.
  split; [auto 20 with events|]. destruct (rl_digest l); simpl; auto.
Qed.

(** The identity of a generation covers what was made, not when. *)
Lemma evidence_event_id l slot e :
  EvidenceLifecycle_into_audit_event l slot = Ok e ->
  event_id e = derived_event_id (network_str (el_network l)) "evidence-generation"
                 [as_str (el_evidence l); EvidenceKind_as_str (el_kind l); z_to_string (el_record_count l)].
Proof.
  unfold EvidenceLifecycle_into_audit_event. intros He. projection He. destruct (el_manifest l), (el_digest l); done.
Qed.

Lemma report_event_id l slot e :
  ReportLifecycle_into_audit_event l slot = Ok e ->
  event_id e = derived_event_id (network_str (rl_network l)) "report-generation"
                 [as_str (rl_report l); ReportKind_as_str (rl_kind l); z_to_string (rl_record_count l)].
Proof. unfold ReportLifecycle_into_audit_event. intros He. projection He. destruct (rl_digest l); done. Qed.

Lemma access_event_valid entry n src parser slot e :
  access_recorded_event entry n src parser slot = Ok e -> event_valid e /\ kind e = AuditAccess.
Proof.
  unfold access_recorded_event. intros He. projection He.
  split; [auto 20 with events|]. destruct (ae_target entry), (ae_classification entry); simpl; auto.
Qed.

Lemma transfer_event_valid t n src parser tx op slot e :
  tc_network tx = n -> TransferOutcome_into_audit_event t n src parser tx op slot = Ok e -> event_valid e.
Proof.
  unfold TransferOutcome_into_audit_event. intros Hn' He. projection He.
  eapply opt_ref_valid; [exact He | eauto with events |].
  eapply opt_ref_valid; [eassumption | eauto with events |].
  apply valid_token; [|by eapply token_of_network].
  apply valid_operation; [by apply valid_outcome|]. simpl.
  unfold operation_reference, OperationReference_new in *. ok_inv. simpl. done.
Qed.
End ProjectionFacts.

(** The identity of a derived event covers fewer facts than the event: an
    access entry's event id ignores the entry id, target, result and instant;
    an authorization change's ignores whether it is a grant or a revocation and
    the role; a correction's ignores its reason and author.  Two such events
    have the same id, so an idempotent store keeps only the first of them. *)
Theorem derived_identity_collisions `{Sha256, JsonStrings} n src parser slot :
  (forall id id' a act sc t t' r r' at_ at_' c c',
     map_ok event_id (access_recorded_event (mkAuditAccessEntry id a act sc t r at_ c) n src parser slot)
     = map_ok event_id (access_recorded_event (mkAuditAccessEntry id' a act sc t' r' at_' c') n src parser slot))
  /\ (forall s actor role role' sc,
        map_ok event_id (AuthorizationChange_into_audit_event
          (mkAuthorizationChange n src parser s actor ChangeGranted role sc) slot)
        = map_ok event_id (AuthorizationChange_into_audit_event
          (mkAuthorizationChange n src parser s actor ChangeRevoked role' sc) slot))
  /\ (forall r why why' by_ by_',
        map_ok event_id (RecordCorrected_into_audit_event (mkRecordCorrected n src parser r why by_) slot)
        = map_ok event_id (RecordCorrected_into_audit_event (mkRecordCorrected n src parser r why' by_') slot)).
Proof.
  assert (forall k v e, event_id (detail k v e) = event_id e) as Hd by reflexivity.
  assert (forall k v e, event_id (detail_opt k v e) = event_id e) as Ho by by intros k [].
  split; [|split]; intros; unfold access_recorded_event, AuthorizationChange_into_audit_event,
    RecordCorrected_into_audit_event; cbn -[derived_audit_event_base detail detail_opt];
    (destruct (derived_audit_event_base _ _ _ _ _ _) as [e|]; [|done]);
    cbn -[detail detail_opt]; by repeat first [rewrite Ho | rewrite Hd].
Qed.

Definition policy_step (d : BTreeMap string string) (policy : FieldClassifications)
    (p : string * DataClassification) : FieldClassifications :=
  let '(key, c) := p in if bt_contains key d then bt_insert key c policy else policy.

Lemma policy_fold_get d k c l m :
  NoDup (map fst l) ->
  bt_get k (fold_left (policy_step d) l m) = Some c <->
  (In (k, c) l /\ bt_contains k d = true)
  \/ (bt_get k m = Some c /\ ~ (In k (map fst l) /\ bt_contains k d = true)).
Proof.
  revert m. induction l as [|[k' c'] l IH]; intros m Hnd; simpl; [tauto|].
  simpl in Hnd. apply NoDup_cons in Hnd as [Hn Hnd]. rewrite list_elem_of_In in Hn.
  assert (forall x, In (k', x) l -> False) as Hin by (intros x Hx; by apply (in_map fst) in Hx).
  assert ((k', c') = (k, c) <-> k' = k /\ c' = c) as Hpair by (split; [by intros [= -> ->] | by intros [-> ->]]).
  rewrite IH, Hpair by done. destruct (decide (k' = k)) as [->|Hne].
  - destruct (bt_contains k d) eqn:E; [rewrite bt_get_insert_eq|].
    + assert (Some c' = Some c <-> c' = c) as -> by (split; congruence). specialize (Hin c). tauto.
    + intuition congruence.
  - assert (bt_get k (policy_step d m (k', c')) = bt_get k m) as Hg
      by (simpl; destruct (bt_contains k' d); [by apply bt_get_insert_ne | done]).
    simpl in Hg. rewrite Hg. tauto.
Qed.

Lemma declared_nodup k : NoDup (map fst (declared k)).
Proof. apply (bool_decide_unpack _). by destruct k. Qed.

(** The declared field policy of an event classifies exactly the declared
    keys the event carries, is a well-formed map, and never classifies a field
    above [Confidential]. *)
Lemma detail_policy_spec e :
  bt_wf (detail_policy e)
  /\ (forall k c, bt_get k (detail_policy e) = Some c <->
        In (k, c) (declared (kind e)) /\ bt_contains k (details e) = true)
  /\ (forall k c, bt_get k (detail_policy e) = Some c -> class_le c Confidential = true).
Proof.
  assert (forall k c, bt_get k (detail_policy e) = Some c <->
        In (k, c) (declared (kind e)) /\ bt_contains k (details e) = true) as Hget.
  { intros k c. change (detail_policy e) with (fold_left (policy_step (details e)) (declared (kind e)) []).
    rewrite policy_fold_get by apply declared_nodup. simpl. intuition congruence. }
  split; [|split; [exact Hget|]].
  - change (detail_policy e) with (fold_left (policy_step (details e)) (declared (kind e)) []).
    assert (forall l m, bt_wf m -> bt_wf (fold_left (policy_step (details e)) l m)) as Hf.
    { induction l as [|[k c] l IH]; intros m Hm; simpl; [done|]. apply IH.
      destruct (bt_contains _ _); [by apply bt_insert_wf | done]. }
    apply Hf, bt_wf_nil.
  - intros k c Hc. apply Hget in Hc as [Hin _].
    destruct (kind e); simpl in Hin; repeat destruct Hin as [[= <- <-]|Hin]; done.
Qed.
