(* ===== verification/Sources.v ===== *)
(** * Event sources ([audit-core/src/source.rs])

    Raw items as an [EventSource] delivers them, pages of items, and the source
    trait: [fetch_after] is an external service, so it is an operation of a type
    class on the source's own state. *)

From S2P Require Import Prelude Text BTree Errors.

Record RawEventItem := mkRawEventItem {
  raw_scheme : string;
  raw_payload : string;
  raw_position : string
}.

Inductive SourceError : Type :=
| FetchFailed (d : string)
| InvalidPosition (d : string)
| LimitOutOfRange (limit : Z)
| InvalidItem (d : string).

Definition SourceError_to_string (e : SourceError) : string :=
  match e with
  | FetchFailed d => "source fetch failed: " +:+ d
  | InvalidPosition d => "invalid source position: " +:+ d
  | LimitOutOfRange n => "page limit " +:+ z_to_string n +:+ " is outside the supported range"
  | InvalidItem d => "invalid source item: " +:+ d
  end.

Definition SourceError_into_core (e : SourceError) : AuditError := SourceFailure (SourceError_to_string e).

(** Graphic ASCII other than the space and the double quote. *)
Definition label_char (c : ascii) : bool :=
  is_ascii_graphic c && negb (Ascii.eqb c " "%char) && negb (Ascii.eqb c "034"%char).

(** The shape source labels, positions, cursors and checkpoint names share. *)
Definition label_ok (max : Z) (s : string) : bool := len_in 1 max s && str_all label_char s.

Definition validate_label (kind value : string) (max : Z) : result unit SourceError :=
  if label_ok max value then Ok tt
  else Err (InvalidItem (kind +:+ " label must be 1-" +:+ z_to_string max
                           +:+ " non-space printable ASCII chars")).

Definition RawEventItem_new (scheme payload position : string) : result RawEventItem SourceError :=
  let? _ := validate_label "scheme" scheme 64 in
  let? _ := validate_label "position" position 512 in
  if (4 * 1024 * 1024 <? str_len payload)%Z
  then Err (InvalidItem "payload exceeds the 4 MiB item limit")
  else Ok (mkRawEventItem scheme payload position).

Record SourcePage := mkSourcePage {
  sp_items : list RawEventItem;
  sp_next : option string
}.

Definition SourcePage_new (items : list RawEventItem) (next : option string) : SourcePage :=
  mkSourcePage items next.
Definition SourcePage_end : SourcePage := SourcePage_new [] None.
Definition sp_has_more (p : SourcePage) : bool :=
  match sp_next p with Some _ => true | None => false end.

(** The [EventSource] trait.  [fetch_after] takes [&mut self]; the consumer only
    renders the source's own error, so it is its message. *)
Class EventSource (Src : Type) := {
  source_name : Src -> string;
  fetch_after : Src -> option string -> Z -> Src * result SourcePage string
}.

(** ** Facts *)

Lemma RawEventItem_new_Ok_iff scheme payload position i :
  RawEventItem_new scheme payload position = Ok i <->
  i = mkRawEventItem scheme payload position /\ label_ok 64 scheme = true
  /\ label_ok 512 position = true /\ (str_len payload <= 4 * 1024 * 1024)%Z.
Proof.
  unfold RawEventItem_new, validate_label.
  destruct (label_ok 64 scheme), (label_ok 512 position); simpl;
    try (split; [done | by intros (_ & ? & ? & _)]).
  destruct (Z.ltb_spec (4 * 1024 * 1024) (str_len payload)); split; intros Hx.
  - done.
  - destruct Hx as (_ & _ & _ & ?). lia.
  - injection Hx as <-. auto.
  - by destruct Hx as (-> & _).
Qed.
