(* ===== verification/Normalizer.v ===== *)
(** * The event normalizer ([crates/event-normalizer])

    Raw items to validated audit events: scheme recognition, strict decoding,
    validation, classification.  JSON text is decoded by [serde_json], which is
    not part of the repository: [JsonDecoder] is its parser and the derived
    decoder of the event envelope. *)

From S2P Require Import Prelude Text BTree Errors Identifiers Timestamps Classification.
From S2P Require Import Correlation Events AuditEvents Sources.
Open Scope list_scope.

(** ** Errors ([errors.rs]) *)

Inductive NormalizerError : Type :=
| UnsupportedScheme (s : string)
| UnsupportedVersion (scheme version detail : string)
| MalformedPayload (scheme detail : string)
| NormValidationFailed (scheme detail : string)
| ClassificationFailed (scheme detail : string).

Definition NormalizerResult (T : Type) : Type := result T NormalizerError.

Definition NormalizerError_to_string (e : NormalizerError) : string :=
  match e with
  | UnsupportedScheme s => "unsupported scheme `" +:+ s +:+ "`"
  | UnsupportedVersion scheme version detail =>
      "unsupported " +:+ scheme +:+ " payload version " +:+ version +:+ ": " +:+ detail
  | MalformedPayload scheme detail => "malformed " +:+ scheme +:+ " payload: " +:+ detail
  | NormValidationFailed scheme detail => "invalid " +:+ scheme +:+ " payload: " +:+ detail
  | ClassificationFailed scheme detail => "cannot classify " +:+ scheme +:+ " payload: " +:+ detail
  end.

Definition NormalizerError_into_core (e : NormalizerError) : AuditError :=
  match e with
  | UnsupportedScheme s => UnsupportedEvent ("ingestion scheme `" +:+ s +:+ "` is not supported")
  | UnsupportedVersion scheme version detail =>
      UnsupportedEventVersion (scheme +:+ " payload version " +:+ version +:+ ": " +:+ detail)
  | MalformedPayload scheme detail => InvalidEvent ("malformed " +:+ scheme +:+ " payload: " +:+ detail)
  | NormValidationFailed scheme detail => InvalidEvent ("invalid " +:+ scheme +:+ " payload: " +:+ detail)
  | ClassificationFailed scheme detail =>
      InvalidEvent ("cannot classify " +:+ scheme +:+ " payload: " +:+ detail)
  end.

(** ** Schemes ([scheme.rs]) *)

Inductive Scheme : Type := HooksStateEvent | AuditEnvelope.

#[export] Instance Scheme_eq_dec : EqDecision Scheme.
Proof. solve_decision. Defined.

Definition HOOKS : string := "hooks-state-event".
Definition ENVELOPE : string := "audit-envelope".

Definition as_label (s : Scheme) : string :=
  match s with HooksStateEvent => HOOKS | AuditEnvelope => ENVELOPE end.
Definition supported_version (s : Scheme) : Z :=
  match s with HooksStateEvent => 1 | AuditEnvelope => 1 end.
Definition declares_version (s : Scheme) : bool :=
  match s with HooksStateEvent => false | AuditEnvelope => true end.
Definition Scheme_ALL : list Scheme := [HooksStateEvent; AuditEnvelope].

Definition Scheme_from_str (label : string) : result Scheme unit :=
  if String.eqb label HOOKS then Ok HooksStateEvent
  else if String.eqb label ENVELOPE then Ok AuditEnvelope
  else Err tt.

(** ** JSON values (the shape of [serde_json::Value]) *)

(** [NInt] is a [PosInt]/[NegInt] number, [NFloat] any other. *)
Inductive Number : Type := NInt (z : Z) | NFloat (text : string).

Inductive Value : Type :=
| VNull
| VBool (b : bool)
| VNumber (n : Number)
| VString (s : string)
| VArray (l : list Value)
| VObject (fields : BTreeMap string Value).

Definition as_i64 (n : Number) : option Z :=
  match n with
  | NInt z => if (i64_min <=? z)%Z && (z <=? i64_max)%Z then Some z else None
  | NFloat _ => None
  end.
Definition as_u64 (n : Number) : option Z :=
  match n with
  | NInt z => if (0 <=? z)%Z && (z <=? u64_max)%Z then Some z else None
  | NFloat _ => None
  end.
(** [u32::try_from(v).ok()]. *)
Definition u32_try_from (z : Z) : option Z := if (z <=? u32_max)%Z then Some z else None.

(** [serde_json::from_str] and the [AuditEvent] instance of [serde_json::from_value]. *)
Class JsonDecoder := {
  json_from_str : string -> result Value string;
  event_from_value : Value -> result AuditEvent string
}.

(** ** Parsed payloads ([parser.rs]) *)

Inductive HooksType : Type :=
| HAccountFrozen | HAccountUnfrozen | HTokenBound | HTokenUnbound | HComplianceConfigChanged
| HInitialized.

#[export] Instance HooksType_eq_dec : EqDecision HooksType.
Proof. solve_decision. Defined.

Definition HooksType_as_str (t : HooksType) : string :=
  match t with
  | HAccountFrozen => "account_frozen"
  | HAccountUnfrozen => "account_unfrozen"
  | HTokenBound => "token_bound"
  | HTokenUnbound => "token_unbound"
  | HComplianceConfigChanged => "compliance_config_changed"
  | HInitialized => "initialized"
  end.

Definition HooksType_from_wire (s : string) : option HooksType :=
  if String.eqb s "account_frozen" then Some HAccountFrozen
  else if String.eqb s "account_unfrozen" then Some HAccountUnfrozen
  else if String.eqb s "token_bound" then Some HTokenBound
  else if String.eqb s "token_unbound" then Some HTokenUnbound
  else if String.eqb s "compliance_config_changed" then Some HComplianceConfigChanged
  else if String.eqb s "initialized" then Some HInitialized
  else None.

Definition to_event_kind (t : HooksType) : EventKind :=
  match t with
  | HAccountFrozen => AccountFrozen
  | HAccountUnfrozen => AccountUnfrozen
  | HTokenBound => TokenBound
  | HTokenUnbound => TokenUnbound
  | HComplianceConfigChanged => ConfigurationChanged
  | HInitialized => EnforcementInitialized
  end.

Definition has_account (t : HooksType) : bool :=
  match t with HAccountFrozen | HAccountUnfrozen => true | _ => false end.
Definition has_policy_config (t : HooksType) : bool :=
  match t with HComplianceConfigChanged => true | _ => false end.
Definition has_admin (t : HooksType) : bool :=
  match t with HInitialized => true | _ => false end.

Definition HooksType_ALL : list HooksType :=
  [HAccountFrozen; HAccountUnfrozen; HTokenBound; HTokenUnbound; HComplianceConfigChanged; HInitialized].

(** [rh_ledger] and [rh_close_time] are [i64], the indices [u32]. *)
Record RawHooksEvent := mkRawHooksEvent {
  rh_hooks_type : HooksType;
  rh_token : option string;
  rh_admin : option string;
  rh_account : option string;
  rh_policy : option string;
  rh_sac_passthrough : option bool;
  rh_ledger : Z;
  rh_close_time : Z;
  rh_transaction_hash : string;
  rh_operation_index : Z;
  rh_event_index : Z
}.

Record RawEnvelope := mkRawEnvelope { env_event : AuditEvent }.

Inductive ParsedEvent : Type :=
| HooksState (raw : RawHooksEvent)
| Envelope (raw : RawEnvelope).

Definition ENVELOPE_FIELDS : list string :=
  ["event_id"; "kind"; "schema_version"; "network"; "provenance"; "observed_at"; "order"; "ledger";
   "transaction"; "operation"; "token"; "actor"; "subject"; "decision"; "enforcement"; "outcome";
   "reason"; "details"].

Definition HOOKS_FIELDS : list string :=
  ["type"; "token"; "admin"; "account"; "policy"; "sac_passthrough"; "ledger"; "close_time";
   "transaction_hash"; "operation_index"; "event_index"].

Definition Object : Type := BTreeMap string Value.

Definition malformed {T} (scheme detail : string) : NormalizerResult T := Err (MalformedPayload scheme detail).

Fixpoint reject_unknown_fields (keys allowed : list string) (scheme : string) : NormalizerResult unit :=
  match keys with
  | [] => Ok tt
  | key :: keys =>
      if negb (bool_decide (key ∈ allowed)) then malformed scheme ("unknown field `" +:+ key +:+ "`")
      else reject_unknown_fields keys allowed scheme
  end.

Definition required_string (obj : Object) (field scheme : string) : NormalizerResult string :=
  match bt_get field obj with
  | Some (VString s) => Ok s
  | _ => malformed scheme ("`" +:+ field +:+ "` must be a string")
  end.

Definition optional_string (obj : Object) (field scheme : string) : NormalizerResult (option string) :=
  match bt_get field obj with
  | None => Ok None
  | Some (VString s) => Ok (Some s)
  | Some _ => malformed scheme ("`" +:+ field +:+ "` must be a string")
  end.

(** The three numeric field shapes of [parse_hooks_state]. *)
Definition number_field (obj : Object) (field scheme detail : string) (f : Number -> option Z)
  : NormalizerResult Z :=
  match bt_get field obj with
  | Some (VNumber n) => ok_or (f n) (MalformedPayload scheme detail)
  | _ => malformed scheme detail
  end.

Definition non_negative (o : option Z) : option Z :=
  match o with Some z => if (0 <=? z)%Z then Some z else None | None => None end.
Definition index_of_number (n : Number) : option Z :=
  match as_u64 n with Some v => u32_try_from v | None => None end.

Section Parser.
Context `{JsonDecoder}.

Definition as_object (payload scheme : string) : NormalizerResult Object :=
  let? value := map_err (fun e => MalformedPayload scheme ("payload is not valid JSON: " +:+ e))
                  (json_from_str payload) in
  match value with
  | VObject fields => Ok fields
  | _ => malformed scheme "payload must be a JSON object"
  end.

Definition parse_hooks_state (payload : string) : NormalizerResult RawHooksEvent :=
  let? obj := as_object payload HOOKS in
  let? _ := reject_unknown_fields (bt_keys obj) HOOKS_FIELDS HOOKS in
  let? hooks_type :=
    match bt_get "type" obj with
    | Some (VString s) =>
        ok_or (HooksType_from_wire s)
          (NormValidationFailed HOOKS ("`" +:+ s +:+ "` is not a supported hooks event type"))
    | _ => malformed HOOKS "`type` must be a string"
    end in
  let? token := optional_string obj "token" HOOKS in
  let? admin := optional_string obj "admin" HOOKS in
  let? account := optional_string obj "account" HOOKS in
  let? policy := optional_string obj "policy" HOOKS in
  let? sac_passthrough :=
    match bt_get "sac_passthrough" obj with
    | None => Ok None
    | Some (VBool b) => Ok (Some b)
    | Some _ => malformed HOOKS "`sac_passthrough` must be a boolean"
    end in
  let? ledger := number_field obj "ledger" HOOKS "`ledger` must be a non-negative integer"
                   (fun n => non_negative (as_i64 n)) in
  let? close_time := number_field obj "close_time" HOOKS
                       "`close_time` must be an integer Unix timestamp" as_i64 in
  let? transaction_hash := required_string obj "transaction_hash" HOOKS in
  let? operation_index := number_field obj "operation_index" HOOKS
                            "`operation_index` must be a non-negative integer" index_of_number in
  let? event_index := number_field obj "event_index" HOOKS
                        "`event_index` must be a non-negative integer" index_of_number in
  Ok (mkRawHooksEvent hooks_type token admin account policy sac_passthrough ledger close_time
        transaction_hash operation_index event_index).

Definition parse_envelope (payload : string) : NormalizerResult RawEnvelope :=
  let? obj := as_object payload ENVELOPE in
  let? _ := reject_unknown_fields (bt_keys obj) ENVELOPE_FIELDS ENVELOPE in
  let? value := map_err (fun e => MalformedPayload ENVELOPE ("payload is not valid JSON: " +:+ e))
                  (json_from_str payload) in
  let? event := map_err (fun e => MalformedPayload ENVELOPE
                                    ("payload does not decode as an audit event: " +:+ e))
                  (event_from_value value) in
  Ok (mkRawEnvelope event).

Definition parse (scheme : Scheme) (payload : string) : NormalizerResult ParsedEvent :=
  match scheme with
  | HooksStateEvent => map_ok HooksState (parse_hooks_state payload)
  | AuditEnvelope => map_ok Envelope (parse_envelope payload)
  end.
End Parser.

(** ** Validation ([validator.rs]) *)

Definition invalid_hooks {T} (detail : string) : NormalizerResult T := Err (NormValidationFailed HOOKS detail).
Definition invalid_envelope {T} (detail : string) : NormalizerResult T :=
  Err (NormValidationFailed ENVELOPE detail).
Definition envelope_field (field : string) (err : AuditError) : NormalizerError :=
  NormValidationFailed ENVELOPE (field +:+ ": " +:+ AuditError_to_string err).

Definition check_tx_hash (hash : string) : NormalizerResult unit :=
  let valid := (String.length hash =? 64)%nat
               && str_all (fun c => is_ascii_hexdigit c && negb (is_ascii_uppercase c)) hash in
  if valid then Ok tt else invalid_hooks "transaction_hash: must be 64 lowercase hex chars".

Definition check_hooks_value {T} (r : AuditResult T) (field : string) : NormalizerResult unit :=
  map_err (fun e => NormValidationFailed HOOKS (field +:+ ": " +:+ AuditError_to_string e))
    (map_ok (fun _ => tt) r).

(** [if let Some(v) = o { check_hooks_value(|| new(v), field)? }]. *)
Definition check_opt {T} (new : string -> AuditResult T) (o : option string) (field : string)
  : NormalizerResult unit :=
  match o with Some v => check_hooks_value (new v) field | None => Ok tt end.

Definition is_none {A} (o : option A) : bool := match o with None => true | Some _ => false end.
Definition is_some {A} (o : option A) : bool := negb (is_none o).

(** The exact field presence each hooks type requires. *)
Definition hooks_presence (raw : RawHooksEvent) : NormalizerResult unit :=
  let t := rh_hooks_type raw in
  if has_admin t then
    if is_none (rh_admin raw) then invalid_hooks "admin: required for initialized events"
    else if is_some (rh_token raw) || is_some (rh_account raw) || is_some (rh_policy raw)
            || is_some (rh_sac_passthrough raw)
    then invalid_hooks "token: initialized events must not carry token, account, or policy fields"
    else Ok tt
  else if has_account t then
    if is_none (rh_account raw) then invalid_hooks "account: required for freeze-state events"
    else if is_none (rh_token raw) then invalid_hooks "token: required for freeze-state events"
    else if is_some (rh_policy raw) || is_some (rh_sac_passthrough raw) || is_some (rh_admin raw)
    then invalid_hooks "policy: freeze-state events must not carry policy configuration"
    else Ok tt
  else if has_policy_config t then
    if is_none (rh_policy raw) then invalid_hooks "policy: required for config-change events"
    else if is_none (rh_sac_passthrough raw)
    then invalid_hooks "sac_passthrough: required for config-change events"
    else if is_none (rh_token raw) then invalid_hooks "token: required for config-change events"
    else if is_some (rh_account raw) || is_some (rh_admin raw)
    then invalid_hooks "account: config-change events must not carry a subject account"
    else Ok tt
  else
    if is_none (rh_token raw) then invalid_hooks "token: required for bind/unbind events"
    else if is_some (rh_account raw) || is_some (rh_policy raw) || is_some (rh_sac_passthrough raw)
            || is_some (rh_admin raw)
    then invalid_hooks "account: bind/unbind events must not carry account or policy fields"
    else Ok tt.

Definition validate_hooks_state (raw : RawHooksEvent) : NormalizerResult unit :=
  let? _ := hooks_presence raw in
  let? _ := check_opt ContractId_new (rh_token raw) "token" in
  let? _ := check_opt AccountId_new (rh_admin raw) "admin" in
  let? _ := check_opt AccountId_new (rh_account raw) "account" in
  let? _ := check_opt ContractId_new (rh_policy raw) "policy" in
  let? _ := check_tx_hash (rh_transaction_hash raw) in
  if (rh_ledger raw <? 1)%Z then invalid_hooks "ledger: sequence must be >= 1"
  else if (rh_close_time raw <? 0)%Z
  then invalid_hooks "close_time: must be a non-negative Unix timestamp"
  else Ok tt.

(** Rebuilding one reference: only whether it succeeds matters. *)
Definition rebuild {T} (field : string) (r : AuditResult T) : NormalizerResult T := map_err (envelope_field field) r.

Definition if_some {A} (o : option A) (f : A -> NormalizerResult unit) : NormalizerResult unit :=
  match o with Some x => f x | None => Ok tt end.

Definition negative (t : Timestamp) : bool := (unix_seconds t <? 0)%Z.

Definition validate_provenance (p : EventProvenance) : NormalizerResult unit :=
  let? _ := rebuild "provenance.parser_version" (VersionLabel_new (version_str (prov_parser_version p))) in
  if_some (prov_derivation p) (fun d =>
    let? _ := rebuild "provenance.derivation"
                (DerivationInfo_new (drv_method d) (drv_source_events d) (drv_note d)) in
    Ok tt).

Definition validate_account (field : string) (r : AccountReference) : NormalizerResult unit :=
  let? _ := rebuild (field +:+ ".network") (NetworkId_new (network_str (acct_network r))) in
  let? _ := rebuild (field +:+ ".account") (AccountId_new (account_str (acct_account r))) in
  Ok tt.

Definition validate_token (t : TokenReference) : NormalizerResult unit :=
  let? network := rebuild "token.network" (NetworkId_new (network_str (token_network t))) in
  match token_contract t with
  | Some c =>
      let? _ := rebuild "token.contract" (ContractId_new (contract_str c)) in
      Ok tt
  | None =>
      match token_asset_code t, token_issuer t with
      | Some code, Some issuer =>
          let? issuer := rebuild "token.issuer" (AccountId_new (account_str issuer)) in
          let? _ := rebuild "token.asset_code" (TokenReference_for_classic_asset network code issuer) in
          Ok tt
      | _, _ => invalid_envelope "token must identify a contract or a classic asset"
      end
  end.

Definition validate_decision (d : PolicyDecisionReference) : NormalizerResult unit :=
  let p := pdr_policy d in
  let? c := rebuild "decision.policy.policy" (ContractId_new (contract_str (policy_contract p))) in
  let? v := rebuild "decision.policy.version" (VersionLabel_new (version_str (policy_version p))) in
  let policy := PolicyReference_new c v in
  let? _ := if_some (policy_digest p) (fun digest =>
    let? _ := rebuild "decision.policy.digest" (PolicyReference_with_digest policy (Some digest)) in
    Ok tt) in
  let? _ := if_some (pdr_reason d) (fun r =>
    let? _ := rebuild "decision.reason" (ReasonCode_new (reason_str r)) in
    Ok tt) in
  if_some (pdr_decided_at d) (fun at_ =>
    if negative at_ then invalid_envelope "decision.decided_at must be non-negative" else Ok tt).

Definition validate_enforcement (e : EnforcementResultReference) : NormalizerResult unit :=
  let? v := rebuild "enforcement.hook_version" (VersionLabel_new (version_str (enf_hook_version e))) in
  let? _ := rebuild "enforcement.hook" (EnforcementResultReference_new (enf_hook e) v (enf_result e)) in
  if_some (enf_reason e) (fun r =>
    let? _ := rebuild "enforcement.reason" (ReasonCode_new (reason_str r)) in
    Ok tt).

Definition validate_tx (field : string) (t : TransactionReference) : NormalizerResult TransactionReference :=
  let? n := rebuild (field +:+ ".network") (NetworkId_new (network_str (tx_network t))) in
  let? h := rebuild (field +:+ ".hash") (TransactionHash_new (txhash_str (tx_hash t))) in
  Ok (mkTransactionReference n h).

Definition validate_ledger (l : LedgerReference) : NormalizerResult unit :=
  let? n := rebuild "ledger.network" (NetworkId_new (network_str (ledger_network l))) in
  let? _ := rebuild "ledger.sequence" (LedgerReference_new n (ledger_sequence_of l) (ledger_close_time l)) in
  match ledger_close_time l with
  | Some t => if negative t then invalid_envelope "ledger.close_time must be non-negative" else Ok tt
  | None => Ok tt
  end.

Definition validate_operation (op : OperationReference) : NormalizerResult unit :=
  let? tx := validate_tx "operation.transaction" (op_transaction op) in
  let? _ := rebuild "operation" (OperationReference_new tx (op_index op) (op_type op)) in
  Ok tt.

Definition detail_ok (kv : string * string) : bool :=
  len_in 1 64 (fst kv) && str_all is_ascii_graphic (fst kv) && (str_len (snd kv) <=? 1024)%Z.

(** The error of [event.validate()], its schema failures reported as version problems. *)
Definition envelope_validate_error (declared : Z) (e : AuditError) : NormalizerError :=
  match e with
  | UnsupportedSchema detail => UnsupportedVersion ENVELOPE (z_to_string declared) detail
  | other => NormValidationFailed ENVELOPE (AuditError_to_string other)
  end.

Definition validate_envelope (e : AuditEvent) : NormalizerResult unit :=
  let declared := schema_version e in
  let supported := supported_version AuditEnvelope in
  if negb (declared =? supported)%Z
  then Err (UnsupportedVersion ENVELOPE (z_to_string declared) ("supported: " +:+ z_to_string supported))
  else
    let? _ := map_err (envelope_validate_error declared) (AuditEvent_validate e) in
    let? _ := rebuild "network" (NetworkId_new (network_str (network e))) in
    let? _ := validate_provenance (provenance e) in
    let? _ := if_some (observed_at e) (fun t =>
      if negative t then invalid_envelope "observed_at must be a non-negative Unix timestamp" else Ok tt) in
    let? _ := if_some (ledger_sequence (order e)) (fun seq =>
      if (seq <? 1)%Z then invalid_envelope "order.ledger_sequence must be >= 1" else Ok tt) in
    let? _ := if_some (ledger e) validate_ledger in
    let? _ := if_some (transaction e) (fun t => map_ok (fun _ => tt) (validate_tx "transaction" t)) in
    let? _ := if_some (operation e) validate_operation in
    let? _ := if_some (token e) validate_token in
    let? _ := if_some (actor e) (validate_account "actor") in
    let? _ := if_some (subject e) (validate_account "subject") in
    let? _ := if_some (decision e) validate_decision in
    let? _ := if_some (enforcement e) validate_enforcement in
    let? _ := if_some (reason e) (fun r =>
      let? _ := rebuild "reason" (ReasonCode_new (reason_str r)) in
      Ok tt) in
    if forallb detail_ok (details e) then Ok tt
    else invalid_envelope
           "details: keys must be 1-64 printable ASCII chars, values at most 1024 chars".

Definition validate (parsed : ParsedEvent) : NormalizerResult unit :=
  match parsed with
  | HooksState raw => validate_hooks_state raw
  | Envelope raw => validate_envelope (env_event raw)
  end.

(** ** Classification ([metadata.rs], [classifier.rs]) *)

Record HooksPlacement := mkHooksPlacement {
  hp_observed_at : Timestamp;
  hp_order : EventOrder;
  hp_ledger : LedgerReference;
  hp_transaction : TransactionReference;
  hp_operation : option OperationReference
}.

Definition classify_error (detail : string) : NormalizerError := ClassificationFailed HOOKS detail.
Definition placement_error (field : string) (e : AuditError) : NormalizerError :=
  classify_error (field +:+ ": " +:+ AuditError_to_string e).

Definition hooks_placement (raw : RawHooksEvent) (network_ : NetworkId) : NormalizerResult HooksPlacement :=
  let observed_at := mkTimestamp (rh_close_time raw) in
  let? h := map_err (placement_error "transaction") (TransactionHash_new (rh_transaction_hash raw)) in
  let transaction := mkTransactionReference network_ h in
  let? ledger := map_err (placement_error "ledger")
                   (LedgerReference_new network_ (rh_ledger raw) (Some observed_at)) in
  let? operation := map_err (placement_error "operation")
                      (OperationReference_new transaction (rh_operation_index raw) None) in
  let order := mkEventOrder (Some (rh_ledger raw)) None (Some (rh_operation_index raw))
                 (Some (rh_event_index raw)) in
  Ok (mkHooksPlacement observed_at order ledger transaction (Some operation)).

Record NormalizeConfig := mkNormalizeConfig {
  nc_network : NetworkId;
  nc_source : string;
  nc_parser_version : VersionLabel
}.

(** [event.observed_at = ...; event.order = ...; ...; event.operation = ...]. *)
Definition place_hooks (p : HooksPlacement) (e : AuditEvent) : AuditEvent :=
  set_operation (hp_operation p)
    (place (Some (hp_transaction p)) (Some (hp_ledger p)) (Some (hp_observed_at p)) (hp_order p) e).

(** The authority of an initialization, or the token of every other hooks event. *)
Definition hooks_concern (raw : RawHooksEvent) (e : AuditEvent) : NormalizerResult AuditEvent :=
  if has_admin (rh_hooks_type raw) then
    let? admin := ok_or (rh_admin raw) (classify_error "recorded admin missing after validation") in
    Ok (detail "admin_account" admin e)
  else
    let? token_raw := ok_or (rh_token raw) (classify_error "token missing after validation") in
    let? token := map_err (fun e => classify_error ("token: " +:+ AuditError_to_string e))
                    (ContractId_new token_raw) in
    Ok (set_token (Some (TokenReference_for_contract (network e) token)) e).

(** The subject of a freeze, or the details of a configuration change. *)
Definition hooks_body (raw : RawHooksEvent) (e : AuditEvent) : NormalizerResult AuditEvent :=
  let t := rh_hooks_type raw in
  if has_account t then
    let? account := ok_or (rh_account raw) (classify_error "subject account missing after validation") in
    let? account := map_err (fun e => classify_error ("subject account: " +:+ AuditError_to_string e))
                      (AccountId_new account) in
    Ok (set_subject (Some (mkAccountReference (network e) account)) e)
  else if has_policy_config t then
    let e := detail_opt "sac_passthrough" (option_map bool_to_string (rh_sac_passthrough raw)) e in
    match rh_policy raw with
    | Some policy =>
        let? policy := map_err (fun e => classify_error ("policy: " +:+ AuditError_to_string e))
                         (ContractId_new policy) in
        Ok (detail "policy_contract" (contract_str policy) e)
    | None => Ok e
    end
  else Ok e.

Record NormalizedEvent := mkNormalizedEvent {
  ne_event : AuditEvent;
  ne_scheme : Scheme;
  ne_position : string
}.

Section Normalizer.
Context `{JsonDecoder} `{Sha256, JsonStrings}.

Definition classify_hooks (config : NormalizeConfig) (raw : RawHooksEvent) : NormalizerResult AuditEvent :=
  let kind := to_event_kind (rh_hooks_type raw) in
  let network_ := nc_network config in
  let? event_id :=
    map_err (fun e => classify_error ("cannot derive event id: " +:+ EventError_to_string e))
      (onchain_event_id (network_str network_) (Some (rh_transaction_hash raw))
         (Some (rh_operation_index raw)) (Some (rh_event_index raw)) kind) in
  let? provenance :=
    map_err (fun e => classify_error ("provenance: " +:+ AuditError_to_string e))
      (EventProvenance_new OnChain (nc_source config) (nc_parser_version config)) in
  let? placement := hooks_placement raw network_ in
  let event := place_hooks placement (AuditEvent_new event_id kind network_ provenance) in
  let? event := hooks_concern raw event in
  let? event := hooks_body raw event in
  let? _ := map_err (fun e => classify_error ("classified event failed validation: "
                                                +:+ AuditError_to_string e))
              (AuditEvent_validate event) in
  Ok event.

Definition classify (config : NormalizeConfig) (parsed : ParsedEvent) : NormalizerResult AuditEvent :=
  match parsed with
  | HooksState raw => classify_hooks config raw
  | Envelope raw => Ok (env_event raw)
  end.

(** ** The pipeline ([normalizer.rs]) *)

Definition normalize (config : NormalizeConfig) (item : RawEventItem) : NormalizerResult NormalizedEvent :=
  let? scheme := map_err (fun _ => UnsupportedScheme (raw_scheme item))
                   (Scheme_from_str (raw_scheme item)) in
  let? parsed := parse scheme (raw_payload item) in
  let? _ := validate parsed in
  let? event := classify config parsed in
  if negb (bool_decide (network event = nc_network config))
  then Err (NormValidationFailed (as_label scheme)
              ("payload is on network `" +:+ network_str (network event)
                 +:+ "` but the normalizer is pinned to `" +:+ network_str (nc_network config) +:+ "`"))
  else Ok (mkNormalizedEvent event scheme (raw_position item)).
End Normalizer.
