(* ===== verification/NormalizerProofs.v ===== *)
(** * Properties of the normalizer

    The validator accepts exactly the well-formed hooks payloads; a validated
    payload is always classified, into an event carrying exactly its fields; the
    pipeline only produces valid events of the configured network; what the
    envelope checks guarantee, and what they let through. *)

From S2P Require Import Prelude Text BTree Errors Identifiers Timestamps Classification.
From S2P Require Import Correlation Events AuditEvents Sources Samples Normalizer.
Open Scope list_scope.

(** ** Hooks payloads *)

(** What the reference constructors accept. *)
Definition ref_shape (s : string) : Prop :=
  s <> "" /\ (str_len s <= REF_MAX_LEN)%Z /\ str_all is_ascii_graphic s = true.

Definition opt_all {A} (P : A -> Prop) (o : option A) : Prop := forall x, o = Some x -> P x.

(** The fields a hooks event of each type carries: exactly these. *)
Definition hooks_shape (raw : RawHooksEvent) : Prop :=
  let has (token admin account policy sac : bool) :=
    is_some (rh_token raw) = token /\ is_some (rh_admin raw) = admin
    /\ is_some (rh_account raw) = account /\ is_some (rh_policy raw) = policy
    /\ is_some (rh_sac_passthrough raw) = sac in
  match rh_hooks_type raw with
  | HInitialized => has false true false false false
  | HAccountFrozen | HAccountUnfrozen => has true false true false false
  | HComplianceConfigChanged => has true false false true true
  | HTokenBound | HTokenUnbound => has true false false false false
  end.

Record hooks_valid (raw : RawHooksEvent) : Prop := {
  hv_shape : hooks_shape raw;
  hv_token : opt_all ref_shape (rh_token raw);
  hv_admin : opt_all ref_shape (rh_admin raw);
  hv_account : opt_all ref_shape (rh_account raw);
  hv_policy : opt_all ref_shape (rh_policy raw);
  hv_hash : is_sha256_hex (rh_transaction_hash raw) = true;
  hv_ledger : (1 <= rh_ledger raw)%Z;
  hv_close_time : (0 <= rh_close_time raw)%Z
}.

Lemma validate_ref_Ok_iff kind s : validate_ref kind s = Ok tt <-> ref_shape s.
Proof.
  unfold validate_ref, ref_shape, str_is_empty.
  destruct (String.eqb_spec s ""), (Z.leb_spec (str_len s) REF_MAX_LEN), (str_all is_ascii_graphic s);
    simpl; (split; [intros Hx; try discriminate Hx; repeat split; (done || lia)
                   | intros (? & ? & ?); (done || lia)]).
Qed.

Lemma ContractId_new_Ok_iff s c : ContractId_new s = Ok c <-> c = mkContractId s /\ ref_shape s.
Proof.
  unfold ContractId_new. rewrite <- (validate_ref_Ok_iff "contract id"). split.
  - intros Hc. ok_inv. by destruct v.
  - by intros [-> ->].
Qed.

Lemma AccountId_new_Ok_iff s a : AccountId_new s = Ok a <-> a = mkAccountId s /\ ref_shape s.
Proof.
  unfold AccountId_new. rewrite <- (validate_ref_Ok_iff "account id"). split.
  - intros Hc. ok_inv. by destruct v.
  - by intros [-> ->].
Qed.

Lemma check_opt_Ok_iff {T} (new : string -> AuditResult T) (mk : string -> T) o field :
  (forall s x, new s = Ok x <-> x = mk s /\ ref_shape s) ->
  check_opt new o field = Ok tt <-> opt_all ref_shape o.
Proof.
  intros Hnew. unfold check_opt, check_hooks_value, opt_all. destruct o as [s|]; [|done]. split.
  - intros Hc x [= <-]. destruct (new s) as [t|] eqn:E; simpl in Hc; [|done]. by apply Hnew in E as [_ ?].
  - intros Hs. by rewrite (proj2 (Hnew s (mk s)) (conj eq_refl (Hs s eq_refl))).
Qed.

Lemma check_contract_iff o field : check_opt ContractId_new o field = Ok tt <-> opt_all ref_shape o.
Proof. apply (check_opt_Ok_iff _ mkContractId), ContractId_new_Ok_iff. Qed.
Lemma check_account_iff o field : check_opt AccountId_new o field = Ok tt <-> opt_all ref_shape o.
Proof. apply (check_opt_Ok_iff _ mkAccountId), AccountId_new_Ok_iff. Qed.

Lemma lower_hexdigit c : is_ascii_hexdigit c && negb (is_ascii_uppercase c) = is_lower_hex c.
Proof.
  apply Bool.eqb_prop. revert c.
  apply (forall_bytes (fun c => Bool.eqb (is_ascii_hexdigit c && negb (is_ascii_uppercase c)) (is_lower_hex c))).
  by vm_compute.
Qed.

Lemma str_all_ext p q s : (forall c, p c = q c) -> str_all p s = str_all q s.
Proof. intros Hpq. induction s; simpl; [done|]. by rewrite Hpq, IHs. Qed.

Lemma check_tx_hash_Ok_iff h : check_tx_hash h = Ok tt <-> is_sha256_hex h = true.
Proof.
  unfold check_tx_hash, is_sha256_hex, invalid_hooks. rewrite (str_all_ext _ is_lower_hex) by apply lower_hexdigit.
  by destruct (_ && _).
Qed.

Lemma hooks_presence_Ok_iff raw : hooks_presence raw = Ok tt <-> hooks_shape raw.
Proof.
  unfold hooks_presence, hooks_shape, invalid_hooks, is_some.
  destruct (rh_hooks_type raw), (rh_token raw), (rh_admin raw), (rh_account raw), (rh_policy raw),
    (rh_sac_passthrough raw); simpl; naive_solver.
Qed.

(** The validator accepts exactly the well-formed payloads. *)
Lemma hooks_validation_iff raw : validate_hooks_state raw = Ok tt <-> hooks_valid raw.
Proof.
  unfold validate_hooks_state. split.
  - intros Hv. ok_inv. destruct v, v0, v1, v2, v3, v4.
    apply hooks_presence_Ok_iff in Hok. apply check_contract_iff in Hok0, Hok3.
    apply check_account_iff in Hok1, Hok2. apply check_tx_hash_Ok_iff in Hok4.
    unfold invalid_hooks in Hv. ok_inv. apply Z.ltb_ge in Hb, Hb0. by constructor.
  - intros [Hs Ht Ha Hc Hp Hh Hl Hct].
    rewrite (proj2 (hooks_presence_Ok_iff raw) Hs). cbn [rbind].
    rewrite (proj2 (check_contract_iff _ "token") Ht). cbn [rbind].
    rewrite (proj2 (check_account_iff _ "admin") Ha). cbn [rbind].
    rewrite (proj2 (check_account_iff _ "account") Hc). cbn [rbind].
    rewrite (proj2 (check_contract_iff _ "policy") Hp). cbn [rbind].
    rewrite (proj2 (check_tx_hash_Ok_iff _) Hh). cbn [rbind].
    by rewrite (proj2 (Z.ltb_ge _ _) Hl), (proj2 (Z.ltb_ge _ _) Hct).
Qed.


(** ** Envelopes *)

(** The constructors of the single-field identifiers return their argument. *)
Lemma NetworkId_new_eq n n' : NetworkId_new (network_str n) = Ok n' -> n' = n.
Proof. unfold NetworkId_new. destruct n. intros Hn. by ok_inv. Qed.
Lemma VersionLabel_new_eq v v' : VersionLabel_new (version_str v) = Ok v' -> v' = v.
Proof. unfold VersionLabel_new. destruct v. intros Hv. by ok_inv. Qed.
Lemma ReasonCode_new_eq r r' : ReasonCode_new (reason_str r) = Ok r' -> r' = r.
Proof. unfold ReasonCode_new. destruct r. intros Hr. by ok_inv. Qed.
Lemma AccountId_new_eq a a' : AccountId_new (account_str a) = Ok a' -> a' = a.
Proof. destruct a. by intros [-> _]%AccountId_new_Ok_iff. Qed.
Lemma ContractId_new_eq c c' : ContractId_new (contract_str c) = Ok c' -> c' = c.
Proof. destruct c. by intros [-> _]%ContractId_new_Ok_iff. Qed.
Lemma TransactionHash_new_eq h h' : TransactionHash_new (txhash_str h) = Ok h' -> h' = h.
Proof. unfold TransactionHash_new. destruct h. intros Hh. by ok_inv. Qed.

(** A reference that its public constructor builds. *)
Definition network_built (n : NetworkId) : Prop := NetworkId_new (network_str n) = Ok n.
Definition version_built (v : VersionLabel) : Prop := VersionLabel_new (version_str v) = Ok v.
Definition reason_built (r : ReasonCode) : Prop := ReasonCode_new (reason_str r) = Ok r.
Definition account_built (a : AccountReference) : Prop :=
  network_built (acct_network a) /\ AccountId_new (account_str (acct_account a)) = Ok (acct_account a).
Definition tx_built (t : TransactionReference) : Prop :=
  network_built (tx_network t) /\ TransactionHash_new (txhash_str (tx_hash t)) = Ok (tx_hash t).
Definition operation_built (op : OperationReference) : Prop :=
  tx_built (op_transaction op)
  /\ OperationReference_new (op_transaction op) (op_index op) (op_type op) = Ok op.
Definition instant_ok (t : Timestamp) : Prop := (0 <= unix_seconds t)%Z.
Definition ledger_built (l : LedgerReference) : Prop :=
  network_built (ledger_network l)
  /\ LedgerReference_new (ledger_network l) (ledger_sequence_of l) (ledger_close_time l) = Ok l
  /\ opt_all instant_ok (ledger_close_time l).
Definition token_built (t : TokenReference) : Prop :=
  network_built (token_network t)
  /\ match token_contract t with
     | Some c => ContractId_new (contract_str c) = Ok c
     | None => exists code issuer, AccountId_new (account_str issuer) = Ok issuer
                 /\ TokenReference_for_classic_asset (token_network t) code issuer = Ok t
     end.
Definition decision_built (d : PolicyDecisionReference) : Prop :=
  let p := pdr_policy d in
  ContractId_new (contract_str (policy_contract p)) = Ok (policy_contract p)
  /\ version_built (policy_version p)
  /\ opt_all (fun g => is_sha256_hex g = true) (policy_digest p)
  /\ opt_all reason_built (pdr_reason d) /\ opt_all instant_ok (pdr_decided_at d).
Definition enforcement_built (e : EnforcementResultReference) : Prop :=
  version_built (enf_hook_version e)
  /\ is_ok (EnforcementResultReference_new (enf_hook e) (enf_hook_version e) (enf_result e)) = true
  /\ opt_all reason_built (enf_reason e).

Record envelope_sound (e : AuditEvent) : Prop := {
  es_valid : event_valid e;
  es_network : network_built (network e);
  es_parser : version_built (prov_parser_version (provenance e));
  es_derivation : opt_all (fun d => DerivationInfo_new (drv_method d) (drv_source_events d) (drv_note d) = Ok d)
                    (prov_derivation (provenance e));
  es_observed : opt_all instant_ok (observed_at e);
  es_sequence : opt_all (fun s => 1 <= s)%Z (ledger_sequence (order e));
  es_ledger : opt_all ledger_built (ledger e);
  es_transaction : opt_all tx_built (transaction e);
  es_operation : opt_all operation_built (operation e);
  es_token : opt_all token_built (token e);
  es_actor : opt_all account_built (actor e);
  es_subject : opt_all account_built (subject e);
  es_decision : opt_all decision_built (decision e);
  es_enforcement : opt_all enforcement_built (enforcement e);
  es_reason : opt_all reason_built (reason e);
  es_details : Forall (fun kv => detail_ok kv = true) (details e)
}.

Lemma if_some_Ok {A} (o : option A) f (P : A -> Prop) :
  if_some o f = Ok tt -> (forall x, f x = Ok tt -> P x) -> opt_all P o.
Proof. intros Ho Hf x ->. by apply Hf. Qed.

Lemma negative_false t : negative t = false -> instant_ok t.
Proof. apply Z.ltb_ge. Qed.

#[local] Ltac built :=
  repeat match goal with
  | H : rebuild _ _ = Ok _ |- _ => unfold rebuild in H; apply map_err_Ok_inv in H
  | H : NetworkId_new (network_str _) = Ok _ |- _ => pose proof (NetworkId_new_eq _ _ H); subst; revert H
  | H : VersionLabel_new (version_str _) = Ok _ |- _ => pose proof (VersionLabel_new_eq _ _ H); subst; revert H
  | H : ReasonCode_new (reason_str _) = Ok _ |- _ => pose proof (ReasonCode_new_eq _ _ H); subst; revert H
  | H : AccountId_new (account_str _) = Ok _ |- _ => pose proof (AccountId_new_eq _ _ H); subst; revert H
  | H : ContractId_new (contract_str _) = Ok _ |- _ => pose proof (ContractId_new_eq _ _ H); subst; revert H
  | H : TransactionHash_new (txhash_str _) = Ok _ |- _ => pose proof (TransactionHash_new_eq _ _ H); subst; revert H
  end; intros.

Lemma validate_provenance_Ok p :
  validate_provenance p = Ok tt ->
  version_built (prov_parser_version p)
  /\ opt_all (fun d => DerivationInfo_new (drv_method d) (drv_source_events d) (drv_note d) = Ok d)
       (prov_derivation p).
Proof.
  unfold validate_provenance. intros Hp. ok_inv. built. split; [done|].
  apply (if_some_Ok _ _ _ Hp). intros d Hd. ok_inv. built.
  destruct d. unfold DerivationInfo_new in *. simpl in *. by ok_inv.
Qed.

Lemma validate_account_Ok field a : validate_account field a = Ok tt -> account_built a.
Proof. unfold validate_account. intros Ha. ok_inv. built. done. Qed.

Lemma validate_tx_Ok field t t' : validate_tx field t = Ok t' -> t' = t /\ tx_built t.
Proof. unfold validate_tx, tx_built, network_built. intros Ht. ok_inv. built. by destruct t. Qed.

Lemma validate_ledger_Ok l : validate_ledger l = Ok tt -> ledger_built l.
Proof.
  unfold validate_ledger, ledger_built, network_built. intros Hl. ok_inv. built. split; [done|].
  split.
  - destruct l. unfold LedgerReference_new in *. simpl in *. by ok_inv.
  - intros t Et. rewrite Et in Hl. unfold invalid_envelope in Hl. ok_inv. by apply negative_false.
Qed.

Lemma validate_operation_Ok op : validate_operation op = Ok tt -> operation_built op.
Proof.
  unfold validate_operation, operation_built. intros Ho. ok_inv. apply validate_tx_Ok in Hok as [-> Ht].
  built. split; [done|]. destruct op as [tx i ty]. unfold OperationReference_new in *. simpl in *.
  destruct ty; by ok_inv.
Qed.

Lemma validate_token_Ok t : validate_token t = Ok tt -> token_built t.
Proof.
  unfold validate_token, token_built, network_built. intros Ht. ok_inv. built. split; [done|].
  destruct t as [n [c|] code issuer]; simpl in *; ok_inv; built; [done|].
  destruct code as [code|], issuer as [issuer|]; try discriminate.
  ok_inv. built. exists code, issuer. split; [done|].
  unfold TokenReference_for_classic_asset in *. by ok_inv.
Qed.

Lemma validate_decision_Ok d : validate_decision d = Ok tt -> decision_built d.
Proof.
  unfold validate_decision, decision_built. intros Hd. ok_inv. built. destruct v1, v2.
  split; [done|]. split; [done|]. split; [|split].
  - apply (if_some_Ok _ _ _ Hok1). intros g Hg. ok_inv. built.
    unfold PolicyReference_with_digest in *. ok_inv. by apply negb_false_iff.
  - apply (if_some_Ok _ _ _ Hok2). intros r Hr. ok_inv. built. done.
  - apply (if_some_Ok _ _ _ Hd). intros t Ht. unfold invalid_envelope in Ht. ok_inv. by apply negative_false.
Qed.

Lemma validate_enforcement_Ok e : validate_enforcement e = Ok tt -> enforcement_built e.
Proof.
  unfold validate_enforcement, enforcement_built. intros He. ok_inv. built.
  split; [done|]. split.
  - match goal with H : EnforcementResultReference_new _ _ _ = Ok _ |- _ => by rewrite H end.
  - apply (if_some_Ok _ _ _ He). intros r Hr. ok_inv. built. done.
Qed.

Lemma validate_envelope_sound e : validate_envelope e = Ok tt -> envelope_sound e.
Proof.
  unfold validate_envelope. intros He. ok_inv. built.
  repeat match goal with v : unit |- _ => destruct v end.
  match goal with H : AuditEvent_validate e = Ok tt |- _ => apply AuditEvent_validate_Ok_iff in H end.
  match goal with H : validate_provenance _ = Ok tt |- _ => apply validate_provenance_Ok in H as [? ?] end.
  constructor; try done.
  all: try match goal with
    | H : if_some ?o ?f = Ok tt |- opt_all _ ?o =>
        apply (if_some_Ok _ _ _ H); intros x Hx; first
          [ by apply validate_ledger_Ok | by apply validate_operation_Ok | by apply validate_token_Ok
          | by eapply validate_account_Ok | by apply validate_decision_Ok | by apply validate_enforcement_Ok
          | by ok_inv; built
          | by unfold invalid_envelope in Hx; ok_inv; apply negative_false
          | by unfold invalid_envelope in Hx; ok_inv; apply Z.ltb_ge
          | destruct (validate_tx "transaction" x) eqn:Et; [by apply validate_tx_Ok in Et as [_ ?] | discriminate Hx] ]
    end.
  unfold invalid_envelope in He. ok_inv. by apply forallb_Forall_true.
Qed.

Section Claims.
Context `{JsonDecoder} `{Sha256, JsonStrings}.

(** The event of a well-formed payload, field by field. *)
Definition hooks_event (config : NormalizeConfig) (raw : RawHooksEvent) : AuditEvent :=
  let here := nc_network config in
  let at_ := mkTimestamp (rh_close_time raw) in
  let tx := mkTransactionReference here (mkTransactionHash (rh_transaction_hash raw)) in
  let kind := to_event_kind (rh_hooks_type raw) in
  mkAuditEvent
    (derive [network_str here; rh_transaction_hash raw; "op:" +:+ z_to_string (rh_operation_index raw);
             "ev:" +:+ z_to_string (rh_event_index raw); EventKind_as_str kind])
    kind EVENT_SCHEMA_VERSION here
    (mkEventProvenance OnChain (nc_source config) (nc_parser_version config) None)
    (Some at_)
    (mkEventOrder (Some (rh_ledger raw)) None (Some (rh_operation_index raw)) (Some (rh_event_index raw)))
    (Some (mkLedgerReference here (rh_ledger raw) (Some at_)))
    (Some tx)
    (Some (mkOperationReference tx (rh_operation_index raw) None))
    (option_map (fun s => TokenReference_for_contract here (mkContractId s)) (rh_token raw))
    None
    (option_map (fun s => mkAccountReference here (mkAccountId s)) (rh_account raw))
    None None None None
    (match rh_admin raw with Some a => [("admin_account", a)] | None => [] end
     ++ match rh_policy raw with Some p => [("policy_contract", p)] | None => [] end
     ++ match rh_sac_passthrough raw with
        | Some b => [("sac_passthrough", bool_to_string b)]
        | None => []
        end).

Lemma hash_shape h : is_sha256_hex h = true -> ref_shape h.
Proof.
  unfold is_sha256_hex. intros [Hl%Nat.eqb_eq Ha]%andb_true_iff. repeat split.
  - by intros ->.
  - unfold str_len, REF_MAX_LEN. rewrite Hl. lia.
  - revert Ha. apply str_all_impl, bytes_impl. by vm_compute.
Qed.

Lemma hooks_placement_valid raw here :
  hooks_valid raw ->
  let at_ := mkTimestamp (rh_close_time raw) in
  let tx := mkTransactionReference here (mkTransactionHash (rh_transaction_hash raw)) in
  hooks_placement raw here =
    Ok (mkHooksPlacement at_
          (mkEventOrder (Some (rh_ledger raw)) None (Some (rh_operation_index raw))
             (Some (rh_event_index raw)))
          (mkLedgerReference here (rh_ledger raw) (Some at_)) tx
          (Some (mkOperationReference tx (rh_operation_index raw) None))).
Proof.
  intros Hv. cbv zeta. unfold hooks_placement, TransactionHash_new, LedgerReference_new.
  rewrite (proj2 (validate_ref_Ok_iff "transaction hash" _) (hash_shape _ (hv_hash raw Hv))).
  cbn [rbind map_err].
  rewrite (proj2 (Z.ltb_ge (rh_ledger raw) 1) (hv_ledger raw Hv)). reflexivity.
Qed.

Lemma hooks_event_valid config raw : event_valid (hooks_event config raw).
Proof.
  constructor; simpl; try done.
  - by intros l [= <-].
  - by intros t [= <-].
  - destruct (rh_token raw); simpl; [by intros t [= <-] | done].
  - destruct (rh_account raw); simpl; [by intros t [= <-] | done].
  - by intros op [= <-].
Qed.

Lemma validated_as (f : AuditError -> NormalizerError) e e' :
  e = e' -> AuditEvent_validate e' = Ok tt ->
  (let? _ := map_err f (AuditEvent_validate e) in Ok e) = Ok e'.
Proof. by intros -> ->. Qed.

Lemma hooks_classified config raw prov :
  validate_hooks_state raw = Ok tt ->
  EventProvenance_new OnChain (nc_source config) (nc_parser_version config) = Ok prov ->
  classify_hooks config raw = Ok (hooks_event config raw).
Proof.
  intros Hv Hp. apply hooks_validation_iff in Hv. unfold classify_hooks. cbn [onchain_event_id map_err rbind].
  rewrite Hp. cbn [map_err rbind]. unfold EventProvenance_new in Hp. ok_inv.
  rewrite (hooks_placement_valid raw (nc_network config) Hv). cbn [rbind].
  pose proof (hooks_event_valid config raw) as Hev. apply AuditEvent_validate_Ok_iff in Hev.
  destruct Hv as [Hs Ht _ Hc Hpo _ _ _]. unfold hooks_shape in Hs. unfold hooks_concern, hooks_body.
  destruct raw as [ty to ad ac po sa le ct th oi ei].
  destruct ty, to, ad, ac, po, sa; simpl in Hs; destruct Hs as (? & ? & ? & ? & ?); try done;
    cbn [rh_hooks_type rh_token rh_admin rh_account rh_policy rh_sac_passthrough has_admin has_account
         has_policy_config ok_or rbind option_map detail_opt] in *;
    rewrite ?(proj2 (ContractId_new_Ok_iff _ _) (conj eq_refl (Ht _ eq_refl))),
      ?(proj2 (ContractId_new_Ok_iff _ _) (conj eq_refl (Hpo _ eq_refl))),
      ?(proj2 (AccountId_new_Ok_iff _ _) (conj eq_refl (Hc _ eq_refl)));
    cbn [map_err rbind]; apply validated_as; (reflexivity || exact Hev).
Qed.

(** C33 Well-formed hooks payloads always become events: a payload with the
    fields its type calls for and no others, identifiers of the accepted
    shape, a 64-digit lowercase hash, a ledger from 1 and a close time from 0
    passes the validator, and (the configured source label being a legal
    provenance label) none of the classifier's defensive errors is reachable:
    the event carries exactly the payload's fields, none dropped and none
    invented, identified by network, transaction, operation and event index,
    and kind. *)
Theorem hooks_classification_total config raw prov :
  hooks_valid raw ->
  EventProvenance_new OnChain (nc_source config) (nc_parser_version config) = Ok prov ->
  validate_hooks_state raw = Ok tt /\ classify_hooks config raw = Ok (hooks_event config raw).
Proof.
  intros Hv%hooks_validation_iff Hp. split; [done|]. by apply (hooks_classified config raw prov).
Qed.

Lemma Scheme_from_str_Ok label s : Scheme_from_str label = Ok s -> as_label s = label.
Proof.
  unfold Scheme_from_str. destruct (String.eqb_spec label HOOKS) as [->|_]; [by intros [= <-]|].
  destruct (String.eqb_spec label ENVELOPE) as [->|_]; [by intros [= <-] | done].
Qed.

Lemma reject_unknown_Ok keys allowed scheme :
  reject_unknown_fields keys allowed scheme = Ok tt -> Forall (fun k => k ∈ allowed) keys.
Proof.
  induction keys as [|k keys IH]; simpl; [constructor|]. unfold malformed. intros Hk. ok_inv.
  constructor; [|by apply IH]. by apply negb_false_iff, bool_decide_eq_true in Hb.
Qed.

Lemma as_object_Ok payload scheme obj :
  as_object payload scheme = Ok obj -> json_from_str payload = Ok (VObject obj).
Proof. unfold as_object, malformed. intros Ho. ok_inv. by destruct v; ok_inv. Qed.

(** The decoded object, and that every field of it is a known one. *)
Definition strict_object (payload : string) (allowed : list string) : Prop :=
  exists obj, json_from_str payload = Ok (VObject obj) /\ Forall (fun k => k ∈ allowed) (bt_keys obj).

(** C29 What normalization promises: an accepted item yields an event that
    satisfies the envelope invariants, on the configured network, stamped with
    the item's scheme and position.  Its payload was a JSON object with known
    fields only.  For a hooks payload the event is the one its decoded,
    well-formed fields determine.  For an envelope it is the decoded event itself,
    of which [envelope_sound] holds: the network, the parser version, the
    derivation, the ledger, the transaction, the operation, the accounts and the
    reason are ones their public constructors build; so is the contract of a
    token, or, when it names none, its classic asset; a policy decision has a
    contract, version, digest and reason in form, an enforcement result a hook,
    version and reason in form; times are not negative, ledger sequences start at 1,
    and details are within bounds.  Nothing is promised of the provenance source
    label, nor of the classic half of a token that also names a contract: the
    validator never rebuilds these ([envelope_gaps]). *)
Theorem normalize_sound config item n :
  normalize config item = Ok n ->
  as_label (ne_scheme n) = raw_scheme item /\ ne_position n = raw_position item
  /\ event_valid (ne_event n) /\ network (ne_event n) = nc_network config
  /\ match ne_scheme n with
     | HooksStateEvent =>
         strict_object (raw_payload item) HOOKS_FIELDS
         /\ exists raw, parse_hooks_state (raw_payload item) = Ok raw /\ hooks_valid raw
               /\ ne_event n = hooks_event config raw
     | AuditEnvelope =>
         strict_object (raw_payload item) ENVELOPE_FIELDS
         /\ exists value, json_from_str (raw_payload item) = Ok value
               /\ event_from_value value = Ok (ne_event n) /\ envelope_sound (ne_event n)
     end.
Proof.
  unfold normalize. intros Hn. ok_inv. simpl. apply negb_false_iff, bool_decide_eq_true in Hb.
  assert (as_label v = raw_scheme item) as El by by apply Scheme_from_str_Ok.
  split; [done|]. split; [done|]. destruct v1.
  destruct v; simpl in Hok0; simpl.
  - destruct (parse_hooks_state (raw_payload item)) as [raw|] eqn:Ep; simpl in Hok0; [|done].
    injection Hok0 as <-. simpl in Hok1, Hok2.
    assert (v2 = hooks_event config raw) as ->.
    { pose proof Hok2 as Hc. unfold classify_hooks in Hc.
      destruct (EventProvenance_new OnChain (nc_source config) (nc_parser_version config)) as [prov|] eqn:Epr;
        [|done].
      rewrite (hooks_classified config raw prov Hok1 Epr) in Hok2. by injection Hok2 as <-. }
    split; [apply hooks_event_valid|]. split; [done|]. split.
    + unfold parse_hooks_state in Ep. ok_inv. destruct v0. exists v.
      split; [by eapply as_object_Ok | by eapply reject_unknown_Ok].
    + exists raw. split; [done|]. split; [|done]. by apply hooks_validation_iff.
  - destruct (parse_envelope (raw_payload item)) as [env|] eqn:Ep; simpl in Hok0; [|done].
    injection Hok0 as <-. simpl in Hok1, Hok2. ok_inv.
    apply validate_envelope_sound in Hok1. split; [by apply es_valid|]. split; [done|].
    unfold parse_envelope in Ep. ok_inv. destruct v0. split.
    + exists v. split; [by eapply as_object_Ok | by eapply reject_unknown_Ok].
    + exists v1. by split.
Qed.
End Claims.

(** ** Concrete inputs *)

Section Witnesses.
#[local] Existing Instance toy_sha.
#[local] Existing Instance toy_strings.

Definition hash1 : string := String.concat "" (repeat "ab" 32).

Definition freeze_object : Object :=
  [("account", VString "GABC"); ("close_time", VNumber (NInt 1700000000)); ("event_index", VNumber (NInt 0));
   ("ledger", VNumber (NInt 42)); ("operation_index", VNumber (NInt 1)); ("token", VString "CTOK");
   ("transaction_hash", VString hash1); ("type", VString "account_frozen")].

Definition config1 : NormalizeConfig := mkNormalizeConfig testnet "rpc" v1.
Definition freeze_raw : RawHooksEvent :=
  mkRawHooksEvent HAccountFrozen (Some "CTOK") None (Some "GABC") None None 42 1700000000 hash1 1 0.
Definition freeze_item : RawEventItem := mkRawEventItem HOOKS "freeze" "42:1:0".

(** An envelope of a denied transfer, with an actor and a reason. *)
Definition denied_envelope : AuditEvent :=
  set_actor (Some (mkAccountReference testnet (mkAccountId "GBOB")))
    (set_outcome None (Some Denied) (Some (mkReasonCode "SANCTIONED"))
       (mkAuditEvent (mkId (mkStableId "evt" "evt_1")) TransferDenied EVENT_SCHEMA_VERSION testnet
          (mkEventProvenance OnChain "rpc" v1 None) (Some (mkTimestamp 1700000000))
          (order (hooks_event config1 freeze_raw)) (ledger (hooks_event config1 freeze_raw))
          (transaction (hooks_event config1 freeze_raw)) (operation (hooks_event config1 freeze_raw))
          (token (hooks_event config1 freeze_raw)) None (subject (hooks_event config1 freeze_raw))
          None None None None [])).
Definition envelope_object : Object :=
  [("event_id", VString "evt_1"); ("kind", VString "transfer-denied"); ("network", VString "testnet")].
Definition envelope_item : RawEventItem := mkRawEventItem ENVELOPE "envelope" "42:1:1".

(** A decoder that knows two documents. *)
Definition toy_decoder : JsonDecoder := {|
  json_from_str := fun s =>
    if String.eqb s "freeze" then Ok (VObject freeze_object)
    else if String.eqb s "envelope" then Ok (VObject envelope_object) else Err "syntax";
  event_from_value := fun v =>
    match v with
    | VObject obj => if bt_contains "event_id" obj then Ok denied_envelope else Err "missing field event_id"
    | _ => Err "not an envelope"
    end
|}.
#[local] Existing Instance toy_decoder.

Lemma hooks_classification_total_witness :
  validate_hooks_state freeze_raw = Ok tt
  /\ classify_hooks config1 freeze_raw = Ok (hooks_event config1 freeze_raw).
Proof.
  apply (hooks_classification_total config1 freeze_raw (mkEventProvenance OnChain "rpc" v1 None));
    [apply hooks_validation_iff | idtac]; by vm_compute.
Defined.

(** One item of each scheme. *)
Lemma normalize_sound_witness :
  normalize config1 freeze_item = Ok (mkNormalizedEvent (hooks_event config1 freeze_raw) HooksStateEvent "42:1:0")
  /\ network (hooks_event config1 freeze_raw) = testnet
  /\ normalize config1 envelope_item = Ok (mkNormalizedEvent denied_envelope AuditEnvelope "42:1:1")
  /\ strict_object "envelope" ENVELOPE_FIELDS /\ envelope_sound denied_envelope.
Proof.
  assert (normalize config1 freeze_item
          = Ok (mkNormalizedEvent (hooks_event config1 freeze_raw) HooksStateEvent "42:1:0")) as Hn
    by by vm_compute.
  assert (normalize config1 envelope_item = Ok (mkNormalizedEvent denied_envelope AuditEnvelope "42:1:1")) as He
    by by vm_compute.
  split; [exact Hn|]. split; [apply (normalize_sound config1 freeze_item _ Hn)|]. split; [exact He|].
  destruct (normalize_sound config1 envelope_item _ He) as (_ & _ & _ & _ & Hs & value & _ & _ & Hsound).
  split; [exact Hs | exact Hsound].
Defined.

(** An envelope whose provenance label is empty and whose contract token also
    names a classic asset with a malformed code. *)
Definition loose_envelope : AuditEvent :=
  set_token (Some (mkTokenReference testnet (Some (mkContractId "CTOK")) (Some "not a code!") None))
    (AuditEvent_new (mkId (mkStableId "evt" "evt_1")) TransferAuthorized testnet
       (mkEventProvenance OnChain "" v1 None)).

(** Not every reference of an accepted envelope is one a public constructor
    builds: the provenance source label is never rebuilt, nor is the classic
    half of a token that also names a contract.  An envelope with a source
    label and an asset code the constructors refuse is accepted. *)
Theorem envelope_gaps :
  validate_envelope loose_envelope = Ok tt
  /\ is_ok (EventProvenance_new OnChain (prov_source (provenance loose_envelope)) v1) = false
  /\ opt_all (fun t => opt_all (fun code =>
       forall issuer, is_ok (TokenReference_for_classic_asset (token_network t) code issuer) = false)
       (token_asset_code t)) (token loose_envelope).
Proof.
  split; [by vm_compute|]. split; [by vm_compute|].
  intros t [= <-] code [= <-] issuer. reflexivity.
Qed.
End Witnesses.
