(* ===== verification/Trail.v ===== *)
(** * Recording a trail event into a store

    What [investigation/src/events.rs], [evidence/src/events.rs] and
    [reporting/src/events.rs] share: wrap a projected event as a confidential
    record with its declared field policy and insert it; an idempotent duplicate
    counts as success. *)

From S2P Require Import Prelude Text BTree Errors Identifiers Timestamps Classification.
From S2P Require Import Correlation Events IntegrityModel Records Pagination Storage.
From S2P Require Import AccessModel Cases ReportModel AuditEvents Authorization.
Open Scope list_scope.

Section Trail.
Context {S : Type} `{EventStore S} `{Sha256} `{JsonStrings} `{Serialize AuditEvent}.

(** [Inserted] and [Duplicate] are both success; the error is its message. *)
Definition insert_quietly (store : S) (record : AuditRecord) : S * result unit string :=
  match es_insert store record with
  | (store', Ok _) => (store', Ok tt)
  | (store', Err e) => (store', Err (StoreError_to_string e))
  end.

(** [now] is the clock reading of [from_event_classified]. *)
Definition record_event (store : S) (e : AuditEvent) (now : Timestamp) : S * result unit string :=
  match from_event_classified e Confidential now with
  | Err err => (store, Err (AuditError_to_string err))
  | Ok record => insert_quietly store (set_redactions (detail_policy (event record)) record)
  end.

(** *** What recording does to a store that keeps the contract *)

Context `{!EventStoreLaws S}.

(** The record the event becomes. *)
Definition trail_record (e : AuditEvent) (bytes : string) (now : Timestamp) : AuditRecord :=
  mkAuditRecord (derive_bytes bytes) e now RECORD_SCHEMA_VERSION Confidential (detail_policy e)
    None None None.

(** Record ids identify records: a new event does not reuse the id of a stored record. *)
Definition ids_fresh (s : S) (e : AuditEvent) : Prop :=
  event_id e ∉ map rec_event_id (es_history s) ->
  forall bytes, event_canonical_bytes e = Ok bytes -> derive_bytes bytes ∉ map record_id (es_history s).

Lemma trail_record_valid e bytes now :
  event_valid e -> kind e <> RecordCorrected -> AuditRecord_validate (trail_record e bytes now) = Ok tt.
Proof.
  intros Hv%AuditEvent_validate_Ok_iff Hk. unfold AuditRecord_validate. simpl. rewrite Hv. simpl.
  destruct (kind e); done.
Qed.

(** The effect on the store: nothing, or one record of this event. *)
Definition recorded (s s' : S) (e : AuditEvent) (now : Timestamp) : Prop :=
  es_inv s' /\ event_id e ∈ map rec_event_id (es_history s')
  /\ (s' = s \/ exists bytes, event_canonical_bytes e = Ok bytes
                /\ es_history s' ≡ₚ trail_record e bytes now :: es_history s).

(** A valid record is inserted, or its event was already there. *)
Lemma insert_quietly_spec s r :
  es_inv s -> AuditRecord_validate r = Ok tt ->
  (rec_event_id r ∉ map rec_event_id (es_history s) -> record_id r ∉ map record_id (es_history s)) ->
  exists s', insert_quietly s r = (s', Ok tt) /\ es_inv s' /\ rec_event_id r ∈ map rec_event_id (es_history s')
    /\ (s' = s \/ es_history s' ≡ₚ r :: es_history s)
    /\ (rec_event_id r ∈ map rec_event_id (es_history s) -> s' = s).
Proof.
  intros Hs Hv Hf. unfold insert_quietly. destruct (decide (rec_event_id r ∈ map rec_event_id (es_history s))) as [Hin|Hin].
  - rewrite es_insert_duplicate by done. exists s. by repeat split; try left.
  - destruct (es_insert_fresh s r Hs Hv) as (s1 & E & Hs1 & Hh); [split; [done | by apply Hf]|].
    rewrite E. exists s1. split; [done|]. split; [done|]. split; [rewrite Hh; simpl; apply elem_of_cons; by left|].
    split; [by right | done].
Qed.

(** An event that encodes is recorded, or was already there. *)
Lemma record_event_ok s e bytes now :
  es_inv s -> event_valid e -> kind e <> RecordCorrected -> ids_fresh s e ->
  event_canonical_bytes e = Ok bytes ->
  exists s', record_event s e now = (s', Ok tt) /\ recorded s s' e now.
Proof.
  intros Hs Hv Hk Hf Eb. unfold record_event, from_event_classified, from_event.
  rewrite (proj2 (AuditEvent_validate_Ok_iff e) Hv). cbn [rbind]. rewrite Eb. cbn [rbind].
  change (exists s', insert_quietly s (trail_record e bytes now) = (s', Ok tt) /\ recorded s s' e now).
  destruct (insert_quietly_spec s (trail_record e bytes now) Hs (trail_record_valid e bytes now Hv Hk))
    as (s' & E & Hs' & Hin & Hh & _); [intros Hn; by apply Hf|].
  exists s'. split; [exact E|]. split; [done|]. split; [exact Hin|]. destruct Hh; [by left | right; eauto].
Qed.

(** What is recorded was encoded. *)
Lemma record_event_encoded s e now s' :
  record_event s e now = (s', Ok tt) -> exists bytes, event_canonical_bytes e = Ok bytes.
Proof.
  unfold record_event, from_event_classified, from_event. intros Hr.
  destruct (AuditEvent_validate e); [|done]. cbn [rbind] in Hr.
  destruct (event_canonical_bytes e) as [bytes|]; [by exists bytes | done].
Qed.

(** Recording again, at whatever time, leaves the store as it is. *)
Lemma record_event_again s e bytes now :
  es_inv s -> event_valid e -> kind e <> RecordCorrected -> event_id e ∈ map rec_event_id (es_history s) ->
  event_canonical_bytes e = Ok bytes -> record_event s e now = (s, Ok tt).
Proof.
  intros Hs Hv Hk Hin Eb. unfold record_event, from_event_classified, from_event.
  rewrite (proj2 (AuditEvent_validate_Ok_iff e) Hv). cbn [rbind]. rewrite Eb. cbn [rbind].
  change (insert_quietly s (trail_record e bytes now) = (s, Ok tt)). unfold insert_quietly.
  by rewrite es_insert_duplicate by (done || by apply trail_record_valid).
Qed.

Lemma record_event_spec s e now s' r :
  es_inv s -> event_valid e -> kind e <> RecordCorrected -> ids_fresh s e ->
  record_event s e now = (s', r) ->
  match r with
  | Ok _ => recorded s s' e now
  | Err _ => s' = s
  end.
Proof.
  intros Hs Hv Hk Hf Hr. destruct (event_canonical_bytes e) as [bytes|err] eqn:Eb.
  - destruct (record_event_ok s e bytes now Hs Hv Hk Hf Eb) as (s1 & E & Hrec).
    rewrite Hr in E. by injection E as -> ->.
  - unfold record_event, from_event_classified, from_event in Hr.
    rewrite (proj2 (AuditEvent_validate_Ok_iff e) Hv) in Hr. cbn [rbind] in Hr. rewrite Eb in Hr.
    by injection Hr as <- <-.
Qed.
End Trail.
