(* ===== verification/AccessLog.v ===== *)
(** * The audit-access log ([authorization/src/access_log.rs])

    Access to audit data is itself recorded: the log contract as a class, the
    store-backed log, its store-bound adapter and the no-op log, and what the
    store-backed log does with the decisions of the authorizer. *)

From S2P Require Import Prelude Text BTree Errors Identifiers Timestamps Classification.
From S2P Require Import Correlation Events IntegrityModel Records Samples Pagination Storage.
From S2P Require Import MemoryStore MemoryPaging AccessModel Cases ReportModel AuditEvents.
From S2P Require Import Authorization Trail.
Open Scope list_scope.

(** [record(&mut self, entry)]; [now] is the reading of the log's clock. *)
Class AccessLog (L : Type) :=
  record_access : L -> AuditAccessEntry -> Timestamp -> L * AuthorizationResult unit.

Record StoreAccessLog := mkStoreAccessLog {
  sal_network : NetworkId;
  sal_source : string;
  sal_parser : VersionLabel
}.

Definition StoreAccessLog_new (network_ : NetworkId) (source : string) (parser : VersionLabel)
  : StoreAccessLog := mkStoreAccessLog network_ source parser.

(** A log that deliberately records nothing. *)
Inductive NoopAccessLog : Type := Noop.
#[export] Instance NoopAccessLog_AccessLog : AccessLog NoopAccessLog := fun l _ _ => (l, Ok tt).

Section StoreLog.
Context {S : Type} `{EventStore S} `{Sha256} `{JsonStrings} `{Serialize AuditEvent}.

(** Access records keep the empty field policy [from_event_classified] gives. *)
Definition record_into (log : StoreAccessLog) (entry : AuditAccessEntry) (store : S) (now : Timestamp)
  : S * AuthorizationResult unit :=
  match access_recorded_event entry (sal_network log) (sal_source log) (sal_parser log) EventSlot_default with
  | Err e => (store, Err (AccessLogFailure (EventError_to_string e)))
  | Ok e =>
      match from_event_classified e Confidential now with
      | Err err => (store, Err (AccessLogFailure (AuditError_to_string err)))
      | Ok record =>
          let '(store', r) := insert_quietly store record in
          (store', map_err AccessLogFailure r)
      end
  end.

Record AccessLogWithStore := mkAccessLogWithStore { als_log : StoreAccessLog; als_store : S }.

Definition AccessLogWithStore_new (log : StoreAccessLog) (store : S) : AccessLogWithStore :=
  mkAccessLogWithStore log store.

Definition AccessLogWithStore_record (b : AccessLogWithStore) (entry : AuditAccessEntry) (now : Timestamp)
  : AccessLogWithStore * AuthorizationResult unit :=
  let '(store', r) := record_into (als_log b) entry (als_store b) now in
  (mkAccessLogWithStore (als_log b) store', r).

#[export] Instance AccessLogWithStore_AccessLog : AccessLog AccessLogWithStore := AccessLogWithStore_record.
End StoreLog.
Arguments AccessLogWithStore S : clear implicits.

(** ** From a decision to its entry *)

Section Entries.
Context `{Sha256} `{JsonStrings}.

(** Every decision of the authorizer names its auditor. *)
Lemma authorize_attributed reg now who action scope d :
  authorize reg now who action scope = Ok d ->
  ad_decided_by d = Some who /\ ad_action d = action /\ ad_scope d = describe scope /\ ad_decided_at d = now.
Proof.
  unfold authorize. destruct (grant reg who) as [g|[]]; try done; [|by intros [= <-]].
  destruct (negb _); [by intros [= <-]|]. destruct (negb _); [by intros [= <-]|].
  destruct (negb _); by intros [= <-].
Qed.

Lemma entry_of_decision reg now who action scope d target :
  authorize reg now who action scope = Ok d ->
  exists entry, entry_for_decision d target = Ok entry
    /\ ae_auditor entry = who /\ ae_action entry = action /\ ae_scope entry = describe scope
    /\ ae_target entry = target /\ ae_accessed_at entry = now
    /\ (ae_result entry = AccessGranted <-> ad_allowed d = true).
Proof.
  intros (Hby & Ha & Hs & Hn)%authorize_attributed. unfold entry_for_decision. rewrite Hby. cbn [ok_or rbind].
  eexists. split; [reflexivity|]. cbn. do 5 (split; [done|]).
  destruct (ad_allowed d); [done|]. by case_bool_decide.
Qed.

(** The event of an access is identified by its auditor, action and scope. *)
Lemma access_event_id entry n src parser e :
  access_recorded_event entry n src parser EventSlot_default = Ok e ->
  event_id e = derived_event_id (network_str n) "audit-access-log"
                 [as_str (ae_auditor entry); AccessAction_as_str (ae_action entry); ae_scope entry].
Proof.
  unfold access_recorded_event. intros He. ok_inv. apply derived_base_valid in Hok as (_ & _ & _ & _ & Hid); [|done].
  destruct (ae_target entry), (ae_classification entry); exact Hid.
Qed.

Lemma access_event_ok_iff entry n src parser :
  is_ok (access_recorded_event entry n src parser EventSlot_default) = true
  <-> is_ok (EventProvenance_new Derived src parser) = true.
Proof.
  unfold access_recorded_event, derived_audit_event_base. simpl.
  by destruct (EventProvenance_new _ _ _).
Qed.
End Entries.

(** ** What is recorded *)

Section Recording.
Context {S : Type} `{EventStoreLaws S} `{Sha256} `{JsonStrings} `{Serialize AuditEvent}.

(** The record of an access event. *)
Definition access_record (e : AuditEvent) (bytes : string) (now : Timestamp) : AuditRecord :=
  mkAuditRecord (derive_bytes bytes) e now RECORD_SCHEMA_VERSION Confidential [] None None None.

Lemma access_record_valid e bytes now :
  event_valid e -> kind e = AuditAccess -> AuditRecord_validate (access_record e bytes now) = Ok tt.
Proof.
  intros Hv%AuditEvent_validate_Ok_iff Hk. unfold AuditRecord_validate. simpl. rewrite Hv. simpl. by rewrite Hk.
Qed.

(** One recording, decided: refused with the store untouched, or one insertion
    that finds the event there or adds it. *)
Lemma record_into_spec log entry store now :
  es_inv store ->
  (forall e, access_recorded_event entry (sal_network log) (sal_source log) (sal_parser log) EventSlot_default = Ok e ->
     ids_fresh store e) ->
  (exists d, record_into log entry store now = (store, Err (AccessLogFailure d)))
  \/ exists e bytes store',
       access_recorded_event entry (sal_network log) (sal_source log) (sal_parser log) EventSlot_default = Ok e
       /\ record_into log entry store now = (store', Ok tt) /\ es_inv store'
       /\ event_id e ∈ map rec_event_id (es_history store')
       /\ (store' = store \/ es_history store' ≡ₚ access_record e bytes now :: es_history store)
       /\ (event_id e ∈ map rec_event_id (es_history store) -> store' = store)
       /\ event_canonical_bytes e = Ok bytes.
Proof.
  intros Hs Hf. unfold record_into.
  destruct (access_recorded_event _ _ _ _ _) as [e|err] eqn:Ee; [|left; eauto].
  specialize (Hf e eq_refl). apply access_event_valid in Ee as [Hv Hk].
  unfold from_event_classified, from_event. rewrite (proj2 (AuditEvent_validate_Ok_iff e) Hv). cbn [rbind].
  destruct (event_canonical_bytes e) as [bytes|err] eqn:Eb; cbn [rbind]; [|left; eauto]. right.
  destruct (insert_quietly_spec store (access_record e bytes now) Hs (access_record_valid e bytes now Hv Hk))
    as (s' & E & Hs' & Hin & Hh & Hdup); [intros Hn; by apply Hf|].
  unfold access_record in E. unfold set_classification. cbn. rewrite E.
  exists e, bytes, s'. by repeat (split; [done|]).
Qed.

Lemma record_into_ok log entry store now e :
  (forall e : AuditEvent, is_ok (to_vec e) = true) -> es_inv store ->
  access_recorded_event entry (sal_network log) (sal_source log) (sal_parser log) EventSlot_default = Ok e ->
  ids_fresh store e -> snd (record_into log entry store now) = Ok tt.
Proof.
  intros Hjson Hs Ee Hf. unfold record_into. rewrite Ee. apply access_event_valid in Ee as [Hv Hk].
  unfold from_event_classified, from_event. rewrite (proj2 (AuditEvent_validate_Ok_iff e) Hv). cbn [rbind].
  destruct (event_canonical_bytes e) as [bytes|err] eqn:Eb; cbn [rbind].
  - destruct (insert_quietly_spec store (access_record e bytes now) Hs (access_record_valid e bytes now Hv Hk))
      as (s' & E & _); [intros Hn; by apply Hf|]. unfold access_record in E. unfold set_classification. cbn. by rewrite E.
  - unfold event_canonical_bytes, canonical_json in Eb. specialize (Hjson e). by destruct (to_vec e).
Qed.

(** A later access of the same auditor, action and scope is not recorded. *)
Lemma record_into_repeat log entry entry' store now e :
  (forall e : AuditEvent, is_ok (to_vec e) = true) -> es_inv store ->
  access_recorded_event entry (sal_network log) (sal_source log) (sal_parser log) EventSlot_default = Ok e ->
  event_id e ∈ map rec_event_id (es_history store) ->
  ae_auditor entry' = ae_auditor entry -> ae_action entry' = ae_action entry -> ae_scope entry' = ae_scope entry ->
  record_into log entry' store now = (store, Ok tt).
Proof.
  intros Hjson Hs Ee Hin H1' H2' H3'.
  pose proof (proj1 (access_event_ok_iff entry _ _ _) ltac:(by rewrite Ee)) as Hl.
  apply (access_event_ok_iff entry' (sal_network log)) in Hl.
  destruct (access_recorded_event entry' (sal_network log) (sal_source log) (sal_parser log) EventSlot_default)
    as [e'|] eqn:Ee'; [|done].
  assert (event_id e' = event_id e) as Hid.
  { rewrite (access_event_id _ _ _ _ _ Ee), (access_event_id _ _ _ _ _ Ee'). congruence. }
  assert (ids_fresh store e') as Hf by (intros Hn; by rewrite Hid in Hn).
  destruct (record_into_spec log entry' store now Hs ltac:(intros x Ex; congruence))
    as [[d E]|(x & bytes & s' & Ex & E & _ & _ & _ & Hdup & _)].
  - pose proof (record_into_ok log entry' store now e' Hjson Hs Ee' Hf) as Hok. by rewrite E in Hok.
  - assert (x = e') as -> by congruence. rewrite Hid in Hdup. by rewrite E, (Hdup Hin).
Qed.
End Recording.

Section LogClaims.
Context {S : Type} `{EventStoreLaws S} `{Sha256} `{JsonStrings} `{Serialize AuditEvent}.

(** C32 What the access log keeps of a decision.  Every decision of the
    authorizer, granted or not, has an entry that names its auditor, action,
    scope, target, instant and result.  Recording it either fails as an
    [AccessLogFailure] with the store untouched, or leaves an access event in
    the store and adds at most that one confidential record.  With an encoder
    that does not fail and a well-formed source label it always succeeds; and
    from then on any entry of the same auditor, action and scope, whatever its
    id, target, result or instant, is accepted without being recorded: not only
    a repeated entry, but every later access of that kind is absorbed. *)
Theorem access_log_exact (b : AccessLogWithStore S) reg t who action scope target d now :
  let recorded_as entry := access_recorded_event entry (sal_network (als_log b)) (sal_source (als_log b))
                             (sal_parser (als_log b)) EventSlot_default in
  es_inv (als_store b) -> authorize reg t who action scope = Ok d ->
  (forall entry e, entry_for_decision d target = Ok entry -> recorded_as entry = Ok e ->
     ids_fresh (als_store b) e) ->
  exists entry b' res,
    entry_for_decision d target = Ok entry
    /\ (ae_auditor entry = who /\ ae_action entry = action /\ ae_scope entry = describe scope
        /\ ae_target entry = target /\ ae_accessed_at entry = t
        /\ (ae_result entry = AccessGranted <-> ad_allowed d = true))
    /\ record_access b entry now = (b', res)
    /\ match res with
       | Err err => b' = b /\ exists why, err = AccessLogFailure why
       | Ok _ => exists e bytes, recorded_as entry = Ok e /\ event_canonical_bytes e = Ok bytes
                   /\ event_id e ∈ map rec_event_id (es_history (als_store b'))
                   /\ (b' = b \/ es_history (als_store b') ≡ₚ access_record e bytes now :: es_history (als_store b))
       end
    /\ ((forall e : AuditEvent, is_ok (to_vec e) = true) ->
        is_ok (EventProvenance_new Derived (sal_source (als_log b)) (sal_parser (als_log b))) = true ->
        res = Ok tt
        /\ forall entry' now', ae_auditor entry' = who -> ae_action entry' = action -> ae_scope entry' = describe scope ->
             record_access b' entry' now' = (b', Ok tt)).
Proof.
  destruct b as [log store]. cbn [als_log als_store]. intros Hs Hd Hf.
  destruct (entry_of_decision _ _ _ _ _ _ target Hd) as (entry & Een & Hwho & Hact & Hsc & Htg & Hat & Hres).
  pose proof (fun e => Hf entry e Een) as Hfe. unfold record_access, AccessLogWithStore_AccessLog, AccessLogWithStore_record. cbn [als_log als_store].
  destruct (record_into_spec log entry store now Hs Hfe) as [[why E]|(e & bytes & s' & Ee & E & Hs' & Hin & Hh & _ & Hb)].
  - exists entry, (mkAccessLogWithStore log store), (Err (AccessLogFailure why)). rewrite E.
    split; [done|]. split; [done|]. split; [done|]. split; [eauto|]. intros Hjson Hl. exfalso.
    apply (access_event_ok_iff entry (sal_network log)) in Hl.
    destruct (access_recorded_event entry (sal_network log) _ _ _) as [e|] eqn:Ee; [|done].
    pose proof (record_into_ok log entry store now e Hjson Hs Ee (Hfe e eq_refl)) as Hok. by rewrite E in Hok.
  - exists entry, (mkAccessLogWithStore log s'), (Ok tt). rewrite E.
    split; [done|]. split; [done|]. split; [done|]. cbn [als_store]. split.
    + exists e, bytes. split; [done|]. split; [done|]. split; [done|]. destruct Hh as [->|Hh]; [by left | by right].
    + intros Hjson _. split; [done|]. intros entry' now' H1' H2' H3'.
      cbn [als_log als_store].
      by rewrite (record_into_repeat log entry entry' s' now' e Hjson Hs' Ee Hin) by congruence.
Qed.
End LogClaims.

Section LogWitness.
Local Existing Instances toy_sha toy_strings toy_event_json.

Definition reader : AuditorId := mkId (mkStableId "aud" "aud_04").
Definition readers : Registry :=
  fst (register Registry_new (with_credential (Credential_new reader "k" (mkTimestamp 100))
         (with_scope ScopeAll (Grant_new reader SeniorAuditor)))).
Definition access_log : AccessLogWithStore MemoryEventStore :=
  AccessLogWithStore_new (StoreAccessLog_new testnet "access" v1) MemoryEventStore_new.
Definition read_at (t : Z) (target : string) : AuditAccessEntry :=
  AuditAccessEntry_new (mkId (mkStableId "acc" target)) reader ReadRecord "all" (Some target) AccessGranted (mkTimestamp t).

Lemma access_log_empty : es_inv (als_store access_log).
Proof. exact store_inv_new. Qed.

(** The second read, of another record an hour later, leaves no trace. *)
Lemma access_log_exact_witness :
  exists entry b', record_access access_log entry (mkTimestamp 6) = (b', Ok tt)
    /\ ae_target entry = Some "rec_1"
    /\ record_access b' (read_at 3605 "rec_2") (mkTimestamp 3606) = (b', Ok tt).
Proof.
  destruct (authorize readers (mkTimestamp 5) reader ReadRecord ScopeAll) as [d|e] eqn:Hd.
  - destruct (access_log_exact access_log readers (mkTimestamp 5) reader ReadRecord ScopeAll (Some "rec_1") d
                (mkTimestamp 6) access_log_empty Hd) as (entry & b' & res & _ & Hent & E & _ & Hall).
    { intros entry e _ _ _ bytes _. apply not_elem_of_nil. }
    destruct Hall as [-> Hrep]; [intros e; reflexivity | reflexivity |].
    exists entry, b'. split; [exact E|]. split; [exact (proj1 (proj2 (proj2 (proj2 Hent))))|].
    apply Hrep; reflexivity.
  - vm_compute in Hd. discriminate Hd.
Defined.
End LogWitness.
