(* ===== verification/CaseService.v ===== *)
(** * The case service ([crates/investigation])

    [InMemoryCaseStore] and [CaseService]: authorized, audited mutations of
    investigation cases.  Each operation takes the clock readings it makes. *)

From S2P Require Import Prelude Text BTree Errors Identifiers Timestamps Classification.
From S2P Require Import Correlation Events IntegrityModel Records Pagination Storage.
From S2P Require Import AccessModel Authorization Cases ReportModel AuditEvents Trail.
Open Scope list_scope.

Inductive InvestigationError : Type :=
| CaseNotFound (id : string)
| CaseAlreadyExists (id : string)
| InvalidTransition (d : string)
| ClosedCase (id : string)
| NotAuthorized (actor d : string)
| MissingRecord (id : string)
| InvStore (d : string)
| LifecycleRecord (d : string)
| InvalidContent (d : string)
| InvInternal (d : string).

Definition InvestigationResult (T : Type) : Type := result T InvestigationError.

(** ** The case store ([store.rs]) *)

Record InMemoryCaseStore := mkCaseStore { cases : BTreeMap CaseId InvestigationCase }.

Definition CaseStore_new : InMemoryCaseStore := mkCaseStore [].

Definition create (s : InMemoryCaseStore) (c : InvestigationCase) : InMemoryCaseStore * InvestigationResult unit :=
  if bt_contains (case_id c) (cases s) then (s, Err (CaseAlreadyExists (as_str (case_id c))))
  else (mkCaseStore (bt_insert (case_id c) c (cases s)), Ok tt).

Definition update (s : InMemoryCaseStore) (c : InvestigationCase) : InMemoryCaseStore * InvestigationResult unit :=
  if negb (bt_contains (case_id c) (cases s)) then (s, Err (CaseNotFound (as_str (case_id c))))
  else (mkCaseStore (bt_insert (case_id c) c (cases s)), Ok tt).

Definition get_case (s : InMemoryCaseStore) (id : CaseId) : InvestigationResult InvestigationCase :=
  ok_or (bt_get id (cases s)) (CaseNotFound (as_str id)).

Definition contains_case (s : InMemoryCaseStore) (id : CaseId) : bool := bt_contains id (cases s).
Definition case_count (s : InMemoryCaseStore) : nat := length (cases s).
Definition no_cases (s : InMemoryCaseStore) : bool := (case_count s =? 0)%nat.

Definition all_cases (s : InMemoryCaseStore) : list InvestigationCase := bt_values (cases s).
Definition by_status (s : InMemoryCaseStore) (st : CaseStatus) : list InvestigationCase :=
  List.filter (fun c => bool_decide (case_status c = st)) (bt_values (cases s)).
Definition by_assignee (s : InMemoryCaseStore) (a : AuditorId) : list InvestigationCase :=
  List.filter (fun c => bool_decide (assigned_to c = Some a)) (bt_values (cases s)).

(** ** Lifecycle steps ([events.rs]) *)

Record LifecycleStep := mkLifecycleStep {
  ls_network : NetworkId;
  ls_case : string;
  ls_actor : string;
  ls_kind : LifecycleKind;
  ls_sequence : Z;
  ls_status : CaseStatus;
  ls_summary : option string
}.

Definition parse_case (raw : string) : InvestigationResult CaseId :=
  map_err (fun e => InvInternal ("invalid case id " +:+ raw +:+ ": " +:+ AuditError_to_string e))
    (from_checked raw).
Definition parse_actor (raw : string) : InvestigationResult AuditorId :=
  map_err (fun e => InvInternal ("invalid actor id " +:+ raw +:+ ": " +:+ AuditError_to_string e))
    (from_checked raw).

Section Service.
Context {S : Type} `{EventStore S} `{Sha256} `{JsonStrings} `{Serialize AuditEvent}.

Definition to_event (step : LifecycleStep) (source : string) (parser : VersionLabel)
  : InvestigationResult AuditEvent :=
  let? case := parse_case (ls_case step) in
  let? actor := parse_actor (ls_actor step) in
  map_err (fun e => LifecycleRecord (EventError_to_string e))
    (InvestigationLifecycle_into_audit_event
       (mkInvestigationLifecycle (ls_network step) source parser case actor (ls_kind step)
          (ls_sequence step) (ls_status step) (ls_summary step)) EventSlot_default).

Definition record_step (step : LifecycleStep) (source : string) (parser : VersionLabel)
    (now : Timestamp) (store : S) : S * InvestigationResult unit :=
  match to_event step source parser with
  | Err e => (store, Err e)
  | Ok e =>
      let '(store', r) := record_event store e now in
      (store', map_err LifecycleRecord r)
  end.

(** ** The service ([service.rs]) *)

Record CaseService := mkCaseService {
  cs_network : NetworkId;
  cs_source : string;
  cs_parser : VersionLabel;
  cs_registry : Registry
}.

Definition CaseService_new (network_ : NetworkId) (source : string) (parser : VersionLabel) (registry : Registry)
  : CaseService := mkCaseService network_ source parser registry.
(** Reading a case: the lookup of the store it is given. *)
Definition service_get_case (svc : CaseService) (cs : InMemoryCaseStore) (id : CaseId)
  : InvestigationResult InvestigationCase := get_case cs id.

(** The clock readings of one operation: the authorizer's, the case's and the
    audit record's. *)
Record Readings := mkReadings { t_auth : Timestamp; t_case : Timestamp; t_record : Timestamp }.

Record State := mkState { st_cases : InMemoryCaseStore; st_audit : S }.

Definition require (svc : CaseService) (t : Readings) (who : AuditorId) (action : AccessAction)
    (what : string) : InvestigationResult unit :=
  let scope := ScopeNetwork (cs_network svc) in
  let? d := map_err (fun e => InvInternal ("authorizer failure: " +:+ AuthorizationError_to_string e))
              (authorize (cs_registry svc) (t_auth t) who action scope) in
  if ad_allowed d then Ok tt
  else
    let why := default ACTION_DENIED (ad_reason d) in
    Err (NotAuthorized (as_str who) ("cannot " +:+ what +:+ ": " +:+ why)).

Definition require_role (svc : CaseService) (who : AuditorId) (what : string) : InvestigationResult unit :=
  match grant (cs_registry svc) who with
  | Err _ => Err (NotAuthorized (as_str who) ("cannot " +:+ what +:+ ": unknown auditor"))
  | Ok g =>
      if decide (gr_role g = Administrator) then Ok tt
      else Err (NotAuthorized (as_str who) ("cannot " +:+ what +:+ ": requires administrator"))
  end.

Definition get_open (s : InMemoryCaseStore) (id : CaseId) : InvestigationResult InvestigationCase :=
  let? c := get_case s id in
  if is_terminal (case_status c) then Err (ClosedCase (as_str id)) else Ok c.

(** The sequence is [timeline().len() as u32]. *)
Definition commit_step (svc : CaseService) (who : AuditorId) (c : InvestigationCase)
    (summary : option string) : LifecycleStep :=
  let kind := match case_status c with Closed => LifecycleClosed | _ => Updated end in
  let sequence := (zlen (timeline c) mod 2 ^ 32)%Z in
  mkLifecycleStep (cs_network svc) (as_str (case_id c)) (as_str who) kind sequence (case_status c) summary.

Definition commit_case (svc : CaseService) (t : Readings) (st : State) (who : AuditorId)
    (c : InvestigationCase) (summary : option string) : State * InvestigationResult InvestigationCase :=
  match update (st_cases st) c with
  | (cs, Err e) => (mkState cs (st_audit st), Err e)
  | (cs, Ok _) =>
      let '(audit, r) := record_step (commit_step svc who c summary) (cs_source svc) (cs_parser svc)
                           (t_record t) (st_audit st) in
      (mkState cs audit, let? _ := r in Ok c)
  end.

(** The shape of every mutation: checks that read the state, then the commit. *)
Definition mutate (svc : CaseService) (t : Readings) (st : State) (who : AuditorId)
    (change : InvestigationResult InvestigationCase) (summary : option string)
  : State * InvestigationResult InvestigationCase :=
  match change with
  | Err e => (st, Err e)
  | Ok c => commit_case svc t st who c summary
  end.

Definition svc_internal (e : AuditError) : InvestigationError := InvInternal (AuditError_to_string e).
Definition svc_content (e : AuditError) : InvestigationError := InvalidContent (AuditError_to_string e).

Definition svc_assign (svc : CaseService) (t : Readings) (st : State) (who : AuditorId) (id : CaseId)
    (investigator : AuditorId) : State * InvestigationResult InvestigationCase :=
  mutate svc t st who
    (let? _ := require svc t who CreateInvestigation "assign a case" in
     let? c := get_open (st_cases st) id in
     map_err svc_internal (assign investigator (t_case t) c)) None.

Definition transition_change (svc : CaseService) (t : Readings) (st : State) (who : AuditorId)
    (id : CaseId) (to : CaseStatus) (reason : option string) : InvestigationResult InvestigationCase :=
  let? c := get_case (st_cases st) id in
  if bool_decide (to = Closed) && match reason with None => true | Some _ => false end
  then Err (InvalidContent "closing a case requires a recorded reason")
  else
    let? _ :=
      (if decide (case_status c = Closed)
       then if decide (to = Open) then require_role svc who "reopen a closed case"
            else Err (ClosedCase (as_str id))
       else require svc t who CreateInvestigation "update a case") in
    let? c := map_err (fun e => InvalidTransition ("case " +:+ as_str id +:+ ": " +:+ AuditError_to_string e))
                (change_status to (t_case t) who reason c) in
    let? _ := map_err svc_internal (case_validate c) in
    Ok c.

Definition transition (svc : CaseService) (t : Readings) (st : State) (who : AuditorId) (id : CaseId)
    (to : CaseStatus) (reason : option string) : State * InvestigationResult InvestigationCase :=
  mutate svc t st who (transition_change svc t st who id to reason) None.

Definition open_step (svc : CaseService) (who : AuditorId) (id : CaseId) (title : string) : LifecycleStep :=
  mkLifecycleStep (cs_network svc) (as_str id) (as_str who) Opened 0 Open (Some title).

Definition open_case (svc : CaseService) (t : Readings) (st : State) (who : AuditorId) (title : string)
    (priority : Priority) (case_key : string) : State * InvestigationResult InvestigationCase :=
  match require svc t who CreateInvestigation "open an investigation case" with
  | Err e => (st, Err e)
  | Ok _ =>
      let id := derive [network_str (cs_network svc); case_key] in
      match case_open id title priority (t_case t) who with
      | Err e => (st, Err (svc_content e))
      | Ok c =>
          match create (st_cases st) c with
          | (cs, Err e) => (mkState cs (st_audit st), Err e)
          | (cs, Ok _) =>
              let '(audit, r) := record_step (open_step svc who id title) (cs_source svc)
                                   (cs_parser svc) (t_record t) (st_audit st) in
              (mkState cs audit, let? _ := r in Ok c)
          end
      end
  end.

Definition link_record (svc : CaseService) (t : Readings) (st : State) (who : AuditorId) (id : CaseId)
    (rid : RecordId) (kind : TimelineEntryKind) : State * InvestigationResult InvestigationCase :=
  mutate svc t st who
    (let? _ := require svc t who CreateInvestigation "link a record to a case" in
     let? c := get_open (st_cases st) id in
     let? _ := map_err (fun _ => MissingRecord (as_str rid)) (es_get (st_audit st) rid) in
     map_err svc_internal (add_related_record rid kind (t_case t) c)) None.

Record NewFinding := mkNewFinding {
  nf_kind : FindingKind;
  nf_severity : Severity;
  nf_summary : string;
  nf_related : list RecordId
}.

Definition NewFinding_new (kind : FindingKind) (severity : Severity) (summary : string) : NewFinding :=
  mkNewFinding kind severity summary [].
Definition with_records (rs : list RecordId) (f : NewFinding) : NewFinding :=
  mkNewFinding (nf_kind f) (nf_severity f) (nf_summary f) rs.

Definition add_finding (svc : CaseService) (t : Readings) (st : State) (who : AuditorId) (id : CaseId)
    (f : NewFinding) : State * InvestigationResult InvestigationCase :=
  mutate svc t st who
    (let? _ := require svc t who CreateInvestigation "add a finding" in
     let? c := get_open (st_cases st) id in
     let fid := derive [as_str id; "finding:" +:+ z_to_string (zlen (timeline c))] in
     let? finding := map_err svc_content
                       (Finding_new fid (nf_kind f) (nf_severity f) (nf_summary f) (t_case t) who) in
     map_err svc_internal (case_add_finding (with_related_records (nf_related f) finding) (t_case t) c))
    (Some (nf_summary f)).

Definition add_note (svc : CaseService) (t : Readings) (st : State) (who : AuditorId) (id : CaseId)
    (body : string) : State * InvestigationResult InvestigationCase :=
  mutate svc t st who
    (let? _ := require svc t who CreateInvestigation "add a note" in
     let? c := get_open (st_cases st) id in
     let nid := derive [as_str id; "note:" +:+ z_to_string (zlen (timeline c))] in
     let? note := map_err svc_content (Note_new nid who body (t_case t)) in
     map_err svc_internal (case_add_note note c)) None.
End Service.
