(* ===== verification/CaseServiceProofs.v ===== *)
(** * The case service: authorization, immutability of closed cases, audit

    Every operation of the service as one transition function [run], and what it
    guarantees about the case store and the audit store. *)

From S2P Require Import Prelude Text BTree Errors Identifiers Timestamps Classification.
From S2P Require Import Correlation Events IntegrityModel Records Samples Pagination Storage.
From S2P Require Import MemoryStore MemoryPaging AccessModel Authorization Cases ReportModel.
From S2P Require Import AuditEvents Trail CaseService.
Open Scope list_scope.

Section ServiceProofs.
Context {S : Type} `{EventStore S} `{Sha256} `{JsonStrings} `{Serialize AuditEvent}.
Implicit Types (svc : CaseService) (t : Readings) (st : State (S := S)) (who : AuditorId).

Inductive Op : Type :=
| OpOpen (title : string) (priority : Priority) (key : string)
| OpAssign (id : CaseId) (investigator : AuditorId)
| OpTransition (id : CaseId) (to : CaseStatus) (reason : option string)
| OpLink (id : CaseId) (rid : RecordId) (kind : TimelineEntryKind)
| OpFinding (id : CaseId) (f : NewFinding)
| OpNote (id : CaseId) (body : string).

Definition run svc t st who (op : Op) : State * InvestigationResult InvestigationCase :=
  match op with
  | OpOpen title priority key => open_case svc t st who title priority key
  | OpAssign id i => svc_assign svc t st who id i
  | OpTransition id to reason => transition svc t st who id to reason
  | OpLink id rid kind => link_record svc t st who id rid kind
  | OpFinding id f => add_finding svc t st who id f
  | OpNote id body => add_note svc t st who id body
  end.

(** The actor holds the permission the service asks for. *)
Definition authorized svc t who : Prop :=
  exists d, authorize (cs_registry svc) (t_auth t) who CreateInvestigation
              (ScopeNetwork (cs_network svc)) = Ok d /\ ad_allowed d = true.
Definition is_admin svc who : Prop :=
  exists g, grant (cs_registry svc) who = Ok g /\ gr_role g = Administrator.

Lemma require_Ok svc t who what u : require svc t who CreateInvestigation what = Ok u -> authorized svc t who.
Proof. unfold require. intros Hr. ok_inv. exists v. auto. Qed.

Lemma require_role_Ok svc who what u : require_role svc who what = Ok u -> is_admin svc who.
Proof.
  unfold require_role, is_admin. destruct (grant (cs_registry svc) who) as [g|]; [|done].
  case_decide; [|done]. eauto.
Qed.

Lemma get_open_Ok s id c : get_open s id = Ok c -> bt_get id (cases s) = Some c /\ case_status c <> Closed.
Proof. unfold get_open, get_case. intros Hg. ok_inv. split; [done|]. by destruct (case_status c). Qed.

(** ** What a mutation computes before committing *)

(** The case changed, its id, and the permission used. *)
Definition changes svc t st who (id : CaseId) (c' : InvestigationCase) : Prop :=
  exists c, bt_get id (cases (st_cases st)) = Some c /\ case_step c c'
    /\ ((case_status c <> Closed /\ authorized svc t who)
        \/ (case_status c = Closed /\ is_admin svc who /\ is_ok (case_validate c') = true
            /\ exists reason, change_status Open (t_case t) who reason c = Ok c')).

Lemma transition_changes svc t st who id to reason c' :
  transition_change svc t st who id to reason = Ok c' -> changes svc t st who id c'.
Proof.
  unfold transition_change, get_case. intros Hc. ok_inv. exists v. split; [done|].
  split; [by eapply step_status|].
  destruct (decide (case_status v = Closed)) as [Ec|Ec].
  - destruct (decide (to = Open)) as [->|]; [|done]. right. split; [done|].
    split; [by eapply require_role_Ok|]. split; [by rewrite Hok2 | eauto].
  - left. split; [done|]. by eapply require_Ok.
Qed.

(** ** The effect of an operation on the two stores *)

(** The case an operation is about. *)
Definition op_case svc (op : Op) : CaseId :=
  match op with
  | OpOpen _ _ key => derive [network_str (cs_network svc); key]
  | OpAssign id _ | OpTransition id _ _ | OpLink id _ _ | OpFinding id _ | OpNote id _ => id
  end.

(** The step an operation that left the case [c] records. *)
Definition op_step svc who (op : Op) (c : InvestigationCase) : LifecycleStep :=
  match op with
  | OpOpen title _ _ => open_step svc who (op_case svc op) title
  | OpFinding _ f => commit_step svc who c (Some (nf_summary f))
  | _ => commit_step svc who c None
  end.

(** What an operation puts in the case store. *)
Definition commits svc t st who (op : Op) (c : InvestigationCase) : Prop :=
  match op with
  | OpOpen title priority _ =>
      authorized svc t who /\ case_open (op_case svc op) title priority (t_case t) who = Ok c
      /\ bt_contains (op_case svc op) (cases (st_cases st)) = false
  | _ => changes svc t st who (op_case svc op) c
  end.

(** Nothing happened, or a case was created or replaced by a later state of
    itself and one step was recorded. *)
Inductive effect svc t st who (op : Op) : State -> InvestigationResult InvestigationCase -> Prop :=
| eff_none e : effect svc t st who op st (Err e)
| eff_commit c r audit :
    commits svc t st who op c -> case_id c = op_case svc op ->
    record_step (op_step svc who op c) (cs_source svc) (cs_parser svc) (t_record t)
      (st_audit st) = (audit, r) ->
    effect svc t st who op (mkState (mkCaseStore (bt_insert (op_case svc op) c (cases (st_cases st)))) audit)
      (let? _ := r in Ok c).

(** ** The case store's invariant *)

Record cases_inv (s : InMemoryCaseStore) : Prop := {
  ci_wf : bt_wf (cases s);
  ci_key : forall id c, bt_get id (cases s) = Some c -> case_id c = id;
  ci_closure : forall id c, bt_get id (cases s) = Some c -> closure_ok c
}.

Lemma cases_inv_new : cases_inv CaseStore_new.
Proof. split; [apply bt_wf_nil | done | done]. Qed.

Lemma cases_inv_insert s c :
  cases_inv s -> closure_ok c -> cases_inv (mkCaseStore (bt_insert (case_id c) c (cases s))).
Proof.
  intros [Hwf Hk Hc] Hcl. split; simpl; [by apply bt_insert_wf | |];
    intros id c'; (destruct (decide (case_id c = id)) as [<-|Hne];
      [rewrite bt_get_insert_eq; by intros [= <-] | rewrite bt_get_insert_ne by done; eauto]).
Qed.

Lemma changes_id svc t st who id c :
  cases_inv (st_cases st) -> changes svc t st who id c -> case_id c = id /\ bt_contains id (cases (st_cases st)) = true.
Proof.
  intros Hi (c0 & Hg & Hs & _). split; [|unfold bt_contains; by rewrite Hg].
  rewrite (ext_id _ _ (step_extends _ _ Hs)). by eapply ci_key.
Qed.

Lemma mutate_effect svc t st who op change summary :
  cases_inv (st_cases st) ->
  (forall c', change = Ok c' -> changes svc t st who (op_case svc op) c') ->
  (forall c', commits svc t st who op c' = changes svc t st who (op_case svc op) c') ->
  (forall c', op_step svc who op c' = commit_step svc who c' summary) ->
  effect svc t st who op (fst (mutate svc t st who change summary)) (snd (mutate svc t st who change summary)).
Proof.
  intros Hi Hc Hcom Hstep. unfold mutate, commit_case, update. destruct change as [c'|e]; [|constructor].
  destruct (changes_id _ _ _ _ _ _ Hi (Hc c' eq_refl)) as [Hid Hin]. rewrite Hid, Hin. simpl.
  destruct (record_step _ _ _ _ _) as [audit r] eqn:Er. simpl.
  apply eff_commit; [rewrite Hcom; by apply Hc | done | by rewrite Hstep].
Qed.

(** The check common to the mutations of an open case. *)
Lemma open_changes svc t st who id c c' u what :
  require svc t who CreateInvestigation what = Ok u -> get_open (st_cases st) id = Ok c ->
  case_step c c' -> changes svc t st who id c'.
Proof.
  intros Hr [Hg Hn]%get_open_Ok Hs. exists c. split; [done|]. split; [done|]. left.
  split; [done | by eapply require_Ok].
Qed.

Lemma run_effect svc t st who op :
  cases_inv (st_cases st) ->
  effect svc t st who op (fst (run svc t st who op)) (snd (run svc t st who op)).
Proof.
  intros Hi. destruct op; simpl.
  - unfold open_case. destruct (require _ _ _ _ _) as [u|e] eqn:Er; [|constructor].
    destruct (case_open _ _ _ _ _) as [c|e] eqn:Eo; [|constructor]. unfold create.
    assert (case_id c = derive [network_str (cs_network svc); key]) as Hid
      by (unfold case_open in Eo; by ok_inv).
    rewrite Hid. destruct (bt_contains _ _) eqn:Ec; [destruct st; constructor|].
    destruct (record_step _ _ _ _ _) as [audit r] eqn:Es. simpl.
    apply (eff_commit svc t st who (OpOpen title priority key)); [|exact Hid | exact Es].
    split; [by eapply require_Ok | done].
  - apply mutate_effect; [done | | done | done]. intros c' Hc. ok_inv. cbv zeta in *. ok_inv.
    eapply open_changes; eauto using case_step.
  - apply mutate_effect; [done | | done | done]. intros c' Hc. by eapply transition_changes.
  - apply mutate_effect; [done | | done | done]. intros c' Hc. ok_inv. cbv zeta in *. ok_inv.
    eapply open_changes; eauto using case_step.
  - apply mutate_effect; [done | | done | done]. intros c' Hc. ok_inv. cbv zeta in *. ok_inv.
    eapply open_changes; eauto using case_step.
  - apply mutate_effect; [done | | done | done]. intros c' Hc. ok_inv. cbv zeta in *. ok_inv.
    eapply open_changes; eauto using case_step.
Qed.

(** A committed case is new, or a later state of the one it replaces. *)
Lemma commits_cases svc t st who op c :
  commits svc t st who op c ->
  (closure_ok c /\ authorized svc t who /\ bt_contains (op_case svc op) (cases (st_cases st)) = false)
  \/ changes svc t st who (op_case svc op) c.
Proof.
  destruct op; simpl; auto. intros (Ha & Ho & Hn). left. split; [|done]. unfold case_open in Ho. by ok_inv.
Qed.

Lemma effect_inv svc t st who op st' r :
  effect svc t st who op st' r -> cases_inv (st_cases st) -> cases_inv (st_cases st').
Proof.
  intros He Hi. destruct He as [|c r audit Hc Hid]; simpl; [done|]. rewrite <- Hid. apply cases_inv_insert; [done|].
  apply commits_cases in Hc as [[Hcl _]|(c0 & Hg & Hs & _)]; [done|]. eapply step_closure; [done|]. by eapply ci_closure.
Qed.

(** Whatever is committed, the authorizer allowed it: a closed case cannot be
    reopened, since its closure fields fail its validation. *)
Lemma commits_authorized svc t st who op c :
  cases_inv (st_cases st) -> commits svc t st who op c -> authorized svc t who.
Proof.
  intros Hi [(_ & Ha & _)|(c0 & Hg & Hs & [[_ Ha]|(Hcl & _ & Hv & reason & Hc)])]%commits_cases; [done | done|].
  destruct (ci_closure _ Hi _ _ Hg) as [Hat _]. pose proof (Hat Hcl) as [tm Htm].
  case_inv Hc. unfold case_validate in Hv. simpl in Hv. by rewrite Htm in Hv.
Qed.

(** A case in the store stays, unchanged or one step later; a closed one unchanged. *)
Lemma effect_case svc t st who op st' r id c :
  effect svc t st who op st' r -> cases_inv (st_cases st) -> bt_get id (cases (st_cases st)) = Some c ->
  exists c', bt_get id (cases (st_cases st')) = Some c'
    /\ (c' = c \/ (case_step c c' /\ case_status c <> Closed)).
Proof.
  intros He Hi Hg. destruct He as [|c1 r audit Hc Hid]; simpl; [eauto|].
  destruct (decide (op_case svc op = id)) as [<-|Hne]; [|rewrite bt_get_insert_ne by done; eauto].
  rewrite bt_get_insert_eq. exists c1. split; [done|].
  apply commits_cases in Hc as [(_ & _ & Hn)|(c0 & Hg0 & Hs & Hp)]; [unfold bt_contains in Hn; by rewrite Hg in Hn|].
  assert (c0 = c) as -> by congruence. right.
  split; [done|]. destruct Hp as [[Hp _]|(Hcl & _ & Hv & reason & Hch)]; [done|].
  intros _. destruct (ci_closure _ Hi _ _ Hg) as [Hat _].
  pose proof (Hat Hcl) as [tm Htm]. case_inv Hch. unfold case_validate in Hv. simpl in Hv.
  by rewrite Htm in Hv.
Qed.

(** The lifecycle event an operation would record, from the case it leaves. *)
Definition step_event svc t st who (op : Op) (e : AuditEvent) : Prop :=
  exists c, bt_get (op_case svc op) (cases (st_cases (fst (run svc t st who op)))) = Some c
    /\ to_event (op_step svc who op c) (cs_source svc) (cs_parser svc) = Ok e.

Context `{!EventStoreLaws S}.

Lemma to_event_valid step src parser e :
  to_event step src parser = Ok e -> event_valid e /\ kind e <> RecordCorrected.
Proof.
  unfold to_event. intros Ee. ok_inv. apply lifecycle_event_valid in Ee as (Hv & Hk & _).
  split; [done|]. rewrite Hk. by destruct (il_kind _).
Qed.

Lemma record_step_spec svc t st step audit r :
  es_inv (st_audit st) ->
  (forall e, to_event step (cs_source svc) (cs_parser svc) = Ok e -> ids_fresh (st_audit st) e) ->
  record_step step (cs_source svc) (cs_parser svc) (t_record t) (st_audit st) = (audit, r) ->
  match r with
  | Ok _ => exists e, to_event step (cs_source svc) (cs_parser svc) = Ok e
                      /\ recorded (st_audit st) audit e (t_record t)
  | Err _ => audit = st_audit st
  end.
Proof.
  intros Hs Hf. unfold record_step. destruct (to_event _ _ _) as [e|] eqn:Ee; [|by intros [= <- <-]].
  destruct (record_event (st_audit st) e (t_record t)) as [s' r'] eqn:Er. intros [= <- <-].
  apply to_event_valid in Ee as Hvk. destruct Hvk as [Hv Hk].
  pose proof (record_event_spec _ _ _ _ _ Hs Hv Hk (Hf e eq_refl) Er) as Hr.
  destruct r' as [u|]; simpl; [|done]. eauto.
Qed.

Lemma run_recorded svc t st who op :
  cases_inv (st_cases st) -> es_inv (st_audit st) ->
  (forall e, step_event svc t st who op e -> ids_fresh (st_audit st) e) ->
  let '(st', r) := run svc t st who op in
  match r with
  | Ok c => bt_get (op_case svc op) (cases (st_cases st')) = Some c
      /\ exists e, to_event (op_step svc who op c) (cs_source svc) (cs_parser svc) = Ok e
           /\ recorded (st_audit st) (st_audit st') e (t_record t)
  | Err _ => st_audit st' = st_audit st
  end.
Proof.
  intros Hi Hs Hf. pose proof (run_effect svc t st who op Hi) as He. unfold step_event in Hf.
  destruct (run svc t st who op) as [st' r]. simpl in He, Hf.
  destruct He as [|c r audit Hc Hid Er]; [done|]. simpl in Hf. rewrite bt_get_insert_eq in Hf.
  pose proof (record_step_spec svc t st _ audit r Hs (fun e He => Hf e (ex_intro _ c (conj eq_refl He))) Er) as Hr.
  destruct r as [u|]; simpl; [|done]. rewrite bt_get_insert_eq. eauto.
Qed.

(** *** When the recording cannot fail *)

(** The encoder does not fail, the service's labels are well formed, and the
    actor's and the case's ids are checked ones. *)
Record auditable svc who (id : CaseId) : Prop := {
  au_json (e : AuditEvent) : is_ok (to_vec e) = true;
  au_label : is_ok (EventProvenance_new Derived (cs_source svc) (cs_parser svc)) = true;
  au_actor : id_wf who;
  au_case : id_wf id
}.

Lemma op_step_case svc who op c : case_id c = op_case svc op -> ls_case (op_step svc who op c) = as_str (op_case svc op).
Proof. destruct op; simpl; congruence. Qed.

Lemma op_step_actor svc who op c : ls_actor (op_step svc who op c) = as_str who.
Proof. by destruct op. Qed.

Lemma to_event_total svc who op c :
  auditable svc who (op_case svc op) -> case_id c = op_case svc op ->
  is_ok (to_event (op_step svc who op c) (cs_source svc) (cs_parser svc)) = true.
Proof.
  intros [_ Hl Ha Hc] Hid. unfold to_event, parse_case, parse_actor.
  rewrite (op_step_case svc who op c Hid), op_step_actor, Hc, Ha. cbn [map_err rbind].
  unfold InvestigationLifecycle_into_audit_event, derived_audit_event_base. simpl.
  by destruct (EventProvenance_new _ _ _).
Qed.

(** An operation is atomic: refused with both stores as they were, or committed
    and recorded. *)
Lemma run_atomic svc t st who op :
  cases_inv (st_cases st) -> es_inv (st_audit st) ->
  (forall e, step_event svc t st who op e -> ids_fresh (st_audit st) e) ->
  auditable svc who (op_case svc op) ->
  let '(st', r) := run svc t st who op in
  (st' = st /\ is_ok r = false)
  \/ exists c e, r = Ok c /\ commits svc t st who op c /\ case_id c = op_case svc op
       /\ cases (st_cases st') = bt_insert (op_case svc op) c (cases (st_cases st))
       /\ to_event (op_step svc who op c) (cs_source svc) (cs_parser svc) = Ok e
       /\ recorded (st_audit st) (st_audit st') e (t_record t).
Proof.
  intros Hi Hs Hf Hau. pose proof (run_effect svc t st who op Hi) as He. unfold step_event in Hf.
  destruct (run svc t st who op) as [st' r]. simpl in He, Hf.
  destruct He as [err|c r audit Hc Hid Er]; [by left | right]. simpl in Hf. rewrite bt_get_insert_eq in Hf.
  pose proof (to_event_total svc who op c Hau Hid) as Ht. unfold record_step in Er.
  destruct (to_event _ _ _) as [e|] eqn:Ee; [|done].
  assert (event_valid e /\ kind e <> RecordCorrected) as [Hv Hk] by by eapply to_event_valid.
  pose proof (au_json _ _ _ Hau e) as Hj. destruct (to_vec e) as [bytes|] eqn:Eb; [|done].
  destruct (record_event_ok (st_audit st) e bytes (t_record t) Hs Hv Hk (Hf e (ex_intro _ c (conj eq_refl Ee))))
    as (s' & E & Hrec); [by unfold event_canonical_bytes, canonical_json; rewrite Eb|].
  rewrite E in Er. injection Er as <- <-. exists c, e. by repeat (split; [done|]).
Qed.
End ServiceProofs.

(** ** Claims *)

(** C9 Nothing changes without authority: an operation of the case service that
    changes either store, or succeeds, was requested by an actor whom the
    authorizer allows to manage investigations on the service's network (a
    refused request leaves both stores as they were). *)
Theorem service_requires_authority {S} `{EventStore S, Sha256, JsonStrings, Serialize AuditEvent}
    svc t (st : State (S := S)) who op :
  cases_inv (st_cases st) ->
  authorized svc t who
  \/ (fst (run svc t st who op) = st /\ is_ok (snd (run svc t st who op)) = false).
Proof.
  intros Hi. destruct (run_effect svc t st who op Hi) as [|c1 r audit Hch]; auto.
  left. by eapply commits_authorized.
Qed.

(** C40 The documentation promises that an administrator can reopen a closed
    case; the service never does: once a case is closed, no operation by anyone
    changes it again, and reopening in particular always fails and changes
    nothing (the closure fields survive the status change, so the case fails
    its own validation). *)
Theorem closed_cases_are_frozen {S} `{EventStore S, Sha256, JsonStrings, Serialize AuditEvent}
    svc t (st : State (S := S)) who op id c :
  cases_inv (st_cases st) -> bt_get id (cases (st_cases st)) = Some c -> case_status c = Closed ->
  let '(st', r) := run svc t st who op in
  bt_get id (cases (st_cases st')) = Some c
  /\ cases_inv (st_cases st')
  /\ (forall reason, op = OpTransition id Open reason -> st' = st /\ is_ok r = false).
Proof.
  intros Hi Hg Hcl. pose proof (run_effect svc t st who op Hi) as He.
  destruct (run svc t st who op) as [st' r] eqn:Er. simpl in He.
  split; [|split; [by eapply effect_inv|]].
  - destruct (effect_case svc t st who op st' r id c He Hi Hg) as (c' & Hg' & [->|[_ Hn]]); done.
  - intros reason ->. simpl in Er. unfold transition, mutate in Er.
    destruct (transition_change svc t st who id Open reason) as [c'|e] eqn:Ec; [|by injection Er as <- <-].
    exfalso. apply transition_changes in Ec as (c0 & Hg0 & _ & Hp).
    assert (c0 = c) as -> by congruence.
    destruct Hp as [[Hn _]|(_ & _ & Hv & why & Hch)]; [done|].
    destruct (ci_closure _ Hi _ _ Hg) as [Hat _]. pose proof (Hat Hcl) as [tm Htm].
    case_inv Hch. unfold case_validate in Hv. simpl in Hv. by rewrite Htm in Hv.
Qed.

(** Case histories are append-only through the service: after any operation
    every case of the store is still there, either unchanged or one method call
    later (so its identity is kept and its timeline, findings, notes and links
    only grow), and the store's invariant is preserved. *)
Theorem service_cases_append_only {S} `{EventStore S, Sha256, JsonStrings, Serialize AuditEvent}
    svc t (st : State (S := S)) who op :
  cases_inv (st_cases st) ->
  let st' := fst (run svc t st who op) in
  cases_inv (st_cases st')
  /\ forall id c, bt_get id (cases (st_cases st)) = Some c ->
       exists c', bt_get id (cases (st_cases st')) = Some c' /\ extends c c' /\ (c' = c \/ case_step c c').
Proof.
  intros Hi. pose proof (run_effect svc t st who op Hi) as He. split; [by eapply effect_inv|].
  intros id c Hg. destruct (effect_case _ _ _ _ _ _ _ id c He Hi Hg) as (c' & Hg' & Hc).
  exists c'. split; [done|]. destruct Hc as [->|[Hs _]]; [split; [apply extends_refl | auto]|].
  split; [by apply step_extends | auto].
Qed.

(** Every successful operation is audited: over any event store that keeps
    the storage contract, an operation that succeeds leaves the audit store
    holding the lifecycle event of exactly this step, having appended at most
    the one record of that event, and the case store holding the case it
    returned; an operation that fails leaves the audit store untouched.  With an
    encoder that does not fail and well-formed labels and ids, an operation is
    atomic: one that fails leaves the case store as it was too. *)
Theorem service_success_is_audited {S} `{EventStore S, Sha256, JsonStrings, Serialize AuditEvent}
    `{!EventStoreLaws S} svc t (st : State (S := S)) who op :
  cases_inv (st_cases st) -> es_inv (st_audit st) ->
  (forall e, step_event svc t st who op e -> ids_fresh (st_audit st) e) ->
  let '(st', r) := run svc t st who op in
  match r with
  | Ok c => bt_get (op_case svc op) (cases (st_cases st')) = Some c
      /\ exists e, to_event (op_step svc who op c) (cs_source svc) (cs_parser svc) = Ok e
           /\ recorded (st_audit st) (st_audit st') e (t_record t)
  | Err _ => st_audit st' = st_audit st /\ (auditable svc who (op_case svc op) -> st' = st)
  end.
Proof.
  intros Hi Hs Hf. pose proof (run_recorded svc t st who op Hi Hs Hf) as Hr.
  pose proof (run_atomic svc t st who op Hi Hs Hf) as Ha.
  destruct (run svc t st who op) as [st' [c|e]]; [done|]. split; [done|]. intros Hau.
  by destruct (Ha Hau) as [[-> _]|(c & ? & ? & _)].
Qed.

Section Witness.
Local Existing Instances toy_sha toy_strings toy_event_json.

(** An administrator, and a stranger the registry does not know. *)
Definition admin1 : AuditorId := mkId (mkStableId "aud" "aud_05").
Definition stranger : AuditorId := mkId (mkStableId "aud" "aud_06").
Definition reg1 : Registry :=
  fst (register Registry_new (with_credential (Credential_new admin1 "k" (mkTimestamp 100))
         (with_scope ScopeAll (Grant_new admin1 Administrator)))).
Definition svc1 : CaseService := mkCaseService testnet "svc" v1 reg1.
Definition rd1 : Readings := mkReadings (mkTimestamp 5) (mkTimestamp 6) (mkTimestamp 7).
Definition closed1 : InvestigationCase :=
  set_closure (mkTimestamp 2) (Some "done") (set_status Closed opened1).

(** A store of one case, and no audit record. *)
Definition one_case (c : InvestigationCase) : State (S := MemoryEventStore) :=
  mkState (mkCaseStore [(case1, c)]) MemoryEventStore_new.

Lemma one_case_inv c : case_id c = case1 -> closure_ok c -> cases_inv (st_cases (one_case c)).
Proof.
  intros Hid Hc. split; simpl.
  - repeat constructor.
  - intros id c'. destruct (compare id case1) eqn:E; try done. apply compare_eq_iff in E as ->. by intros [= <-].
  - intros id c'. destruct (compare id case1); try done. by intros [= <-].
Qed.

Lemma closed1_inv : cases_inv (st_cases (one_case closed1)).
Proof. by apply one_case_inv; [|split; [eauto|]]. Qed.

Lemma opened1_inv : cases_inv (st_cases (one_case opened1)).
Proof. by apply one_case_inv. Qed.

Lemma no_records : es_inv (st_audit (one_case opened1)).
Proof. exact store_inv_new. Qed.

(** A stranger's note is refused; the administrator's is not. *)
Lemma service_requires_authority_witness :
  fst (run svc1 rd1 (one_case opened1) stranger (OpNote case1 "n")) = one_case opened1
  /\ is_ok (snd (run svc1 rd1 (one_case opened1) admin1 (OpNote case1 "n"))) = true.
Proof.
  split; [|reflexivity].
  destruct (service_requires_authority svc1 rd1 (one_case opened1) stranger (OpNote case1 "n") opened1_inv)
    as [(d & Hd & Ha)|[Hs _]]; [|exact Hs].
  exfalso. vm_compute in Hd. injection Hd as <-. discriminate Ha.
Defined.

(** Not even the administrator reopens a closed case. *)
Lemma closed_cases_are_frozen_witness :
  bt_get case1 (cases (st_cases (fst (run svc1 rd1 (one_case closed1) admin1 (OpTransition case1 Open None))))) = Some closed1.
Proof.
  pose proof (closed_cases_are_frozen svc1 rd1 (one_case closed1) admin1 (OpTransition case1 Open None) case1 closed1
                closed1_inv eq_refl eq_refl) as Hc.
  destruct (run svc1 rd1 (one_case closed1) admin1 (OpTransition case1 Open None)) as [st' r]. exact (proj1 Hc).
Defined.

Lemma service_cases_append_only_witness :
  exists c, bt_get case1 (cases (st_cases (fst (run svc1 rd1 (one_case opened1) admin1 (OpNote case1 "n"))))) = Some c
    /\ extends opened1 c.
Proof.
  destruct (proj2 (service_cases_append_only svc1 rd1 (one_case opened1) admin1 (OpNote case1 "n") opened1_inv)
              case1 opened1 eq_refl) as (c & Hg & He & _).
  exists c. split; [exact Hg | exact He].
Defined.

(** The note is kept, and its lifecycle event is in the audit store. *)
Lemma service_success_is_audited_witness :
  let '(st', r) := run svc1 rd1 (one_case opened1) admin1 (OpNote case1 "n") in
  match r with
  | Ok c => exists e, to_event (op_step svc1 admin1 (OpNote case1 "n") c) "svc" v1 = Ok e
              /\ event_id e ∈ map rec_event_id (es_history (st_audit st'))
  | Err _ => False
  end.
Proof.
  assert (forall e, step_event svc1 rd1 (one_case opened1) admin1 (OpNote case1 "n") e ->
                    ids_fresh (st_audit (one_case opened1)) e) as Hf
    by (intros e _ _ bytes _; apply not_elem_of_nil).
  pose proof (service_success_is_audited svc1 rd1 (one_case opened1) admin1 (OpNote case1 "n") opened1_inv no_records Hf) as Hc.
  destruct (run svc1 rd1 (one_case opened1) admin1 (OpNote case1 "n")) as [st' [c|e]] eqn:E.
  - destruct Hc as (_ & e & He & _ & Hin & _). exists e. split; [exact He | exact Hin].
  - vm_compute in E. discriminate E.
Defined.
End Witness.
