(* ===== verification/CaseRecovery.v ===== *)
(** * A crash between the two writes of the case service

    Every operation first commits the case to the case store and then records the
    lifecycle step in the audit store.  This file is about the state a crash
    between the two leaves, and about every sequence of operations after it. *)

From S2P Require Import Prelude Text BTree Errors Identifiers Timestamps Classification.
From S2P Require Import Correlation Events IntegrityModel Records Samples Pagination Storage.
From S2P Require Import MemoryStore MemoryPaging AccessModel Authorization Cases ReportModel Json.
From S2P Require Import Encoding AuditEvents Trail CaseService CaseServiceProofs.
Open Scope list_scope.

Section Recovery.
Context {S : Type} `{EventStore S} `{Sha256} `{JsonStrings} `{Serialize AuditEvent}.
Implicit Types (svc : CaseService) (t : Readings) (st : State (S := S)) (who : AuditorId).

(** The case store has been written and the audit store has not. *)
Definition crashed svc t st who (op : Op) : State :=
  mkState (st_cases (fst (run svc t st who op))) (st_audit st).

(** Operations one after the other, and what each answered. *)
Fixpoint run_all svc st (ops : list (Readings * AuditorId * Op))
  : State * list (AuditorId * Op * InvestigationResult InvestigationCase) :=
  match ops with
  | [] => (st, [])
  | (t, who, op) :: ops =>
      let '(st, r) := run svc t st who op in
      let '(st, log) := run_all svc st ops in
      (st, (who, op, r) :: log)
  end.

(** The step number is the timeline length after the step, as a [u32]. *)
Lemma op_step_sequence svc t st who op c :
  commits svc t st who op c -> ls_sequence (op_step svc who op c) = (zlen (timeline c) mod 2 ^ 32)%Z.
Proof.
  destruct op; simpl; try done. intros (_ & Ho & _). unfold case_open in Ho. by ok_inv.
Qed.

(** The case [id] is there with at least [n] steps behind it. *)
Definition past_step st (id : CaseId) (n : nat) : Prop :=
  exists c, bt_get id (cases (st_cases st)) = Some c /\ (n <= length (timeline c))%nat.

(** A committed operation on such a case takes a later step. *)
Lemma commits_past svc t st who op c n :
  past_step st (op_case svc op) n -> commits svc t st who op c -> (n < length (timeline c))%nat.
Proof.
  intros (c1 & Hg & Hn) [(_ & _ & Hno)|(c0 & Hg0 & Hs & _)]%commits_cases.
  - unfold bt_contains in Hno. by rewrite Hg in Hno.
  - assert (c0 = c1) as -> by congruence. destruct (step_timeline _ _ Hs) as [x ->]. rewrite length_app. simpl. lia.
Qed.

Lemma effect_past svc t st who op st' r id n :
  effect svc t st who op st' r -> past_step st id n -> past_step st' id n.
Proof.
  intros He Hp. destruct He as [|c r audit Hc Hid]; [done|]. unfold past_step. simpl.
  destruct (decide (op_case svc op = id)) as [<-|Hne].
  - exists c. rewrite bt_get_insert_eq. split; [done|]. pose proof (commits_past _ _ _ _ _ _ _ Hp Hc). lia.
  - destruct Hp as (c0 & Hg & Hn). exists c0. by rewrite bt_get_insert_ne.
Qed.

(** Whatever runs later, each success on the case is a later step of it. *)
Lemma run_all_past svc st ops st' log id n :
  cases_inv (st_cases st) -> past_step st id n -> run_all svc st ops = (st', log) ->
  forall who op c, (who, op, Ok c) ∈ log -> op_case svc op = id ->
    (n < length (timeline c))%nat /\ ls_sequence (op_step svc who op c) = (zlen (timeline c) mod 2 ^ 32)%Z.
Proof.
  revert st st' log. induction ops as [|[[t who] op] ops IH]; intros st st' log Hi Hp; simpl.
  { intros [= <- <-] who op c Hin. by apply elem_of_nil in Hin. }
  pose proof (run_effect svc t st who op Hi) as He. destruct (run svc t st who op) as [st1 r]. simpl in He.
  destruct (run_all svc st1 ops) as [st2 log2] eqn:E. intros [= <- <-] who' op' c Hin Hid.
  apply elem_of_cons in Hin as [Hin|Hin].
  - injection Hin as -> -> <-. inversion He as [|c1 r1 audit Hc Hcid Er Est Eres]; subst.
    assert (c1 = c) as -> by (destruct r1; simpl in *; congruence).
    split; [by eapply commits_past | by eapply op_step_sequence].
  - eapply (IH st1); [by eapply effect_inv | by eapply effect_past | exact E | exact Hin | exact Hid].
Qed.

(** After an operation its case is there, at the step it took. *)
Lemma run_past svc t st who op c :
  cases_inv (st_cases st) -> snd (run svc t st who op) = Ok c ->
  commits svc t st who op c /\ case_id c = op_case svc op /\ past_step (crashed svc t st who op) (op_case svc op) (length (timeline c)).
Proof.
  intros Hi Hr. pose proof (run_effect svc t st who op Hi) as He. unfold past_step, crashed.
  destruct (run svc t st who op) as [st' r]. simpl in *. subst r.
  inversion He as [|c1 r1 audit Hc Hcid Er Est Eres]; subst.
  assert (c1 = c) as -> by (destruct r1; simpl in *; congruence). do 2 (split; [done|]).
  exists c. simpl. by rewrite bt_get_insert_eq.
Qed.

(** Opening a case that is there is refused and changes nothing. *)
Lemma open_again svc t st who title priority key c :
  bt_get (op_case svc (OpOpen title priority key)) (cases (st_cases st)) = Some c -> cases_inv (st_cases st) ->
  fst (run svc t st who (OpOpen title priority key)) = st
  /\ is_ok (snd (run svc t st who (OpOpen title priority key))) = false.
Proof.
  intros Hg Hi. destruct (run_effect svc t st who (OpOpen title priority key) Hi) as [e|c1 r audit Hc _ _]; [done|].
  destruct Hc as (_ & _ & Hn). unfold bt_contains in Hn. by rewrite Hg in Hn.
Qed.

(** *** The audit store *)

(** The texts the event id of a step is derived from. *)
Definition step_parts (step : LifecycleStep) : list string :=
  [network_str (ls_network step); "derived:investigation-lifecycle"; ls_case step; ls_actor step;
   "step:" +:+ z_to_string (ls_sequence step)].

Lemma to_event_id step src parser e :
  to_event step src parser = Ok e -> event_id e = derive (step_parts step).
Proof.
  unfold to_event, parse_case, parse_actor. intros He. ok_inv. unfold map_err in *.
  repeat case_match; simplify_eq.
  repeat match goal with E : from_checked _ = Ok _ |- _ => apply from_checked_wf in E as [_ E] end.
  repeat match goal with E : InvestigationLifecycle_into_audit_event _ _ = Ok _ |- _ =>
    apply lifecycle_event_valid in E as (_ & _ & E) end.
  simpl in He. rewrite He, Hok, Hok0. reflexivity.
Qed.

Context `{!EventStoreLaws S}.

(** The record ids of the steps recorded along the way are new ones. *)
Fixpoint fresh_run svc st (ops : list (Readings * AuditorId * Op)) : Prop :=
  match ops with
  | [] => True
  | (t, who, op) :: ops =>
      (forall e, step_event svc t st who op e -> ids_fresh (st_audit st) e)
      /\ fresh_run svc (fst (run svc t st who op)) ops
  end.

(** Every event of the audit store was there, or is a step of the log. *)
Lemma run_all_audit svc st ops st' log id :
  cases_inv (st_cases st) -> es_inv (st_audit st) -> fresh_run svc st ops ->
  run_all svc st ops = (st', log) -> id ∈ map rec_event_id (es_history (st_audit st')) ->
  id ∈ map rec_event_id (es_history (st_audit st))
  \/ exists who op c, (who, op, Ok c) ∈ log /\ case_id c = op_case svc op
       /\ id = derive (step_parts (op_step svc who op c)).
Proof.
  revert st log. induction ops as [|[[t who] op] ops IH]; intros st log Hi Hs Hf; simpl.
  { intros [= <- <-]. by left. }
  destruct Hf as [Hf1 Hf]. pose proof (run_effect svc t st who op Hi) as He.
  pose proof (run_recorded svc t st who op Hi Hs Hf1) as Hr.
  destruct (run svc t st who op) as [st1 r]. simpl in He, Hf. apply effect_inv in He; [|done].
  destruct (run_all svc st1 ops) as [st2 log2] eqn:E. intros [= <- <-] Hin.
  assert (es_inv (st_audit st1)) as Hs1 by (destruct r; [by destruct Hr as (_ & e & _ & ? & _) | by rewrite Hr]).
  destruct (IH st1 log2 He Hs1 Hf E Hin) as [Hold|(who' & op' & c' & Hl & Hid & ->)].
  2:{ right. exists who', op', c'. split; [by constructor | done]. }
  destruct r as [c|e]; [|left; by rewrite <- Hr].
  destruct Hr as (Hg & e & Ee & _ & _ & [Hsame|(bytes & _ & Hh)]); [left; by rewrite <- Hsame|].
  rewrite Hh in Hold. simpl in Hold. apply elem_of_cons in Hold as [->|Hold]; [|by left]. right.
  exists who, op, c. split; [by constructor|]. split; [by apply (ci_key _ He)|]. by apply to_event_id in Ee.
Qed.

(** The operations of the log are those that were run. *)
Lemma run_all_ops svc st ops st' log who op r :
  run_all svc st ops = (st', log) -> (who, op, r) ∈ log -> op ∈ map snd ops.
Proof.
  revert st st' log. induction ops as [|[[t who1] op1] ops IH]; intros st st' log; simpl.
  { intros [= <- <-] Hin. by apply elem_of_nil in Hin. }
  destruct (run svc t st who1 op1) as [st1 r1]. destruct (run_all svc st1 ops) as [st2 log2] eqn:E.
  intros [= <- <-] [[= -> -> ->]|Hin]%elem_of_cons; constructor. by eapply IH.
Qed.
End Recovery.

(** Steps with the same parts are of the same case and have the same number. *)
Lemma step_parts_inj s s' :
  step_parts s = step_parts s' -> ls_case s = ls_case s' /\ ls_sequence s = ls_sequence s'.
Proof.
  unfold step_parts. intros [= _ Hc _ Hn]. split; [done|].
  by apply z_to_string_eq.
Qed.

(** C23 A step lost in a crash is never recovered.  The documentation says that
    when the service stops between its two writes, re-running the step lets the
    two stores converge.  They do not.  Let an operation succeed, and suppose the
    service had stopped after the write to the case store instead; let any
    operations follow, by anyone.  Then the case store already has the step:
    re-running an opening is refused with nothing changed, and any later success
    on the case, the same operation re-run included, is a later step with a
    larger number.  And the event of the lost step, which the uninterrupted run
    leaves in the audit store, is not in the audit store at the end if it was not
    at the start, unless it shares its shortened hash with a different later step
    (the texts the two ids are derived from are named).  Assumed: the audit store
    keeps the storage contract and the record ids of the steps recorded on the way
    do not collide with stored ones; case ids are well formed; no case grows to
    2^32 entries, where the number wraps. *)
Theorem lost_step_stays_lost {S} `{EventStore S, Sha256, SerdeStrings, Serialize AuditEvent}
    `{!EventStoreLaws S} svc t (st : State (S := S)) who op c lost ops st' log :
  cases_inv (st_cases st) -> es_inv (st_audit st) ->
  snd (run svc t st who op) = Ok c ->
  to_event (op_step svc who op c) (cs_source svc) (cs_parser svc) = Ok lost ->
  event_id lost ∉ map rec_event_id (es_history (st_audit st)) ->
  run_all svc (crashed svc t st who op) ops = (st', log) ->
  fresh_run svc st [(t, who, op)] -> fresh_run svc (crashed svc t st who op) ops ->
  id_wf (op_case svc op) -> Forall (fun op' => id_wf (op_case svc op')) (map snd ops) ->
  (forall who' op' c', (who', op', Ok c') ∈ log -> (zlen (timeline c') < 2 ^ 32)%Z) ->
  (forall title priority key t' who', op = OpOpen title priority key ->
     let '(again, r) := run svc t' (crashed svc t st who op) who' op in
     again = crashed svc t st who op /\ is_ok r = false)
  /\ (forall who' op' c', (who', op', Ok c') ∈ log -> op_case svc op' = op_case svc op ->
       (length (timeline c) < length (timeline c'))%nat
       /\ (ls_sequence (op_step svc who op c) < ls_sequence (op_step svc who' op' c'))%Z)
  /\ event_id lost ∈ map rec_event_id (es_history (st_audit (fst (run svc t st who op))))
  /\ (event_id lost ∉ map rec_event_id (es_history (st_audit st'))
      \/ exists who' op' c', (who', op', Ok c') ∈ log
           /\ short_clash (json_strings (step_parts (op_step svc who op c)))
                (json_strings (step_parts (op_step svc who' op' c')))).
Proof.
  intros Hi Hs Hr Hl Hn Hall [Hf1 _] Hf Hwf Hwfs Hb. destruct (run_past svc t st who op c Hi Hr) as (Hc & Hid & Hp).
  assert (cases_inv (st_cases (crashed svc t st who op))) as Hic
    by exact (effect_inv _ _ _ _ _ _ _ (run_effect svc t st who op Hi) Hi).
  assert (forall who' op' c', (who', op', Ok c') ∈ log -> op_case svc op' = op_case svc op ->
    (length (timeline c) < length (timeline c'))%nat
    /\ (ls_sequence (op_step svc who op c) < ls_sequence (op_step svc who' op' c'))%Z) as Hlater.
  { intros who' op' c' Hin Hsame. specialize (Hb _ _ _ Hin).
    destruct (run_all_past svc _ ops st' log _ _ Hic Hp Hall who' op' c' Hin Hsame) as [Hlt ->].
    split; [done|]. rewrite (op_step_sequence _ _ _ _ _ _ Hc). unfold zlen in *. rewrite !Z.mod_small by lia. lia. }
  split; [|split; [exact Hlater|split]].
  - intros title priority key t' who' ->. pose proof Hp as (c1 & Hg & _).
    pose proof (open_again svc t' _ who' title priority key c1 Hg Hic) as Ho.
    by destruct (run svc t' _ who' (OpOpen title priority key)).
  - pose proof (run_recorded svc t st who op Hi Hs Hf1) as Hrec. destruct (run svc t st who op) as [st1 r].
    simpl in Hr. subst r. destruct Hrec as (_ & e & Ee & _ & Hin & _). simpl. congruence.
  - destruct (decide (event_id lost ∈ map rec_event_id (es_history (st_audit st')))) as [Hin|]; [|by left]. right.
    destruct (run_all_audit svc _ ops st' log _ Hic Hs Hf Hall Hin) as [|(who' & op' & c' & Hin' & Hid' & E)]; [done|].
    exists who', op', c'. split; [done|]. rewrite (to_event_id _ _ _ _ Hl) in E.
    apply derive_inj in E as [[Ec Eq]%step_parts_inj|]; [exfalso|done].
    rewrite !op_step_case in Ec by done. rewrite Forall_forall in Hwfs.
    destruct (Hlater who' op' c' Hin') as [_ Hlt]; [|lia]. symmetry. apply id_wf_inj; [done| |done].
    apply Hwfs. by eapply run_all_ops.
Qed.

Section Witness.
#[local] Existing Instances sum_sha json_text_strings toy_event_json.
#[local] Instance text_strings : SerdeStrings.
Proof. by intros l. Qed.

(** A note is added and its recording lost; the note is added again. *)
Definition note1 : Op := OpNote case1 "n".
Definition retry : list (Readings * AuditorId * Op) := [(rd1, admin1, note1)].
Definition noted : InvestigationCase :=
  Eval vm_compute in match snd (run svc1 rd1 (one_case opened1) admin1 note1) with Ok c => c | Err _ => opened1 end.
Definition noted_again : InvestigationCase :=
  Eval vm_compute in
    match snd (run svc1 rd1 (crashed svc1 rd1 (one_case opened1) admin1 note1) admin1 note1) with
    | Ok c => c | Err _ => opened1 end.

(** No record of the empty audit store has the new record's id. *)
Lemma no_record_fresh (st : State (S := MemoryEventStore)) t :
  st_audit st = MemoryEventStore_new -> fresh_run svc1 st [(t, admin1, note1)].
Proof. intros E. split; [|done]. intros e _ _ bytes _. rewrite E. apply not_elem_of_nil. Qed.

(** The second attempt is step 2; step 1, which an uninterrupted run would have
    recorded, is not in the audit store. *)
Lemma lost_step_stays_lost_witness :
  exists lost,
    to_event (op_step svc1 admin1 note1 noted) "svc" v1 = Ok lost
    /\ event_id lost ∈ map rec_event_id (es_history (st_audit (fst (run svc1 rd1 (one_case opened1) admin1 note1))))
    /\ event_id lost ∉ map rec_event_id
         (es_history (st_audit (fst (run_all svc1 (crashed svc1 rd1 (one_case opened1) admin1 note1) retry))))
    /\ ls_sequence (op_step svc1 admin1 note1 noted) = 1%Z
    /\ ls_sequence (op_step svc1 admin1 note1 noted_again) = 2%Z.
Proof.
  destruct (to_event (op_step svc1 admin1 note1 noted) "svc" v1) as [lost|] eqn:El; [|vm_compute in El; discriminate El].
  exists lost. split; [reflexivity|].
  destruct (run_all svc1 (crashed svc1 rd1 (one_case opened1) admin1 note1) retry) as [st' log] eqn:Ea.
  assert (snd (run svc1 rd1 (one_case opened1) admin1 note1) = Ok noted) as Er by (vm_compute; reflexivity).
  assert (log = [(admin1, note1, Ok noted_again)]) as Elog by (vm_compute in Ea; injection Ea as _ <-; reflexivity).
  destruct (lost_step_stays_lost svc1 rd1 (one_case opened1) admin1 note1 noted lost retry st' log opened1_inv
              no_records Er El (not_elem_of_nil _) Ea
              (no_record_fresh (one_case opened1) rd1 eq_refl)
              (no_record_fresh (crashed svc1 rd1 (one_case opened1) admin1 note1) rd1 eq_refl) eq_refl
              ltac:(repeat constructor)) as (_ & _ & Hin & Hout).
  - rewrite Elog. intros who op c [= -> -> ->]%list_elem_of_singleton. reflexivity.
  - split; [exact Hin|]. split; [|split; reflexivity]. destruct Hout as [Hout|(who & op & c & Hc & Hclash)]; [exact Hout|].
    rewrite Elog in Hc. apply list_elem_of_singleton in Hc. injection Hc as -> -> ->.
    destruct Hclash as [_ Hclash]. vm_compute in Hclash. discriminate Hclash.
Defined.
End Witness.
