(* ===== verification/Reporting.v ===== *)
(** * Reporting ([crates/reporting])

    Report generation: authorization, the full paginated scan, the filters the
    store cannot express, the summary counters, the digest and the trail event. *)

From S2P Require Import Prelude Text BTree Errors Identifiers Timestamps Classification.
From S2P Require Import Correlation Events IntegrityModel Records Samples Pagination Storage.
From S2P Require Import MemoryStore MemoryPaging Integrity AccessModel Authorization Cases.
From S2P Require Import ReportModel AuditEvents Trail.
Open Scope nat_scope.
Open Scope list_scope.

Inductive ReportingError : Type :=
| RepNotAuthorized (actor d : string)
| InvalidRequest (d : string)
| UnsupportedKind (k : ReportKind)
| RepStore (d : string)
| RepIntegrity (d : string)
| RepEventRecord (d : string)
| RepInternal (d : string).

Definition ReportingResult (T : Type) : Type := result T ReportingError.

Definition rep_from_core (e : AuditError) : ReportingError := RepInternal (AuditError_to_string e).

(** ** Queries ([query.rs]) *)

Definition opt_with {A} (o : option A) (f : A -> AuditQueryBuilder -> AuditQueryBuilder)
    (b : AuditQueryBuilder) : AuditQueryBuilder :=
  match o with Some x => f x b | None => b end.

Definition inverted_time (r : TimeRange) : bool :=
  match tr_start r, tr_end r with
  | Some s, Some e => (unix_seconds e <? unix_seconds s)%Z
  | _, _ => false
  end.

Definition to_audit_query (q : ReportQuery) : AuditResult AuditQuery :=
  if is_some_and (rq_time_range q) inverted_time
  then Err (InvalidQuery "report query time range starts after it ends")
  else
    let b := AuditQuery_builder in
    let? b :=
      match rq_network q with
      | Some n => let? n := NetworkId_new n in Ok (with_network n b)
      | None => Ok b
      end in
    let b := match rq_tokens q with [t] => with_token t b | _ => b end in
    let b := opt_with (rq_account q) (fun a => with_account (account_str a)) b in
    let b := opt_with (rq_outcome q) with_decision b in
    let b := match rq_event_kinds q with [] => b | ks => with_event_kinds ks b end in
    let b := opt_with (rq_time_range q) with_time_range b in
    build b.

(** ** The service ([service.rs], [events.rs]) *)

Definition passes_filters (record : AuditRecord) (request : ReportRequest) : bool :=
  let q := rr_query request in
  (match rq_tokens q with
   | [] => true
   | tokens => is_some_and (token (event record)) (fun t => bool_decide (t ∈ tokens))
   end)
  && is_none_or (rq_ceiling q) (fun ceiling => negb (is_at_least (classification record) ceiling)).

(** [*map.entry(k).or_default() += 1]. *)
Definition bump {K} `{Compare K} (k : K) (m : BTreeMap K Z) : BTreeMap K Z :=
  bt_insert k (match bt_get k m with Some n => n + 1 | None => 1 end)%Z m.

Definition bump_opt {K} `{Compare K} (k : option K) (m : BTreeMap K Z) : BTreeMap K Z :=
  match k with Some k => bump k m | None => m end.

Definition rec_outcome (r : AuditRecord) : option DecisionResult := outcome (event r).
Definition rec_reason (r : AuditRecord) : option string := option_map reason_str (reason (event r)).

Definition summarize (records : list AuditRecord) : ReportSummary :=
  let step := fun '(o, k, w) record =>
    (bump_opt (rec_outcome record) o, bump (rec_kind record) k, bump_opt (rec_reason record) w) in
  let '(by_outcome, by_kind, by_reason) := fold_left step records ([], [], []) in
  mkReportSummary (zlen records) by_outcome by_kind by_reason.

Section Reporting.
Context {S : Type} `{EventStore S} `{Sha256} `{JsonStrings} `{Serialize AuditEvent}
  `{Serialize Report} `{Serialize ReportQuery}.

Record ReportService := mkReportService {
  rsv_network : NetworkId;
  rsv_source : string;
  rsv_parser : VersionLabel;
  rsv_generator_version : VersionLabel;
  rsv_registry : Registry;
  rsv_page_size : Z
}.

Definition ReportService_new (network_ : NetworkId) (source : string) (parser gen : VersionLabel)
    (registry : Registry) : ReportService := mkReportService network_ source parser gen registry 100.

Record RepReadings := mkRepReadings { rt_auth : Timestamp; rt_now : Timestamp; rt_record : Timestamp }.

Definition rep_require (svc : ReportService) (t : RepReadings) (who : AuditorId) : ReportingResult unit :=
  let scope := ScopeNetwork (rsv_network svc) in
  let? d := map_err (fun e => RepInternal ("authorizer failure: " +:+ AuthorizationError_to_string e))
              (authorize (rsv_registry svc) (rt_auth t) who GenerateReport scope) in
  if ad_allowed d then Ok tt
  else
    let why := default ACTION_DENIED (ad_reason d) in
    Err (RepNotAuthorized (as_str who) ("cannot generate reports: " +:+ why)).

Definition supported_kinds : list ReportKind :=
  [ComplianceActivity; ApprovedTransactions; DeniedTransactions; FlaggedTransactions;
   EnforcementActivity; AccountActivity; TokenActivity; Investigations; Incidents; EvidenceSummary;
   IntegrityVerification].

Definition validate_request (request : ReportRequest) : ReportingResult unit :=
  if negb (bool_decide (rr_kind request ∈ supported_kinds)) then Err (UnsupportedKind (rr_kind request))
  else
    match rq_ceiling (rr_query request) with
    | Some ceiling =>
        match ceiling with
        | Public | Operational =>
            Err (InvalidRequest ("classification ceiling " +:+ DataClassification_as_str ceiling
                                   +:+ " would not protect anything"))
        | _ => Ok tt
        end
    | None => Ok tt
    end.

(** The paging loop.  [None]: the fuel ran out, or a cursor could not be built. *)
Fixpoint scan (fuel : nat) (svc : ReportService) (audit : S) (q : AuditQuery) (all : list AuditRecord)
    (cursor : option Cursor) : option (ReportingResult (list AuditRecord)) :=
  match fuel with
  | O => None
  | Datatypes.S fuel =>
      match PageRequest_with_cursor (rsv_page_size svc) cursor with
      | Err e => Some (Err (InvalidRequest (AuditError_to_string e)))
      | Ok request =>
          match es_query audit q request with
          | None => None
          | Some (Err e) => Some (Err (RepStore (StoreError_to_string e)))
          | Some (Ok page) =>
              let next := page_next_cursor page in
              let all := all ++ page_items page in
              match next with
              | None => Some (Ok all)
              | Some _ => scan fuel svc audit q all next
              end
          end
      end
  end.

(** One page per hundred records at most, so one step per record is enough. *)
Definition scan_fuel (audit : S) : nat := Datatypes.S (es_len audit).

Definition derive_report_id (svc : ReportService) (request : ReportRequest) : ReportId :=
  let canonical_query := match canonical_json (rr_query request) with
                         | Ok s => s
                         | Err _ => "unqueryable"
                         end in
  derive [network_str (rsv_network svc); ReportKind_as_str (rr_kind request); canonical_query].

Definition record_report (lifecycle : ReportLifecycle) (now : Timestamp) (store : S)
  : S * ReportingResult unit :=
  match ReportLifecycle_into_audit_event lifecycle EventSlot_default with
  | Err e => (store, Err (RepEventRecord (EventError_to_string e)))
  | Ok e =>
      let '(store', r) := record_event store e now in
      (store', map_err RepEventRecord r)
  end.

(** Everything [generate] computes before recording its event. *)
Definition prepare (svc : ReportService) (t : RepReadings) (request : ReportRequest)
    (records : list AuditRecord) : ReportingResult Report :=
  let covered := List.filter (fun r => passes_filters r request) records in
  let report_id := derive_report_id svc request in
  let summary := summarize covered in
  let rows := omap (fun r => transaction (event r)) covered in
  let versions := mkGeneratorVersions REPORT_SCHEMA_VERSION (rsv_parser svc) (rsv_generator_version svc) in
  let report := with_summary summary (with_rows rows (with_generated_by (rr_requested_by request)
                  (Report_new report_id (rr_kind request) (rt_now t) (rr_query request) versions))) in
  let? bytes := map_err rep_from_core (report_canonical_bytes report) in
  let report := report_with_digest (hash_bytes bytes) report in
  let? _ := map_err rep_from_core (Report_validate report) in
  Ok report.

Definition lifecycle_of (svc : ReportService) (request : ReportRequest) (report : Report) : ReportLifecycle :=
  mkReportLifecycle (rsv_network svc) (rsv_source svc) (rsv_parser svc) (rp_report_id report)
    (rr_kind request) (rs_total_records (rp_summary report)) (rp_digest report).

Definition generate (svc : ReportService) (t : RepReadings) (audit : S) (request : ReportRequest)
  : option (S * ReportingResult Report) :=
  match rep_require svc t (rr_requested_by request), validate_request request with
  | Err e, _ => Some (audit, Err e)
  | Ok _, Err e => Some (audit, Err e)
  | Ok _, Ok _ =>
      match map_err (fun e => InvalidRequest (AuditError_to_string e)) (to_audit_query (rr_query request)) with
      | Err e => Some (audit, Err e)
      | Ok q =>
          match scan (scan_fuel audit) svc audit q [] None with
          | None => None
          | Some (Err e) => Some (audit, Err e)
          | Some (Ok records) =>
              match prepare svc t request records with
              | Err e => Some (audit, Err e)
              | Ok report =>
                  let '(audit', r) := record_report (lifecycle_of svc request report) (rt_record t) audit in
                  Some (audit', let? _ := r in Ok report)
              end
          end
      end
  end.
End Reporting.
