(* ===== verification/ReportingProofs.v ===== *)
(** * Reporting: completeness, exactness, reproducibility *)

From Stdlib Require Import Btauto.
From S2P Require Import Prelude Text BTree Errors Identifiers Timestamps Classification.
From S2P Require Import Correlation Events IntegrityModel Records Samples Pagination Storage.
From S2P Require Import MemoryStore MemoryPaging Integrity AccessModel Authorization Cases.
From S2P Require Import ReportModel AuditEvents Trail Reporting.
Open Scope nat_scope.
Open Scope list_scope.

(** ** The scan *)

Lemma resume_point_app served page r :
  last page = Some r -> resume_point (served ++ page) (to_cursor (PositionKey_of r)).
Proof. intros Hl. unfold resume_point. rewrite last_app, Hl. done. Qed.

Lemma last_take_Some {A} (l : list A) n :
  0 < n -> 0 < length l -> exists x, last (take n l) = Some x /\ x ∈ l.
Proof.
  intros Hn Hl. destruct (last (take n l)) as [x|] eqn:E.
  - exists x. split; [done|]. apply last_Some_elem_of in E. rewrite <- (take_drop n l). set_solver.
  - apply last_None in E. destruct l, n; simpl in *; try lia; done.
Qed.

Section Scan.
Context {S : Type} `{EventStoreLaws S} `{Sha256, JsonStrings}.

Lemma scan_rest svc audit q fuel served rest c :
  es_inv audit -> Forall (fun r => key_wf (PositionKey_of r)) (es_history audit) ->
  (1 <= rsv_page_size svc <= MAX_PAGE_SIZE)%Z ->
  query_view q (es_history audit) = served ++ rest -> resume_point served c ->
  length rest < fuel ->
  scan fuel svc audit q served c = Some (Ok (query_view q (es_history audit))).
Proof.
  intros Hs Hwf Hp. revert served rest c.
  induction fuel as [|fuel IH]; intros served rest c Hv Hc Hfuel; [lia|].
  simpl. unfold PageRequest_with_cursor.
  rewrite (proj2 (andb_true_iff _ _)) by (rewrite !Z.leb_le; lia). cbn [negb].
  rewrite (es_query_serves audit q (rsv_page_size svc) served rest c Hs Hwf Hp Hv Hc).
  set (n := Z.to_nat (rsv_page_size svc)). assert (0 < n) by (unfold n; lia).
  unfold serve. simpl. destruct (Nat.ltb_spec n (length rest)) as [Hlt|Hge].
  - destruct (last_take_Some rest n) as (r & Hr & Hin); [lia | lia |]. rewrite Hr.
    assert (key_wf (PositionKey_of r)) as Hk by (apply (view_key_wf q (es_history audit)); [done|];
      rewrite Hv; set_solver).
    pose proof (to_cursor_wf _ Hk) as Ec. rewrite Ec.
    apply (IH (served ++ take n rest) (drop n rest)).
    + by rewrite Hv, <- app_assoc, take_drop.
    + rewrite <- Ec. by apply resume_point_app.
    + rewrite length_drop. lia.
  - by rewrite take_ge, Hv.
Qed.

Lemma view_length q h : length (query_view q h) <= length h.
Proof.
  unfold query_view. destruct (q_sort q); [|rewrite <- (length_rev h)]; apply filter_length_le.
Qed.

Lemma scan_complete svc audit q :
  es_inv audit -> Forall (fun r => key_wf (PositionKey_of r)) (es_history audit) ->
  (1 <= rsv_page_size svc <= MAX_PAGE_SIZE)%Z ->
  scan (scan_fuel audit) svc audit q [] None = Some (Ok (query_view q (es_history audit))).
Proof.
  intros Hs Hwf Hp. apply (scan_rest svc audit q _ [] (query_view q (es_history audit))); try done.
  unfold scan_fuel. rewrite es_len_spec by done. pose proof (view_length q (es_history audit)). lia.
Qed.
End Scan.

(** ** What a report selects *)

(** A report query read as a predicate on records. *)
Definition selected (q : ReportQuery) (record : AuditRecord) : bool :=
  let e := event record in
  is_none_or (rq_network q) (fun n => String.eqb (network_str (network e)) n)
  && (match rq_tokens q with
      | [] => true
      | ts => is_some_and (token e) (fun t => bool_decide (t ∈ ts))
      end)
  && is_none_or (rq_account q) (fun a => involves_account e (account_str a))
  && is_none_or (rq_outcome q) (fun d =>
       bool_decide (outcome e = Some d) || is_some_and (decision e) (fun x => bool_decide (pdr_result x = d)))
  && (match rq_event_kinds q with [] => true | ks => bool_decide (kind e ∈ ks) end)
  && is_none_or (rq_time_range q) (fun r => TimeRange_contains r (default (recorded_at record) (observed_at e)))
  && is_none_or (rq_ceiling q) (fun c => negb (class_le c (classification record))).

Lemma network_eqb n s e :
  NetworkId_new s = Ok n -> bool_decide (network e = n) = String.eqb (network_str (network e)) s.
Proof.
  unfold NetworkId_new. intros Hn. ok_inv. destruct (String.eqb_spec (network_str (network e)) s) as [E|E].
  - apply bool_decide_eq_true. destruct (network e). simpl in E. congruence.
  - apply bool_decide_eq_false. intros Hn. apply E. by rewrite Hn.
Qed.

Lemma build_Ok_inv b q : build b = Ok q -> q = build_unchecked b.
Proof.
  unfold build. destruct (b_network b), (b_token b); try case_decide; by intros [= <-].
Qed.

Lemma selected_iff rq q request r :
  rr_query request = rq -> to_audit_query rq = Ok q ->
  matches q r && passes_filters r request = selected rq r.
Proof.
  intros Hr Hq. unfold to_audit_query in Hq. ok_inv. unfold passes_filters. rewrite Hr. clear Hr.
  match goal with H : build ?b = Ok q |- _ => apply build_Ok_inv in H; subst q end.
  assert (is_none_or (b_network v) (fun n => bool_decide (network (event r) = n))
          = is_none_or (rq_network rq) (fun n => String.eqb (network_str (network (event r))) n)
          /\ v = mkAuditQueryBuilder (b_network v) None None None None None [] None Ascending) as [Hn Hv].
  { destruct (rq_network rq) as [s|]; ok_inv; [|done]. split; [|done]. simpl. by apply network_eqb. }
  assert (forall t, bool_decide (token (event r) = Some t)
            = is_some_and (token (event r)) (fun x => bool_decide (x ∈ [t]))) as Htok.
  { intros t. destruct (token (event r)) as [x|]; simpl; [|done].
    apply bool_decide_ext. rewrite list_elem_of_singleton. split; congruence. }
  unfold matches, selected, opt_with, is_at_least. rewrite Hv, <- Hn. clear - Htok.
  destruct rq as [tr n toks kinds out acc ceil]. simpl.
  destruct toks as [|t [|t' toks]], acc, out, kinds, tr; simpl; try rewrite Htok; btauto.
Qed.

(** ** Counters *)

Section Counters.
Context {K : Type} `{CompareLaws K} `{EqDecision K}.

(** How many records have the key. *)
Definition count_key (f : AuditRecord -> option K) (k : K) (l : list AuditRecord) : Z :=
  zlen (List.filter (fun r => bool_decide (f r = Some k)) l).

(** The counter an accumulating map holds for a key: absent means zero. *)
Definition counter (m : BTreeMap K Z) (k : K) : Z := match bt_get k m with Some n => n | None => 0 end.

Lemma counter_bump k k' m : counter (bump k m) k' = (counter m k' + if decide (k = k') then 1 else 0)%Z.
Proof.
  unfold counter, bump. case_decide as Hk; [subst k'|].
  - rewrite bt_get_insert_eq. destruct (bt_get k m); lia.
  - rewrite bt_get_insert_ne by done. lia.
Qed.

Lemma bump_fold (f : AuditRecord -> option K) l m k :
  counter (fold_left (fun m r => bump_opt (f r) m) l m) k = (counter m k + count_key f k l)%Z.
Proof.
  revert m. induction l as [|r l IH]; intros m; simpl.
  - unfold count_key, zlen. simpl. lia.
  - rewrite IH. unfold count_key, zlen. simpl. unfold bump_opt.
    destruct (f r) as [k'|]; [rewrite counter_bump; case_decide; case_bool_decide; simpl; try congruence; lia|].
    rewrite bool_decide_false by done. lia.
Qed.

(** Every entry counts something. *)
Lemma bump_positive (f : AuditRecord -> option K) l m :
  Forall (fun p => (1 <= snd p)%Z) m ->
  Forall (fun p => (1 <= snd p)%Z) (fold_left (fun m r => bump_opt (f r) m) l m).
Proof.
  revert m. induction l as [|r l IH]; intros m Hm; simpl; [done|]. apply IH.
  unfold bump_opt. destruct (f r) as [k|]; [|done]. apply bt_insert_Forall; [|done]. simpl.
  destruct (bt_get k m) as [n|] eqn:E; [|lia]. apply bt_get_Some_In, list_elem_of_In in E.
  rewrite Forall_forall in Hm. apply Hm in E. simpl in E. lia.
Qed.
End Counters.

Definition some_kind (r : AuditRecord) : option EventKind := Some (rec_kind r).

Lemma summarize_fold l o k w :
  fold_left (fun '(o, k, w) record =>
    (bump_opt (rec_outcome record) o, bump (rec_kind record) k, bump_opt (rec_reason record) w)) l (o, k, w)
  = (fold_left (fun m r => bump_opt (rec_outcome r) m) l o,
     fold_left (fun m r => bump_opt (some_kind r) m) l k,
     fold_left (fun m r => bump_opt (rec_reason r) m) l w).
Proof. revert o k w. induction l as [|r l IH]; intros o k w; simpl; [done|]. apply IH. Qed.

(** The summary counts exactly: the total is the number of records, and for
    every outcome, kind and reason the counter is the number of records with it
    (absent counters are zero, present ones at least one); the per-kind
    counters therefore partition the records. *)
Theorem summarize_exact l :
  let s := summarize l in
  rs_total_records s = zlen l
  /\ (forall d, counter (rs_by_outcome s) d = count_key rec_outcome d l)
  /\ (forall k, counter (rs_by_kind s) k = count_key some_kind k l)
  /\ (forall w, counter (rs_by_reason s) w = count_key rec_reason w l)
  /\ Forall (fun p => (1 <= snd p)%Z) (rs_by_outcome s)
  /\ Forall (fun p => (1 <= snd p)%Z) (rs_by_kind s)
  /\ Forall (fun p => (1 <= snd p)%Z) (rs_by_reason s).
Proof.
  unfold summarize. rewrite summarize_fold. cbn [rs_total_records rs_by_outcome rs_by_kind rs_by_reason].
  split; [done|]. split; [intros d; apply (bump_fold rec_outcome l [] d)|].
  split; [intros k; apply (bump_fold some_kind l [] k)|].
  split; [intros w; apply (bump_fold rec_reason l [] w)|].
  split; [by apply (bump_positive rec_outcome)|].
  split; [by apply (bump_positive some_kind) | by apply (bump_positive rec_reason)].
Qed.

(** ** Claims *)

Section Claims.
Context {S : Type} `{EventStoreLaws S} `{Sha256, JsonStrings, Serialize AuditEvent, Serialize Report,
  Serialize ReportQuery}.

(** Reading page by page reads everything, once, in order: over any store
    that keeps the storage contract (and position keys that fit a cursor),
    the paging loop of the report service terminates within one page request
    per stored record and returns exactly the matching history, in position
    order for an ascending query and in reverse for a descending one. *)
Theorem paged_scan_complete svc audit q :
  es_inv audit -> Forall (fun r => key_wf (PositionKey_of r)) (es_history audit) ->
  (1 <= rsv_page_size svc <= MAX_PAGE_SIZE)%Z ->
  scan (scan_fuel audit) svc audit q [] None = Some (Ok (query_view q (es_history audit))).
Proof. apply scan_complete. Qed.

Lemma rep_require_Ok svc t who u :
  rep_require svc t who = Ok u ->
  exists d, authorize (rsv_registry svc) (rt_auth t) who GenerateReport (ScopeNetwork (rsv_network svc)) = Ok d
            /\ ad_allowed d = true.
Proof. unfold rep_require. intros Hr. ok_inv. eauto. Qed.

Lemma view_filter_ascending q h p : q_sort q = Ascending ->
  List.filter p (query_view q h) = List.filter (fun r => matches q r && p r) h.
Proof.
  intros Ha. unfold query_view. rewrite Ha. induction h as [|r h IH]; simpl; [done|].
  destruct (matches q r); simpl; [destruct (p r)|]; by rewrite ?IH.
Qed.

Lemma to_audit_query_sort rq q : to_audit_query rq = Ok q -> q_sort q = Ascending.
Proof.
  unfold to_audit_query. intros Hq. ok_inv. apply build_Ok_inv in Hq as ->.
  assert (b_sort v = Ascending) as Hv by (destruct (rq_network rq); by ok_inv).
  unfold opt_with. destruct (rq_tokens rq) as [|? []], (rq_account rq), (rq_outcome rq),
    (rq_event_kinds rq), (rq_time_range rq); simpl; done.
Qed.

(** The trail event a run on this store would record. *)
Definition report_event (svc : ReportService) (t : RepReadings) (audit : S) (request : ReportRequest)
    (e : AuditEvent) : Prop :=
  exists q report, to_audit_query (rr_query request) = Ok q
    /\ prepare svc t request (query_view q (es_history audit)) = Ok report
    /\ ReportLifecycle_into_audit_event (lifecycle_of svc request report) EventSlot_default = Ok e.

Lemma generate_spec svc t audit request :
  es_inv audit -> Forall (fun r => key_wf (PositionKey_of r)) (es_history audit) ->
  (1 <= rsv_page_size svc <= MAX_PAGE_SIZE)%Z ->
  (forall e, report_event svc t audit request e -> ids_fresh audit e) ->
  let covered := List.filter (selected (rr_query request)) (es_history audit) in
  exists audit' res, generate svc t audit request = Some (audit', res)
    /\ match res with
       | Err _ => audit' = audit
       | Ok report =>
           (exists d, authorize (rsv_registry svc) (rt_auth t) (rr_requested_by request) GenerateReport
                        (ScopeNetwork (rsv_network svc)) = Ok d /\ ad_allowed d = true)
           /\ rp_summary report = summarize covered
           /\ rp_record_refs report = omap (fun r => transaction (event r)) covered
           /\ (exists bytes, report_canonical_bytes report = Ok bytes
                             /\ rp_digest report = Some (hash_bytes bytes))
           /\ exists e, report_event svc t audit request e /\ recorded audit audit' e (rt_record t)
       end.
Proof.
  intros Hs Hwf Hp Hf covered. unfold generate.
  destruct (rep_require svc t (rr_requested_by request)) as [u|] eqn:Er; [|by do 2 eexists].
  destruct (validate_request request) as [u'|]; [|by do 2 eexists].
  destruct (to_audit_query (rr_query request)) as [q|] eqn:Eq; [|by do 2 eexists]. cbn [map_err].
  rewrite scan_complete by done.
  destruct (prepare svc t request _) as [rep|] eqn:Ep; [|by do 2 eexists].
  destruct (record_report _ _ _) as [s' r'] eqn:Erec. do 2 eexists. split; [reflexivity|].
  assert (match r' with Ok _ => exists e, report_event svc t audit request e /\ recorded audit s' e (rt_record t) | Err _ => s' = audit end) as Hrec.
  { unfold record_report in Erec.
    destruct (ReportLifecycle_into_audit_event _ _) as [e|] eqn:Ee; [|by injection Erec as <- <-].
    destruct (record_event _ _ _) as [s2 r2] eqn:Ere. injection Erec as <- <-.
    pose proof (ex_intro _ q (ex_intro _ rep (conj Eq (conj Ep Ee))) : report_event svc t audit request e) as Hre.
    pose proof (Hf e Hre) as Hfe. apply report_event_valid in Ee as [Hv Hk].
    pose proof (record_event_spec _ _ _ _ _ Hs Hv ltac:(by rewrite Hk) Hfe Ere) as Hrec.
    destruct r2; simpl; eauto. }
  destruct r' as [u''|]; [cbn [rbind] | exact Hrec].
  unfold prepare in Ep. ok_inv.
  assert (List.filter (fun r => passes_filters r request) (query_view q (es_history audit)) = covered) as Hc.
  { rewrite view_filter_ascending by by eapply to_audit_query_sort. apply filter_ext.
    intros r. by apply selected_iff. }
  rewrite Hc in *. split; [by eapply rep_require_Ok|]. split; [done|]. split; [done|].
  split; [exists v; split; [exact Hok|done] | exact Hrec].
Qed.

(** *** When a report is given *)

(** [serde_json] encodes reports and events without failing. *)
Record report_json_total `{Serialize AuditEvent} `{Serialize Report} : Prop := {
  rjt_event (e : AuditEvent) : is_ok (to_vec e) = true;
  rjt_report (r : Report) : is_ok (to_vec r) = true
}.

(** Who may ask for which report: the exact condition of success. *)
Record reportable (svc : ReportService) (t : RepReadings) (request : ReportRequest) : Prop := {
  ra_authorized : exists d, authorize (rsv_registry svc) (rt_auth t) (rr_requested_by request) GenerateReport
                              (ScopeNetwork (rsv_network svc)) = Ok d /\ ad_allowed d = true;
  ra_ceiling c : rq_ceiling (rr_query request) = Some c -> c <> Public /\ c <> Operational;
  ra_range r : rq_time_range (rr_query request) = Some r -> inverted_time r = false;
  ra_network n : rq_network (rr_query request) = Some n -> is_ok (NetworkId_new n) = true;
  ra_token n tok : rq_network (rr_query request) = Some n -> rq_tokens (rr_query request) = [tok] ->
    network_str (token_network tok) = n;
  ra_label : is_ok (EventProvenance_new Derived (rsv_source svc) (rsv_parser svc)) = true
}.

Lemma rep_require_ok_iff svc t who :
  is_ok (rep_require svc t who) = true <->
  exists d, authorize (rsv_registry svc) (rt_auth t) who GenerateReport (ScopeNetwork (rsv_network svc)) = Ok d
            /\ ad_allowed d = true.
Proof.
  split; [destruct (rep_require svc t who) eqn:E; [|done]; intros _; by eapply rep_require_Ok|].
  intros (d & E & Hd). unfold rep_require. rewrite E. cbn [map_err rbind]. by rewrite Hd.
Qed.

Lemma validate_request_ok_iff request :
  is_ok (validate_request request) = true <->
  forall c, rq_ceiling (rr_query request) = Some c -> c <> Public /\ c <> Operational.
Proof.
  unfold validate_request. rewrite bool_decide_true by (destruct (rr_kind request); unfold supported_kinds; set_solver).
  cbn [negb]. destruct (rq_ceiling (rr_query request)) as [[]|]; split; try done;
    try (intros Hc; by destruct (Hc _ eq_refl)); intros _ c [= <-]; done.
Qed.

Lemma network_label_eq n label : NetworkId_new label = Ok n -> network_str n = label.
Proof. unfold NetworkId_new. intros Hn. by ok_inv. Qed.

Lemma network_str_inj n n' : network_str n = network_str n' -> n = n'.
Proof. destruct n, n'. simpl. congruence. Qed.

Lemma build_ok_iff b :
  is_ok (build b) = true <-> forall n tok, b_network b = Some n -> b_token b = Some tok -> token_network tok = n.
Proof.
  unfold build. destruct (b_network b) as [n|], (b_token b) as [tok|]; try (by split).
  case_decide as Hd; split; try done.
  - by intros _ ? ? [= <-] [= <-].
  - intros Hn. exfalso. by apply Hd, Hn.
Qed.

(** The filters after the network and the tokens leave both alone. *)
Lemma tail_fields acc out kinds tr v :
  let b := opt_with out with_decision (opt_with acc (fun a => with_account (account_str a)) v) in
  let b := match kinds with [] => b | k :: ks => with_event_kinds (k :: ks) b end in
  let b := opt_with tr with_time_range b in
  b_network b = b_network v /\ b_token b = b_token v.
Proof. by destruct acc, out, kinds, tr. Qed.

Lemma to_audit_query_ok_iff q :
  is_ok (to_audit_query q) = true <->
  (forall r, rq_time_range q = Some r -> inverted_time r = false)
  /\ (forall n, rq_network q = Some n -> is_ok (NetworkId_new n) = true)
  /\ (forall n tok, rq_network q = Some n -> rq_tokens q = [tok] -> network_str (token_network tok) = n).
Proof.
  unfold to_audit_query. destruct q as [tr net toks kinds out acc ceil]. cbn [rq_time_range rq_network rq_tokens rq_account rq_outcome rq_event_kinds].
  destruct (is_some_and tr inverted_time) eqn:Et.
  { split; [done|]. intros [Hr _]. destruct tr as [r|]; [|done]. simpl in Et. specialize (Hr r eq_refl). congruence. }
  assert (forall r, tr = Some r -> inverted_time r = false) as Hr by by intros r ->.
  pose proof (tail_fields acc out kinds tr) as Hfields. cbv zeta in Hfields.
  destruct net as [n|]; [destruct (NetworkId_new n) as [n'|] eqn:En|]; cbn [rbind].
  2: { split; [done|]. intros (_ & Hn & _). specialize (Hn n eq_refl). by rewrite En in Hn. }
  all: rewrite build_ok_iff, (proj1 (Hfields _)), (proj2 (Hfields _)); destruct toks as [|tok [|tok2 toks]]; simpl;
    split; try (intros Hb; split; [done|]; split; [by intros ? [= <-]; rewrite ?En | intros n0 t0 [= <-] [= <-]]);
    try (by intros _ ? ? ? [=]);
    first [ rewrite <- (network_label_eq _ _ En); f_equal; by apply Hb
          | intros (_ & _ & Ht) ? ? [= <-] [= <-]; apply network_str_inj;
            rewrite (network_label_eq _ _ En); by apply Ht ].
Qed.

Lemma prepare_ok svc t request records :
  report_json_total -> is_ok (prepare svc t request records) = true.
Proof.
  intros Hjson. unfold prepare, report_canonical_bytes, canonical_json.
  match goal with |- context [to_vec ?r] => pose proof (rjt_report Hjson r) as Hr; destruct (to_vec r); [|done] end.
  done.
Qed.

Lemma report_lifecycle_ok_iff svc request report :
  is_ok (ReportLifecycle_into_audit_event (lifecycle_of svc request report) EventSlot_default) = true
  <-> is_ok (EventProvenance_new Derived (rsv_source svc) (rsv_parser svc)) = true.
Proof.
  unfold ReportLifecycle_into_audit_event, derived_audit_event_base, lifecycle_of. simpl.
  by destruct (EventProvenance_new _ _ _).
Qed.

Lemma generate_ok_iff svc t audit request audit' res :
  report_json_total -> es_inv audit -> Forall (fun r => key_wf (PositionKey_of r)) (es_history audit) ->
  (1 <= rsv_page_size svc <= MAX_PAGE_SIZE)%Z ->
  (forall e, report_event svc t audit request e -> ids_fresh audit e) ->
  generate svc t audit request = Some (audit', res) ->
  is_ok res = true <-> reportable svc t request.
Proof.
  intros Hjson Hs Hwf Hp Hf. unfold generate.
  pose proof (rep_require_ok_iff svc t (rr_requested_by request)) as Hr.
  destruct (rep_require svc t (rr_requested_by request)) as [u|e].
  2: { intros [= <- <-]. split; [done | intros [Ha ? ? ? ? ?]; by apply Hr in Ha]. }
  pose proof (validate_request_ok_iff request) as Hc.
  destruct (validate_request request) as [u'|e].
  2: { intros [= <- <-]. split; [done | intros [? Ha ? ? ? ?]; by apply Hc in Ha]. }
  pose proof (to_audit_query_ok_iff (rr_query request)) as Hq.
  destruct (to_audit_query (rr_query request)) as [q|e] eqn:Eq; cbn [map_err].
  2: { intros [= <- <-]. split; [done | intros [? ? H1' H2' H3' ?]; by apply Hq]. }
  rewrite scan_complete by done. pose proof (prepare_ok svc t request (query_view q (es_history audit)) Hjson) as Hprep.
  destruct (prepare svc t request _) as [rep|] eqn:Ep; [|done].
  pose proof (report_lifecycle_ok_iff svc request rep) as Hl. unfold record_report.
  destruct (ReportLifecycle_into_audit_event _ _) as [e|err] eqn:Ee.
  2: { intros [= <- <-]. split; [done | intros [? ? ? ? ? Ha]; by apply Hl in Ha]. }
  pose proof (Hf e (ex_intro _ q (ex_intro _ rep (conj Eq (conj Ep Ee))))) as Hfe.
  apply report_event_valid in Ee as [Hv Hk]. pose proof (rjt_event Hjson e) as Hj.
  destruct (to_vec e) as [bytes|] eqn:Eb; [|done].
  destruct (record_event_ok audit e bytes (rt_record t) Hs Hv) as (s' & -> & _); [by rewrite Hk | done | |].
  { unfold event_canonical_bytes, canonical_json. by rewrite Eb. }
  intros [= <- <-]. destruct (proj1 Hq eq_refl) as (Hq1 & Hq2 & Hq3).
  split; [intros _ | done]. constructor; [by apply Hr | by apply Hc | done | done | done | by apply Hl].
Qed.

(** C14 Report generation is exact.  It always answers (the paging loop ends);
    a refusal, whatever its reason, leaves the store as it was; a report exists
    only if its requester may generate reports, its summary and rows are those
    of precisely the stored records the report query selects (network, tokens,
    account, outcome, kinds, time range and strictly below the classification
    ceiling) in history order, its digest is the hash of its canonical content,
    and the store gains at most the report's own trail event.  With an encoder
    that does not fail, the report is given exactly when the requester is
    authorized, the ceiling is not one of the two that protect nothing, the time
    range is not inverted, the network is a well-formed label, and a single
    requested token is on it (the service's source label being well formed). *)
Theorem report_exact svc t audit request :
  es_inv audit -> Forall (fun r => key_wf (PositionKey_of r)) (es_history audit) ->
  (1 <= rsv_page_size svc <= MAX_PAGE_SIZE)%Z ->
  (forall e, report_event svc t audit request e -> ids_fresh audit e) ->
  let covered := List.filter (selected (rr_query request)) (es_history audit) in
  exists audit' res, generate svc t audit request = Some (audit', res)
    /\ match res with
       | Err _ => audit' = audit
       | Ok report =>
           (exists d, authorize (rsv_registry svc) (rt_auth t) (rr_requested_by request) GenerateReport
                        (ScopeNetwork (rsv_network svc)) = Ok d /\ ad_allowed d = true)
           /\ rp_summary report = summarize covered
           /\ rp_record_refs report = omap (fun r => transaction (event r)) covered
           /\ (exists bytes, report_canonical_bytes report = Ok bytes
                             /\ rp_digest report = Some (hash_bytes bytes))
           /\ exists e, report_event svc t audit request e /\ recorded audit audit' e (rt_record t)
       end
    /\ (report_json_total -> is_ok res = true <-> reportable svc t request).
Proof.
  intros Hs Hwf Hp Hf covered.
  destruct (generate_spec svc t audit request Hs Hwf Hp Hf) as (audit' & res & E & Hres).
  exists audit', res. split; [done|]. split; [exact Hres|]. intros Hjson. by eapply generate_ok_iff.
Qed.
End Claims.

Section ReportWitness.
Local Existing Instances toy_sha toy_strings toy_event_json.
Local Instance toy_report_json : Serialize Report := fun r => Ok ("{" +:+ as_str (rp_report_id r) +:+ "}").
Local Instance toy_query_json : Serialize ReportQuery := fun _ => Ok "{}".

Definition aud2 : AuditorId := mkId (mkStableId "aud" "aud_02").
Definition reg2 : Registry :=
  fst (register Registry_new (with_credential (Credential_new aud2 "k" (mkTimestamp 100))
         (with_scope ScopeAll (Grant_new aud2 Administrator)))).
Definition svc2 : ReportService := ReportService_new testnet "rep" v1 v1 reg2.
Definition rt2 : RepReadings := mkRepReadings (mkTimestamp 1) (mkTimestamp 2) (mkTimestamp 3).
Definition request2 : ReportRequest :=
  ReportRequest_new ComplianceActivity ReportQuery_all aud2 (mkTimestamp 1).

(** One stored record. *)
Definition audit2 : MemoryEventStore := fst (insert MemoryEventStore_new (sample_record "0a" 5)).

Lemma audit2_inv : store_inv audit2.
Proof.
  destruct (insert_fresh_spec MemoryEventStore_new (sample_record "0a" 5) store_inv_new eq_refl)
    as (s' & E & Hs & _); [split; apply not_elem_of_nil|].
  unfold audit2. by rewrite E.
Qed.

Lemma audit2_keys : Forall (fun r => key_wf (PositionKey_of r)) (history audit2).
Proof.
  repeat constructor; simpl; try done; unfold in_i64, i64_min, i64_max; lia.
Qed.

Lemma paged_scan_complete_witness :
  scan (scan_fuel audit2) svc2 audit2 (build_unchecked AuditQuery_builder) [] None
  = Some (Ok [sample_record "0a" 5]).
Proof.
  exact (paged_scan_complete svc2 audit2 (build_unchecked AuditQuery_builder) audit2_inv audit2_keys
           ltac:(unfold MAX_PAGE_SIZE; simpl; lia)).
Defined.

Lemma audit2_kept : es_inv audit2.
Proof. exact audit2_inv. Qed.

(** The stored record's id is not a derived one. *)
Lemma audit2_fresh e : report_event svc2 rt2 audit2 request2 e -> ids_fresh audit2 e.
Proof.
  intros _ _ bytes _. change (es_history audit2) with [sample_record "0a" 5]. simpl.
  pose proof (@derived_body_length toy_sha toy_sha_laws bytes) as Hl.
  rewrite list_elem_of_singleton. intros E.
  apply (f_equal (fun i => String.length (as_str i))) in E. simpl in E. rewrite Hl in E. discriminate.
Qed.

Lemma report_exact_witness :
  exists s' report, generate svc2 rt2 audit2 request2 = Some (s', Ok report)
    /\ rs_total_records (rp_summary report) = 1%Z /\ reportable svc2 rt2 request2.
Proof.
  destruct (report_exact svc2 rt2 audit2 request2 audit2_kept audit2_keys
              ltac:(unfold MAX_PAGE_SIZE; simpl; lia) audit2_fresh) as (s' & [report|e] & E & Hr & Hiff).
  - exists s', report. destruct Hr as (_ & Hsum & _). split; [exact E|]. split; [by rewrite Hsum|].
    apply Hiff; [|reflexivity]. split; intros; reflexivity.
  - vm_compute in E. discriminate E.
Defined.

(** The report service's documentation says that re-running the same
    request reproduces the same report; it does not: generating a report
    records a trail event that the same request then selects, so two
    consecutive runs with the very same clock readings count differently. *)
Theorem report_rerun_differs :
  exists svc t request audit s1 r1 s2 r2,
    generate (S := MemoryEventStore) svc t audit request = Some (s1, Ok r1)
    /\ generate (S := MemoryEventStore) svc t s1 request = Some (s2, Ok r2)
    /\ rp_report_id r1 = rp_report_id r2
    /\ rs_total_records (rp_summary r1) <> rs_total_records (rp_summary r2).
Proof.
  exists svc2, rt2, request2, MemoryEventStore_new.
  do 4 eexists. split; [vm_compute; reflexivity|]. split; [vm_compute; reflexivity|].
  split; [vm_compute; reflexivity | vm_compute; discriminate].
Qed.
End ReportWitness.
