(* ===== verification/ReportRerun.v ===== *)
(** * Running a report again

    What a second run of the same request gives, after the first one left its own
    event in the store it reports on. *)

From S2P Require Import Prelude Text BTree Errors Identifiers Timestamps Classification.
From S2P Require Import Correlation Events IntegrityModel Records Samples Pagination Storage.
From S2P Require Import MemoryStore MemoryPaging LivePaging Integrity AccessModel Authorization Cases.
From S2P Require Import ReportModel AuditEvents Trail Reporting ReportingProofs.
From stdpp Require Import sorting.
Open Scope nat_scope.
Open Scope list_scope.

(** ** Histories that grew *)

Lemma filter_perm {A} (p : A -> bool) l l' : l ≡ₚ l' -> List.filter p l ≡ₚ List.filter p l'.
Proof.
  induction 1 as [|x l l' _ IH|x y l|l1 l2 l3 _ IH1 _ IH2]; simpl; [done | | |by etrans].
  - destruct (p x); [by rewrite IH | done].
  - destruct (p x), (p y); try done. apply Permutation_swap.
Qed.

Section Grown.
Context {S : Type} `{EventStoreLaws S}.

Lemma position_lt_irrefl (a : AuditRecord) : compare (PositionKey_of a) (PositionKey_of a) <> Lt.
Proof. by rewrite compare_refl. Qed.

(** A selection of the history the new records miss is the selection it was. *)
Lemma filter_grown (s s' : S) new p :
  es_inv s -> es_inv s' -> es_history s' ≡ₚ new ++ es_history s -> List.filter p new = [] ->
  List.filter p (es_history s') = List.filter p (es_history s).
Proof.
  intros Hs Hs' Hh Hn.
  apply (StronglySorted_unique_strong (fun a b => compare (PositionKey_of a) (PositionKey_of b) = Lt)).
  - intros x y _ _ Hxy Hyx. exfalso. apply (position_lt_irrefl x). by eapply compare_lt_trans.
  - apply StronglySorted_filter, es_history_sorted, Hs'.
  - apply StronglySorted_filter, es_history_sorted, Hs.
  - by rewrite (filter_perm p _ _ Hh), List.filter_app, Hn.
Qed.

Lemma filter_grown_length (s s' : S) new p :
  es_history s' ≡ₚ new ++ es_history s ->
  zlen (List.filter p (es_history s')) = (zlen (List.filter p (es_history s)) + zlen (List.filter p new))%Z.
Proof.
  intros Hh. unfold zlen. rewrite (filter_perm p _ _ Hh), List.filter_app, length_app. lia.
Qed.
End Grown.

(** ** One run *)

Section Run.
Context {S : Type} `{EventStoreLaws S} `{Sha256} `{JsonStrings} `{Serialize AuditEvent}
  `{Serialize Report} `{Serialize ReportQuery}.
Implicit Types (audit : S) (svc : ReportService) (t : RepReadings) (request : ReportRequest).

(** The records a report covers. *)
Definition covered audit request : list AuditRecord :=
  List.filter (selected (rr_query request)) (es_history audit).

Lemma passing_covered audit request q :
  to_audit_query (rr_query request) = Ok q ->
  List.filter (fun r => passes_filters r request) (query_view q (es_history audit)) = covered audit request.
Proof.
  intros Hq. rewrite view_filter_ascending by by eapply to_audit_query_sort. apply List.filter_ext.
  intros r. by apply selected_iff.
Qed.

(** Everything before the recording succeeded. *)
Definition ready svc t audit request (q : AuditQuery) (report : Report) (e : AuditEvent) : Prop :=
  is_ok (rep_require svc t (rr_requested_by request)) = true /\ is_ok (validate_request request) = true
  /\ to_audit_query (rr_query request) = Ok q
  /\ prepare svc t request (query_view q (es_history audit)) = Ok report
  /\ ReportLifecycle_into_audit_event (lifecycle_of svc request report) EventSlot_default = Ok e.

Lemma ready_event svc t audit request q report e :
  ready svc t audit request q report e -> report_event svc t audit request e.
Proof. intros (_ & _ & Hq & Hp & He). by exists q, report. Qed.

Section Scanned.
Variables (svc : ReportService) (audit : S).
Hypotheses (Hs : es_inv audit) (Hwf : Forall (fun r => key_wf (PositionKey_of r)) (es_history audit))
  (Hp : (1 <= rsv_page_size svc <= MAX_PAGE_SIZE)%Z).

Lemma generate_ready t request q report e :
  ready svc t audit request q report e ->
  generate svc t audit request
  = Some (fst (record_event audit e (rt_record t)),
          map_ok (fun _ => report) (map_err RepEventRecord (snd (record_event audit e (rt_record t))))).
Proof.
  intros (Hr & Hv & Hq & Hpr & He). unfold generate.
  destruct (rep_require svc t (rr_requested_by request)) as [u|]; [|done].
  destruct (validate_request request) as [u'|]; [|done]. rewrite Hq. cbn [map_err].
  rewrite scan_complete by done. rewrite Hpr. unfold record_report. rewrite He.
  by destruct (record_event audit e (rt_record t)) as [s' [w|err]].
Qed.

Lemma generate_Ok_ready t request audit' report :
  generate svc t audit request = Some (audit', Ok report) ->
  exists q e, ready svc t audit request q report e /\ record_event audit e (rt_record t) = (audit', Ok tt).
Proof.
  unfold generate, ready. destruct (rep_require svc t (rr_requested_by request)) as [u|]; [|done].
  destruct (validate_request request) as [u'|]; [|done].
  destruct (to_audit_query (rr_query request)) as [q|]; [cbn [map_err]|done].
  rewrite scan_complete by done. destruct (prepare svc t request _) as [rep|] eqn:Ep; [|done].
  unfold record_report. destruct (ReportLifecycle_into_audit_event _ _) as [e|] eqn:Ee; [|done].
  destruct (record_event audit e (rt_record t)) as [s' [[]|err]] eqn:Er; [|done].
  intros [= <- <-]. by exists q, e.
Qed.
End Scanned.

(** *** What is prepared *)

Lemma prepare_inv svc t request records report :
  prepare svc t request records = Ok report ->
  let covered := List.filter (fun r => passes_filters r request) records in
  rp_report_id report = derive_report_id svc request /\ rp_summary report = summarize covered
  /\ rp_record_refs report = omap (fun r => transaction (event r)) covered.
Proof. unfold prepare. intros Hp. by ok_inv. Qed.

(** The clock and the covered records are all a run reads. *)
Lemma prepare_same svc t t' request records records' :
  List.filter (fun r => passes_filters r request) records = List.filter (fun r => passes_filters r request) records' ->
  rt_now t = rt_now t' -> prepare svc t request records = prepare svc t' request records'.
Proof. unfold prepare. by intros -> ->. Qed.

Lemma summarize_total l : rs_total_records (summarize l) = zlen l.
Proof. unfold summarize. by destruct (fold_left _ l _) as [[o k] w]. Qed.

Lemma run_outcome svc t audit request q report e :
  ready svc t audit request q report e ->
  rp_report_id report = derive_report_id svc request
  /\ rp_summary report = summarize (covered audit request)
  /\ rp_record_refs report = omap (fun r => transaction (event r)) (covered audit request)
  /\ rs_total_records (rp_summary report) = zlen (covered audit request).
Proof.
  intros (_ & _ & Hq & Hp & _). apply prepare_inv in Hp as (Hid & Hsum & Hrefs).
  rewrite (passing_covered audit request q Hq) in Hsum, Hrefs. by rewrite Hsum, summarize_total.
Qed.

(** A run that may be made is ready to record its event. *)
Lemma ready_total svc t audit request :
  report_json_total -> reportable svc t request -> exists q report e, ready svc t audit request q report e.
Proof.
  intros Hjson [Hau Hc Hr Hn Ht Hl]. unfold ready.
  destruct (to_audit_query (rr_query request)) as [q|] eqn:Eq.
  2: { exfalso. assert (is_ok (to_audit_query (rr_query request)) = true) as E by by apply to_audit_query_ok_iff.
       by rewrite Eq in E. }
  pose proof (prepare_ok svc t request (query_view q (es_history audit)) Hjson) as Hp.
  destruct (prepare svc t request _) as [report|] eqn:Ep; [|done].
  pose proof (proj2 (report_lifecycle_ok_iff svc request report) Hl) as He.
  destruct (ReportLifecycle_into_audit_event _ _) as [e|] eqn:Ee; [|done].
  exists q, report, e. split; [by apply rep_require_ok_iff|]. split; [by apply validate_request_ok_iff | done].
Qed.

Lemma ready_reportable svc t audit request q report e :
  ready svc t audit request q report e -> reportable svc t request.
Proof.
  intros (Hr & Hv & Hq & _ & He). apply rep_require_ok_iff in Hr.
  assert (is_ok (to_audit_query (rr_query request)) = true) as (Hq1 & Hq2 & Hq3)%to_audit_query_ok_iff by by rewrite Hq.
  constructor; try done; [by apply validate_request_ok_iff|].
  apply (report_lifecycle_ok_iff svc request report). by rewrite He.
Qed.

Lemma ready_event_id svc t audit request q report e :
  ready svc t audit request q report e ->
  event_valid e /\ kind e = ReportGenerated
  /\ event_id e = derived_event_id (network_str (rsv_network svc)) "report-generation"
       [as_str (derive_report_id svc request); ReportKind_as_str (rr_kind request);
        z_to_string (zlen (covered audit request))].
Proof.
  intros Hr. pose proof (run_outcome _ _ _ _ _ _ _ Hr) as (Hid & _ & _ & Ht). destruct Hr as (_ & _ & _ & _ & He).
  pose proof He as [Hv Hk]%report_event_valid. split; [done|]. split; [done|].
  rewrite (report_event_id _ _ _ He). unfold lifecycle_of. cbn. by rewrite Hid, Ht.
Qed.

(** The second run's recording: its event is known when it covers as many. *)
Lemma rerun_recording svc t' audit1 request q r2 e2 :
  report_json_total -> es_inv audit1 -> ready svc t' audit1 request q r2 e2 -> ids_fresh audit1 e2 ->
  exists audit2, record_event audit1 e2 (rt_record t') = (audit2, Ok tt)
    /\ recorded audit1 audit2 e2 (rt_record t')
    /\ (event_id e2 ∈ map rec_event_id (es_history audit1) -> audit2 = audit1).
Proof.
  intros Hjson Hs Hr Hf. pose proof (ready_event_id _ _ _ _ _ _ _ Hr) as (Hv & Hk & _).
  pose proof (rjt_event Hjson e2) as Hj. destruct (to_vec e2) as [bytes|] eqn:Eb; [|done].
  assert (event_canonical_bytes e2 = Ok bytes) as Hb by (unfold event_canonical_bytes, canonical_json; by rewrite Eb).
  destruct (record_event_ok audit1 e2 bytes (rt_record t') Hs Hv ltac:(by rewrite Hk) Hf Hb) as (audit2 & E & Hrec).
  exists audit2. split; [done|]. split; [done|]. intros Hin.
  pose proof (record_event_again audit1 e2 bytes (rt_record t') Hs Hv ltac:(by rewrite Hk) Hin Hb). congruence.
Qed.
End Run.

(** ** Claims *)

Section Claims.
Context {S : Type} `{EventStoreLaws S} `{Sha256} `{JsonStrings} `{Serialize AuditEvent}
  `{Serialize Report} `{Serialize ReportQuery}.

(** C25 What running a report again gives.  After a run that gave a report, a run
    of the same request by a requester then authorized always gives one too,
    under the same report id.  It differs by what the first run left in the
    store, at most one record, its own event: the second total is the first plus
    one if that record is among those the query selects, and then the event of
    the second run is recorded as well.  If the query does not select it, the
    second report has the same summary and rows, it is the very same report when
    made at the same clock reading, and the store is left exactly as it was, so
    the trail keeps the digest of the first report only. *)
Theorem report_rerun svc t t' (audit audit1 : S) request r1 :
  report_json_total -> es_inv audit -> Forall (fun r => key_wf (PositionKey_of r)) (es_history audit) ->
  Forall (fun r => key_wf (PositionKey_of r)) (es_history audit1) ->
  (1 <= rsv_page_size svc <= MAX_PAGE_SIZE)%Z ->
  (forall e, report_event svc t audit request e -> ids_fresh audit e) ->
  (forall e, report_event svc t' audit1 request e -> ids_fresh audit1 e) ->
  generate svc t audit request = Some (audit1, Ok r1) ->
  (exists d, authorize (rsv_registry svc) (rt_auth t') (rr_requested_by request) GenerateReport
               (ScopeNetwork (rsv_network svc)) = Ok d /\ ad_allowed d = true) ->
  exists new audit2 r2, es_history audit1 ≡ₚ new ++ es_history audit /\ length new <= 1
    /\ generate svc t' audit1 request = Some (audit2, Ok r2)
    /\ rp_report_id r2 = rp_report_id r1
    /\ rs_total_records (rp_summary r2)
       = (rs_total_records (rp_summary r1) + zlen (List.filter (selected (rr_query request)) new))%Z
    /\ (exists e2, report_event svc t' audit1 request e2 /\ recorded audit1 audit2 e2 (rt_record t'))
    /\ (List.filter (selected (rr_query request)) new = [] ->
          audit2 = audit1 /\ rp_summary r2 = rp_summary r1 /\ rp_record_refs r2 = rp_record_refs r1
          /\ (rt_now t' = rt_now t -> r2 = r1)).
Proof.
  intros Hjson Hs Hk Hk1 Hp Hf Hf1 Hg Hau.
  destruct (generate_Ok_ready svc audit Hs Hk Hp t request audit1 r1 Hg) as (q & e & Hr & Erec).
  pose proof (ready_event_id _ _ _ _ _ _ _ Hr) as (Hv & Hke & Hid).
  pose proof (record_event_spec _ _ _ _ _ Hs Hv ltac:(by rewrite Hke) (Hf e (ready_event _ _ _ _ _ _ _ Hr)) Erec)
    as (Hs1 & Hin & Hh).
  assert (exists new, es_history audit1 ≡ₚ new ++ es_history audit /\ length new <= 1) as (new & Hnew & Hlen).
  { destruct Hh as [->|(bytes & _ & Hh)]; [by exists []; split; [|simpl; lia]|]. exists [trail_record e bytes (rt_record t)].
    split; [exact Hh | simpl; lia]. }
  assert (reportable svc t' request) as Hrep by (destruct (ready_reportable _ _ _ _ _ _ _ Hr); by constructor).
  destruct (ready_total svc t' audit1 request Hjson Hrep) as (q' & r2 & e2 & Hr2).
  destruct (rerun_recording svc t' audit1 request q' r2 e2 Hjson Hs1 Hr2 (Hf1 e2 (ready_event _ _ _ _ _ _ _ Hr2)))
    as (audit2 & Erec2 & Hrec2 & Hsame).
  pose proof (run_outcome _ _ _ _ _ _ _ Hr) as (Hi1 & Hsum1 & Hrefs1 & Ht1).
  pose proof (run_outcome _ _ _ _ _ _ _ Hr2) as (Hi2 & Hsum2 & Hrefs2 & Ht2).
  exists new, audit2, r2. split; [done|]. split; [done|].
  split; [by rewrite (generate_ready svc audit1 Hs1 Hk1 Hp t' request q' r2 e2 Hr2), Erec2|].
  split; [congruence|]. split; [rewrite Ht1, Ht2; by apply filter_grown_length|].
  split; [exists e2; split; [by eapply ready_event | done]|]. intros Hno.
  assert (covered audit1 request = covered audit request) as Hc by by apply (filter_grown _ _ new).
  split; [apply Hsame; pose proof (ready_event_id _ _ _ _ _ _ _ Hr2) as (_ & _ & Hid2); by rewrite Hid2, Hc, <- Hid|].
  rewrite Hsum1, Hsum2, Hrefs1, Hrefs2, Hc. split; [done|]. split; [done|]. intros Et.
  destruct Hr as (_ & _ & Hq & Hpr & _), Hr2 as (_ & _ & Hq2 & Hpr2 & _).
  rewrite (prepare_same svc t' t request _ (query_view q (es_history audit))) in Hpr2; [congruence | | done].
  by rewrite (passing_covered audit1 request q' Hq2), (passing_covered audit request q Hq).
Qed.
End Claims.

(** *** Reports that do not see themselves *)

Section Unselected.
Context {S : Type} `{EventStoreLaws S} `{Sha256} `{JsonStrings} `{Serialize AuditEvent}
  `{Serialize Report} `{Serialize ReportQuery}.

(** The event of a generation names no party, token, outcome or decision. *)
Lemma generation_bare l slot e :
  ReportLifecycle_into_audit_event l slot = Ok e ->
  outcome e = None /\ decision e = None /\ token e = None /\ actor e = None /\ subject e = None.
Proof.
  unfold ReportLifecycle_into_audit_event, derived_audit_event_base. intros He. ok_inv. simpl in *. ok_inv.
  by destruct (rl_digest l).
Qed.

(** So a query by outcome, account or token does not select it: such a report,
    as the denied-transactions report of the documentation, is reproducible. *)
Lemma generation_unselected svc t (audit : S) request e r :
  report_event svc t audit request e -> event r = e ->
  is_Some (rq_outcome (rr_query request)) \/ is_Some (rq_account (rr_query request))
  \/ rq_tokens (rr_query request) <> [] ->
  selected (rr_query request) r = false.
Proof.
  intros (q & rep & _ & _ & He) <- Hq. apply generation_bare in He as (Ho & Hd & Ht & Ha & Hs).
  unfold selected, involves_account. rewrite Ho, Hd, Ht, Ha, Hs.
  destruct Hq as [[o ->]|[[a ->]|Hne]]; simpl; rewrite ?andb_false_r; try done.
  by destruct (rq_tokens (rr_query request)); [|rewrite ?andb_false_r].
Qed.
End Unselected.

(** ** Two runs over one stored record *)

Section RerunWitness.
#[local] Existing Instances sum_sha sum_sha_laws toy_strings toy_event_json toy_query_json.
(** The toy encoding of a report names its id and when it was made. *)
#[local] Instance dated_report_json : Serialize Report := fun r =>
  Ok ("{" +:+ as_str (rp_report_id r) +:+ "," +:+ z_to_string (unix_seconds (rp_generated_at r)) +:+ "}").

Definition rt2' : RepReadings := mkRepReadings (mkTimestamp 5) (mkTimestamp 6) (mkTimestamp 7).
Definition denied2 : ReportRequest :=
  ReportRequest_new DeniedTransactions (ReportQuery_with_outcome Denied) aud2 (mkTimestamp 1).

Definition first_run (request : ReportRequest) : option (MemoryEventStore * ReportingResult Report) :=
  generate svc2 rt2 audit2 request.
Definition after_first (request : ReportRequest) : MemoryEventStore :=
  match first_run request with Some (s, _) => s | None => audit2 end.

(** The stored record's id has two characters, a derived one has 32. *)
Lemma short_id_fresh e : ids_fresh audit2 e.
Proof.
  intros _ bytes _. change (es_history audit2) with [sample_record "0a" 5]. simpl.
  pose proof (@derived_body_length sum_sha sum_sha_laws bytes) as Hl. rewrite list_elem_of_singleton. intros E.
  apply (f_equal (fun i => String.length (as_str i))) in E. simpl in E. rewrite Hl in E. discriminate.
Qed.

(** The events of the second runs are none of those stored. *)
Definition second_fresh (request : ReportRequest) : Prop :=
  forall e, report_event svc2 rt2' (after_first request) request e -> ids_fresh (after_first request) e.

Local Ltac second_fresh :=
  intros e (q & rep & Hq & Hpr & He) Hn bytes Hb; vm_compute in Hq; injection Hq as <-;
  vm_compute in Hpr; injection Hpr as <-; vm_compute in He; injection He as <-;
  vm_compute in Hb; injection Hb as <-; apply (bool_decide_unpack _); vm_compute; exact I.

Lemma all_fresh : second_fresh request2.
Proof. second_fresh. Qed.
Lemma denied_fresh : second_fresh denied2.
Proof.
  intros e (q & rep & Hq & Hpr & He) Hn. exfalso. apply Hn. vm_compute in Hq; injection Hq as <-;
  vm_compute in Hpr; injection Hpr as <-; vm_compute in He; injection He as <-.
  apply (bool_decide_unpack _). vm_compute. exact I.
Qed.

Lemma after_first_keys request :
  request = request2 \/ request = denied2 -> Forall (fun r => key_wf (PositionKey_of r)) (es_history (after_first request)).
Proof.
  assert (forall s, forallb position_okb (es_history s) = true -> Forall (fun r => key_wf (PositionKey_of r)) (es_history s))
    as Hok by (intros s Hs; rewrite forallb_forall in Hs; apply Forall_forall; intros r Hr;
               apply position_okb_wf, Hs; by apply list_elem_of_In).
  intros [->| ->]; apply Hok; vm_compute; reflexivity.
Qed.

Definition total_of (run : option (MemoryEventStore * ReportingResult Report)) : option Z :=
  match run with Some (_, Ok r) => Some (rs_total_records (rp_summary r)) | _ => None end.

(** The report on everything counts its own first run; the one on denials is
    the same report again and leaves no trace. *)
Lemma report_rerun_witness :
  (exists s r r', generate svc2 rt2' (after_first request2) request2 = Some (s, Ok r')
     /\ first_run request2 = Some (after_first request2, Ok r)
     /\ rs_total_records (rp_summary r) = 1%Z /\ rs_total_records (rp_summary r') = 2%Z)
  /\ exists r r', generate svc2 rt2' (after_first denied2) denied2 = Some (after_first denied2, Ok r')
     /\ first_run denied2 = Some (after_first denied2, Ok r) /\ rp_summary r' = rp_summary r.
Proof.
  assert (report_json_total) as Hj by by split.
  assert (forall request, second_fresh request -> request = request2 \/ request = denied2 ->
    exists d, authorize (rsv_registry svc2) (rt_auth rt2') (rr_requested_by request) GenerateReport
                (ScopeNetwork (rsv_network svc2)) = Ok d /\ ad_allowed d = true) as Hau.
  { intros request _ [->| ->]; eexists; split; vm_compute; reflexivity. }
  split.
  - assert (total_of (first_run request2) = Some 1%Z) as Ht by vm_cast_no_check (eq_refl (Some 1%Z)).
    destruct (first_run request2) as [[s [r|e]]|] eqn:E; [|discriminate Ht..].
    assert (s = after_first request2) as -> by (unfold after_first; by rewrite E).
    destruct (report_rerun svc2 rt2 rt2' audit2 (after_first request2) request2 r Hj audit2_kept audit2_keys
                (after_first_keys request2 (or_introl eq_refl)) ltac:(unfold MAX_PAGE_SIZE; simpl; lia)
                (fun e _ => short_id_fresh e) all_fresh E (Hau request2 all_fresh (or_introl eq_refl)))
      as (new & s2 & r2 & _ & _ & E2 & _).
    exists s2, r, r2. split; [exact E2|]. split; [done|].
    assert (total_of (generate svc2 rt2' (after_first request2) request2) = Some 2%Z) as Ht2
      by vm_cast_no_check (eq_refl (Some 2%Z)).
    rewrite E2 in Ht2. split; [by injection Ht | by injection Ht2].
  - assert (total_of (first_run denied2) = Some 0%Z) as Ht by vm_cast_no_check (eq_refl (Some 0%Z)).
    destruct (first_run denied2) as [[s [r|e]]|] eqn:E; [|discriminate Ht..].
    assert (s = after_first denied2) as -> by (unfold after_first; by rewrite E).
    destruct (report_rerun svc2 rt2 rt2' audit2 (after_first denied2) denied2 r Hj audit2_kept audit2_keys
                (after_first_keys denied2 (or_intror eq_refl)) ltac:(unfold MAX_PAGE_SIZE; simpl; lia)
                (fun e _ => short_id_fresh e) denied_fresh E (Hau denied2 denied_fresh (or_intror eq_refl)))
      as (new & s2 & r2 & Hnew & _ & E2 & _ & _ & _ & Hsame).
    assert (List.filter (selected (rr_query denied2)) new = []) as Hno.
    { assert (Forall (fun r => selected (rr_query denied2) r = false) (new ++ es_history audit2)) as Hall.
      { rewrite <- Hnew. vm_compute. repeat constructor. }
      apply Forall_app in Hall as [Hall _]. clear -Hall. induction Hall as [|x l Hx _ IH]; cbn [List.filter]; [done|]. by rewrite Hx. }
    destruct (Hsame Hno) as (Es & Hsum & _). rewrite Es in E2. exists r, r2.
    split; [exact E2|]. split; [reflexivity | exact Hsum].
Defined.
End RerunWitness.
