(* ===== verification/Evidence.v ===== *)
(** * Evidence ([crates/evidence])

    Packages built from stored records, their manifests, and their
    verification against a store. *)

From S2P Require Import Prelude Text BTree Errors Identifiers Timestamps Classification.
From S2P Require Import Correlation Events IntegrityModel Records Pagination Storage Integrity.
From S2P Require Import AccessModel Authorization Cases ReportModel AuditEvents Trail.
Open Scope list_scope.

Inductive EvidenceError : Type :=
| EvNotAuthorized (actor d : string)
| NoSourceRecords
| EvRecordMissing (id : RecordId)
| TamperedSource (d : string)
| EvInvalidContent (d : string)
| EvIntegrity (d : string)
| EvEventRecord (d : string)
| EvInternal (d : string).

Definition EvidenceResult (T : Type) : Type := result T EvidenceError.

Definition ev_from_core (e : AuditError) : EvidenceError := EvInternal (AuditError_to_string e).
Definition ev_from_integrity (e : IntegrityError) : EvidenceError := EvIntegrity (IntegrityError_to_string e).

(** ** Manifests and packages ([model.rs]) *)

Definition EVIDENCE_MANIFEST_SCHEMA_VERSION : Z := 1.

Record EvidenceManifest := mkEvidenceManifest {
  em_manifest_id : ManifestId;
  em_artifact : EvidenceId;
  em_schema_version : Z;
  em_generated_at : Timestamp;
  em_software_version : string;
  em_parser_version : VersionLabel;
  em_network : NetworkId;
  em_from_ledger : option Z;
  em_to_ledger : option Z;
  em_record_count : Z;
  em_entries : list ManifestEntry;
  em_aggregate_digest : IntegrityDigest
}.

Definition EvidenceManifest_validate (m : EvidenceManifest) : AuditResult unit :=
  if negb (em_schema_version m =? EVIDENCE_MANIFEST_SCHEMA_VERSION)%Z
  then Err (UnsupportedSchema ("evidence manifest schema version " +:+ z_to_string (em_schema_version m)
              +:+ " is not supported (expected " +:+ z_to_string EVIDENCE_MANIFEST_SCHEMA_VERSION +:+ ")"))
  else if negb (em_record_count m =? zlen (em_entries m))%Z
  then Err (ValidationFailure ("evidence manifest declares " +:+ z_to_string (em_record_count m)
              +:+ " records but carries " +:+ z_to_string (zlen (em_entries m))))
  else if inverted_range (em_from_ledger m) (em_to_ledger m)
  then Err (ValidationFailure "evidence manifest ledger range start exceeds its end")
  else Ok tt.

Definition from_integrity_manifest (m : IntegrityManifest) (artifact : EvidenceId)
    (parser_version : VersionLabel) (network_ : NetworkId) : EvidenceResult EvidenceManifest :=
  let? _ := map_err ev_from_core (IntegrityManifest_validate m) in
  let? aggregate_digest := ok_or (im_aggregate_digest m)
                             (EvInvalidContent "evidence manifests require an aggregate digest") in
  let built := mkEvidenceManifest (im_manifest_id m) artifact EVIDENCE_MANIFEST_SCHEMA_VERSION
                 (im_generated_at m) (im_software_version m) parser_version network_ (im_from_ledger m)
                 (im_to_ledger m) (im_record_count m) (im_entries m) aggregate_digest in
  let? _ := map_err (fun e => EvInvalidContent ("built manifest is invalid: " +:+ AuditError_to_string e))
              (EvidenceManifest_validate built) in
  Ok built.

Record EvidencePackage := mkEvidencePackage {
  pk_artifact : EvidenceArtifact;
  pk_manifest : EvidenceManifest
}.

Definition EvidencePackage_new (artifact : EvidenceArtifact) (manifest : EvidenceManifest)
  : EvidenceResult EvidencePackage :=
  if negb (bool_decide (em_artifact manifest = ea_evidence_id artifact))
  then Err (EvInvalidContent ("manifest certifies artifact " +:+ as_str (em_artifact manifest)
              +:+ " but the package carries " +:+ as_str (ea_evidence_id artifact)))
  else
    let? _ :=
      match ea_manifest_id artifact with
      | Some id =>
          if negb (bool_decide (id = em_manifest_id manifest))
          then Err (EvInvalidContent ("artifact names manifest " +:+ as_str id
                      +:+ " but the package carries " +:+ as_str (em_manifest_id manifest)))
          else Ok tt
      | None => Ok tt
      end in
    let? _ := map_err ev_from_core (EvidenceArtifact_validate artifact) in
    let? _ := map_err ev_from_core (EvidenceManifest_validate manifest) in
    Ok (mkEvidencePackage artifact manifest).

Section Evidence.
Context {S : Type} `{EventStore S} `{Sha256} `{JsonStrings} `{Serialize AuditEvent}
  `{Serialize AuditRecord} `{Serialize (list ManifestEntry)} `{Serialize EvidenceArtifact}.

(** ** Building ([builder.rs], [events.rs]) *)

Record EvidenceBuildOptions := mkBuildOptions {
  bo_kind : EvidenceKind;
  bo_record_ids : list RecordId;
  bo_generated_by : AuditorId
}.

Definition EvidenceBuildOptions_new (kind : EvidenceKind) (ids : list RecordId) (by_ : AuditorId)
  : EvidenceResult EvidenceBuildOptions :=
  match ids with
  | [] => Err NoSourceRecords
  | _ => Ok (mkBuildOptions kind ids by_)
  end.

Record EvidenceBuilder := mkEvidenceBuilder {
  eb_network : NetworkId;
  eb_source : string;
  eb_parser : VersionLabel;
  eb_generator_version : VersionLabel;
  eb_registry : Registry
}.

Record EvReadings := mkEvReadings { et_auth : Timestamp; et_now : Timestamp; et_record : Timestamp }.

Definition ev_require (b : EvidenceBuilder) (t : EvReadings) (who : AuditorId) : EvidenceResult unit :=
  let scope := ScopeNetwork (eb_network b) in
  let? d := map_err (fun e => EvInternal ("authorizer failure: " +:+ AuthorizationError_to_string e))
              (authorize (eb_registry b) (et_auth t) who GenerateEvidence scope) in
  if ad_allowed d then Ok tt
  else
    let why := default ACTION_DENIED (ad_reason d) in
    Err (EvNotAuthorized (as_str who) ("cannot generate evidence: " +:+ why)).

Definition fetch (audit : S) (id : RecordId) : EvidenceResult AuditRecord :=
  map_err (fun _ => EvRecordMissing id) (es_get audit id).

Fixpoint require_intact (records : list AuditRecord) : EvidenceResult unit :=
  match records with
  | [] => Ok tt
  | record :: records =>
      match integrity record with
      | None => require_intact records
      | Some i =>
          let? recomputed := map_err ev_from_integrity (record_digest record) in
          if negb (bool_decide (recomputed = ri_digest i))
          then Err (TamperedSource ("record " +:+ as_str (record_id record)
                      +:+ " carries a stored digest that no longer matches its body"))
          else require_intact records
      end
  end.

Definition canonical_order (records : list AuditRecord) : list AuditRecord :=
  sort_by (cmp_key record_id) records.

(** [iter().min()] and [iter().max()] of a list with at least one element. *)
Definition list_min (x : Z) (l : list Z) : Z := fold_left Z.min l x.
Definition list_max (x : Z) (l : list Z) : Z := fold_left Z.max l x.

Definition ledger_range (records : list AuditRecord) : option Z * option Z :=
  let ledgers := omap (fun r => ledger_sequence (order (event r))) records in
  match ledgers with
  | x :: l => if (zlen ledgers =? zlen records)%Z then (Some (list_min x l), Some (list_max x l))
              else (None, None)
  | [] => (None, None)
  end.

Definition evidence_id_of (b : EvidenceBuilder) (kind : EvidenceKind) (ids : list RecordId) : EvidenceId :=
  derive ([network_str (eb_network b); EvidenceKind_as_str kind] ++ map as_str ids).

(** The artifact and manifest of a canonically ordered set of intact records. *)
Definition assemble (b : EvidenceBuilder) (t : EvReadings) (options : EvidenceBuildOptions)
    (records : list AuditRecord) : EvidenceResult (EvidenceArtifact * EvidenceManifest) :=
  let record_ids := map record_id records in
  let source_events := map rec_event_id records in
  let evidence_id := evidence_id_of b (bo_kind options) record_ids in
  let? provenance := map_err ev_from_core
    (EvidenceProvenance_new record_ids source_events (eb_parser b) (eb_generator_version b)) in
  let artifact := EvidenceArtifact_new evidence_id (bo_kind options) provenance (et_now t)
                    (Some (bo_generated_by options)) in
  let? bytes := map_err ev_from_core (artifact_canonical_bytes artifact) in
  let artifact := artifact_with_digest (hash_bytes bytes) artifact in
  let '(from, to) := ledger_range records in
  let? mopts := map_err ev_from_integrity
                  (ManifestOptions_new from to (version_str (eb_generator_version b))) in
  let? core := map_err ev_from_integrity (build_manifest records mopts (et_now t)) in
  let? manifest := from_integrity_manifest core evidence_id (eb_parser b) (eb_network b) in
  Ok (artifact_with_manifest (em_manifest_id manifest) artifact, manifest).

Definition record_generation (l : EvidenceLifecycle) (now : Timestamp) (store : S)
  : S * EvidenceResult unit :=
  match EvidenceLifecycle_into_audit_event l EventSlot_default with
  | Err e => (store, Err (EvEventRecord (EventError_to_string e)))
  | Ok e =>
      let '(store', r) := record_event store e now in
      (store', map_err EvEventRecord r)
  end.

(** The sources: fetched in the order given, checked, put in canonical order. *)
Definition sources (audit : S) (ids : list RecordId) : EvidenceResult (list AuditRecord) :=
  let? records := try_map (fetch audit) ids in
  let? _ := require_intact records in
  Ok (canonical_order records).

Definition build_package (b : EvidenceBuilder) (t : EvReadings) (audit : S)
    (options : EvidenceBuildOptions) : S * EvidenceResult EvidencePackage :=
  match (let? _ := ev_require b t (bo_generated_by options) in
         let? records := sources audit (bo_record_ids options) in
         let? am := assemble b t options records in
         Ok (records, am)) with
  | Err e => (audit, Err e)
  | Ok (records, (artifact, manifest)) =>
      let lifecycle := mkEvidenceLifecycle (eb_network b) (eb_source b) (eb_parser b)
                         (ea_evidence_id artifact) (bo_kind options) (zlen records)
                         (Some (em_manifest_id manifest)) (ea_digest artifact) in
      let '(audit', r) := record_generation lifecycle (et_record t) audit in
      (audit', let? _ := r in EvidencePackage_new artifact manifest)
  end.

(** ** Verification ([verify.rs]) *)

Record EvidenceVerification := mkEvidenceVerification {
  ver_artifact_verified : bool;
  ver_aggregate : IntegrityStatus;
  ver_records : list VerificationOutcome;
  ver_verified : bool
}.

Record EvidenceVerificationSummary := mkVerificationSummary {
  vs_artifact : bool;
  vs_aggregate : bool;
  vs_records : bool;
  vs_verified : bool
}.

Definition summary_of (v : EvidenceVerification) : EvidenceVerificationSummary :=
  let records_ok := match ver_records v with
                    | [] => false
                    | rs => forallb (fun o => is_verified (vo_status o)) rs
                    end in
  mkVerificationSummary (ver_artifact_verified v) (is_verified (ver_aggregate v)) records_ok (ver_verified v).

Definition core_manifest (p : EvidencePackage) : EvidenceResult IntegrityManifest :=
  let m := pk_manifest p in
  let core := IntegrityManifest_new (em_manifest_id m) (em_generated_at m) (em_software_version m)
                (em_from_ledger m) (em_to_ledger m) (em_entries m) (Some (em_aggregate_digest m)) in
  let? _ := map_err ev_from_core (IntegrityManifest_validate core) in
  Ok core.

Definition verify_package_structure (p : EvidencePackage) : EvidenceResult EvidenceVerification :=
  let artifact := pk_artifact p in
  let? _ := map_err ev_from_core (EvidenceArtifact_validate artifact) in
  let? artifact_verified :=
    match ea_digest artifact with
    | Some digest =>
        let? bytes := map_err ev_from_core (artifact_canonical_bytes artifact) in
        Ok (bool_decide (hash_bytes bytes = digest))
    | None => Ok false
    end in
  let? core := core_manifest p in
  let? aggregate := map_err ev_from_integrity (verify_manifest_aggregate core) in
  let verified := artifact_verified && is_verified aggregate in
  Ok (mkEvidenceVerification artifact_verified aggregate [] verified).

Definition get_ok (audit : S) (entry : ManifestEntry) : option AuditRecord :=
  match es_get audit (me_record_id entry) with Ok r => Some r | Err _ => None end.

Definition verify_package (p : EvidencePackage) (audit : S) : EvidenceResult EvidenceVerification :=
  let? structure := verify_package_structure p in
  let? core := core_manifest p in
  let records := omap (get_ok audit) (im_entries core) in
  let? outcomes := map_err ev_from_integrity (verify_manifest_records core records) in
  let records_ok := forallb (fun o => is_verified (vo_status o)) outcomes in
  Ok (mkEvidenceVerification (ver_artifact_verified structure) (ver_aggregate structure) outcomes
        (ver_artifact_verified structure && is_verified (ver_aggregate structure) && records_ok)).
End Evidence.
