(* ===== verification/EvidenceProofs.v ===== *)
(** * Evidence: what is built verifies, deterministically *)

From Stdlib Require Import Btauto.
From S2P Require Import Prelude Text BTree Errors Identifiers Timestamps Classification.
From S2P Require Import Correlation Events IntegrityModel Records Samples Pagination Storage.
From S2P Require Import MemoryStore MemoryPaging Integrity IntegrityProofs AccessModel.
From S2P Require Import Authorization Cases ReportModel AuditEvents Trail Evidence.
From stdpp Require Import sorting.
Open Scope list_scope.

Section Sources.
Context {S : Type} `{EventStoreLaws S} `{Sha256} `{JsonStrings} `{Serialize AuditEvent}
  `{Serialize AuditRecord} `{Serialize (list ManifestEntry)} `{Serialize EvidenceArtifact}.

Lemma require_intact_Ok_iff rs :
  require_intact rs = Ok tt <->
  Forall (fun r => forall i, integrity r = Some i -> record_digest r = Ok (ri_digest i)) rs.
Proof.
  induction rs as [|r rs IH]; simpl; [split; [constructor | done]|]. rewrite Forall_cons.
  destruct (integrity r) as [i|] eqn:Ei; [|rewrite IH; split; [by split | by intros []]].
  destruct (record_digest r) as [d|e] eqn:Ed; simpl.
  - case_bool_decide as Hd; simpl.
    + rewrite IH. split; [intros Hr; split; [by intros ? [= <-]; subst | done] | by intros []].
    + split; [done|]. intros [Hr _]. specialize (Hr i eq_refl). congruence.
  - split; [done|]. intros [Hr _]. specialize (Hr i eq_refl). congruence.
Qed.

Lemma canonical_order_perm rs : canonical_order rs ≡ₚ rs.
Proof. apply sort_by_perm. Qed.

(** With distinct ids there is one canonical order. *)
Lemma canonical_order_unique rs rs' :
  rs ≡ₚ rs' -> NoDup (map record_id rs) -> canonical_order rs = canonical_order rs'.
Proof.
  intros Hp Hnd. apply (StronglySorted_unique_strong (cmp_le (cmp_key record_id))).
  - intros x y Hx Hy Hxy Hyx. rewrite canonical_order_perm in Hx. rewrite canonical_order_perm, <- Hp in Hy.
    assert (record_id x = record_id y) as E.
    { unfold cmp_le, cmp_key in *. apply compare_eq_iff.
      destruct (compare (record_id x) (record_id y)) eqn:Ec; [done| |done].
      apply compare_gt_iff in Ec. congruence. }
    by apply (NoDup_map_inj record_id rs).
  - apply sort_by_key_sorted.
  - apply sort_by_key_sorted.
  - by rewrite !canonical_order_perm.
Qed.

Lemma fetch_Ok audit id r : es_inv audit -> fetch audit id = Ok r -> r ∈ es_history audit /\ record_id r = id.
Proof. unfold fetch. intros Hs Hf. ok_inv. by apply es_get_sound. Qed.

Lemma fetched_ids audit ids rs :
  es_inv audit -> Forall2 (fun id r => fetch audit id = Ok r) ids rs ->
  map record_id rs = ids /\ Forall (fun r => r ∈ es_history audit) rs.
Proof.
  intros Hs. induction 1 as [|id r ids rs Hf _ [IH1 IH2]]; simpl; [split; [done | constructor]|].
  apply fetch_Ok in Hf as [Hin <-]; [|done]. split; [congruence | by constructor].
Qed.

Lemma fetch_perm audit ids ids' rs :
  ids ≡ₚ ids' -> Forall2 (fun id r => fetch audit id = Ok r) ids rs ->
  exists rs', Forall2 (fun id r => fetch audit id = Ok r) ids' rs' /\ rs ≡ₚ rs'.
Proof.
  intros Hp Hf. revert rs Hf. induction Hp as [|x l l' _ IH|x y l|l1 l2 l3 _ IH1 _ IH2]; intros rs Hf.
  - apply Forall2_nil_inv_l in Hf as ->. by exists [].
  - apply Forall2_cons_inv_l in Hf as (r & rs0 & Hr & Hf & ->). destruct (IH _ Hf) as (rs' & Hf' & Hp').
    exists (r :: rs'). split; [by constructor | by rewrite Hp'].
  - apply Forall2_cons_inv_l in Hf as (r & rs0 & Hr & Hf & ->).
    apply Forall2_cons_inv_l in Hf as (r2 & rs1 & Hr2 & Hf & ->).
    exists (r2 :: r :: rs1). split; [by repeat constructor | apply Permutation_swap].
  - destruct (IH1 _ Hf) as (rs2 & Hf2 & Hp2). destruct (IH2 _ Hf2) as (rs3 & Hf3 & Hp3).
    exists rs3. split; [done | by rewrite Hp2].
Qed.

Lemma sources_Ok_inv audit ids rs :
  es_inv audit -> sources audit ids = Ok rs ->
  Forall (fun r => r ∈ es_history audit) rs /\ map record_id rs ≡ₚ ids
  /\ Forall (fun r => forall i, integrity r = Some i -> record_digest r = Ok (ri_digest i)) rs.
Proof.
  intros Hs Hr. unfold sources in Hr. ok_inv. apply try_map_Ok_iff in Hok.
  destruct v0. apply require_intact_Ok_iff in Hok0.
  destruct (fetched_ids audit ids v Hs Hok) as [Hids Hin].
  rewrite !canonical_order_perm. by rewrite Hids.
Qed.

Lemma sources_perm audit ids ids' rs :
  es_inv audit -> NoDup ids -> ids ≡ₚ ids' -> sources audit ids = Ok rs -> sources audit ids' = Ok rs.
Proof.
  intros Hs Hnd Hp Hr. unfold sources in *. ok_inv. apply try_map_Ok_iff in Hok.
  destruct v0. apply require_intact_Ok_iff in Hok0.
  destruct (fetch_perm audit ids ids' v Hp Hok) as (v' & Hf' & Hv).
  rewrite (proj2 (try_map_Ok_iff _ _ _) Hf'). cbn [rbind].
  rewrite (proj2 (require_intact_Ok_iff v')) by by rewrite <- Hv. cbn [rbind]. f_equal. symmetry.
  apply canonical_order_unique; [done|]. destruct (fetched_ids audit ids v Hs Hok) as [-> _]. done.
Qed.

(** ** The assembled package *)

Lemma assemble_Ok_inv b t options records a m :
  assemble b t options records = Ok (a, m) ->
  exists mopts core bytes,
    build_manifest records mopts (et_now t) = Ok core
    /\ em_entries m = im_entries core /\ im_aggregate_digest core = Some (em_aggregate_digest m)
    /\ EvidenceManifest_validate m = Ok tt
    /\ em_manifest_id m = im_manifest_id core /\ ea_manifest_id a = Some (em_manifest_id m)
    /\ em_artifact m = ea_evidence_id a
    /\ artifact_canonical_bytes a = Ok bytes /\ ea_digest a = Some (hash_bytes bytes)
    /\ EvidenceArtifact_validate a = Ok tt
    /\ ep_source_records (ea_provenance a) = map record_id records.
Proof.
  unfold assemble. intros Ha. ok_inv. destruct (ledger_range records) as [from to]. ok_inv.
  unfold from_integrity_manifest in *. ok_inv.
  match goal with H : EvidenceManifest_validate _ = Ok ?u |- _ => destruct u end.
  exists v1, v2, v0. unfold EvidenceProvenance_new in Hok.
  repeat split; try done. destruct records; simpl in Hok; [done|]. by injection Hok as <-.
Qed.

Lemma core_manifest_Ok a m :
  EvidenceManifest_validate m = Ok tt ->
  exists core, core_manifest (mkEvidencePackage a m) = Ok core /\ im_entries core = em_entries m
    /\ im_aggregate_digest core = Some (em_aggregate_digest m).
Proof.
  unfold EvidenceManifest_validate, core_manifest. intros Hv. ok_inv. simpl.
  rewrite IntegrityManifest_new_validate by done. simpl. eauto.
Qed.

(** The verifiers read a manifest's entries and aggregate only. *)
Lemma aggregate_same m m' :
  im_entries m = im_entries m' -> im_aggregate_digest m = im_aggregate_digest m' ->
  verify_manifest_aggregate m = verify_manifest_aggregate m'.
Proof. unfold verify_manifest_aggregate. by intros -> ->. Qed.

Lemma omap_get_ok audit records es :
  es_inv audit -> Forall (fun r => r ∈ es_history audit) records ->
  Forall2 (fun r e => me_record_id e = record_id r /\ record_digest r = Ok (me_digest e)) records es ->
  omap (get_ok audit) es = records.
Proof.
  intros Hs Hin Hes. revert Hin. induction Hes as [|r e records es [Hid _] _ IH]; intros Hin; [done|].
  apply Forall_cons in Hin as [Hr Hin].
  assert (get_ok audit e = Some r) as Eg by (unfold get_ok; by rewrite Hid, es_get_In).
  simpl. rewrite Eg. f_equal. by apply IH.
Qed.

Lemma assembled_verifies b t options records a m audit :
  es_inv audit -> Forall (fun r => r ∈ es_history audit) records ->
  assemble b t options records = Ok (a, m) ->
  exists v, verify_package (mkEvidencePackage a m) audit = Ok v /\ ver_verified v = true
    /\ map vo_record_id (ver_records v) = map record_id records
    /\ Forall (fun o => vo_status o = Verified) (ver_records v).
Proof.
  intros Hs Hin (mopts & core & bytes & Hb & He & Hag & Hmv & _ & _ & _ & Hab & Had & Hav & _)%assemble_Ok_inv.
  destruct (core_manifest_Ok a m Hmv) as (core' & Hc & He' & Hag').
  assert (im_entries core' = im_entries core) as Ee by congruence.
  assert (im_aggregate_digest core' = im_aggregate_digest core) as Ea by congruence.
  destruct (built_manifest_verifies records records mopts (et_now t) core Hb (Permutation_refl _))
    as ((os & Hos & Hf) & Hagg & _ & _).
  apply build_manifest_Ok_inv in Hb as (Hme & _). apply manifest_entries_Ok in Hme as (Hes & _ & _).
  unfold verify_package, verify_package_structure. simpl. rewrite Hav, Had, Hab. simpl. rewrite Hc. simpl.
  rewrite (aggregate_same core' core) by done. rewrite Hagg. simpl.
  rewrite Ee, (omap_get_ok audit records) by done.
  unfold verify_manifest_records in *. rewrite Ee, Hos. simpl.
  rewrite (bool_decide_true _ eq_refl). eexists. split; [reflexivity|]. simpl.
  assert (Forall (fun o => vo_status o = Verified) os) as Hall.
  { clear -Hf. induction Hf as [|r o rs os [_ Ho] _ IH]; constructor; auto. }
  split; [|split; [|done]].
  - apply forallb_Forall_true. eapply Forall_impl; [exact Hall|]. by intros o ->.
  - clear -Hf. induction Hf as [|r o rs os [Ho _] _ IH]; simpl; congruence.
Qed.
End Sources.

(** ** When a package can be built *)

(** [serde_json] encodes the model's types without failing: derived encoders of
    structs and string-keyed maps only. *)
Record json_total `{Serialize AuditEvent} `{Serialize AuditRecord} `{Serialize (list ManifestEntry)}
    `{Serialize EvidenceArtifact} : Prop := {
  jt_event (e : AuditEvent) : is_ok (to_vec e) = true;
  jt_record (r : AuditRecord) : is_ok (to_vec r) = true;
  jt_entries (l : list ManifestEntry) : is_ok (to_vec l) = true;
  jt_artifact (a : EvidenceArtifact) : is_ok (to_vec a) = true
}.

Lemma fold_min_max l : forall a b, (a <= b)%Z -> (fold_left Z.min l a <= fold_left Z.max l b)%Z.
Proof. induction l as [|x l IH]; intros a b Hab; simpl; [done|]. apply IH. lia. Qed.

Lemma ledger_range_ordered records :
  inverted_range (fst (ledger_range records)) (snd (ledger_range records)) = false.
Proof.
  unfold ledger_range, inverted_range. destruct (omap _ records) as [|x l]; [done|].
  destruct (_ =? _)%Z; [|done]. simpl. apply Z.ltb_ge, fold_min_max. lia.
Qed.

Section Buildable.
Context {S : Type} `{EventStoreLaws S} `{Sha256} `{JsonStrings} `{Serialize AuditEvent}
  `{Serialize AuditRecord} `{Serialize (list ManifestEntry)} `{Serialize EvidenceArtifact}.
Context `{!Sha256Laws} (Hjson : json_total).

Lemma record_digest_total r : exists d, record_digest r = Ok d.
Proof.
  unfold record_digest, canonical_record_input, record_canonical_bytes, canonical_json.
  pose proof (jt_record Hjson (set_integrity None r)) as Hr. destruct (to_vec _); [|done]. simpl. eauto.
Qed.

Lemma manifest_entries_total seen l :
  NoDup (map record_id l) -> Forall (fun r => record_id r ∉ seen) l ->
  exists es, manifest_entries seen l = Ok es /\ length es = length l.
Proof.
  revert seen. induction l as [|r l IH]; intros seen Hnd Hs; simpl; [by exists []|].
  apply NoDup_cons in Hnd as [Hr Hnd]. apply Forall_cons in Hs as [Hrs Hs].
  rewrite decide_False by done. destruct (record_digest_total r) as [d ->]. simpl.
  destruct (IH ({[ record_id r ]} ∪ seen) Hnd) as (es & -> & Hl).
  - rewrite Forall_forall in Hs |- *. intros x Hx.
    assert (record_id x <> record_id r) by (intros E; apply Hr; rewrite <- E; apply list_elem_of_fmap; eauto).
    specialize (Hs x Hx). set_solver.
  - eexists. split; [done|]. simpl. by rewrite Hl.
Qed.

Lemma build_manifest_total l from to v now :
  NoDup (map record_id l) -> inverted_range from to = false ->
  exists m, build_manifest l (mkManifestOptions from to v) now = Ok m
    /\ im_from_ledger m = from /\ im_to_ledger m = to /\ is_Some (im_aggregate_digest m)
    /\ im_record_count m = zlen (im_entries m).
Proof.
  intros Hnd Hr. unfold build_manifest, aggregate_hex, aggregate_input.
  destruct (manifest_entries_total ∅ l Hnd) as (es & -> & _); [apply Forall_forall; set_solver|]. simpl.
  pose proof (jt_entries Hjson es) as He. destruct (to_vec es) as [s|]; [|done]. simpl.
  rewrite hash_bytes_expect. simpl. rewrite IntegrityManifest_new_validate by done. simpl.
  eexists. repeat split; eauto.
Qed.

Lemma artifact_bytes_total a : exists s, artifact_canonical_bytes a = Ok s.
Proof.
  unfold artifact_canonical_bytes, canonical_json. pose proof (jt_artifact Hjson (artifact_content a)) as Ha.
  destruct (to_vec _); [|done]. simpl. eauto.
Qed.

Lemma assemble_total b t options records :
  records <> [] -> NoDup (map record_id records) ->
  is_ok (VersionLabel_new (version_str (eb_generator_version b))) = true ->
  is_ok (assemble b t options records) = true.
Proof.
  intros Hne Hnd Hv. unfold assemble.
  assert (exists p, EvidenceProvenance_new (map record_id records) (map rec_event_id records) (eb_parser b)
            (eb_generator_version b) = Ok p) as [p ->] by (destruct records; [done|]; unfold EvidenceProvenance_new; simpl; eauto).
  cbn [map_err rbind].
  match goal with |- context [artifact_canonical_bytes ?a] => destruct (artifact_bytes_total a) as [bs ->] end.
  cbn [map_err rbind]. pose proof (ledger_range_ordered records) as Hr.
  destruct (ledger_range records) as [from to]. cbn [fst snd] in Hr.
  assert (ManifestOptions_new from to (version_str (eb_generator_version b))
          = Ok (mkManifestOptions from to (version_str (eb_generator_version b)))) as ->.
  { unfold ManifestOptions_new. destruct (VersionLabel_new _); [|done]. unfold inverted_range in Hr.
    destruct from as [f|], to as [u|]; simpl; try done. by rewrite Hr. }
  cbn [map_err rbind].
  destruct (build_manifest_total records from to (version_str (eb_generator_version b)) (et_now t) Hnd Hr)
    as (m & Hm & Hf & Ht & [d Ha] & Hc). rewrite Hm. cbn [map_err rbind].
  apply build_manifest_Ok_inv in Hm as (_ & _ & Hval & _).
  unfold from_integrity_manifest. rewrite Hval, Ha. cbn [map_err rbind ok_or].
  unfold EvidenceManifest_validate. simpl. rewrite Hc, Z.eqb_refl, Hf, Ht, Hr. done.
Qed.

(** *** From the request *)

(** A stored record that a package may cover: a stored digest recomputes. *)
Definition intact (r : AuditRecord) : Prop :=
  forall i, integrity r = Some i -> record_digest r = Ok (ri_digest i).

Definition resolves (audit : S) (id : RecordId) : Prop :=
  exists r, r ∈ es_history audit /\ record_id r = id /\ intact r.

Lemma sources_ok_iff audit ids :
  es_inv audit -> is_ok (sources audit ids) = true <-> Forall (resolves audit) ids.
Proof.
  intros Hs. split.
  - destruct (sources audit ids) as [rs|] eqn:E; [|done]. intros _.
    destruct (sources_Ok_inv _ _ _ Hs E) as (Hin & Hids & Hi). rewrite <- Hids.
    rewrite Forall_forall in Hin. rewrite Forall_forall in Hi. rewrite Forall_forall. intros id (r & -> & Hr)%list_elem_of_fmap.
    exists r. split; [by apply Hin|]. split; [done|]. exact (Hi r Hr).
  - intros Hall. unfold sources.
    assert (exists rs, Forall2 (fun id r => fetch audit id = Ok r) ids rs /\ Forall intact rs) as (rs & Hf & Hi).
    { induction Hall as [|id ids (r & Hr & <- & Hi) _ (rs & Hf & His)]; [by exists []|].
      exists (r :: rs). split; constructor; try done. unfold fetch. by rewrite es_get_In. }
    rewrite (proj2 (try_map_Ok_iff _ _ _) Hf). cbn [rbind]. by rewrite (proj2 (require_intact_Ok_iff rs) Hi).
Qed.

(** Who may build what: the exact condition of success. *)
Record buildable (b : EvidenceBuilder) (t : EvReadings) (audit : S) (options : EvidenceBuildOptions) : Prop := {
  bd_authorized : exists d, authorize (eb_registry b) (et_auth t) (bo_generated_by options) GenerateEvidence
                              (ScopeNetwork (eb_network b)) = Ok d /\ ad_allowed d = true;
  bd_named : bo_record_ids options <> [];
  bd_distinct : NoDup (bo_record_ids options);
  bd_sources : Forall (resolves audit) (bo_record_ids options);
  bd_version : is_ok (VersionLabel_new (version_str (eb_generator_version b))) = true;
  bd_label : is_ok (EventProvenance_new Derived (eb_source b) (eb_parser b)) = true
}.

(** The lifecycle event of an assembled package, and of a request. *)
Definition lifecycle_of (b : EvidenceBuilder) (options : EvidenceBuildOptions) (records : list AuditRecord)
    (a : EvidenceArtifact) (m : EvidenceManifest) : EvidenceLifecycle :=
  mkEvidenceLifecycle (eb_network b) (eb_source b) (eb_parser b) (ea_evidence_id a) (bo_kind options)
    (zlen records) (Some (em_manifest_id m)) (ea_digest a).

Definition generation_event (b : EvidenceBuilder) (t : EvReadings) (audit : S)
    (options : EvidenceBuildOptions) (e : AuditEvent) : Prop :=
  exists records a m, sources audit (bo_record_ids options) = Ok records
    /\ assemble b t options records = Ok (a, m)
    /\ EvidenceLifecycle_into_audit_event (lifecycle_of b options records a m) EventSlot_default = Ok e.

Lemma lifecycle_event_ok_iff b options records a m :
  is_ok (EvidenceLifecycle_into_audit_event (lifecycle_of b options records a m) EventSlot_default) = true
  <-> is_ok (EventProvenance_new Derived (eb_source b) (eb_parser b)) = true.
Proof.
  unfold EvidenceLifecycle_into_audit_event, derived_audit_event_base, lifecycle_of. simpl.
  destruct (EventProvenance_new _ _ _) as [prov|]; done.
Qed.
End Buildable.

Section Built.
Context {S : Type} `{EventStoreLaws S} `{Sha256} `{JsonStrings} `{Serialize AuditEvent}
  `{Serialize AuditRecord} `{Serialize (list ManifestEntry)} `{Serialize EvidenceArtifact}.

(** What is assembled is a consistent package. *)
Lemma assembled_package b t options records a m :
  assemble b t options records = Ok (a, m) -> EvidencePackage_new a m = Ok (mkEvidencePackage a m).
Proof.
  intros (_ & _ & _ & _ & _ & _ & Hmv & _ & Hmid & Hart & _ & _ & Hav & _)%assemble_Ok_inv.
  unfold EvidencePackage_new. rewrite Hart, Hmid, !bool_decide_true by done. cbn [negb rbind].
  by rewrite Hav, Hmv.
Qed.

(** The build, decided step by step. *)
Lemma build_package_eq b t audit options records a m e :
  ev_require b t (bo_generated_by options) = Ok tt -> sources audit (bo_record_ids options) = Ok records ->
  assemble b t options records = Ok (a, m) ->
  EvidenceLifecycle_into_audit_event (lifecycle_of b options records a m) EventSlot_default = Ok e ->
  build_package b t audit options
  = (fst (record_event audit e (et_record t)),
     map_ok (fun _ => mkEvidencePackage a m) (map_err EvEventRecord (snd (record_event audit e (et_record t))))).
Proof.
  intros Hr Hsrc Ha He. unfold build_package. rewrite Hr. cbn [rbind]. rewrite Hsrc. cbn [rbind]. rewrite Ha.
  cbn [rbind]. unfold record_generation. fold (lifecycle_of b options records a m). rewrite He.
  destruct (record_event audit e (et_record t)) as [s' [u|err]]; cbn; [|done].
  by rewrite (assembled_package b t options records a m Ha).
Qed.
(** Everything up to the recording succeeded. *)
Definition prepared (b : EvidenceBuilder) (t : EvReadings) (audit : S) (options : EvidenceBuildOptions)
    (records : list AuditRecord) (a : EvidenceArtifact) (m : EvidenceManifest) (e : AuditEvent) : Prop :=
  ev_require b t (bo_generated_by options) = Ok tt /\ sources audit (bo_record_ids options) = Ok records
  /\ assemble b t options records = Ok (a, m)
  /\ EvidenceLifecycle_into_audit_event (lifecycle_of b options records a m) EventSlot_default = Ok e.

Local Ltac refused := split; [by eexists | intros (? & ? & ? & ? & ? & ? & ? & ?); congruence].

Lemma build_package_cases b t audit options :
  (exists records a m e, prepared b t audit options records a m e)
  \/ (exists err, build_package b t audit options = (audit, Err err))
     /\ ~ exists records a m e, prepared b t audit options records a m e.
Proof.
  unfold build_package, prepared.
  destruct (ev_require b t (bo_generated_by options)) as [[]|] eqn:Er; cbn [rbind]; [|right; refused].
  destruct (sources audit (bo_record_ids options)) as [records|] eqn:Es; cbn [rbind]; [|right; refused].
  destruct (assemble b t options records) as [[a m]|] eqn:Ea; cbn [rbind]; [|right; refused].
  unfold record_generation. fold (lifecycle_of b options records a m).
  destruct (EvidenceLifecycle_into_audit_event _ _) as [e|] eqn:Ee; [|right; refused].
  left. by exists records, a, m, e.
Qed.

Lemma ev_require_ok_iff b t who :
  ev_require b t who = Ok tt <->
  exists d, authorize (eb_registry b) (et_auth t) who GenerateEvidence (ScopeNetwork (eb_network b)) = Ok d
            /\ ad_allowed d = true.
Proof.
  unfold ev_require. destruct (authorize _ _ _ _ _) as [d|]; simpl; [|by split; [|intros (? & ? & _)]].
  destruct (ad_allowed d) eqn:Ed; split; try done; [by exists d | intros (? & [= <-] & ?); congruence].
Qed.

Lemma prepared_event b t audit options records a m e :
  prepared b t audit options records a m e -> generation_event b t audit options e.
Proof. intros (_ & Hsrc & Ha & He). by exists records, a, m. Qed.

Lemma build_package_spec b t audit options audit' res :
  es_inv audit -> (forall e, generation_event b t audit options e -> ids_fresh audit e) ->
  build_package b t audit options = (audit', res) ->
  match res with
  | Err _ => audit' = audit
  | Ok pkg =>
      (exists d, authorize (eb_registry b) (et_auth t) (bo_generated_by options) GenerateEvidence
                   (ScopeNetwork (eb_network b)) = Ok d /\ ad_allowed d = true)
      /\ (exists v, verify_package pkg audit' = Ok v /\ ver_verified v = true
            /\ map vo_record_id (ver_records v) ≡ₚ bo_record_ids options
            /\ Forall (fun o => vo_status o = Verified) (ver_records v))
      /\ ep_source_records (ea_provenance (pk_artifact pkg)) ≡ₚ bo_record_ids options
      /\ exists e, generation_event b t audit options e /\ recorded audit audit' e (et_record t)
  end.
Proof.
  intros Hs Hf Hb. destruct (build_package_cases b t audit options) as [(records & a & m & e & Hprep)|[[err E] _]].
  2: { rewrite E in Hb. by injection Hb as <- <-. }
  pose proof (prepared_event _ _ _ _ _ _ _ _ Hprep) as Hge. pose proof (Hf e Hge) as Hfe.
  destruct Hprep as (Hr & Hsrc & Ha & He).
  rewrite (build_package_eq b t audit options records a m e Hr Hsrc Ha He) in Hb. apply evidence_event_valid in He as [Hv Hk].
  destruct (record_event audit e (et_record t)) as [s2 r2] eqn:Ere.
  pose proof (record_event_spec _ _ _ _ _ Hs Hv ltac:(by rewrite Hk) Hfe Ere) as Hrec.
  destruct r2 as [u|err]; injection Hb as <- <-; [|done].
  destruct (sources_Ok_inv _ _ _ Hs Hsrc) as (Hin & Hids & _).
  pose proof (assemble_Ok_inv _ _ _ _ _ _ Ha) as (_ & _ & _ & _ & _ & _ & _ & _ & _ & _ & _ & _ & _ & Hprov).
  split; [by apply ev_require_ok_iff|]. split; [|split; [cbn [pk_artifact]; by rewrite Hprov | eauto]].
  destruct Hrec as (Hs2 & _ & Hh).
  assert (Forall (fun r => r ∈ es_history s2) records) as Hin2.
  { eapply Forall_impl; [exact Hin|]. intros r Hr'. simpl.
    destruct Hh as [->|(bytes & _ & ->)]; [done|]. apply elem_of_cons. by right. }
  destruct (assembled_verifies b t options records a m s2 Hs2 Hin2 Ha) as (w & Hw & Hwv & Hwi & Hwa).
  exists w. rewrite Hwi. auto.
Qed.

(** What assembling presupposes. *)
Lemma assemble_requires b t options records a m :
  assemble b t options records = Ok (a, m) ->
  records <> [] /\ NoDup (map record_id records)
  /\ is_ok (VersionLabel_new (version_str (eb_generator_version b))) = true.
Proof.
  intros Ha. pose proof (assemble_Ok_inv _ _ _ _ _ _ Ha) as (mopts & core & bytes & Hb & _).
  apply build_manifest_Ok_inv in Hb as (He & _). apply manifest_entries_Ok in He as (_ & Hnd & _).
  split; [|split; [done|]].
  - intros ->. done.
  - unfold assemble in Ha. ok_inv. destruct (ledger_range records) as [from to]. ok_inv.
    unfold ManifestOptions_new in *. ok_inv.
    match goal with H : VersionLabel_new _ = Ok _ |- _ => by rewrite H end.
Qed.

Lemma build_package_ok_iff b t audit options :
  Sha256Laws -> json_total -> es_inv audit ->
  (forall e, generation_event b t audit options e -> ids_fresh audit e) ->
  is_ok (snd (build_package b t audit options)) = true <-> buildable b t audit options.
Proof.
  intros Hsha Hjson Hs Hf.
  assert ((exists records a m e, prepared b t audit options records a m e) <-> buildable b t audit options) as <-.
  { split.
    - intros (records & a & m & e & Hr & Hsrc & Ha & He). apply assemble_requires in Ha as (Hne & Hnd & Hv).
      destruct (sources_Ok_inv _ _ _ Hs Hsrc) as (_ & Hids & _). rewrite Hids in Hnd. constructor; try done.
      + by apply ev_require_ok_iff.
      + intros E. rewrite E in Hids. apply Permutation_nil_r, map_eq_nil in Hids. done.
      + apply (sources_ok_iff audit _ Hs). by rewrite Hsrc.
      + apply (lifecycle_event_ok_iff b options records a m). by rewrite He.
    - intros [Hau Hne Hnd Hsrc Hv Hl]. apply ev_require_ok_iff in Hau. apply (sources_ok_iff audit _ Hs) in Hsrc.
      destruct (sources audit (bo_record_ids options)) as [records|] eqn:Es; [|done].
      destruct (sources_Ok_inv _ _ _ Hs Es) as (_ & Hids & _).
      pose proof (assemble_total Hjson b t options records) as Ha. rewrite Hids in Ha.
      destruct (assemble b t options records) as [[a m]|] eqn:Ea.
      2: { discriminate Ha; try done. intros ->. simpl in Hids. symmetry in Hids. by apply Permutation_nil_r in Hids. }
      apply (lifecycle_event_ok_iff b options records a m) in Hl.
      destruct (EvidenceLifecycle_into_audit_event _ _) as [e|] eqn:Ee; [|done].
      by exists records, a, m, e. }
  destruct (build_package_cases b t audit options) as [(records & a & m & e & Hprep)|[[err ->] Hno]]; [|by split].
  split; [by exists records, a, m, e | intros _].
  pose proof (Hf e (prepared_event _ _ _ _ _ _ _ _ Hprep)) as Hfe. destruct Hprep as (Hr & Hsrc & Ha & He).
  rewrite (build_package_eq b t audit options records a m e Hr Hsrc Ha He).
  apply evidence_event_valid in He as [Hv Hk]. pose proof (jt_event Hjson e) as Hj.
  destruct (to_vec e) as [bytes|] eqn:Eb; [|done].
  destruct (record_event_ok audit e bytes (et_record t) Hs Hv) as (s' & -> & _); [by rewrite Hk | done | | done].
  unfold event_canonical_bytes, canonical_json. by rewrite Eb.
Qed.

(** *** Building again *)

(** Stored records stay fetchable as history grows. *)
Lemma sources_later audit later ids rs :
  es_inv audit -> es_inv later -> (forall r, r ∈ es_history audit -> r ∈ es_history later) ->
  sources audit ids = Ok rs -> sources later ids = Ok rs.
Proof.
  intros Hs Hl Hsub Hr. unfold sources in *. ok_inv.
  assert (try_map (fetch later) ids = Ok v) as ->.
  { apply try_map_Ok_iff in Hok. apply try_map_Ok_iff. eapply Forall2_impl; [exact Hok|].
    intros id r Hf. apply fetch_Ok in Hf as [Hin <-]; [|done]. unfold fetch. by rewrite es_get_In by auto. }
  cbn [rbind]. by rewrite Hok0.
Qed.

(** Assembling reads one clock only. *)
Lemma assemble_clock b t t' options records :
  et_now t' = et_now t -> assemble b t' options records = assemble b t options records.
Proof. intros E. unfold assemble. by rewrite E. Qed.

(** What does not depend on when the package is made. *)
Record same_evidence (p p' : EvidencePackage) : Prop := {
  sev_id : ea_evidence_id (pk_artifact p) = ea_evidence_id (pk_artifact p');
  sev_provenance : ea_provenance (pk_artifact p) = ea_provenance (pk_artifact p');
  sev_manifest : em_manifest_id (pk_manifest p) = em_manifest_id (pk_manifest p');
  sev_entries : em_entries (pk_manifest p) = em_entries (pk_manifest p');
  sev_aggregate : em_aggregate_digest (pk_manifest p) = em_aggregate_digest (pk_manifest p')
}.

Lemma build_manifest_later l opts now now' m m' :
  build_manifest l opts now = Ok m -> build_manifest l opts now' = Ok m' ->
  im_manifest_id m = im_manifest_id m' /\ im_entries m = im_entries m'
  /\ im_aggregate_digest m = im_aggregate_digest m'.
Proof.
  unfold build_manifest. intros Hm Hm'. destruct (manifest_entries ∅ l); simpl in *; [|done].
  destruct (aggregate_hex _); simpl in *; [|done]. destruct (IntegrityDigest_sha256 _); simpl in *; [|done].
  by ok_inv.
Qed.

Lemma assemble_later b t t' options records a m a' m' :
  assemble b t options records = Ok (a, m) -> assemble b t' options records = Ok (a', m') ->
  same_evidence (mkEvidencePackage a m) (mkEvidencePackage a' m').
Proof.
  unfold assemble. intros Ha Ha'. destruct (EvidenceProvenance_new _ _ _ _); simpl in *; [|done].
  destruct (ledger_range records) as [from to].
  destruct (ManifestOptions_new _ _ _) as [mopts|]; ok_inv.
  unfold from_integrity_manifest in *. ok_inv.
  match goal with E : build_manifest _ _ (et_now t) = Ok ?x, E' : build_manifest _ _ (et_now t') = Ok ?y |- _ =>
    destruct (build_manifest_later _ _ _ _ _ _ E E') as (Hid & He & Hag) end.
  split; simpl; congruence.
Qed.

(** What a successful build leaves. *)
Lemma build_package_Ok_inv b t audit options audit' pkg :
  es_inv audit -> (forall e, generation_event b t audit options e -> ids_fresh audit e) ->
  build_package b t audit options = (audit', Ok pkg) ->
  exists records a m e, prepared b t audit options records a m e /\ pkg = mkEvidencePackage a m
    /\ event_id e ∈ map rec_event_id (es_history audit')
    /\ (forall r, r ∈ es_history audit -> r ∈ es_history audit').
Proof.
  intros Hs Hf Hb. destruct (build_package_cases b t audit options)
    as [(records & a & m & e & Hprep)|[[err E] _]]; [|congruence].
  pose proof (Hf e (prepared_event _ _ _ _ _ _ _ _ Hprep)) as Hfe. exists records, a, m, e. split; [done|].
  destruct Hprep as (Hr & Hsrc & Ha & He). rewrite (build_package_eq b t audit options records a m e Hr Hsrc Ha He) in Hb.
  apply evidence_event_valid in He as [Hv Hk].
  destruct (record_event audit e (et_record t)) as [s2 [u|err]] eqn:Ere; [|done]. injection Hb as <- <-.
  pose proof (record_event_spec _ _ _ _ _ Hs Hv ltac:(by rewrite Hk) Hfe Ere) as (Hs2 & Hin & Hh).
  split; [done|]. split; [done|]. intros r Hr'. destruct Hh as [->|(? & _ & ->)]; [done|].
  apply elem_of_cons. by right.
Qed.

(** Building what the trail already knows. *)
Lemma build_package_known b t later options records a m e :
  json_total -> es_inv later -> prepared b t later options records a m e ->
  event_id e ∈ map rec_event_id (es_history later) ->
  build_package b t later options = (later, Ok (mkEvidencePackage a m)).
Proof.
  intros Hjson Hl (Hr & Hsrc & Ha & He) Hin. rewrite (build_package_eq b t later options records a m e Hr Hsrc Ha He).
  apply evidence_event_valid in He as [Hv Hk].
  pose proof (jt_event Hjson e) as Hj. destruct (to_vec e) as [bytes|] eqn:Eb; [|done].
  rewrite (record_event_again later e bytes); [done | done | done | by rewrite Hk | done |].
  unfold event_canonical_bytes, canonical_json. by rewrite Eb.
Qed.
End Built.

(** ** Claims *)

Section Claims.
Context {S : Type} `{EventStoreLaws S} `{Sha256, JsonStrings, Serialize AuditEvent,
  Serialize AuditRecord, Serialize (list ManifestEntry), Serialize EvidenceArtifact}.

(** C15 Evidence that is built verifies, and it is built whenever it may be.
    Over any store that keeps the storage contract and any request, the builder
    answers; an error leaves the store as it was.  A package it returns was asked
    for by an authorized actor and verifies completely against the resulting
    store (artifact digest, aggregate digest and one [Verified] outcome per
    source record), covers exactly the requested records, and the store gains at
    most the package's own trail event.  With an encoder that does not fail, a
    package is returned exactly when the actor is authorized, the requested ids
    are distinct, at least one, and each names a stored record that is unsealed
    or whose stored digest recomputes (the builder's labels being well formed). *)
Theorem evidence_build_verifies b t audit options :
  es_inv audit ->
  (forall e, generation_event b t audit options e -> ids_fresh audit e) ->
  exists audit' res, build_package b t audit options = (audit', res)
    /\ match res with
       | Err _ => audit' = audit
       | Ok pkg =>
           (exists d, authorize (eb_registry b) (et_auth t) (bo_generated_by options) GenerateEvidence
                        (ScopeNetwork (eb_network b)) = Ok d /\ ad_allowed d = true)
           /\ (exists v, verify_package pkg audit' = Ok v /\ ver_verified v = true
                 /\ map vo_record_id (ver_records v) ≡ₚ bo_record_ids options
                 /\ Forall (fun o => vo_status o = Verified) (ver_records v))
           /\ ep_source_records (ea_provenance (pk_artifact pkg)) ≡ₚ bo_record_ids options
           /\ exists e, generation_event b t audit options e /\ recorded audit audit' e (et_record t)
       end
    /\ (Sha256Laws -> json_total -> is_ok res = true <-> buildable b t audit options).
Proof.
  intros Hs Hf. destruct (build_package b t audit options) as [audit' res] eqn:Eb.
  exists audit', res. split; [done|]. split.
  - pose proof (build_package_spec b t audit options audit' res Hs Hf Eb) as Hspec.
    destruct res; [|done]. exact Hspec.
  - intros Hsha Hjson. pose proof (build_package_ok_iff b t audit options Hsha Hjson Hs Hf) as Hok.
    by rewrite Eb in Hok.
Qed.

(** Evidence generation is deterministic in its source set: supplying the
    same distinct record ids in another order builds the same package (same
    ids, digests, manifest) and leaves the same store. *)
Theorem evidence_order_independent b t audit kind ids ids' by_ audit' pkg :
  es_inv audit -> NoDup ids -> ids ≡ₚ ids' ->
  build_package b t audit (mkBuildOptions kind ids by_) = (audit', Ok pkg) ->
  build_package b t audit (mkBuildOptions kind ids' by_) = (audit', Ok pkg).
Proof.
  intros Hs Hnd Hp Hb. unfold build_package in *. simpl in *.
  destruct (ev_require b t by_) as [u|]; simpl in *; [|done].
  destruct (sources audit ids) as [rs|] eqn:Er; simpl in *; [|done].
  rewrite (sources_perm audit ids ids' rs Hs Hnd Hp Er). simpl. exact Hb.
Qed.

(** C26 Evidence is reproducible.  Once a package was built, building again from
    the same records named in any order, at any later time and against the store
    as it has grown since, by an actor then authorized, succeeds (with an encoder
    that does not fail), gives the same evidence id, provenance, manifest id,
    entries and aggregate digest, and leaves the store exactly as it is: the
    trail keeps the event of the first generation, with the first digest.  Under
    the same clock reading it is the very same package. *)
Theorem evidence_reproducible b t t' audit audit' later kind ids ids' by_ pkg :
  Sha256Laws -> json_total -> es_inv audit ->
  (forall e, generation_event b t audit (mkBuildOptions kind ids by_) e -> ids_fresh audit e) ->
  build_package b t audit (mkBuildOptions kind ids by_) = (audit', Ok pkg) ->
  ids ≡ₚ ids' -> es_inv later -> (forall r, r ∈ es_history audit' -> r ∈ es_history later) ->
  (exists d, authorize (eb_registry b) (et_auth t') by_ GenerateEvidence (ScopeNetwork (eb_network b)) = Ok d
             /\ ad_allowed d = true) ->
  exists pkg', build_package b t' later (mkBuildOptions kind ids' by_) = (later, Ok pkg')
    /\ same_evidence pkg pkg' /\ (et_now t' = et_now t -> pkg' = pkg).
Proof.
  intros Hsha Hjson Hs Hf Hb Hp Hl Hsub Hau%ev_require_ok_iff.
  destruct (build_package_Ok_inv _ _ _ _ _ _ Hs Hf Hb) as (records & a & m & e & (_ & Hsrc & Ha & He) & -> & Hin & Hold).
  pose proof (assemble_requires _ _ _ _ _ _ Ha) as (Hne & Hnd & Hver).
  pose proof (sources_Ok_inv _ _ _ Hs Hsrc) as (_ & Hids & _). simpl in Hids.
  assert (sources later ids' = Ok records) as Hsrc'.
  { apply (sources_later audit); auto. apply (sources_perm audit ids); try done. by rewrite <- Hids. }
  assert (is_ok (assemble b t' (mkBuildOptions kind ids' by_) records) = true) as Ha' by by apply (assemble_total Hjson).
  destruct (assemble b t' (mkBuildOptions kind ids' by_) records) as [[a' m']|] eqn:Ea'; [clear Ha'|done].
  pose proof (assemble_later b t t' (mkBuildOptions kind ids by_) records a m a' m' Ha Ea') as Hsame.
  assert (exists e', EvidenceLifecycle_into_audit_event (lifecycle_of b (mkBuildOptions kind ids' by_) records a' m')
                       EventSlot_default = Ok e') as [e' He'].
  { destruct (EvidenceLifecycle_into_audit_event (lifecycle_of b (mkBuildOptions kind ids' by_) records a' m') EventSlot_default)
      as [e'|] eqn:Ee; [by exists e'|]. exfalso.
    assert (is_ok (EventProvenance_new Derived (eb_source b) (eb_parser b)) = true) as Hl'.
    { apply (lifecycle_event_ok_iff b (mkBuildOptions kind ids by_) records a m). by rewrite He. }
    apply (lifecycle_event_ok_iff b (mkBuildOptions kind ids' by_) records a' m') in Hl'. by rewrite Ee in Hl'. }
  exists (mkEvidencePackage a' m'). split; [|split; [exact Hsame|]].
  - apply (build_package_known b t' later (mkBuildOptions kind ids' by_) records a' m' e' Hjson Hl); [done|].
    assert (event_id e' = event_id e) as ->.
    { rewrite (evidence_event_id _ _ _ He), (evidence_event_id _ _ _ He'). pose proof (sev_id _ _ Hsame) as Esame.
      simpl in Esame. unfold lifecycle_of. cbn. by rewrite Esame. }
    apply list_elem_of_fmap in Hin as (r & -> & Hr'). apply list_elem_of_fmap_2. by apply Hsub.
  - intros Et. rewrite (assemble_clock b t t') in Ea' by done.
    change (assemble b t (mkBuildOptions kind ids by_) records = Ok (a', m')) in Ea'. congruence.
Qed.
End Claims.

(** The builder's documentation says a sealed record whose body still matches
    is accepted; the check recomputes the standalone digest, so a record sealed
    by the chain behind a predecessor is refused as tampered although nothing
    was altered, unless the string sealed and the record's own bytes collide. *)
Theorem chained_sources_refused `{Sha256Laws} `{Serialize AuditRecord} r0 r rest sealed :
  seal_chain (r0 :: r :: rest) = Ok sealed ->
  verify_chain sealed = Ok tt
  /\ (is_ok (require_intact sealed) = false \/ clash (chain_inputs None sealed) (standalone_inputs sealed)).
Proof.
  intros Hs. split; [eapply verify_from_iff, seal_from_idem; exact Hs|].
  destruct (require_intact sealed) as [[]|] eqn:Hi; [|by left]. right.
  apply require_intact_Ok_iff in Hi.
  unfold seal_chain in Hs. simpl in Hs. ok_inv.
  apply Forall_cons in Hi as [_ Hi]. apply Forall_cons in Hi as [Hi _].
  specialize (Hi _ eq_refl). simpl in Hi. rewrite record_digest_set_integrity in Hi.
  match goal with
  | H0 : chain_step None r0 = Ok ?d0, H1 : chain_step (Some ?d0) r = Ok ?d1 |- _ =>
      apply chain_step_hash in H0 as (b0 & Hb0 & ->); apply chain_step_hash in H1 as (b1 & Hb & ->)
  end.
  unfold record_digest in Hi. rewrite Hb in Hi. simpl in Hi. injection Hi as E.
  apply hex_lower_inj in E. exists (chain_input (Some (hash_bytes b0)) b1), b1.
  unfold standalone_inputs. cbn [omap list_omap chain_inputs]. rewrite !canonical_input_set_integrity, Hb0, Hb.
  split; [set_solver|]. split; [set_solver|]. split; [|done].
  intros Eb. apply (f_equal String.length) in Eb. cbn [chain_input hash_bytes dig_value] in Eb. rewrite length_append, hex_lower_length, sha256_length in Eb.
  lia.
Qed.

Section ChainedWitness.
Local Existing Instances toy_sha toy_sha_laws toy_record_json.

Lemma chained_sources_refused_witness : verify_chain sealed2 = Ok tt.
Proof.
  destruct (seal_chain [sample_record "0a" 1; sample_record "0b" 2]) as [l|e] eqn:E.
  - assert (sealed2 = l) as -> by (unfold sealed2; by rewrite E).
    exact (proj1 (chained_sources_refused (sample_record "0a" 1) (sample_record "0b" 2) [] l E)).
  - vm_compute in E. discriminate E.
Defined.
End ChainedWitness.

Section EvidenceWitness.
Local Existing Instances toy_sha toy_strings toy_event_json toy_record_json toy_entries_json.
Local Instance toy_artifact_json : Serialize EvidenceArtifact :=
  fun a => Ok ("{" +:+ as_str (ea_evidence_id a) +:+ "}").

Definition aud3 : AuditorId := mkId (mkStableId "aud" "aud_03").
Definition reg3 : Registry :=
  fst (register Registry_new (with_credential (Credential_new aud3 "k" (mkTimestamp 100))
         (with_scope ScopeAll (Grant_new aud3 SeniorAuditor)))).
Definition builder3 : EvidenceBuilder := mkEvidenceBuilder testnet "evid" v1 v1 reg3.
Definition et3 : EvReadings := mkEvReadings (mkTimestamp 1) (mkTimestamp 2) (mkTimestamp 3).
Definition rec3 : AuditRecord := sample_record "0a" 5.
Definition rec4 : AuditRecord := sample_record "0b" 6.
Definition audit3 : MemoryEventStore := fst (MemoryStore.insert (fst (MemoryStore.insert MemoryEventStore_new rec3)) rec4).
Definition options3 : EvidenceBuildOptions :=
  mkBuildOptions TransactionEvidence [record_id rec4; record_id rec3] aud3.

Lemma audit3_inv : es_inv audit3.
Proof.
  destruct (insert_fresh_spec MemoryEventStore_new rec3 store_inv_new eq_refl) as (s1 & E1 & Hs1 & Hh1);
    [split; apply not_elem_of_nil|].
  destruct (insert_fresh_spec s1 rec4 Hs1 eq_refl) as (s2 & E2 & Hs2 & _).
  { split; rewrite Hh1; simpl; rewrite list_elem_of_singleton; discriminate. }
  unfold audit3. rewrite E1. simpl. by rewrite E2.
Qed.

Lemma audit3_history : history audit3 = [rec3; rec4].
Proof. vm_compute. reflexivity. Qed.

(** The trail event of an evidence build does not collide with the samples:
    its record id has a 32-character body. *)
Lemma audit3_fresh e : generation_event builder3 et3 audit3 options3 e -> ids_fresh audit3 e.
Proof.
  intros _ _ bytes _. change (es_history audit3) with (history audit3). rewrite audit3_history. simpl.
  pose proof (@derived_body_length toy_sha toy_sha_laws bytes) as Hl.
  rewrite !elem_of_cons. intros [E|[E|E]]; [| | by apply elem_of_nil in E];
    apply (f_equal (fun i => String.length (as_str i))) in E; simpl in E; rewrite Hl in E; discriminate.
Qed.

Lemma evidence_build_verifies_witness :
  exists s' pkg, build_package builder3 et3 audit3 options3 = (s', Ok pkg)
    /\ ep_source_records (ea_provenance (pk_artifact pkg)) ≡ₚ bo_record_ids options3
    /\ buildable builder3 et3 audit3 options3.
Proof.
  destruct (evidence_build_verifies builder3 et3 audit3 options3 audit3_inv audit3_fresh)
    as (s' & [pkg|e] & E & Hres & Hiff).
  - exists s', pkg. split; [exact E|]. split; [exact (proj1 (proj2 (proj2 Hres)))|].
    apply (Hiff toy_sha_laws); [|reflexivity]. split; intros; reflexivity.
  - vm_compute in E. discriminate E.
Defined.

Lemma evidence_order_independent_witness :
  match build_package builder3 et3 audit3 options3 with
  | (s', Ok pkg) =>
      build_package builder3 et3 audit3
        (mkBuildOptions TransactionEvidence [record_id rec3; record_id rec4] aud3) = (s', Ok pkg)
  | _ => False
  end.
Proof.
  destruct (build_package builder3 et3 audit3 options3) as [s' [pkg|e]] eqn:E.
  - apply (evidence_order_independent builder3 et3 audit3 TransactionEvidence
             [record_id rec4; record_id rec3] [record_id rec3; record_id rec4] aud3 s' pkg audit3_inv).
    + apply (bool_decide_unpack _). vm_compute. exact I.
    + apply Permutation_swap.
    + exact E.
  - vm_compute in E. discriminate E.
Defined.

(** Later, asked for in the other order. *)
Definition et3' : EvReadings := mkEvReadings (mkTimestamp 7) (mkTimestamp 8) (mkTimestamp 9).
Definition audit3' : MemoryEventStore := fst (build_package builder3 et3 audit3 options3).

Lemma evidence_reproducible_witness :
  exists pkg pkg', build_package builder3 et3 audit3 options3 = (audit3', Ok pkg)
    /\ build_package builder3 et3' audit3'
         (mkBuildOptions TransactionEvidence [record_id rec3; record_id rec4] aud3) = (audit3', Ok pkg')
    /\ same_evidence pkg pkg'.
Proof.
  destruct (build_package builder3 et3 audit3 options3) as [s' [pkg|e]] eqn:E.
  - assert (s' = audit3') as -> by (unfold audit3'; by rewrite E).
    destruct (build_package_spec builder3 et3 audit3 options3 audit3' (Ok pkg) audit3_inv audit3_fresh E)
      as (Hau & _ & _ & e & _ & Hs' & _).
    destruct (evidence_reproducible builder3 et3 et3' audit3 audit3' audit3' TransactionEvidence
                [record_id rec4; record_id rec3] [record_id rec3; record_id rec4] aud3 pkg toy_sha_laws)
      as (pkg' & E' & Hsame & _).
    + split; intros; reflexivity.
    + exact audit3_inv.
    + exact audit3_fresh.
    + exact E.
    + apply Permutation_swap.
    + exact Hs'.
    + done.
    + eexists. split; vm_compute; reflexivity.
    + exists pkg, pkg'. split; [done|]. split; [exact E' | exact Hsame].
  - vm_compute in E. discriminate E.
Defined.
End EvidenceWitness.
