(* ===== verification/PackageTamper.v ===== *)
(** * What a verified evidence package certifies

    Package verification decided exactly, what a package that verifies says about
    the records it names, and what it leaves unchecked: the artifact and the
    manifest are verified apart, so a package made of halves of two verifies. *)

From S2P Require Import Prelude Text BTree Errors Identifiers Timestamps Classification.
From S2P Require Import Correlation Events IntegrityModel Records Samples Pagination Storage.
From S2P Require Import MemoryStore MemoryPaging Integrity IntegrityProofs TamperLocation AccessModel.
From S2P Require Import Authorization Cases ReportModel AuditEvents Trail Evidence EvidenceProofs.
Open Scope list_scope.

Section Verdict.
Context {S : Type} `{EventStoreLaws S} `{Sha256} `{JsonStrings} `{Serialize AuditRecord}
  `{Serialize (list ManifestEntry)} `{Serialize EvidenceArtifact}.
Implicit Types (p : EvidencePackage) (a : EvidenceArtifact) (audit : S).

(** The stored records of a manifest's entries: the same id is the same record. *)
Lemma omap_get_In audit es r :
  es_inv audit -> r ∈ omap (get_ok audit) es <-> r ∈ es_history audit /\ record_id r ∈ map me_record_id es.
Proof.
  intros Hs. rewrite list_elem_of_omap. unfold get_ok. split.
  - intros (e & He & Hr). destruct (es_get audit (me_record_id e)) as [r'|] eqn:Eg; [|done]. injection Hr as ->.
    apply es_get_sound in Eg as [Hin Hid]; [|done]. split; [done|]. rewrite Hid. by apply list_elem_of_fmap_2.
  - intros [Hin (e & Hid & He)%list_elem_of_fmap]. exists e. split; [done|]. by rewrite <- Hid, es_get_In.
Qed.

Lemma index_by_id_sound l i r : index_by_id l !! i = Some r -> r ∈ l /\ record_id r = i.
Proof.
  unfold index_by_id. assert (forall bi : gmap RecordId AuditRecord,
    fold_left (fun m r => <[record_id r := r]> m) l bi !! i = Some r ->
    (r ∈ l /\ record_id r = i) \/ bi !! i = Some r) as Hgo.
  { induction l as [|x l IH]; intros bi; simpl; [auto|]. intros [[Hr Hi]|Hm]%IH.
    - left. split; [by right | done].
    - apply lookup_insert_Some in Hm as [[Hi ->]|[_ Hm]]; [left; split; [left | done] | by right]. }
  intros Hi. by destruct (Hgo ∅ Hi) as [|Hn].
Qed.

Lemma index_by_id_dom l r : r ∈ l -> is_Some (index_by_id l !! record_id r).
Proof.
  unfold index_by_id. assert (forall bi : gmap RecordId AuditRecord, r ∈ l \/ is_Some (bi !! record_id r) ->
    is_Some (fold_left (fun m r => <[record_id r := r]> m) l bi !! record_id r)) as Hgo.
  { induction l as [|x l IH]; intros bi; simpl; [by intros [?%elem_of_nil|]|].
    intros Hr. apply IH. destruct (decide (record_id x = record_id r)) as [E|E].
    - right. rewrite E, lookup_insert_eq. by eexists.
    - rewrite lookup_insert_ne by done. destruct Hr as [[->|Hr]%elem_of_cons|Hr]; [done | by left | by right]. }
  intros Hr. apply Hgo. by left.
Qed.

Lemma stored_index audit es i r :
  es_inv audit -> i ∈ map me_record_id es ->
  index_by_id (omap (get_ok audit) es) !! i = Some r <-> r ∈ es_history audit /\ record_id r = i.
Proof.
  intros Hs Hi. split.
  - intros [Hr Hid]%index_by_id_sound. by apply omap_get_In in Hr as [Hin _].
  - intros [Hin <-]. destruct (index_by_id_dom (omap (get_ok audit) es) r) as [r' E]; [by apply omap_get_In|].
    rewrite E. apply index_by_id_sound in E as [Hr' Hid]. apply omap_get_In in Hr' as [Hin' _]; [|done].
    f_equal. apply (NoDup_map_inj record_id (es_history audit)); try done. by apply es_history_nodup.
Qed.

(** What the store says of one entry. *)
Definition entry_status audit (e : ManifestEntry) (st : IntegrityStatus) : Prop :=
  match st with
  | Verified => exists r, r ∈ es_history audit /\ record_id r = me_record_id e /\ record_digest r = Ok (me_digest e)
  | DigestMismatch =>
      exists r d, r ∈ es_history audit /\ record_id r = me_record_id e /\ record_digest r = Ok d /\ d <> me_digest e
  | RecordMissing => me_record_id e ∉ map record_id (es_history audit)
  | _ => False
  end.

Lemma verify_entry_status audit es e o :
  es_inv audit -> e ∈ es -> verify_entry (index_by_id (omap (get_ok audit) es)) e = Ok o ->
  vo_record_id o = me_record_id e /\ entry_status audit e (vo_status o).
Proof.
  intros Hs He. assert (me_record_id e ∈ map me_record_id es) as Hi by by apply list_elem_of_fmap_2.
  unfold verify_entry. destruct (index_by_id _ !! me_record_id e) as [r|] eqn:E.
  - apply stored_index in E as [Hin Hid]; [|done..]. intros Ho. ok_inv.
    case_bool_decide as Hd; ok_inv; (split; [done|]); simpl; [exists r | exists r, v]; by subst.
  - intros [= <-]. split; [done|]. simpl. intros (r & Hid & Hin)%list_elem_of_fmap.
    rewrite (proj2 (stored_index audit es _ r Hs Hi)) in E; done.
Qed.

(** ** The verdict *)

(** The artifact's stored digest is the hash of its content. *)
Definition artifact_intact a : Prop :=
  exists bytes, artifact_canonical_bytes a = Ok bytes /\ ea_digest a = Some (hash_bytes bytes).

(** The manifest's aggregate digest is the SHA-256 of its entries. *)
Definition aggregate_intact (m : EvidenceManifest) : Prop :=
  dig_algorithm (em_aggregate_digest m) = SHA256 /\ aggregate_hex (em_entries m) = Ok (dig_value (em_aggregate_digest m)).

Lemma structure_verdict p v :
  verify_package_structure p = Ok v ->
  (ver_artifact_verified v = true <-> artifact_intact (pk_artifact p))
  /\ (is_verified (ver_aggregate v) = true <-> aggregate_intact (pk_manifest p)).
Proof.
  unfold verify_package_structure. intros Hv. ok_inv. simpl. split.
  - unfold artifact_intact. destruct (ea_digest (pk_artifact p)) as [d|]; ok_inv.
    + case_bool_decide as Hd; split; try done; [intros _; eexists; split; [eassumption | by rewrite Hd]|].
      intros (bytes & Hb & [= ->]). congruence.
    + split; [done | by intros (? & _ & ?)].
  - unfold core_manifest in *. ok_inv. unfold verify_manifest_aggregate, aggregate_intact in *. simpl in *.
    destruct (String.eqb_spec (dig_algorithm (em_aggregate_digest (pk_manifest p))) SHA256) as [Ea|Ea]; simpl in *; ok_inv.
    + match goal with E : aggregate_hex _ = Ok ?hex |- _ => rewrite E;
        destruct (String.eqb_spec hex (dig_value (em_aggregate_digest (pk_manifest p)))) as [Ev|Ev] end;
        (split; try done); [intros _; by rewrite Ev | by intros [_ [= ?]]].
    + by split; [|intros []].
Qed.

(** Full verification: the structure's verdict and one outcome per entry. *)
Lemma package_outcomes p audit v :
  es_inv audit -> verify_package p audit = Ok v ->
  exists w, verify_package_structure p = Ok w
    /\ Forall2 (fun e o => vo_record_id o = me_record_id e /\ entry_status audit e (vo_status o))
         (em_entries (pk_manifest p)) (ver_records v)
    /\ ver_verified v = ver_artifact_verified w && is_verified (ver_aggregate w)
                        && forallb (fun o => is_verified (vo_status o)) (ver_records v).
Proof.
  unfold verify_package. intros Hs Hv. ok_inv. exists v0. split; [done|]. split; [|done]. simpl.
  unfold core_manifest in *. ok_inv. unfold verify_manifest_records in *. simpl in *.
  match goal with E : try_map _ _ = Ok _ |- _ => apply try_map_Ok_iff in E; rename E into Hall end.
  apply Forall2_same_length_lookup. split; [by eapply Forall2_length|]. intros i e o He Ho.
  pose proof (Forall2_lookup_lr _ _ _ _ _ _ Hall He Ho) as Hv. apply list_elem_of_lookup_2 in He.
  by eapply verify_entry_status.
Qed.

Lemma statuses_verified audit es os :
  Forall2 (fun e o => vo_record_id o = me_record_id e /\ entry_status audit e (vo_status o)) es os ->
  es_inv audit ->
  forallb (fun o => is_verified (vo_status o)) os = true <-> Forall (fun e => entry_status audit e Verified) es.
Proof.
  intros Hall Hs. induction Hall as [|e o es os [_ Ho] _ IH]; simpl; [done|].
  rewrite andb_true_iff, Forall_cons, IH. split; intros [Hv Hrest]; (split; [|done]).
  - by destruct (vo_status o).
  - destruct (vo_status o) eqn:Est; try done; simpl in Ho; destruct Hv as (r & Hin & Hid & Hd).
    + destruct Ho as (r' & d & Hin' & Hid' & Hd' & Hne).
      assert (r' = r) as -> by (apply (NoDup_map_inj record_id (es_history audit)); [by apply es_history_nodup|..]; congruence).
      congruence.
    + destruct Ho. rewrite <- Hid. by apply list_elem_of_fmap_2.
Qed.
End Verdict.

(** ** Claims *)

Section Claims.
Context {S : Type} `{EventStoreLaws S} `{Sha256} `{JsonStrings} `{Serialize AuditEvent} `{Serialize AuditRecord}
  `{Serialize (list ManifestEntry)} `{Serialize EvidenceArtifact}.

Lemma verify_entry_total by_id e : json_total -> is_ok (verify_entry by_id e) = true.
Proof.
  intros Hjson. unfold verify_entry. destruct (by_id !! me_record_id e) as [r|]; [|done].
  destruct (record_digest_total Hjson r) as [d ->]. simpl. by case_bool_decide.
Qed.

Lemma verify_package_total p (audit : S) :
  json_total ->
  is_ok (verify_package p audit) = true <->
  is_ok (EvidenceArtifact_validate (pk_artifact p)) = true
  /\ inverted_range (em_from_ledger (pk_manifest p)) (em_to_ledger (pk_manifest p)) = false.
Proof.
  intros Hjson. unfold verify_package, verify_package_structure, core_manifest.
  destruct (EvidenceArtifact_validate (pk_artifact p)) as [u|]; cbn [map_err rbind]; [|by split; [|intros []]].
  destruct (artifact_bytes_total Hjson (pk_artifact p)) as [bytes ->]. cbn [map_err rbind].
  assert (exists b, match ea_digest (pk_artifact p) with
            | Some digest => Ok (bool_decide (hash_bytes bytes = digest))
            | None => Ok false
            end = Ok (E := EvidenceError) b) as [b ->] by (destruct (ea_digest (pk_artifact p)); eauto).
  cbn [rbind]. unfold IntegrityManifest_validate, IntegrityManifest_new. simpl.
  rewrite Z.eqb_refl. destruct (inverted_range _ _); simpl; [by split; [|intros []]|].
  split; [done|]. intros _. unfold verify_manifest_aggregate. simpl.
  unfold aggregate_hex, aggregate_input.
  pose proof (jt_entries Hjson (em_entries (pk_manifest p))) as He. destruct (to_vec _) as [j|]; [|done]. simpl.
  unfold verify_manifest_records. simpl.
  destruct (try_map_total (verify_entry (index_by_id (omap (get_ok audit) (em_entries (pk_manifest p)))))
              (em_entries (pk_manifest p))) as [os Hos]; [intros e; by apply verify_entry_total|].
  by destruct (negb (String.eqb (dig_algorithm (em_aggregate_digest (pk_manifest p))) SHA256)); simpl; rewrite Hos.
Qed.

Lemma stored_same_digest (audit later : S) r r' d :
  r ∈ es_history audit -> r' ∈ es_history later -> record_digest r = Ok d -> record_digest r' = Ok d ->
  same_body r r' \/ clash (standalone_inputs (es_history audit)) (standalone_inputs (es_history later)).
Proof.
  intros Hr Hr' Hd Hd'. unfold record_digest in *.
  assert (forall x b l, x ∈ l -> canonical_record_input x = Ok b -> b ∈ standalone_inputs l) as Hin.
  { intros x b l Hx Hb. apply list_elem_of_omap. exists x. by rewrite Hb. }
  destruct (canonical_record_input r) as [b|] eqn:Eb; [|done].
  destruct (canonical_record_input r') as [b'|] eqn:Eb'; [|done].
  cbn [rbind] in Hd, Hd'. assert (hash_bytes b = hash_bytes b') as E by congruence.
  destruct (hash_bytes_eq b b' _ _ (Hin r b _ Hr Eb) (Hin r' b' _ Hr' Eb') E); [left; unfold same_body; congruence | by right].
Qed.

(** C16 What a verified package certifies.  With an encoder that does not fail,
    verification against a store answers whenever the artifact's schema version
    is supported and the manifest's ledger range is not inverted.  It gives
    exactly one outcome per manifest entry, and the outcome says what the store
    holds: [Verified], a record of that id whose content has the certified
    digest; [DigestMismatch], one whose content has another; [RecordMissing],
    none.  The package verifies exactly when the artifact's digest is the hash of
    its content, the aggregate digest is that of the entries, and every entry is
    [Verified].  So a package that verifies against two stores (or one store at
    two times) shows that each record it certifies has the same content in both,
    unless two different contents with the same SHA-256 are among those stored. *)
Theorem package_certifies p (audit : S) :
  es_inv audit ->
  (Sha256Laws -> json_total -> is_ok (verify_package p audit) = true <->
     is_ok (EvidenceArtifact_validate (pk_artifact p)) = true
     /\ inverted_range (em_from_ledger (pk_manifest p)) (em_to_ledger (pk_manifest p)) = false)
  /\ forall v, verify_package p audit = Ok v ->
       Forall2 (fun e o => vo_record_id o = me_record_id e /\ entry_status audit e (vo_status o))
         (em_entries (pk_manifest p)) (ver_records v)
       /\ (ver_verified v = true <->
             artifact_intact (pk_artifact p) /\ aggregate_intact (pk_manifest p)
             /\ Forall (fun e => entry_status audit e Verified) (em_entries (pk_manifest p)))
       /\ forall later v', es_inv later -> verify_package p later = Ok v' ->
            ver_verified v = true -> ver_verified v' = true ->
            forall r r', r ∈ es_history audit -> r' ∈ es_history later -> record_id r' = record_id r ->
              record_id r ∈ map me_record_id (em_entries (pk_manifest p)) ->
              same_body r r'
              \/ clash (standalone_inputs (es_history audit)) (standalone_inputs (es_history later)).
Proof.
  intros Hs. split; [intros _ Hjson; by apply verify_package_total|]. intros v Hv.
  destruct (package_outcomes p audit v Hs Hv) as (w & Hw & Hall & Hver). split; [exact Hall|].
  destruct (structure_verdict p w Hw) as [Hart Hagg].
  assert (forall st os, es_inv st -> Forall2 (fun e o => vo_record_id o = me_record_id e /\ entry_status st e (vo_status o))
            (em_entries (pk_manifest p)) os ->
          ver_artifact_verified w && is_verified (ver_aggregate w) && forallb (fun o => is_verified (vo_status o)) os = true
          <-> artifact_intact (pk_artifact p) /\ aggregate_intact (pk_manifest p)
              /\ Forall (fun e => entry_status st e Verified) (em_entries (pk_manifest p))) as Hiff.
  { intros st os Hst Hos. rewrite !andb_true_iff, Hart, Hagg, (statuses_verified st _ _ Hos Hst). tauto. }
  split; [rewrite Hver; by apply Hiff|].
  intros later v' Hs' Hv' Hok Hok' r r' Hr Hr' Hid (e & Ee & He)%list_elem_of_fmap.
  destruct (package_outcomes p later v' Hs' Hv') as (w' & Hw' & Hall' & Hver'). assert (w' = w) as -> by congruence.
  rewrite Hver, (Hiff audit _ Hs Hall) in Hok. rewrite Hver', (Hiff later _ Hs' Hall') in Hok'.
  destruct Hok as (_ & _ & Hes), Hok' as (_ & _ & Hes'). rewrite Forall_forall in Hes, Hes'.
  destruct (Hes e He) as (x & Hx & Hxid & Hd), (Hes' e He) as (x' & Hx' & Hxid' & Hd').
  assert (x = r) as -> by (apply (NoDup_map_inj record_id (es_history audit)); [by apply es_history_nodup|..]; congruence).
  assert (x' = r') as -> by (apply (NoDup_map_inj record_id (es_history later)); [by apply es_history_nodup|..]; congruence).
  by eapply stored_same_digest.
Qed.
End Claims.

(** ** The two halves of a package *)

Section Halves.
Context {S : Type} `{EventStore S} `{Sha256} `{JsonStrings} `{Serialize AuditRecord}
  `{Serialize (list ManifestEntry)} `{Serialize EvidenceArtifact}.
Implicit Types (a : EvidenceArtifact) (audit : S).

Definition artifact_verdict a : EvidenceResult bool :=
  let? _ := map_err ev_from_core (EvidenceArtifact_validate a) in
  match ea_digest a with
  | Some digest =>
      let? bytes := map_err ev_from_core (artifact_canonical_bytes a) in
      Ok (bool_decide (hash_bytes bytes = digest))
  | None => Ok false
  end.

Definition manifest_verdict (m : EvidenceManifest) audit
  : EvidenceResult (IntegrityStatus * list VerificationOutcome) :=
  if inverted_range (em_from_ledger m) (em_to_ledger m)
  then Err (ev_from_core (ValidationFailure "manifest ledger range start exceeds its end"))
  else
    let core := IntegrityManifest_new (em_manifest_id m) (em_generated_at m) (em_software_version m)
                  None None (em_entries m) (Some (em_aggregate_digest m)) in
    let? aggregate := map_err ev_from_integrity (verify_manifest_aggregate core) in
    let? outcomes := map_err ev_from_integrity
                       (verify_manifest_records core (omap (get_ok audit) (em_entries m))) in
    Ok (aggregate, outcomes).

(** Verification looks at each half alone. *)
Lemma verify_package_halves a m audit :
  verify_package (mkEvidencePackage a m) audit =
    (let? av := artifact_verdict a in
     let? mv := manifest_verdict m audit in
     Ok (mkEvidenceVerification av (fst mv) (snd mv)
           (av && is_verified (fst mv) && forallb (fun o => is_verified (vo_status o)) (snd mv)))).
Proof.
  unfold verify_package, verify_package_structure, artifact_verdict, manifest_verdict, core_manifest,
    IntegrityManifest_validate. simpl.
  destruct (EvidenceArtifact_validate a) as [u|]; simpl; [|done].
  match goal with |- context [match ea_digest a with Some d => @?f d | None => Ok false end] =>
    destruct (match ea_digest a with Some d => f d | None => Ok false end) as [av|] end; simpl; [|done].
  rewrite Z.eqb_refl. destruct (inverted_range _ _); simpl; [done|].
  unfold verify_manifest_aggregate, verify_manifest_records. simpl.
  destruct (negb (String.eqb (dig_algorithm (em_aggregate_digest m)) SHA256)); simpl;
    [|destruct (aggregate_hex (em_entries m)); simpl; [|done]];
    by destruct (try_map _ (em_entries m)).
Qed.

(** C22 The artifact and the manifest of a package are verified apart, and what
    ties them together is not verified.  The manifest's own identity, times,
    versions, network, record count, ledger range (if not inverted) and the
    artifact it certifies may be anything: the verdict is the same.  So the
    artifact of one verifying package beside the manifest of another verifies
    completely, although the constructor refuses to assemble such a pair; a
    package that was exported and decoded never meets that constructor. *)
Theorem spliced_package_verifies audit :
  (forall a m m', em_entries m' = em_entries m -> em_aggregate_digest m' = em_aggregate_digest m ->
     inverted_range (em_from_ledger m') (em_to_ledger m') = inverted_range (em_from_ledger m) (em_to_ledger m) ->
     verify_package (mkEvidencePackage a m') audit = verify_package (mkEvidencePackage a m) audit)
  /\ forall p p' v v',
       verify_package p audit = Ok v -> ver_verified v = true ->
       verify_package p' audit = Ok v' -> ver_verified v' = true ->
       (exists w, verify_package (mkEvidencePackage (pk_artifact p) (pk_manifest p')) audit = Ok w
                  /\ ver_verified w = true /\ ver_records w = ver_records v')
       /\ (em_artifact (pk_manifest p') <> ea_evidence_id (pk_artifact p) ->
           is_ok (EvidencePackage_new (pk_artifact p) (pk_manifest p')) = false).
Proof.
  split.
  - intros a m m' He Ha Hr. rewrite !verify_package_halves. unfold manifest_verdict. rewrite He, Ha, Hr. reflexivity.
  - intros [a m] [a' m'] v v' Hv Hok Hv' Hok'. rewrite verify_package_halves in Hv, Hv'. simpl. split.
    + rewrite verify_package_halves.
      destruct (artifact_verdict a) as [av|]; simpl in *; [|done].
      destruct (manifest_verdict m audit) as [[ag os]|]; simpl in *; [|done].
      destruct (artifact_verdict a') as [av'|]; simpl in *; [|done].
      destruct (manifest_verdict m' audit) as [[ag' os']|]; simpl in *; [|done].
      injection Hv as <-. injection Hv' as <-. simpl in *. eexists. split; [reflexivity|]. split; [|done]. simpl.
      rewrite !andb_true_iff in *. tauto.
    + intros Hne. unfold EvidencePackage_new. by rewrite bool_decide_false.
Qed.
End Halves.

(** ** Concrete packages *)

Section PackageWitness.
#[local] Existing Instances sum_sha sum_sha_laws toy_strings toy_event_json timed_record_json
  toy_entries_json toy_artifact_json.

(** The package of one record of the store. *)
Definition package_of (r : AuditRecord) : EvidencePackage :=
  match snd (build_package builder3 et3 audit3 (mkBuildOptions TransactionEvidence [record_id r] aud3)) with
  | Ok pkg => pkg
  | Err _ => mkEvidencePackage (EvidenceArtifact_new (derive []) TransactionEvidence
                                  (mkEvidenceProvenance [] [] v1 v1) (mkTimestamp 0) None)
               (mkEvidenceManifest (derive []) (derive []) 0 (mkTimestamp 0) "" v1 testnet None None 0 []
                  (hash_bytes ""))
  end.

(** The store with the first record moved in time. *)
Definition rec3_moved : AuditRecord := moved_in_time rec3 (mkTimestamp 4).
Definition audit3_moved : MemoryEventStore :=
  fst (MemoryStore.insert (fst (MemoryStore.insert MemoryEventStore_new rec3_moved)) rec4).

Lemma audit3_moved_inv : es_inv audit3_moved.
Proof.
  destruct (insert_fresh_spec MemoryEventStore_new rec3_moved store_inv_new eq_refl) as (s1 & E1 & Hs1 & Hh1);
    [split; apply not_elem_of_nil|].
  destruct (insert_fresh_spec s1 rec4 Hs1 eq_refl) as (s2 & E2 & Hs2 & _).
  { split; rewrite Hh1; simpl; rewrite list_elem_of_singleton; discriminate. }
  unfold audit3_moved. rewrite E1. simpl. by rewrite E2.
Qed.

(** It certifies the record in the store it was built from, and no longer when
    the record moved. *)
Lemma package_certifies_witness :
  Forall (fun e => entry_status audit3 e Verified) (em_entries (pk_manifest (package_of rec3)))
  /\ exists e o, em_entries (pk_manifest (package_of rec3)) = [e] /\ vo_record_id o = record_id rec3
       /\ entry_status audit3_moved e (vo_status o) /\ vo_status o = DigestMismatch.
Proof.
  split.
  - destruct (package_certifies (package_of rec3) audit3 audit3_inv) as [_ Hc].
    destruct (verify_package (package_of rec3) audit3) as [v|e] eqn:Ev; [|vm_compute in Ev; discriminate Ev].
    destruct (Hc v eq_refl) as (_ & Hiff & _). apply Hiff. vm_compute in Ev. by injection Ev as <-.
  - destruct (package_certifies (package_of rec3) audit3_moved audit3_moved_inv) as [_ Hc].
    destruct (verify_package (package_of rec3) audit3_moved) as [v|e] eqn:Ev; [|vm_compute in Ev; discriminate Ev].
    destruct (Hc v eq_refl) as (Hall & _ & _). vm_compute in Ev. injection Ev as <-.
    cbn [ver_records] in Hall. apply Forall2_cons_inv_r in Hall as (e & es & [_ He] & Hnil & E).
    apply Forall2_nil_inv_r in Hnil as ->. exists e. eexists. split; [exact E|].
    split; [|split; [exact He|]]; reflexivity.
Defined.

Lemma spliced_package_verifies_witness :
  let q := mkEvidencePackage (pk_artifact (package_of rec3)) (pk_manifest (package_of rec4)) in
  (exists w, verify_package q audit3 = Ok w /\ ver_verified w = true /\ map vo_record_id (ver_records w) = [record_id rec4])
  /\ ep_source_records (ea_provenance (pk_artifact q)) = [record_id rec3]
  /\ is_ok (EvidencePackage_new (pk_artifact q) (pk_manifest q)) = false.
Proof.
  destruct (verify_package (package_of rec3) audit3) as [v|e] eqn:Ev; [|vm_compute in Ev; discriminate Ev].
  destruct (verify_package (package_of rec4) audit3) as [v'|e] eqn:Ev'; [|vm_compute in Ev'; discriminate Ev'].
  assert (ver_verified v = true) as Hv by (clear Ev'; vm_compute in Ev; by injection Ev as <-).
  assert (map vo_record_id (ver_records v') = [record_id rec4] /\ ver_verified v' = true) as [Hi Hv']
    by (clear Ev; vm_compute in Ev'; by injection Ev' as <-).
  destruct (proj2 (spliced_package_verifies audit3) (package_of rec3) (package_of rec4) v v' Ev Hv Ev' Hv')
    as ((w & Hw & Hwv & Hr) & Hnew).
  split; [exists w; split; [exact Hw|]; split; [exact Hwv | by rewrite Hr]|].
  split; [vm_compute; reflexivity|]. apply Hnew. vm_compute. discriminate.
Defined.
End PackageWitness.
