(* ===== verification/Indexer.v ===== *)
(** * The event indexer ([crates/event-indexer])

    Source cursors, checkpoints, placement order, deduplication, the indexer's
    [run_once] and bounded replay.  The state a run threads is the source, the
    checkpoint store and the event store. *)

From S2P Require Import Prelude Text BTree Errors Identifiers Timestamps Classification.
From S2P Require Import Correlation Events IntegrityModel Records Pagination Storage Sources.
From S2P Require Import Normalizer.
Open Scope nat_scope.
Open Scope list_scope.

(** ** Errors ([errors.rs]) *)

Inductive IndexerError : Type :=
| IxSource (d : string)
| IxNormalize (e : NormalizerError)
| IxStore (e : StoreError)
| IxCheckpoint (d : string)
| IxOrdering (d : string)
| IxPosition (d : string)
| IxInternal (d : string).

Definition IndexerResult (T : Type) : Type := result T IndexerError.

Definition IndexerError_into_core (e : IndexerError) : AuditError :=
  match e with
  | IxSource d => SourceFailure d
  | IxNormalize e => NormalizerError_into_core e
  | IxStore e => StorageFailure (StoreError_to_string e)
  | IxCheckpoint d | IxOrdering d | IxPosition d | IxInternal d => Internal d
  end.

(** ** Cursors ([cursor.rs]) *)

Record SourceCursor := mkSourceCursor { cursor_str : string }.

(** The error is the payload of [CursorError]. *)
Definition SourceCursor_new (value : string) : result SourceCursor string :=
  let valid := len_in 1 512 value && str_all label_char value in
  if valid then Ok (mkSourceCursor value)
  else Err "cursor must be 1-512 non-space printable ASCII chars".

Definition SourceCursor_from_str (s : string) : result SourceCursor string := SourceCursor_new s.
Definition SourceCursor_display (c : SourceCursor) : string := cursor_str c.
Definition SourceCursor_serialize (c : SourceCursor) : string := cursor_str c.
(** [raw] is what [String::deserialize] gave. *)
Definition SourceCursor_deserialize (raw : string) : result SourceCursor string := SourceCursor_new raw.

Definition CursorError_to_string (d : string) : string := "invalid source cursor: " +:+ d.

(** ** Checkpoints ([checkpoint.rs]) *)

Definition validate_source_name (name : string) : IndexerResult unit :=
  let valid := len_in 1 64 name && str_all label_char name in
  if valid then Ok tt
  else Err (IxCheckpoint "source name must be 1-64 non-space printable ASCII chars").

Record Checkpoint := mkCheckpoint {
  cp_source_name : string;
  cp_position : option SourceCursor
}.

Definition Checkpoint_fresh (source_name : string) : IndexerResult Checkpoint :=
  let? _ := validate_source_name source_name in
  Ok (mkCheckpoint source_name None).

Definition Checkpoint_at (source_name : string) (position : SourceCursor) : IndexerResult Checkpoint :=
  let? _ := validate_source_name source_name in
  Ok (mkCheckpoint source_name (Some position)).

Definition is_fresh (c : Checkpoint) : bool := is_none (cp_position c).

Class CheckpointStore (P : Type) := {
  cp_load : P -> string -> IndexerResult (option SourceCursor);
  cp_save : P -> Checkpoint -> P * IndexerResult unit
}.

Record InMemoryCheckpointStore := mkCheckpointStore { positions : gmap string SourceCursor }.
Definition CheckpointStore_new : InMemoryCheckpointStore := mkCheckpointStore ∅.

Definition mem_load (p : InMemoryCheckpointStore) (source_name : string)
  : IndexerResult (option SourceCursor) := Ok (positions p !! source_name).

Definition mem_save (p : InMemoryCheckpointStore) (c : Checkpoint)
  : InMemoryCheckpointStore * IndexerResult unit :=
  match cp_position c with
  | Some position => (mkCheckpointStore (<[cp_source_name c := position]> (positions p)), Ok tt)
  | None => (p, Ok tt)
  end.

#[export] Instance InMemoryCheckpointStore_CheckpointStore : CheckpointStore InMemoryCheckpointStore := {
  cp_load := mem_load;
  cp_save := mem_save
}.

(** ** Placement order ([ordering.rs]) *)

Definition opt_cmp (a b : option Z) : comparison :=
  match a, b with
  | Some x, Some y => (x ?= y)%Z
  | Some _, None => Lt
  | None, Some _ => Gt
  | None, None => Eq
  end.

Definition compare_order (a b : EventOrder) : comparison :=
  then_with (opt_cmp (ledger_sequence a) (ledger_sequence b))
    (then_with (opt_cmp (operation_index a) (operation_index b))
       (opt_cmp (event_index a) (event_index b))).

(** [windows(2).all(...)]. *)
Fixpoint is_strictly_increasing (order : list EventOrder) : bool :=
  match order with
  | a :: ((b :: _) as rest) => is_lt (compare_order a b) && is_strictly_increasing rest
  | _ => true
  end.

(** [{:?}] of an optional integer. *)
Definition opt_debug (v : option Z) : string :=
  match v with Some z => "Some(" +:+ z_to_string z +:+ ")" | None => "None" end.

(** [str::replace] for a non-empty pattern: [skip] characters of the last match
    are still to be dropped. *)
Fixpoint replace_from (pattern with_ : string) (skip : nat) (s : string) : string :=
  match s with
  | EmptyString => EmptyString
  | String c rest =>
      match skip with
      | S skip => replace_from pattern with_ skip rest
      | O => if starts_with pattern s
             then with_ +:+ replace_from pattern with_ (String.length pattern - 1) rest
             else String c (replace_from pattern with_ 0 rest)
      end
  end.
Definition str_replace (pattern with_ s : string) : string := replace_from pattern with_ 0 s.

(** The [Less] branch. *)
Definition describe_less (a b : EventOrder) : string :=
  if negb (bool_decide (ledger_sequence a = ledger_sequence b))
  then "ledger " +:+ opt_debug (ledger_sequence a) +:+ " precedes ledger " +:+ opt_debug (ledger_sequence b)
  else if negb (bool_decide (operation_index a = operation_index b))
  then "operation " +:+ opt_debug (operation_index a) +:+ " precedes operation " +:+ opt_debug (operation_index b)
  else "event " +:+ opt_debug (event_index a) +:+ " precedes event " +:+ opt_debug (event_index b).

(** In the [Greater] branch the function calls itself with the arguments
    exchanged, which compare [Less] ({!IndexerProofs.compare_order_swap}). *)
Definition describe_difference (a b : EventOrder) : string :=
  match compare_order a b with
  | Eq => "same placement"
  | Lt => describe_less a b
  | Gt => str_replace "precedes" "follows" (describe_less b a)
  end.

(** ** Deduplication ([deduplication.rs]) *)

Inductive DedupPolicy : Type := SkipDuplicates | FailOnDuplicate.
#[export] Instance DedupPolicy_eq_dec : EqDecision DedupPolicy.
Proof. solve_decision. Defined.

Inductive DedupResult : Type := New | Skipped | Conflict.

Definition classify_outcome (o : InsertOutcome) (policy : DedupPolicy) : DedupResult :=
  match o, policy with
  | Inserted, _ => New
  | DuplicateInsert, SkipDuplicates => Skipped
  | DuplicateInsert, FailOnDuplicate => Conflict
  end.

Record DedupGuard := mkDedupGuard { seen : gset EventId }.
Definition DedupGuard_new : DedupGuard := mkDedupGuard ∅.
Definition guard_contains (g : DedupGuard) (e : EventId) : bool := bool_decide (e ∈ seen g).
Definition note (g : DedupGuard) (e : EventId) : DedupGuard := mkDedupGuard ({[e]} ∪ seen g).

(** ** The indexer ([indexer.rs]) *)

Inductive MalformedItemPolicy : Type := AbortOnMalformed | SkipAndReport.

Record IngestReport := mkIngestReport {
  ir_fetched : nat;
  ir_inserted : nat;
  ir_duplicates : nat;
  ir_quarantined : list string;
  ir_unverified_order : nat;
  ir_has_more : bool
}.

Definition IngestReport_display (r : IngestReport) : string :=
  "fetched " +:+ z_to_string (Z.of_nat (ir_fetched r)) +:+ ", inserted " +:+ z_to_string (Z.of_nat (ir_inserted r))
    +:+ ", duplicate " +:+ z_to_string (Z.of_nat (ir_duplicates r))
    +:+ ", quarantined " +:+ z_to_string (Z.of_nat (length (ir_quarantined r)))
    +:+ ", unverified-order " +:+ z_to_string (Z.of_nat (ir_unverified_order r)).

Definition consumed (r : IngestReport) : nat := ir_fetched r.

Record Indexer := mkIndexer {
  ix_normalizer : NormalizeConfig;
  ix_dedup_policy : DedupPolicy;
  ix_malformed_policy : MalformedItemPolicy;
  ix_page_limit : Z
}.

Definition Indexer_new (normalizer : NormalizeConfig) (dedup : DedupPolicy) (malformed : MalformedItemPolicy)
    (page_limit : Z) : IndexerResult Indexer :=
  if (page_limit =? 0)%Z then Err (IxInternal "page limit must be positive")
  else Ok (mkIndexer normalizer dedup malformed page_limit).

(** What the item loop accumulates. *)
Record Ingest := mkIngest {
  in_guard : DedupGuard;
  in_records : list AuditRecord;
  in_placements : list EventOrder;
  in_duplicates : nat;
  in_quarantined : list string;
  in_unverified : nat
}.

Definition Ingest_new : Ingest := mkIngest DedupGuard_new [] [] 0 [] 0.

Section Indexer.
Context {Src : Type} `{EventSource Src} {P : Type} `{CheckpointStore P} {S : Type} `{EventStore S}.
Context `{JsonDecoder} `{Sha256, JsonStrings} `{Serialize AuditEvent}.

Record World := mkWorld { w_source : Src; w_checkpoints : P; w_store : S }.

(** A normalized event: recorded unless this run already has it; its placement
    is kept for the order check when it names a ledger. *)
Definition ingest_event (now : Timestamp) (acc : Ingest) (e : AuditEvent) : IndexerResult Ingest :=
  let placement := order e in
  let? acc :=
    if guard_contains (in_guard acc) (event_id e)
    then Ok (mkIngest (in_guard acc) (in_records acc) (in_placements acc)
               (in_duplicates acc + 1) (in_quarantined acc) (in_unverified acc))
    else
      let? record := map_err (fun err => IxInternal (AuditError_to_string err)) (from_event e now) in
      Ok (mkIngest (note (in_guard acc) (event_id e)) (in_records acc ++ [record]) (in_placements acc)
            (in_duplicates acc) (in_quarantined acc) (in_unverified acc)) in
  match ledger_sequence placement with
  | Some _ => Ok (mkIngest (in_guard acc) (in_records acc) (in_placements acc ++ [placement])
                    (in_duplicates acc) (in_quarantined acc) (in_unverified acc))
  | None => Ok (mkIngest (in_guard acc) (in_records acc) (in_placements acc)
                  (in_duplicates acc) (in_quarantined acc) (in_unverified acc + 1))
  end.

(** [clock n] is the reading the run's [n]-th record takes. *)
Definition ingest_item (ix : Indexer) (clock : nat -> Timestamp) (acc : Ingest) (item : RawEventItem)
  : IndexerResult Ingest :=
  match normalize (ix_normalizer ix) item with
  | Ok normalized => ingest_event (clock (length (in_records acc))) acc (ne_event normalized)
  | Err e =>
      match ix_malformed_policy ix with
      | AbortOnMalformed => Err (IxNormalize e)
      | SkipAndReport =>
          Ok (mkIngest (in_guard acc) (in_records acc) (in_placements acc) (in_duplicates acc)
                (in_quarantined acc ++ [raw_position item]) (in_unverified acc))
      end
  end.

Fixpoint ingest_items (ix : Indexer) (clock : nat -> Timestamp) (acc : Ingest) (items : list RawEventItem)
  : IndexerResult Ingest :=
  match items with
  | [] => Ok acc
  | item :: items => let? acc := ingest_item ix clock acc item in ingest_items ix clock acc items
  end.

(** Steps 3 and 4: normalize the page, check the placements. *)
Definition collect (ix : Indexer) (clock : nat -> Timestamp) (items : list RawEventItem)
  : IndexerResult Ingest :=
  let? acc := ingest_items ix clock Ingest_new items in
  if negb (is_strictly_increasing (in_placements acc))
  then Err (IxOrdering "page events are not in strictly increasing ledger order")
  else Ok acc.

(** Step 5: append atomically.  The result is [report.inserted] and [report.duplicates]. *)
Definition append_records (ix : Indexer) (store : S) (acc : Ingest) : S * IndexerResult (nat * nat) :=
  match in_records acc with
  | [] => (store, Ok (0, in_duplicates acc))
  | records =>
      match WriteBatch_new records with
      | Err e => (store, Err (IxInternal (AuditError_to_string e)))
      | Ok batch =>
          match es_insert_batch store batch with
          | (store, Err e) => (store, Err (IxStore e))
          | (store, Ok o) =>
              if bool_decide (ix_dedup_policy ix = FailOnDuplicate) && (0 <? bo_duplicates o)
              then (store, Err (IxCheckpoint ("duplicate events under FailOnDuplicate policy: "
                                                +:+ z_to_string (Z.of_nat (bo_duplicates o)))))
              else (store, Ok (bo_inserted o, in_duplicates acc + bo_duplicates o))
          end
      end
  end.

(** Step 6: checkpoint the last consumed position. *)
Definition advance (checkpoints : P) (name : string) (items : list RawEventItem)
  : P * IndexerResult unit :=
  match last items with
  | None => (checkpoints, Ok tt)
  | Some item =>
      match (let? position := map_err (fun e => IxCheckpoint (CursorError_to_string e))
                                (SourceCursor_new (raw_position item)) in
             Checkpoint_at name position) with
      | Err e => (checkpoints, Err e)
      | Ok c => cp_save checkpoints c
      end
  end.

(** Steps 3 to 6 on a fetched page. *)
Definition commit_page (ix : Indexer) (clock : nat -> Timestamp) (w : World) (page : SourcePage)
  : World * IndexerResult IngestReport :=
  match collect ix clock (sp_items page) with
  | Err e => (w, Err e)
  | Ok acc =>
      match append_records ix (w_store w) acc with
      | (store, Err e) => (mkWorld (w_source w) (w_checkpoints w) store, Err e)
      | (store, Ok (inserted, duplicates)) =>
          match advance (w_checkpoints w) (source_name (w_source w)) (sp_items page) with
          | (cps, Err e) => (mkWorld (w_source w) cps store, Err e)
          | (cps, Ok _) =>
              (mkWorld (w_source w) cps store,
               Ok (mkIngestReport (length (sp_items page)) inserted duplicates (in_quarantined acc)
                     (in_unverified acc) (sp_has_more page)))
          end
      end
  end.

Definition run_once (ix : Indexer) (clock : nat -> Timestamp) (w : World)
  : World * IndexerResult IngestReport :=
  match cp_load (w_checkpoints w) (source_name (w_source w)) with
  | Err e => (w, Err e)
  | Ok resumed =>
      let after := option_map cursor_str resumed in
      match fetch_after (w_source w) after (ix_page_limit ix) with
      | (src, Err e) => (mkWorld src (w_checkpoints w) (w_store w), Err (IxSource e))
      | (src, Ok page) => commit_page ix clock (mkWorld src (w_checkpoints w) (w_store w)) page
      end
  end.
End Indexer.

Arguments World : clear implicits.

(** ** Replay ([replay.rs]) *)

Record ReplayOptions := mkReplayOptions {
  max_pages : option nat;
  max_records : option nat;
  page_limit : Z
}.

Definition ReplayOptions_default : ReplayOptions := mkReplayOptions None None 1000.

Record ReplayReport := mkReplayReport {
  rr_pages : nat;
  rr_inserted : nat;
  rr_duplicates : nat;
  rr_truncated : bool;
  rr_last_position : option string
}.

Definition ReplayReport_describe (r : ReplayReport) : string :=
  "pages " +:+ z_to_string (Z.of_nat (rr_pages r)) +:+ ", inserted " +:+ z_to_string (Z.of_nat (rr_inserted r))
    +:+ ", duplicate " +:+ z_to_string (Z.of_nat (rr_duplicates r))
    +:+ ", truncated " +:+ (if rr_truncated r then "true" else "false").

Definition truncate (r : ReplayReport) : ReplayReport :=
  mkReplayReport (rr_pages r) (rr_inserted r) (rr_duplicates r) true (rr_last_position r).

Section Replay.
Context {Src : Type} `{EventSource Src} {S : Type} `{EventStore S}.
Context `{JsonDecoder} `{Sha256, JsonStrings} `{Serialize AuditEvent}.

Notation RWorld := (World Src InMemoryCheckpointStore S).

Definition reached (limit : option nat) (n : nat) : bool :=
  match limit with Some max => max <=? n | None => false end.

(** One turn of the loop: the new state and report, and whether to go on. *)
Definition replay_turn (ix : Indexer) (instant : Timestamp) (options : ReplayOptions) (w : RWorld)
    (report : ReplayReport) : RWorld * IndexerResult (ReplayReport * bool) :=
  if reached (max_pages options) (rr_pages report) then (w, Ok (truncate report, false))
  else
    match run_once ix (fun _ => instant) w with
    | (w, Err e) => (w, Err e)
    | (w, Ok page) =>
        (w, let? last := cp_load (w_checkpoints w) (source_name (w_source w)) in
            let report := mkReplayReport (rr_pages report + 1) (rr_inserted report + ir_inserted page)
                            (rr_duplicates report + ir_duplicates page) (rr_truncated report)
                            (option_map cursor_str last) in
            if negb (ir_has_more page) then Ok (report, false)
            else if reached (max_pages options) (rr_pages report)
                    || reached (max_records options) (rr_inserted report)
            then Ok (truncate report, false)
            else Ok (report, true))
    end.

(** [None]: the loop is still running when the fuel is used up. *)
Fixpoint replay_loop (fuel : nat) (ix : Indexer) (instant : Timestamp) (options : ReplayOptions)
    (w : RWorld) (report : ReplayReport) : option (RWorld * IndexerResult ReplayReport) :=
  match fuel with
  | O => None
  | Datatypes.S fuel =>
      match replay_turn ix instant options w report with
      | (w, Err e) => Some (w, Err e)
      | (w, Ok (report, false)) => Some (w, Ok report)
      | (w, Ok (report, true)) => replay_loop fuel ix instant options w report
      end
  end.

(** The private checkpoint store, seeded with the start position. *)
Definition seed (name : string) (start_from : option SourceCursor)
  : IndexerResult InMemoryCheckpointStore :=
  match start_from with
  | Some start =>
      let? c := Checkpoint_at name start in
      let '(p, r) := cp_save CheckpointStore_new c in
      let? _ := r in
      Ok p
  | None => Ok CheckpointStore_new
  end.

(** [instant] is the one reading of the caller's clock ([replay_clock]); the
    result is the source, the target and the report. *)
Definition replay_into (fuel : nat) (normalizer : NormalizeConfig) (instant : Timestamp) (source : Src)
    (target : S) (start_from : option SourceCursor) (options : ReplayOptions)
  : option (Src * S * IndexerResult ReplayReport) :=
  match (let? p := seed (source_name source) start_from in
         let? ix := Indexer_new normalizer SkipDuplicates AbortOnMalformed (page_limit options) in
         Ok (p, ix)) with
  | Err e => Some (source, target, Err e)
  | Ok (p, ix) =>
      let report := mkReplayReport 0 0 0 false (option_map cursor_str start_from) in
      option_map (fun '(w, r) => (w_source w, w_store w, r))
        (replay_loop fuel ix instant options (mkWorld source p target) report)
  end.
End Replay.
