(* ===== verification/IndexerProofs.v ===== *)
(** * Properties of the indexer

    What one run records, that an error never moves the checkpoint and never
    splits a page, that a re-served page is absorbed, how placements are checked,
    and that a replay terminates and reproduces the whole feed. *)

From stdpp Require Import sorting.
From S2P Require Import Prelude Text BTree Errors Identifiers Timestamps Classification.
From S2P Require Import Correlation Events IntegrityModel Records Samples Pagination Storage.
From S2P Require Import MemoryStore MemoryPaging AuditEvents Sources Normalizer.
From S2P Require Import NormalizerProofs Trail Indexer.
Open Scope nat_scope.
Open Scope list_scope.

(** ** Contracts of the source and of the checkpoint store *)

(** The name is stable: it keys the checkpoint. *)
Class EventSourceLaws (Src : Type) `{EventSource Src} : Prop := {
  source_name_stable s after limit : source_name (fst (fetch_after s after limit)) = source_name s
}.

Class CheckpointStoreLaws (P : Type) `{CheckpointStore P} : Prop := {
  cp_save_load p c p' pos :
    cp_save p c = (p', Ok tt) -> cp_position c = Some pos -> cp_load p' (cp_source_name c) = Ok (Some pos);
  cp_save_Err p c p' e : cp_save p c = (p', Err e) -> p' = p
}.

#[export] Instance InMemoryCheckpointStore_laws : CheckpointStoreLaws InMemoryCheckpointStore.
Proof.
  constructor; simpl.
  - intros p c p' pos. unfold mem_save, mem_load. intros Hs Hp. rewrite Hp in Hs.
    injection Hs as <-. simpl. by rewrite lookup_insert_eq.
  - intros p c p' e. unfold mem_save. by destruct (cp_position c).
Qed.

(** ** Placement order *)

Definition place_key (o : EventOrder) : option Z * (option Z * option Z) :=
  (ledger_sequence o, (operation_index o, event_index o)).

Lemma compare_order_key a b : compare_order a b = compare (place_key a) (place_key b).
Proof. reflexivity. Qed.

Definition place_lt (a b : EventOrder) : Prop := compare_order a b = Lt.

Lemma compare_order_swap a b : compare_order b a = CompOpp (compare_order a b).
Proof. rewrite !compare_order_key. apply compare_antisym. Qed.

(** *** Describing a difference *)

Definition no_p (c : ascii) : bool := negb (Ascii.eqb c "p"%char).

(** A stretch without the pattern's first character is kept. *)
Lemma replace_skips u t :
  str_all no_p u = true -> replace_from "precedes" "follows" 0 (u +:+ t) = u +:+ replace_from "precedes" "follows" 0 t.
Proof.
  induction u as [|c u IH]; [done|]. cbn [str_all]. rewrite andb_true_iff. intros [Hc Hu].
  change (String c u +:+ t) with (String c (u +:+ t)). cbn [replace_from].
  assert (starts_with "precedes" (String c (u +:+ t)) = false) as ->.
  { unfold starts_with. cbn [String.prefix]. destruct (ascii_dec "p" c) as [<-|]; [discriminate Hc | done]. }
  rewrite IH by done. reflexivity.
Qed.

Lemma opt_debug_no_p v : str_all no_p (opt_debug v) = true.
Proof.
  destruct v as [z|]; [|done]. unfold opt_debug. rewrite !str_all_append. simpl. rewrite andb_true_r.
  eapply str_all_impl; [|apply z_to_string_chars]. by apply bytes_impl.
Qed.

Lemma replace_no_p u : str_all no_p u = true -> replace_from "precedes" "follows" 0 u = u.
Proof. intros Hu. pose proof (replace_skips u "" Hu) as E. by rewrite !append_nil_r in E. Qed.

(** One of the three descriptions, its verb replaced. *)
Lemma replaced level x y :
  level = "ledger" \/ level = "operation" \/ level = "event" ->
  replace_from "precedes" "follows" 0
    ((level +:+ " ") +:+ opt_debug x +:+ (" precedes " +:+ level +:+ " ") +:+ opt_debug y)
  = (level +:+ " ") +:+ opt_debug x +:+ (" follows " +:+ level +:+ " ") +:+ opt_debug y.
Proof.
  intros Hl.
  assert (forall t, replace_from "precedes" "follows" 0 ((level +:+ " ") +:+ t)
                    = (level +:+ " ") +:+ replace_from "precedes" "follows" 0 t) as ->
    by (by destruct Hl as [->|[->| ->]]).
  rewrite replace_skips by apply opt_debug_no_p.
  assert (forall t, replace_from "precedes" "follows" 0 ((" precedes " +:+ level +:+ " ") +:+ t)
                    = (" follows " +:+ level +:+ " ") +:+ replace_from "precedes" "follows" 0 t) as ->
    by (by destruct Hl as [->|[->| ->]]).
  by rewrite replace_no_p by apply opt_debug_no_p.
Qed.

(** The level at which two placements first differ. *)
Definition difference (a b : EventOrder) : string * option Z * option Z :=
  if negb (bool_decide (ledger_sequence a = ledger_sequence b))
  then ("ledger", ledger_sequence a, ledger_sequence b)
  else if negb (bool_decide (operation_index a = operation_index b))
  then ("operation", operation_index a, operation_index b)
  else ("event", event_index a, event_index b).

(** The diagnostic reads the same way round whichever argument comes first: asked
    about a later placement and an earlier one, it swaps them and then also turns
    [precedes] into [follows], so it says that the earlier follows the later. *)
Theorem describe_difference_inverted a b :
  compare_order a b = Lt ->
  let '(level, x, y) := difference a b in
  describe_difference a b = level +:+ " " +:+ opt_debug x +:+ " precedes " +:+ level +:+ " " +:+ opt_debug y
  /\ describe_difference b a = level +:+ " " +:+ opt_debug x +:+ " follows " +:+ level +:+ " " +:+ opt_debug y.
Proof.
  intros Hlt. unfold describe_difference. rewrite (compare_order_swap a b), Hlt. cbn [CompOpp].
  unfold describe_less, difference, str_replace.
  destruct (negb _); [|destruct (negb _)]; (split; [reflexivity|]);
    [apply (replaced "ledger") | apply (replaced "operation") | apply (replaced "event")]; auto.
Qed.

(** The adjacent check decides strict order of the whole page. *)
Lemma strictly_increasing_iff l : is_strictly_increasing l = true <-> StronglySorted place_lt l.
Proof.
  split.
  - intros Hl. apply Sorted_StronglySorted.
    { intros a b c. unfold place_lt. rewrite !compare_order_key. apply compare_lt_trans. }
    revert Hl. induction l as [|a [|b l] IH]; [repeat constructor.. |].
    simpl in *. intros [Hab Hl]%andb_true_iff. constructor; [by apply IH|]. constructor.
    unfold place_lt. by destruct (compare_order a b).
  - intros Hs. induction Hs as [|a l Hs IH Ha]; [done|]. destruct l as [|b l]; [done|].
    simpl in *. apply andb_true_iff. split; [|done].
    apply Forall_cons in Ha as [Ha _]. unfold place_lt in Ha. by rewrite Ha.
Qed.

(** ** The item loop *)

Section Loop.
Context `{JsonDecoder} `{Sha256, JsonStrings} `{Serialize AuditEvent}.
Variable ix : Indexer.

Definition event_of (item : RawEventItem) : option AuditEvent :=
  match normalize (ix_normalizer ix) item with Ok n => Some (ne_event n) | Err _ => None end.

(** The events a page normalizes to, and the positions of the items refused. *)
Definition events_of (items : list RawEventItem) : list AuditEvent := omap event_of items.
Definition refused (items : list RawEventItem) : list string :=
  omap (fun i => match event_of i with Some _ => None | None => Some (raw_position i) end) items.

(** The first occurrence of each event not seen before. *)
Fixpoint first_seen (known : gset EventId) (es : list AuditEvent) : list AuditEvent :=
  match es with
  | [] => []
  | e :: es => if bool_decide (event_id e ∈ known) then first_seen known es
               else e :: first_seen ({[event_id e]} ∪ known) es
  end.

Definition is_placed (e : AuditEvent) : bool := is_some (ledger_sequence (order e)).

(** A record the run built, at one of the readings of its clock. *)
Definition from_page (clock : nat -> Timestamp) (r : AuditRecord) : Prop :=
  exists n, from_event (event r) (clock n) = Ok r.

(** What the loop adds to its accumulator over [n] items that normalize to
    [es], the others refused at the positions [bad]. *)
Record loop_effect (clock : nat -> Timestamp) (acc acc' : Ingest) (n : nat) (es : list AuditEvent) (bad : list string)
    (rs : list AuditRecord) : Prop := {
  le_records : in_records acc' = in_records acc ++ rs;
  le_events : map event rs = first_seen (seen (in_guard acc)) es;
  le_built : Forall (from_page clock) rs;
  le_duplicates : in_duplicates acc' + length rs = in_duplicates acc + length es;
  le_placements : in_placements acc'
                  = in_placements acc ++ map order (List.filter is_placed es);
  le_unverified : in_unverified acc'
                  = in_unverified acc + length (List.filter (fun e => negb (is_placed e)) es);
  le_quarantined : in_quarantined acc' = in_quarantined acc ++ bad;
  le_count : n = length es + length (bad);
  le_abort : ix_malformed_policy ix = AbortOnMalformed -> bad = []
}.

Lemma from_event_event e now r : from_event e now = Ok r -> event r = e.
Proof. by intros (_ & bytes & _ & ->)%from_event_Ok_inv. Qed.

Lemma ingest_items_effect clock items acc acc' :
  ingest_items ix clock acc items = Ok acc' -> exists rs, loop_effect clock acc acc' (length items) (events_of items) (refused items) rs.
Proof.
  revert acc. induction items as [|item items IH]; intros acc; cbn [ingest_items].
  { intros [= <-]. exists []. constructor; simpl; rewrite ?app_nil_r; auto. }
  intros Hi. apply rbind_Ok_inv in Hi as (acc1 & Hone & Hi). destruct (IH acc1 Hi) as [rs Hrs]. clear IH Hi.
  unfold ingest_item in Hone.
  assert (events_of (item :: items)
          = match event_of item with Some e => e :: events_of items | None => events_of items end) as Ee
    by (unfold events_of; simpl; by destruct (event_of item)).
  assert (refused (item :: items)
          = match event_of item with Some _ => refused items | None => raw_position item :: refused items end) as Er
    by (unfold refused; simpl; by destruct (event_of item)).
  destruct Hrs as [R1 R2 R3 R4 R5 R6 R7 R8 R9].
  unfold event_of in Ee, Er. exists (match normalize (ix_normalizer ix) item with
    | Ok n => if bool_decide (event_id (ne_event n) ∈ seen (in_guard acc)) then rs
              else drop (length (in_records acc)) (in_records acc1) ++ rs
    | Err _ => rs end).
  rewrite Ee, Er. clear Ee Er.
  destruct (normalize (ix_normalizer ix) item) as [n|err].
  - unfold ingest_event, guard_contains in Hone. case_bool_decide as Hseen.
    + simpl in Hone. destruct (ledger_sequence (order (ne_event n))) eqn:El; injection Hone as <-; simpl in *;
        constructor; simpl; rewrite ?R1, ?R2, ?R5, ?R6, ?R7; simpl; unfold is_placed; rewrite ?El; simpl;
        rewrite <- ?app_assoc; try done; try lia; try by rewrite bool_decide_eq_true_2.
    + ok_inv. simpl in Hone. pose proof (from_event_event _ _ _ Hok0) as Ev.
      assert (from_page clock v0) as Hv by (unfold from_page; rewrite Ev; eauto).
      destruct (ledger_sequence (order (ne_event n))) eqn:El; injection Hone as <-; simpl in *;
        rewrite drop_app_length; constructor; simpl; rewrite ?R1, ?R2, ?R5, ?R6, ?R7; simpl;
        unfold is_placed; rewrite ?El; simpl; rewrite <- ?app_assoc; try done; try lia;
        try (by rewrite bool_decide_eq_false_2, Ev); by constructor.
  - destruct (ix_malformed_policy ix) eqn:Em; [done|]. injection Hone as <-. simpl in *.
    constructor; simpl; rewrite ?R1, ?R5, ?R6, ?R7; rewrite <- ?app_assoc; try done; (lia || congruence).
Qed.
End Loop.

(** ** Appending to the store *)

Lemma first_seen_spec known es e :
  e ∈ first_seen known es -> e ∈ es /\ event_id e ∉ known.
Proof.
  revert known. induction es as [|x es IH]; intros known; simpl; [by intros ?%elem_of_nil|].
  case_bool_decide.
  - intros [? ?]%IH. split; [by apply elem_of_cons; right | done].
  - intros [->|[? ?]%IH]%elem_of_cons; [split; [by apply elem_of_cons; left | done]|].
    split; [by apply elem_of_cons; right | set_solver].
Qed.

Lemma first_seen_complete known es e :
  e ∈ es -> event_id e ∈ known \/ event_id e ∈ map event_id (first_seen known es).
Proof.
  revert known. induction es as [|x es IH]; intros known; simpl; [by intros ?%elem_of_nil|].
  intros [->|He]%elem_of_cons; case_bool_decide; simpl; try (by left); try (right; set_solver).
  - by apply IH.
  - destruct (IH ({[event_id x]} ∪ known) He) as [?|?]; set_solver.
Qed.

(** The same record taken at another instant. *)
Definition stamp (t : Timestamp) (r : AuditRecord) : AuditRecord :=
  mkAuditRecord (record_id r) (event r) t (rec_schema_version r) (classification r) (redactions r)
    (supersedes r) (correction_reason r) (integrity r).

Definition same_content (r r' : AuditRecord) : Prop := exists t, r' = stamp t r.

Lemma same_content_ids rs rs' :
  Forall2 same_content rs rs' ->
  map rec_event_id rs' = map rec_event_id rs /\ map record_id rs' = map record_id rs.
Proof.
  induction 1 as [|r r' rs rs' [t ->] _ [IH1 IH2]]; simpl; [done|]. rewrite IH1, IH2. done.
Qed.

(** A batch is accepted or refused whatever its records' instants. *)
Lemma WriteBatch_new_content rs rs' :
  Forall2 same_content rs rs' -> (exists b, WriteBatch_new rs = Ok b) -> exists b, WriteBatch_new rs' = Ok b.
Proof.
  intros Hrs [b (-> & Hv & He & Hr)%WriteBatch_new_Ok_iff]. exists (mkWriteBatch rs').
  apply WriteBatch_new_Ok_iff. destruct (same_content_ids _ _ Hrs) as [-> ->]. repeat split; try done.
  clear He Hr. induction Hrs as [|r r' rs rs' [t ->] _ IH]; [constructor|].
  apply Forall_cons in Hv as [Hv Hvs]. constructor; [exact Hv | auto].
Qed.

Lemma absent_from_content history rs rs' :
  Forall2 same_content rs rs' -> Forall2 same_content (absent_from history rs) (absent_from history rs').
Proof.
  unfold absent_from. induction 1 as [|r r' rs rs' Hr _ IH]; simpl; [constructor|].
  destruct Hr as [t ->]. unfold stamp at 1. unfold rec_event_id at 1 3. simpl.
  destruct (bool_decide _); [|done]. constructor; [by exists t | done].
Qed.

Section Append.
Context {S : Type} `{EventStoreLaws S} `{JsonDecoder} `{Sha256, JsonStrings} `{Serialize AuditEvent}.
Variable ix : Indexer.

(** All or nothing: the history gains exactly the records of [rs] it lacks. *)
Definition landed (store store' : S) (rs : list AuditRecord) : Prop :=
  es_inv store'
  /\ es_history store' ≡ₚ absent_from (es_history store) rs ++ es_history store
  /\ (absent_from (es_history store) rs = [] -> store' = store).

Lemma landed_nil store : es_inv store -> landed store store [].
Proof. by repeat split. Qed.

Lemma landed_has store store' rs r :
  landed store store' rs -> r ∈ rs -> rec_event_id r ∈ map rec_event_id (es_history store').
Proof.
  intros (_ & Hh & _) Hr. rewrite Hh, map_app, elem_of_app.
  destruct (decide (rec_event_id r ∈ map rec_event_id (es_history store))) as [|Hn]; [by right|]. left.
  apply list_elem_of_In, in_map, filter_In. split; [by apply list_elem_of_In|].
  by apply bool_decide_eq_true.
Qed.

Lemma from_page_fresh clock store rs :
  Forall (from_page clock) rs -> (forall r, r ∈ rs -> ids_fresh store (event r)) ->
  Forall (fun r => record_id r ∉ map record_id (es_history store)) (absent_from (es_history store) rs).
Proof.
  intros Hp Hf. rewrite !Forall_forall in *. intros r Hr.
  apply list_elem_of_In, filter_In in Hr as [Hr%list_elem_of_In Hn%bool_decide_eq_true].
  destruct (Hp r Hr) as [n (_ & bytes & Hb & Er)%from_event_Ok_inv].
  assert (record_id r = derive_bytes bytes) as -> by (by rewrite Er).
  by apply (Hf r Hr).
Qed.

Lemma append_spec clock store acc store' res :
  es_inv store -> Forall (from_page clock) (in_records acc) ->
  (forall r, r ∈ in_records acc -> ids_fresh store (event r)) ->
  append_records ix store acc = (store', res) ->
  match res with
  | Ok (i, d) =>
      landed store store' (in_records acc)
      /\ i = length (absent_from (es_history store) (in_records acc))
      /\ d = in_duplicates acc + (length (in_records acc) - i)
      /\ (ix_dedup_policy ix = FailOnDuplicate -> i = length (in_records acc))
      /\ (exists b, WriteBatch_new (in_records acc) = Ok b)
  | Err e => store' = store \/ landed store store' (in_records acc)
  end.
Proof.
  intros Hs Hp Hf. unfold append_records.
  destruct (in_records acc) as [|r rs] eqn:Er.
  { intros [= <- <-]. simpl. split; [by apply landed_nil|]. repeat split; simpl; [lia | by eexists]. }
  rewrite <- Er in *.
  destruct (WriteBatch_new (in_records acc)) as [b|e] eqn:Eb; [|intros [= <- <-]; by left].
  destruct (es_insert_batch_new store _ b Hs Eb (from_page_fresh clock store _ Hp Hf)) as (s1 & E1 & H1s & Hh & Hn).
  rewrite E1. simpl.
  assert (landed store s1 (in_records acc)) as Hl by done.
  assert (length (absent_from (es_history store) (in_records acc)) <= length (in_records acc)) as Hle
    by apply filter_length_le.
  destruct (bool_decide (ix_dedup_policy ix = FailOnDuplicate)) eqn:Ed; simpl.
  - destruct (Nat.ltb_spec 0 (length (in_records acc) - length (absent_from (es_history store) (in_records acc))));
      intros [= <- <-]; [by right|]. split; [done|]. split; [done|]. split; [done|]. split; [intros _; lia | eauto].
  - apply bool_decide_eq_false in Ed. intros [= <- <-]. split; [done|]. split; [done|]. split; [done|].
    split; [done | eauto].
Qed.
End Append.

Lemma map_event_absent history rs :
  map event (absent_from history rs)
  = List.filter (fun e => bool_decide (event_id e ∉ map rec_event_id history)) (map event rs).
Proof.
  unfold absent_from. induction rs as [|r rs IH]; simpl; [done|].
  change (rec_event_id r) with (event_id (event r)). destruct (bool_decide _); simpl; by rewrite IH.
Qed.

(** ** One run *)

Section Run.
Context {Src : Type} `{EventSourceLaws Src} {P : Type} `{CheckpointStoreLaws P}
  {S : Type} `{EventStoreLaws S}.
Context `{JsonDecoder} `{Sha256, JsonStrings} `{Serialize AuditEvent}.
Variable ix : Indexer.

(** The page a run in this state is served. *)
Definition served (w : World Src P S) : option SourcePage :=
  match cp_load (w_checkpoints w) (source_name (w_source w)) with
  | Ok resumed =>
      match snd (fetch_after (w_source w) (option_map cursor_str resumed) (ix_page_limit ix)) with
      | Ok page => Some page
      | Err _ => None
      end
  | Err _ => None
  end.

Definition page_events (page : SourcePage) : list AuditEvent := events_of ix (sp_items page).

(** No event of the page takes the record id of a stored record. *)
Definition page_fresh (store : S) (page : SourcePage) : Prop :=
  forall e, e ∈ page_events page -> ids_fresh store e.

(** The whole page is in the store, which only grew. *)
Definition page_stored (store store' : S) (page : SourcePage) : Prop :=
  es_inv store' /\ (forall r, r ∈ es_history store -> r ∈ es_history store')
  /\ forall e, e ∈ page_events page -> event_id e ∈ map rec_event_id (es_history store').

(** The new records of a run: one for each event the history lacked, in page order. *)
Definition gained (clock : nat -> Timestamp) (store store' : S) (page : SourcePage) (new : list AuditRecord) : Prop :=
  es_history store' ≡ₚ new ++ es_history store /\ Forall (from_page clock) new
  /\ map event new = List.filter (fun e => bool_decide (event_id e ∉ map rec_event_id (es_history store)))
                       (first_seen ∅ (page_events page)).

Record page_effect (clock : nat -> Timestamp) (w w' : World Src P S) (page : SourcePage) (rep : IngestReport) : Prop := {
  pe_fetched : ir_fetched rep = length (sp_items page);
  pe_conserve : ir_fetched rep = ir_inserted rep + ir_duplicates rep + length (ir_quarantined rep);
  pe_quarantined : ir_quarantined rep = refused ix (sp_items page);
  pe_abort : ix_malformed_policy ix = AbortOnMalformed -> ir_quarantined rep = [];
  pe_unverified : ir_unverified_order rep
                  = length (List.filter (fun e => negb (is_placed e)) (page_events page));
  pe_more : ir_has_more rep = sp_has_more page;
  pe_sorted : StronglySorted place_lt (map order (List.filter is_placed (page_events page)));
  pe_stored : page_stored (w_store w) (w_store w') page;
  pe_gained : exists new, gained clock (w_store w) (w_store w') page new /\ length new = ir_inserted rep;
  pe_checkpoint :
    match last (sp_items page) with
    | Some item => cp_load (w_checkpoints w') (source_name (w_source w))
                   = Ok (Some (mkSourceCursor (raw_position item)))
    | None => w_checkpoints w' = w_checkpoints w
    end
}.

Lemma collect_Ok clock items acc :
  collect ix clock items = Ok acc ->
  loop_effect ix clock Ingest_new acc (length items) (events_of ix items) (refused ix items) (in_records acc)
  /\ StronglySorted place_lt (map order (List.filter is_placed (events_of ix items))).
Proof.
  unfold collect. intros Hc. ok_inv. apply negb_false_iff, strictly_increasing_iff in Hb.
  destruct (ingest_items_effect _ _ _ _ _ Hok) as [rs Hrs]. pose proof (le_records _ _ _ _ _ _ _ _ Hrs) as Er.
  simpl in Er. rewrite Er. split; [done|]. by rewrite (le_placements _ _ _ _ _ _ _ _ Hrs) in Hb.
Qed.

Section Page.
Variables (clock : nat -> Timestamp) (acc : Ingest) (page : SourcePage) (store store' : S).
Hypothesis Heff : loop_effect ix clock Ingest_new acc (length (sp_items page)) (page_events page)
                    (refused ix (sp_items page)) (in_records acc).
Hypothesis Hland : landed store store' (in_records acc).

Lemma landed_stored : page_stored store store' page.
Proof.
  pose proof Hland as (Hi & Hh & _). split; [done|]. split.
  - intros r Hr. rewrite Hh, elem_of_app. by right.
  - intros e He. destruct (first_seen_complete ∅ _ _ He) as [Hn|Hin]; [set_solver|].
    pose proof (le_events _ _ _ _ _ _ _ _ Heff) as Ee. simpl in Ee. rewrite <- Ee, map_map in Hin.
    apply list_elem_of_fmap in Hin as (r & -> & Hr). by apply (landed_has store store' (in_records acc)).
Qed.

Lemma landed_gained : gained clock store store' page (absent_from (es_history store) (in_records acc)).
Proof.
  pose proof Hland as (_ & Hh & _). split; [done|]. split.
  - pose proof (le_built _ _ _ _ _ _ _ _ Heff) as Hb. unfold absent_from.
    rewrite List.Forall_forall in *. intros r [Hr _]%filter_In. auto.
  - pose proof (le_events _ _ _ _ _ _ _ _ Heff) as Ee. simpl in Ee. rewrite <- Ee.
    apply map_event_absent.
Qed.
End Page.

Lemma advance_spec cps name items cps' res :
  advance cps name items = (cps', res) ->
  match res with
  | Ok _ => match last items with
            | Some item => cp_load cps' name = Ok (Some (mkSourceCursor (raw_position item)))
            | None => cps' = cps
            end
  | Err _ => cps' = cps
  end.
Proof.
  unfold advance. destruct (last items) as [item|]; [|by intros [= <- <-]].
  destruct (let? position := _ in _) as [c|e] eqn:Ec; [|by intros [= <- <-]].
  unfold Checkpoint_at, SourceCursor_new in Ec. ok_inv. intros Hs. destruct res as [[]|e].
  - apply (cp_save_load _ _ _ _ Hs). done.
  - by apply cp_save_Err in Hs.
Qed.

Lemma commit_page_spec clock (w w' : World Src P S) page res :
  es_inv (w_store w) -> page_fresh (w_store w) page -> commit_page ix clock w page = (w', res) ->
  w_source w' = w_source w /\
  match res with
  | Ok rep => page_effect clock w w' page rep
  | Err _ => w_checkpoints w' = w_checkpoints w
             /\ (w_store w' = w_store w
                 \/ page_stored (w_store w) (w_store w') page
                    /\ exists new, gained clock (w_store w) (w_store w') page new)
  end.
Proof.
  intros Hs Hf. unfold commit_page. destruct (collect ix clock (sp_items page)) as [acc|e] eqn:Ec.
  2: { intros [= <- <-]. auto. }
  apply collect_Ok in Ec as [Heff Hsort].
  assert (forall r, r ∈ in_records acc -> ids_fresh (w_store w) (event r)) as Hfr.
  { intros r Hr. apply Hf. pose proof (le_events _ _ _ _ _ _ _ _ Heff) as Ee. simpl in Ee.
    assert (event r ∈ first_seen ∅ (events_of ix (sp_items page))) as He.
    { rewrite <- Ee. apply list_elem_of_In, in_map. by apply list_elem_of_In. }
    by apply first_seen_spec in He as [? _]. }
  destruct (append_records ix (w_store w) acc) as [store r1] eqn:Ea.
  pose proof (append_spec ix clock _ _ _ _ Hs (le_built _ _ _ _ _ _ _ _ Heff) Hfr Ea) as Happ.
  destruct r1 as [[i d]|e].
  2: { intros [= <- <-]. simpl. split; [done|]. split; [done|]. destruct Happ as [?|?]; [by left|].
       right. split; [by eapply landed_stored | eexists; by eapply landed_gained]. }
  destruct Happ as (Hl & -> & -> & _ & _).
  pose proof (landed_stored clock acc page _ _ Heff Hl) as Hst.
  pose proof (landed_gained clock acc page _ _ Heff Hl) as Hgain.
  destruct (advance (w_checkpoints w) (source_name (w_source w)) (sp_items page)) as [cps r2] eqn:Eadv.
  apply advance_spec in Eadv. destruct r2 as [[]|e].
  2: { intros [= <- <-]. simpl. split; [done|]. split; [done|]. right. split; [exact Hst | eauto]. }
  intros [= <- <-]. split; [done|].
  pose proof (filter_length_le (fun r => bool_decide (rec_event_id r ∉ map rec_event_id (es_history (w_store w))))
                (in_records acc)) as Hle.
  fold (absent_from (es_history (w_store w)) (in_records acc)) in Hle.
  pose proof Heff as Heff0. unfold page_events in Heff0.
  destruct Heff as [_ Hev _ Hd _ Hu Hq Hn Hab]; simpl in *.
  constructor; simpl; try done.
  - rewrite Hq. lia.
  - by rewrite Hq.
  - by eexists; split; [exact Hgain |].
Qed.

(** *** The same page at another time *)

Record same_ingest (a b : Ingest) : Prop := {
  si_guard : in_guard b = in_guard a;
  si_records : Forall2 same_content (in_records a) (in_records b);
  si_placements : in_placements b = in_placements a;
  si_duplicates : in_duplicates b = in_duplicates a;
  si_quarantined : in_quarantined b = in_quarantined a;
  si_unverified : in_unverified b = in_unverified a
}.

Lemma from_event_clock e now now' r : from_event e now = Ok r -> from_event e now' = Ok (stamp now' r).
Proof.
  unfold from_event. intros Hr. ok_inv. rewrite Hok, Hok0. reflexivity.
Qed.

Lemma ingest_item_clock clock clock' item a b a' :
  same_ingest a b -> ingest_item ix clock a item = Ok a' ->
  exists b', ingest_item ix clock' b item = Ok b' /\ same_ingest a' b'.
Proof.
  intros Hab Hi. destruct a as [ga ra pa da qa ua], b as [gb rb pb db qb ub].
  destruct Hab as [Eg Hr Ep Ed Eq Eu]; simpl in *; subst.
  unfold ingest_item in *. simpl in *. destruct (normalize (ix_normalizer ix) item) as [n|e].
  - unfold ingest_event in *. simpl in *. destruct (guard_contains ga (event_id (ne_event n))).
    + simpl in *. destruct (ledger_sequence (order (ne_event n))); injection Hi as <-;
        (eexists; split; [reflexivity | by constructor]).
    + destruct (from_event (ne_event n) (clock (length ra))) as [r|] eqn:Er; [|done]. simpl in *.
      rewrite (from_event_clock _ _ (clock' (length rb)) _ Er). simpl.
      assert (Forall2 same_content (ra ++ [r]) (rb ++ [stamp (clock' (length rb)) r])) as Hr'.
      { apply Forall2_app; [done|]. constructor; [by eexists | constructor]. }
      destruct (ledger_sequence (order (ne_event n))); injection Hi as <-;
        (eexists; split; [reflexivity | by constructor]).
  - destruct (ix_malformed_policy ix); [done|]. injection Hi as <-.
    eexists; split; [reflexivity | by constructor].
Qed.

Lemma collect_clock clock clock' items acc :
  collect ix clock items = Ok acc -> exists acc', collect ix clock' items = Ok acc' /\ same_ingest acc acc'.
Proof.
  unfold collect. intros Hc. ok_inv.
  assert (forall a b, same_ingest a b -> ingest_items ix clock a items = Ok acc ->
          exists b', ingest_items ix clock' b items = Ok b' /\ same_ingest acc b') as Hi.
  { clear Hok Hb. induction items as [|item items IH]; intros a b Hab; simpl.
    - intros [= <-]. eauto.
    - intros Hi. ok_inv. destruct (ingest_item_clock _ clock' _ _ _ _ Hab Hok) as (b1 & -> & Hb1).
      by apply (IH v). }
  destruct (Hi Ingest_new Ingest_new) as (acc' & E & Hs); [by constructor | done|].
  exists acc'. rewrite E. simpl. by rewrite (si_placements _ _ Hs), Hb.
Qed.

Lemma absent_from_present store store' rs rs' :
  landed store store' rs -> Forall2 same_content rs rs' -> absent_from (es_history store') rs' = [].
Proof.
  intros Hl Hrs. destruct (absent_from (es_history store') rs') as [|x l] eqn:E; [done|]. exfalso.
  assert (x ∈ absent_from (es_history store') rs') as Hx by (rewrite E; apply elem_of_cons; by left).
  apply list_elem_of_In, filter_In in Hx as [Hx%list_elem_of_In Hn%bool_decide_eq_true]. apply Hn.
  destruct (same_content_ids _ _ Hrs) as [Ei _].
  assert (rec_event_id x ∈ map rec_event_id rs) as Hin
    by (rewrite <- Ei; by apply list_elem_of_In, in_map, list_elem_of_In).
  apply list_elem_of_fmap in Hin as (r & -> & Hr). by apply (landed_has store store' rs).
Qed.

(** Appending again what is already there: refused or absorbed, by the policy. *)
Lemma append_again store store' acc acc' :
  landed store store' (in_records acc) -> same_ingest acc acc' ->
  (exists b, WriteBatch_new (in_records acc) = Ok b) ->
  append_records ix store' acc' =
    (store', if bool_decide (ix_dedup_policy ix = FailOnDuplicate) && (0 <? length (in_records acc))
             then Err (IxCheckpoint ("duplicate events under FailOnDuplicate policy: "
                                       +:+ z_to_string (Z.of_nat (length (in_records acc)))))
             else Ok (0, in_duplicates acc + length (in_records acc))).
Proof.
  intros Hl Hsame Hb. unfold append_records. rewrite (si_duplicates _ _ Hsame).
  pose proof (si_records _ _ Hsame) as Hrs. pose proof (Forall2_length _ _ _ Hrs) as Hlen.
  destruct (in_records acc') as [|r' rs'] eqn:Er'.
  { rewrite Hlen. simpl. rewrite andb_false_r, Nat.add_0_r. done. }
  rewrite <- Er' in *.
  destruct (WriteBatch_new_content _ _ Hrs Hb) as [b Eb]. rewrite Eb.
  destruct Hl as (Hi & Hl0). pose proof (conj Hi Hl0 : landed store store' (in_records acc)) as Hl.
  pose proof (absent_from_present _ _ _ _ Hl Hrs) as Ha.
  destruct (es_insert_batch_new store' _ b Hi Eb) as (s2 & E2 & _ & _ & Hsame2); [by rewrite Ha|].
  rewrite E2, Ha. simpl. rewrite Nat.sub_0_r, <- Hlen. rewrite (Hsame2 Ha).
  by destruct (bool_decide _ && _).
Qed.

Lemma run_once_inv clock (w w' : World Src P S) res :
  run_once ix clock w = (w', res) ->
  (w_checkpoints w' = w_checkpoints w /\ w_store w' = w_store w /\ is_ok res = false)
  \/ exists page src, served w = Some page /\ source_name src = source_name (w_source w)
       /\ commit_page ix clock (mkWorld src (w_checkpoints w) (w_store w)) page = (w', res)
       /\ (forall clock' store, run_once ix clock' (mkWorld (w_source w) (w_checkpoints w) store)
                              = commit_page ix clock' (mkWorld src (w_checkpoints w) store) page)
       /\ exists after limit, src = fst (fetch_after (w_source w) after limit).
Proof.
  unfold run_once, served. destruct (cp_load (w_checkpoints w) (source_name (w_source w))) as [resumed|e] eqn:El.
  2: { intros [= <- <-]. by left. }
  pose proof (source_name_stable (w_source w) (option_map cursor_str resumed) (ix_page_limit ix)) as Hn.
  destruct (fetch_after (w_source w) (option_map cursor_str resumed) (ix_page_limit ix)) as [src [page|e]] eqn:Ef.
  2: { intros [= <- <-]. by left. }
  intros Hc. right. exists page, src. simpl. split; [done|]. split; [done|]. split; [done|].
  split; [intros clock' store; by rewrite El, Ef|]. eexists _, _. by rewrite Ef.
Qed.

Lemma run_once_effect clock (w w' : World Src P S) rep :
  es_inv (w_store w) -> (forall page, served w = Some page -> page_fresh (w_store w) page) ->
  run_once ix clock w = (w', Ok rep) ->
  exists page, served w = Some page /\ page_effect clock w w' page rep
    /\ exists after limit, w_source w' = fst (fetch_after (w_source w) after limit).
Proof.
  intros Hs Hf Hr.
  destruct (run_once_inv _ _ _ _ Hr) as [(_ & _ & ?)|(page & src & Hp & Hn & Hc & _ & Hsrc)]; [done|].
  exists page. split; [done|].
  apply commit_page_spec in Hc as [Hws [? ? ? ? ? ? ? ? ? Hcp]]; simpl in *; [|done|by apply Hf].
  rewrite Hn in Hcp. rewrite Hws. split; [by constructor | done].
Qed.

(** What a successful commit went through. *)
Lemma commit_page_Ok_inv clock (w w' : World Src P S) page rep :
  es_inv (w_store w) -> page_fresh (w_store w) page -> commit_page ix clock w page = (w', Ok rep) ->
  exists acc,
    collect ix clock (sp_items page) = Ok acc /\ landed (w_store w) (w_store w') (in_records acc)
    /\ (exists b, WriteBatch_new (in_records acc) = Ok b)
    /\ advance (w_checkpoints w) (source_name (w_source w)) (sp_items page) = (w_checkpoints w', Ok tt)
    /\ w_source w' = w_source w
    /\ ir_inserted rep + ir_duplicates rep = in_duplicates acc + length (in_records acc)
    /\ (0 < ir_inserted rep -> 0 < length (in_records acc))
    /\ rep = mkIngestReport (length (sp_items page)) (ir_inserted rep) (ir_duplicates rep)
               (in_quarantined acc) (in_unverified acc) (sp_has_more page).
Proof.
  intros Hs Hf. unfold commit_page. destruct (collect ix clock (sp_items page)) as [acc|e] eqn:Ec; [|done].
  pose proof (collect_Ok _ _ _ Ec) as [Heff _].
  destruct (append_records ix (w_store w) acc) as [store r1] eqn:Ea.
  assert (forall r, r ∈ in_records acc -> ids_fresh (w_store w) (event r)) as Hfr.
  { intros r Hr. apply Hf. pose proof (le_events _ _ _ _ _ _ _ _ Heff) as Ee. simpl in Ee.
    assert (event r ∈ first_seen ∅ (events_of ix (sp_items page))) as He.
    { rewrite <- Ee. apply list_elem_of_In, in_map. by apply list_elem_of_In. }
    by apply first_seen_spec in He as [? _]. }
  pose proof (append_spec ix clock _ _ _ _ Hs (le_built _ _ _ _ _ _ _ _ Heff) Hfr Ea) as Happ.
  destruct r1 as [[i d]|e]; [|done]. destruct Happ as (Hl & Ei & Ed & _ & Hb).
  destruct (advance _ _ _) as [cps [[]|e]] eqn:Eadv; [|done]. intros [= <- <-]. simpl.
  pose proof (filter_length_le (fun r => bool_decide (rec_event_id r ∉ map rec_event_id (es_history (w_store w))))
                (in_records acc)) as Hle.
  fold (absent_from (es_history (w_store w)) (in_records acc)) in Hle.
  exists acc. repeat split; try done; try apply Hl; lia.
Qed.

(** The page of a successful run, served again with the store it left. *)
Lemma rerun clock clock' (w w1 : World Src P S) rep :
  es_inv (w_store w) -> (forall page, served w = Some page -> page_fresh (w_store w) page) ->
  run_once ix clock w = (w1, Ok rep) ->
  exists n, (0 < ir_inserted rep -> 0 < n) /\
    run_once ix clock' (mkWorld (w_source w) (w_checkpoints w) (w_store w1)) =
      if bool_decide (ix_dedup_policy ix = FailOnDuplicate) && (0 <? n)
      then (mkWorld (w_source w1) (w_checkpoints w) (w_store w1),
            Err (IxCheckpoint ("duplicate events under FailOnDuplicate policy: " +:+ z_to_string (Z.of_nat n))))
      else (w1, Ok (mkIngestReport (ir_fetched rep) 0 (ir_inserted rep + ir_duplicates rep)
                      (ir_quarantined rep) (ir_unverified_order rep) (ir_has_more rep))).
Proof.
  intros Hs Hf Hr. destruct (run_once_inv _ _ _ _ Hr) as [(_ & _ & ?)|(page & src & Hp & Hn & Hc & Hagain & _)]; [done|].
  rewrite (Hagain clock' (w_store w1)). clear Hagain.
  destruct (commit_page_Ok_inv clock (mkWorld src (w_checkpoints w) (w_store w)) w1 page rep Hs (Hf _ Hp) Hc) as
    (acc & Ec & Hl & Hb & Hadv & Hsrc & Hsum & Hpos & ->).
  simpl in *. destruct (collect_clock _ clock' _ _ Ec) as (acc' & Ec' & Hsame).
  exists (length (in_records acc)). split; [done|]. unfold commit_page. simpl. rewrite Ec'.
  rewrite (append_again _ _ _ _ Hl Hsame Hb). destruct (bool_decide _ && _).
  - by rewrite Hsrc.
  - rewrite Hadv, Hsum, (si_quarantined _ _ Hsame), (si_unverified _ _ Hsame). f_equal.
    destruct w1; simpl in *. by subst.
Qed.

(** A page with two placed events out of strict order changes nothing. *)
Lemma misordered clock (w : World Src P S) page l1 e1 l2 e2 l3 :
  served w = Some page -> page_events page = l1 ++ e1 :: l2 ++ e2 :: l3 ->
  is_placed e1 = true -> is_placed e2 = true -> compare_order (order e1) (order e2) <> Lt ->
  exists w' e, run_once ix clock w = (w', Err e)
               /\ w_checkpoints w' = w_checkpoints w /\ w_store w' = w_store w.
Proof.
  intros Hp He H1' H2' Hlt. destruct (run_once ix clock w) as [w' res] eqn:Er.
  destruct (run_once_inv _ _ _ _ Er) as [(? & ? & Hres)|(page' & src & Hp' & _ & Hc & _)].
  { destruct res; [done|]. eauto. }
  assert (page' = page) as -> by congruence. clear Hp'. unfold commit_page in Hc.
  destruct (collect ix clock (sp_items page)) as [acc|e] eqn:Ec; [|injection Hc as <- <-; eauto].
  exfalso. apply Hlt. apply collect_Ok in Ec as [_ Hsort]. fold (page_events page) in Hsort.
  rewrite He in Hsort. clear -Hsort H1' H2'. rewrite List.filter_app, map_app in Hsort. cbn [List.filter] in Hsort.
  rewrite H1' in Hsort. cbn [map] in Hsort.
  apply StronglySorted_app_1_r in Hsort. apply StronglySorted_inv in Hsort as [_ Hall].
  rewrite Forall_forall in Hall. apply Hall. apply list_elem_of_fmap. exists e2. split; [done|].
  apply list_elem_of_In, filter_In. split; [|done]. apply in_app_iff. right. by left.
Qed.
End Run.

Section Claims.
Context {Src : Type} `{EventSourceLaws Src} {P : Type} `{CheckpointStoreLaws P}
  {S : Type} `{EventStoreLaws S}.
Context `{JsonDecoder} `{Sha256, JsonStrings} `{Serialize AuditEvent}.

(** C6 What a successful run does with the page it is served.  Every item is
    accounted for once (inserted, duplicate or quarantined, the last only under
    the skip policy); the history gains exactly one record for each event it
    did not hold, and afterwards holds every event of the page; the placed
    events are in strict order; and the checkpoint names the last item of the
    page, or is untouched when the page was empty. *)
Theorem run_once_records_page ix clock (w w' : World Src P S) rep :
  es_inv (w_store w) -> (forall page, served ix w = Some page -> page_fresh ix (w_store w) page) ->
  run_once ix clock w = (w', Ok rep) ->
  exists page, served ix w = Some page /\ page_effect ix clock w w' page rep.
Proof.
  intros Hs Hf Hr. destruct (run_once_effect ix clock w w' rep Hs Hf Hr) as (page & ? & ? & _). eauto.
Qed.

(** C7 An error never moves the checkpoint and never splits a page: the store
    is as it was, or (when the policy, the position or the checkpoint save is
    what failed) the whole page landed in it and nothing was lost. *)
Theorem run_once_error_safe ix clock (w w' : World Src P S) e :
  es_inv (w_store w) -> (forall page, served ix w = Some page -> page_fresh ix (w_store w) page) ->
  run_once ix clock w = (w', Err e) ->
  w_checkpoints w' = w_checkpoints w
  /\ (w_store w' = w_store w
      \/ exists page new, served ix w = Some page /\ page_stored ix (w_store w) (w_store w') page
           /\ gained ix clock (w_store w) (w_store w') page new).
Proof.
  intros Hs Hf Hr. destruct (run_once_inv ix _ _ _ _ Hr) as [(? & ? & _)|(page & src & Hp & Hn & Hc & _)]; [auto|].
  apply commit_page_spec in Hc as [_ [Hc Hst]]; simpl in *; [|done|by apply Hf].
  split; [done|]. destruct Hst as [|[Hst [new Hnew]]]; [auto | eauto 8].
Qed.

(** C24 Crash safety: suppose the page of a successful run is served again, to
    the store as that run left it but with the checkpoint still where it was
    (the crash between the append and the save).  Under the skip policy the
    second run, whenever it happens, changes nothing in the store, reports every
    event as a duplicate, and leaves source and checkpoint as the first run
    would have.  Under [FailOnDuplicate] the crash is never absorbed: when the
    lost run had inserted anything, every later run that is served its page
    fails with the checkpoint where it was, so it is served that page again. *)
Theorem rerun_outcome ix clock clock' (w w1 : World Src P S) rep :
  es_inv (w_store w) -> (forall page, served ix w = Some page -> page_fresh ix (w_store w) page) ->
  run_once ix clock w = (w1, Ok rep) ->
  let again := run_once ix clock' (mkWorld (w_source w) (w_checkpoints w) (w_store w1)) in
  (ix_dedup_policy ix = SkipDuplicates ->
     again = (w1, Ok (mkIngestReport (ir_fetched rep) 0 (ir_inserted rep + ir_duplicates rep)
                        (ir_quarantined rep) (ir_unverified_order rep) (ir_has_more rep))))
  /\ (ix_dedup_policy ix = FailOnDuplicate -> 0 < ir_inserted rep ->
        exists d, again = (mkWorld (w_source w1) (w_checkpoints w) (w_store w1), Err (IxCheckpoint d))).
Proof.
  intros Hs Hf Hr again. destruct (rerun ix clock clock' w w1 rep Hs Hf Hr) as (n & Hn & E).
  unfold again. rewrite E. split; [by intros ->|]. intros -> Hi. specialize (Hn Hi). simpl.
  rewrite (proj2 (Nat.ltb_lt 0 n) Hn). eauto.
Qed.

(** A page is refused as a whole, leaving store and checkpoint alone, as
    soon as it has two events that name a ledger and do not strictly ascend by
    ledger, operation index and event index: a repeated event, a reordering,
    or two events that differ only in their transaction. *)
Theorem misordered_page_rejected ix clock (w : World Src P S) page l1 e1 l2 e2 l3 :
  served ix w = Some page -> page_events ix page = l1 ++ e1 :: l2 ++ e2 :: l3 ->
  is_placed e1 = true -> is_placed e2 = true -> compare_order (order e1) (order e2) <> Lt ->
  exists w' e, run_once ix clock w = (w', Err e)
               /\ w_checkpoints w' = w_checkpoints w /\ w_store w' = w_store w.
Proof. apply misordered. Qed.
End Claims.
