(* ===== verification/ReplayProofs.v ===== *)
(** * Bounded replay: termination and completeness

    A page budget bounds the pages of a replay whatever the source does; over a
    source that serves a finite feed as its contract says, an unbudgeted replay
    terminates and, unless it stops on an error, has recorded the whole feed. *)

From stdpp Require Import sorting.
From S2P Require Import Prelude Text BTree Errors Identifiers Timestamps Classification.
From S2P Require Import Correlation Events IntegrityModel Records Samples Pagination Storage.
From S2P Require Import MemoryStore MemoryPaging AuditEvents Sources Normalizer.
From S2P Require Import NormalizerProofs Trail Indexer IndexerProofs.
Open Scope nat_scope.
Open Scope list_scope.

(** ** A source over a finite feed *)

(** What [EventSource::fetch_after] documents: at most [limit] items, exactly
    those after the given position; [next] tells whether more remain. *)
Class FeedSource (Src : Type) `{EventSourceLaws Src} := {
  feed : Src -> list RawEventItem;
  feed_stable s after limit : feed (fst (fetch_after s after limit)) = feed s;
  feed_page s consumed rest limit :
    feed s = consumed ++ rest -> NoDup (map raw_position (feed s)) -> (0 < limit)%Z ->
    exists page, snd (fetch_after s (option_map raw_position (last consumed)) limit) = Ok page
      /\ sp_items page = take (Z.to_nat limit) rest
      /\ sp_has_more page = (Z.to_nat limit <? length rest)
}.

(** The source every example and integration test drives the pipeline with: the
    items in memory, and the position of the one after which to resume (here for
    the positive limits the indexer asks for). *)
Record FixtureSource := mkFixtureSource { fx_name : string; fx_items : list RawEventItem }.

Fixpoint after_position (p : string) (items : list RawEventItem) : option (list RawEventItem) :=
  match items with
  | [] => None
  | i :: items => if String.eqb (raw_position i) p then Some items else after_position p items
  end.

Definition list_page (limit : Z) (rest : list RawEventItem) : SourcePage :=
  mkSourcePage (take (Z.to_nat limit) rest)
    (if Z.to_nat limit <? length rest then option_map raw_position (last (take (Z.to_nat limit) rest)) else None).

#[export] Instance FixtureSource_EventSource : EventSource FixtureSource := {
  source_name := fx_name;
  fetch_after := fun s after limit =>
    (s, match after with
        | None => Ok (list_page limit (fx_items s))
        | Some p => map_ok (list_page limit)
                      (ok_or (after_position p (fx_items s))
                         (SourceError_to_string (InvalidPosition p)))
        end)
}.

#[export] Instance FixtureSource_laws : EventSourceLaws FixtureSource.
Proof. constructor. reflexivity. Qed.

Lemma after_position_last consumed item rest :
  NoDup (map raw_position (consumed ++ item :: rest)) ->
  after_position (raw_position item) (consumed ++ item :: rest) = Some rest.
Proof.
  induction consumed as [|x consumed IH]; simpl; intros Hnd.
  - by rewrite String.eqb_refl.
  - apply NoDup_cons in Hnd as [Hn Hnd]. destruct (String.eqb_spec (raw_position x) (raw_position item)) as [E|_].
    + exfalso. apply Hn. rewrite E, map_app. apply elem_of_app. right. simpl. by apply elem_of_cons; left.
    + by apply IH.
Qed.

Lemma list_page_more limit rest :
  (0 < limit)%Z -> sp_has_more (list_page limit rest) = (Z.to_nat limit <? length rest).
Proof.
  intros Hl. unfold list_page, sp_has_more. simpl. destruct (Nat.ltb_spec (Z.to_nat limit) (length rest)); [|done].
  destruct rest as [|i rest]; simpl in *; [lia|].
  destruct (last (take (Z.to_nat limit) (i :: rest))) eqn:E; [done|].
  apply last_None in E. by destruct (Z.to_nat limit) eqn:E2; [lia|].
Qed.

#[export] Instance FixtureSource_feed : FeedSource FixtureSource.
Proof.
  refine {| feed := fx_items |}; [done|]. intros s consumed rest limit Hf Hnd Hl. simpl.
  exists (list_page limit rest). split; [|split; [done | by apply list_page_more]].
  destruct (last consumed) as [item|] eqn:El; simpl.
  - apply last_Some in El as [before ->]. rewrite Hf, <- app_assoc in *. simpl in *.
    by rewrite after_position_last.
  - apply last_None in El. subst consumed. simpl in Hf. by rewrite Hf.
Defined.

(** ** Budgets *)

Section Budget.
Context {Src : Type} `{EventSource Src} {S : Type} `{EventStore S}.
Context `{JsonDecoder} `{Sha256, JsonStrings} `{Serialize AuditEvent}.

Notation RWorld := (World Src InMemoryCheckpointStore S).

Lemma replay_loop_budget fuel ix instant options (w : RWorld) report max :
  max_pages options = Some max -> rr_pages report <= max -> max - rr_pages report < fuel ->
  exists w' res, replay_loop fuel ix instant options w report = Some (w', res)
                 /\ forall rep, res = Ok rep -> rr_pages rep <= max.
Proof.
  intros Hm. revert w report. induction fuel as [|fuel IH]; intros w report Hle Hfuel; [lia|].
  simpl. unfold replay_turn, reached at 1. rewrite Hm.
  destruct (Nat.leb_spec max (rr_pages report)) as [Hge|Hlt].
  { do 2 eexists. split; [reflexivity|]. by intros rep [= <-]. }
  destruct (run_once ix (fun _ => instant) w) as [w1 [page|e]]; [|do 2 eexists; by split].
  unfold reached. cbn -[Nat.leb]. destruct (ir_has_more page); cbn -[Nat.leb].
  2: { do 2 eexists. split; [reflexivity|]. intros rep [= <-]. simpl. lia. }
  destruct (Nat.leb_spec max (rr_pages report + 1)) as [Hge|Hlt2]; cbn -[Nat.leb].
  { do 2 eexists. split; [reflexivity|]. intros rep [= <-]. simpl. lia. }
  destruct (match max_records options with Some m => _ | None => _ end).
  { do 2 eexists. split; [reflexivity|]. intros rep [= <-]. simpl. lia. }
  apply IH; simpl; lia.
Qed.
End Budget.

Section BudgetClaim.
Context {Src : Type} `{EventSource Src} {S : Type} `{EventStore S}.
Context `{JsonDecoder} `{Sha256, JsonStrings} `{Serialize AuditEvent}.

(** A page budget bounds a replay whatever the source answers: it stops
    after at most that many pages ([max + 1] turns of the loop are enough),
    with an error or with a report of at most that many pages. *)
Theorem replay_page_budget config instant (source : Src) (target : S) start_from options max :
  max_pages options = Some max ->
  exists source' target' res,
    replay_into (max + 1) config instant source target start_from options = Some (source', target', res)
    /\ forall rep, res = Ok rep -> rr_pages rep <= max.
Proof.
  intros Hm. unfold replay_into.
  destruct (let? p := _ in _) as [[p ix]|e]; [|do 3 eexists; by split].
  destruct (replay_loop_budget (max + 1) ix instant options (mkWorld source p target)
              (mkReplayReport 0 0 0 false (option_map cursor_str start_from)) max Hm) as (w' & res & -> & Hr);
    simpl; [lia.. |].
  do 3 eexists. by split.
Qed.
End BudgetClaim.

(** ** Completeness *)

Lemma last_app_r {A} (l1 l2 : list A) : l2 <> [] -> last (l1 ++ l2) = last l2.
Proof.
  intros Hl. destruct (last l2) as [x|] eqn:E; [|by apply last_None in E].
  apply last_Some in E as [l ->]. by rewrite app_assoc, last_snoc.
Qed.

Lemma events_of_app `{JsonDecoder} `{Sha256, JsonStrings} ix l1 l2 :
  events_of ix (l1 ++ l2) = events_of ix l1 ++ events_of ix l2.
Proof. apply omap_app. Qed.

Section Complete.
Context {Src : Type} `{FeedSource Src} {S : Type} `{EventStoreLaws S}.
Context `{JsonDecoder} `{Sha256, JsonStrings} `{Serialize AuditEvent}.

Notation RWorld := (World Src InMemoryCheckpointStore S).

(** Record ids identify the events of the feed, and none of them is taken by
    another event's record in the store. *)
Definition ids_ok (es : list AuditEvent) (store : S) : Prop :=
  (forall e, e ∈ es -> ids_fresh store e)
  /\ forall e1 e2 b1 b2, e1 ∈ es -> e2 ∈ es -> event_canonical_bytes e1 = Ok b1 ->
       event_canonical_bytes e2 = Ok b2 -> (derive_bytes b1 : RecordId) = derive_bytes b2 ->
       event_id e1 = event_id e2.

Lemma ids_ok_gained ix clock es store store' page new :
  ids_ok es store -> (forall e, e ∈ page_events ix page -> e ∈ es) ->
  gained ix clock store store' page new -> ids_ok es store'.
Proof.
  intros [Hf Hinj] Hsub (Hh & Hp & He). split; [|done]. intros e Hin. unfold ids_fresh.
  intros Hn bytes Hb. rewrite Hh, map_app in Hn |- *. intros [Hr|Hr]%elem_of_app.
  - apply list_elem_of_fmap in Hr as (r & Er & Hr). rewrite Forall_forall in Hp.
    destruct (Hp r Hr) as [now (_ & b & Hb' & Erec)%from_event_Ok_inv].
    assert (record_id r = derive_bytes b) as Eid by (by rewrite Erec).
    apply Hn, elem_of_app. left. apply list_elem_of_fmap. exists r. split; [|done].
    apply (Hinj e (event r) bytes b); try done; [|congruence]. apply Hsub.
    assert (event r ∈ map event new) as Hev by (by apply list_elem_of_In, in_map, list_elem_of_In).
    rewrite He in Hev. apply list_elem_of_In, filter_In in Hev as [Hev%list_elem_of_In _].
    by apply first_seen_spec in Hev as [? _].
  - apply (Hf e Hin) with (bytes := bytes); try done. intros Hx. apply Hn, elem_of_app. by right.
Qed.

Variables (ix : Indexer) (instant : Timestamp) (options : ReplayOptions) (items : list RawEventItem) (store0 : S).
Hypothesis Hlimit : (0 < ix_page_limit ix)%Z.
Hypothesis Hnodup : NoDup (map raw_position items).
Hypothesis Hpages : max_pages options = None.
Hypothesis Hrecords : max_records options = None.

(** Between two turns: the items consumed so far are recorded. *)
Record replaying (w : RWorld) (report : ReplayReport) (consumed rest : list RawEventItem) : Prop := {
  rp_feed : feed (w_source w) = items;
  rp_split : items = consumed ++ rest;
  rp_checkpoint : cp_load (w_checkpoints w) (source_name (w_source w))
                  = Ok (option_map (fun i => mkSourceCursor (raw_position i)) (last consumed));
  rp_inv : es_inv (w_store w);
  rp_ids : ids_ok (events_of ix items) (w_store w);
  rp_stored : forall e, e ∈ events_of ix consumed -> event_id e ∈ map rec_event_id (es_history (w_store w));
  rp_kept : forall r, r ∈ es_history store0 -> r ∈ es_history (w_store w);
  rp_count : length (es_history (w_store w)) = length (es_history store0) + rr_inserted report;
  rp_truncated : rr_truncated report = false
}.

Definition replay_turned (w : RWorld) (report : ReplayReport) (page : IngestReport) : ReplayReport :=
  mkReplayReport (rr_pages report + 1) (rr_inserted report + ir_inserted page)
    (rr_duplicates report + ir_duplicates page) (rr_truncated report)
    (option_map cursor_str (positions (w_checkpoints w) !! source_name (w_source w))).

(** A successful run consumes the next [page_limit] items. *)
Lemma replaying_step w w' report page consumed rest :
  replaying w report consumed rest -> run_once ix (fun _ => instant) w = (w', Ok page) ->
  let n := Z.to_nat (ix_page_limit ix) in
  ir_has_more page = (n <? length rest)
  /\ replaying w' (replay_turned w' report page) (consumed ++ take n rest) (drop n rest).
Proof.
  intros [R1 R2 R3 R4 R5 R6 R7 R8 R9] Hrun n.
  destruct (feed_page (w_source w) consumed rest (ix_page_limit ix)) as (sp & Esp & Ei & Em);
    [congruence | by rewrite R1 | done|].
  assert (served ix w = Some sp) as Hserved.
  { unfold served. rewrite R3.
    replace (option_map cursor_str (option_map (fun i => mkSourceCursor (raw_position i)) (last consumed)))
      with (option_map raw_position (last consumed)) by (by destruct (last consumed)). by rewrite Esp. }
  assert (forall e, e ∈ page_events ix sp -> e ∈ events_of ix items) as Hsub.
  { intros e He. unfold page_events in He. rewrite Ei in He.
    rewrite R2, <- (take_drop n rest), !events_of_app, !elem_of_app. by right; left. }
  assert (forall p, served ix w = Some p -> page_fresh ix (w_store w) p) as Hf.
  { intros p Ep. assert (p = sp) as -> by congruence. intros e He. by apply R5, Hsub. }
  destruct (run_once_effect ix _ w w' page R4 Hf Hrun) as (p & Ep & Heff & after & limit & Hsrc).
  assert (p = sp) as -> by congruence. clear Ep.
  destruct Heff as [_ _ _ _ _ Hmore _ (Hinv & Hkept & Hst) (new & Hg & Hlen) Hcp].
  split; [by rewrite Hmore, Em|].
  assert (source_name (w_source w') = source_name (w_source w)) as Hname
    by (rewrite Hsrc; apply source_name_stable).
  constructor; simpl; try done.
  - by rewrite Hsrc, feed_stable.
  - by rewrite <- app_assoc, take_drop.
  - rewrite Hname. rewrite Ei in Hcp. fold n in Hcp.
    destruct (last (take n rest)) as [i|] eqn:El.
    + rewrite last_app_r by (intros E; by rewrite E in El). by rewrite El.
    + apply last_None in El. rewrite El, app_nil_r. by rewrite Hcp.
  - by eapply ids_ok_gained.
  - intros e. rewrite events_of_app, elem_of_app. intros [He|He].
    + apply R6 in He. apply list_elem_of_fmap in He as (r & -> & Hr).
      apply list_elem_of_In, in_map, list_elem_of_In. by apply Hkept.
    + apply Hst. unfold page_events. by rewrite Ei.
  - intros r Hr. by apply Hkept, R7.
  - destruct Hg as (Hh & _). rewrite Hh, length_app, R8, Hlen. lia.
Qed.

(** What a finished replay has done. *)
Definition replayed (w : RWorld) (res : IndexerResult ReplayReport) : Prop :=
  forall rep, res = Ok rep ->
    replaying w rep items [] /\ rr_last_position rep = option_map raw_position (last items).

(** Each turn that goes on consumes an item at least. *)
Lemma replay_loop_feed fuel w report consumed rest :
  replaying w report consumed rest -> length rest < fuel ->
  exists w' res, replay_loop fuel ix instant options w report = Some (w', res) /\ replayed w' res.
Proof.
  revert w report consumed rest. induction fuel as [|fuel IH]; intros w report consumed rest Hrep Hfuel; [lia|].
  simpl. unfold replay_turn, reached. rewrite Hpages, Hrecords.
  destruct (run_once ix (fun _ => instant) w) as [w1 [page|e]] eqn:Hrun.
  2: { do 2 eexists. split; [reflexivity|]. by intros rep [=]. }
  destruct (replaying_step w w1 report page consumed rest Hrep Hrun) as [Hmore Hrep1].
  fold (replay_turned w1 report page). cbn [rbind cp_load InMemoryCheckpointStore_CheckpointStore mem_load].
  destruct (ir_has_more page) eqn:Em; cbn [negb orb].
  - symmetry in Hmore. apply Nat.ltb_lt in Hmore.
    eapply IH; [exact Hrep1|]. rewrite length_drop. lia.
  - symmetry in Hmore. apply Nat.ltb_ge in Hmore. rewrite take_ge, drop_ge in Hrep1 by lia.
    do 2 eexists. split; [reflexivity|]. intros rep [= <-].
    assert (consumed ++ rest = items) as Ei by (symmetry; apply (rp_split _ _ _ _ Hrep)).
    rewrite Ei in Hrep1. split; [done|]. simpl.
    pose proof (rp_checkpoint _ _ _ _ Hrep1) as Hc. simpl in Hc. injection Hc as ->.
    by destruct (last items).
Qed.
End Complete.

Section CompleteClaim.
Context {Src : Type} `{FeedSource Src} {S : Type} `{EventStoreLaws S}.
Context `{JsonDecoder} `{Sha256, JsonStrings} `{Serialize AuditEvent}.

Lemma replay_feed_spec config instant (source : Src) (target : S) options :
  let ix := mkIndexer config SkipDuplicates AbortOnMalformed (page_limit options) in
  (0 < page_limit options)%Z -> max_pages options = None -> max_records options = None ->
  NoDup (map raw_position (feed source)) -> es_inv target -> ids_ok (events_of ix (feed source)) target ->
  exists source' target' res,
    replay_into (length (feed source) + 1) config instant source target None options
      = Some (source', target', res)
    /\ match res with
       | Err _ => True
       | Ok rep =>
           es_inv target'
           /\ (forall e, e ∈ events_of ix (feed source) -> event_id e ∈ map rec_event_id (es_history target'))
           /\ (forall r, r ∈ es_history target -> r ∈ es_history target')
           /\ length (es_history target') = length (es_history target) + rr_inserted rep
           /\ rr_truncated rep = false
           /\ rr_last_position rep = option_map raw_position (last (feed source))
       end.
Proof.
  intros ix Hl Hp Hr Hnd Hs Hids. unfold replay_into, seed, Indexer_new.
  rewrite (proj2 (Z.eqb_neq (page_limit options) 0)) by lia. cbn [rbind option_map]. fold ix.
  destruct (replay_loop_feed ix instant options (feed source) target Hl Hnd Hp Hr
              (length (feed source) + 1) (mkWorld source CheckpointStore_new target)
              (mkReplayReport 0 0 0 false None) [] (feed source)) as (w' & res & -> & Hres).
  { constructor; simpl; try done; first [lia | by intros e ?%elem_of_nil]. }
  { lia. }
  do 3 eexists. split; [reflexivity|]. destruct res as [rep|e]; [|done].
  destruct (Hres rep eq_refl) as [Hrep Hlast]. destruct Hrep. repeat split; done.
Qed.

(** C27 An unbudgeted replay of a finite feed terminates, within one turn more
    than the feed has items.  It ends with an error or with the whole feed
    recorded: every event the items normalize to is in the target, the target
    lost nothing and grew by the reported insertions, the report is not
    truncated, and the last position is that of the feed's last item. *)
Theorem replay_complete config instant (source : Src) (target : S) options :
  let ix := mkIndexer config SkipDuplicates AbortOnMalformed (page_limit options) in
  (0 < page_limit options)%Z -> max_pages options = None -> max_records options = None ->
  NoDup (map raw_position (feed source)) -> es_inv target -> ids_ok (events_of ix (feed source)) target ->
  exists source' target' res,
    replay_into (length (feed source) + 1) config instant source target None options
      = Some (source', target', res)
    /\ match res with
       | Err _ => True
       | Ok rep =>
           es_inv target'
           /\ (forall e, e ∈ events_of ix (feed source) -> event_id e ∈ map rec_event_id (es_history target'))
           /\ (forall r, r ∈ es_history target -> r ∈ es_history target')
           /\ length (es_history target') = length (es_history target) + rr_inserted rep
           /\ rr_truncated rep = false
           /\ rr_last_position rep = option_map raw_position (last (feed source))
       end.
Proof. apply replay_feed_spec. Qed.
End CompleteClaim.
