(* ===== verification/IndexerExamples.v ===== *)
(** * The indexer on concrete pages

    A decoder that knows three documents, an in-memory source over them, and the
    inputs at which the indexer's theorems are exercised; among them a page with
    two transactions of one ledger, which the indexer refuses. *)

From S2P Require Import Prelude Text BTree Errors Identifiers Timestamps Classification.
From S2P Require Import Correlation Events IntegrityModel Records Samples Pagination Storage.
From S2P Require Import MemoryStore MemoryPaging AuditEvents Sources Normalizer.
From S2P Require Import NormalizerProofs Trail Indexer IndexerProofs ReplayProofs.
Open Scope nat_scope.
Open Scope list_scope.

#[local] Existing Instance sum_sha.
#[local] Existing Instance toy_strings.
#[local] Existing Instance toy_event_json.

(** A freeze of one account in ledger [ledger] by transaction [hh...]. *)
Definition freeze_doc (h : string) (ledger : Z) : Value :=
  VObject [("account", VString "GABC"); ("close_time", VNumber (NInt 1700000000));
           ("event_index", VNumber (NInt 0)); ("ledger", VNumber (NInt ledger));
           ("operation_index", VNumber (NInt 0)); ("token", VString "CTOK");
           ("transaction_hash", VString (String.concat "" (repeat h 32))); ("type", VString "account_frozen")].

Definition docs : JsonDecoder := {|
  json_from_str := fun s =>
    if String.eqb s "first" then Ok (freeze_doc "ab" 42)
    else if String.eqb s "second" then Ok (freeze_doc "cd" 42)
    else if String.eqb s "later" then Ok (freeze_doc "ef" 43)
    else Err "syntax";
  event_from_value := fun _ => Err "not an envelope"
|}.
#[local] Existing Instance docs.

Definition item_of (doc position : string) : RawEventItem := mkRawEventItem HOOKS doc position.

Definition ix_of (p : DedupPolicy) : Indexer := mkIndexer config1 p AbortOnMalformed 10.
Definition world_of (items : list RawEventItem) (store : MemoryEventStore)
  : World FixtureSource InMemoryCheckpointStore MemoryEventStore :=
  mkWorld (mkFixtureSource "rpc" items) CheckpointStore_new store.
Definition tick (t : Z) : nat -> Timestamp := fun _ => mkTimestamp t.

Definition good_items : list RawEventItem := [item_of "first" "42:ab"; item_of "later" "43:ef"].
Definition same_ledger_items : list RawEventItem := [item_of "first" "42:ab"; item_of "second" "42:cd"].
Definition bad_items : list RawEventItem := [item_of "first" "42:ab"; item_of "nonsense" "43:ef"].

Definition good_world := world_of good_items MemoryEventStore_new.
Definition page1 (items : list RawEventItem) : SourcePage := mkSourcePage items None.
Definition report1 : IngestReport := mkIngestReport 2 2 0 [] 0 false.

Lemma new_store_inv : es_inv MemoryEventStore_new.
Proof. exact store_inv_new. Defined.

Lemma served_good p : served (ix_of p) good_world = Some (page1 good_items).
Proof. by destruct p. Qed.

(** Nothing is stored yet, so no record id is taken. *)
Lemma fresh_new ix page : page_fresh ix MemoryEventStore_new page.
Proof. intros e _ _ bytes _. by apply not_elem_of_nil. Qed.

Lemma good_fresh p page :
  served (ix_of p) good_world = Some page -> page_fresh (ix_of p) (w_store good_world) page.
Proof. intros _. apply fresh_new. Qed.

Definition after_good (p : DedupPolicy) := fst (run_once (ix_of p) (tick 5) good_world).

Lemma run_good p : run_once (ix_of p) (tick 5) good_world = (after_good p, Ok report1).
Proof. destruct p; vm_compute; reflexivity. Qed.

Lemma run_once_records_page_witness :
  run_once (ix_of SkipDuplicates) (tick 5) good_world = (after_good SkipDuplicates, Ok report1)
  /\ exists page, served (ix_of SkipDuplicates) good_world = Some page
       /\ page_effect (ix_of SkipDuplicates) (tick 5) good_world (after_good SkipDuplicates) page report1.
Proof.
  split; [apply run_good|].
  apply (run_once_records_page (ix_of SkipDuplicates) (tick 5) good_world (after_good SkipDuplicates) report1);
    [exact new_store_inv | exact (good_fresh SkipDuplicates) | apply run_good].
Defined.

Definition bad_world := world_of bad_items MemoryEventStore_new.
Definition bad_error : IndexerError := IxNormalize (MalformedPayload HOOKS "payload is not valid JSON: syntax").

Lemma run_bad : run_once (ix_of SkipDuplicates) (tick 5) bad_world = (bad_world, Err bad_error).
Proof. by vm_compute. Qed.

Lemma run_once_error_safe_witness :
  run_once (ix_of SkipDuplicates) (tick 5) bad_world = (bad_world, Err bad_error)
  /\ w_checkpoints bad_world = CheckpointStore_new.
Proof.
  split; [apply run_bad|].
  apply (run_once_error_safe (ix_of SkipDuplicates) (tick 5) bad_world bad_world bad_error);
    [exact new_store_inv | intros page _; apply fresh_new | apply run_bad].
Defined.

Lemma rerun_outcome_witness :
  (let w1 := after_good SkipDuplicates in
   run_once (ix_of SkipDuplicates) (tick 9) (mkWorld (w_source good_world) (w_checkpoints good_world) (w_store w1))
   = (w1, Ok (mkIngestReport 2 0 2 [] 0 false)))
  /\ (let w1 := after_good FailOnDuplicate in
      exists d, run_once (ix_of FailOnDuplicate) (tick 9)
                  (mkWorld (w_source good_world) (w_checkpoints good_world) (w_store w1))
                = (mkWorld (w_source w1) (w_checkpoints good_world) (w_store w1), Err (IxCheckpoint d))).
Proof.
  split.
  - exact (proj1 (rerun_outcome (ix_of SkipDuplicates) (tick 5) (tick 9) good_world (after_good SkipDuplicates)
      report1 new_store_inv (good_fresh SkipDuplicates) (run_good SkipDuplicates)) eq_refl).
  - apply (proj2 (rerun_outcome (ix_of FailOnDuplicate) (tick 5) (tick 9) good_world (after_good FailOnDuplicate)
      report1 new_store_inv (good_fresh FailOnDuplicate) (run_good FailOnDuplicate)) eq_refl).
    simpl. lia.
Defined.

Definition same_ledger_world := world_of same_ledger_items MemoryEventStore_new.
Definition event1 (doc : string) : AuditEvent :=
  match normalize config1 (item_of doc "p") with Ok n => ne_event n | Err _ => sample_event "evt_0" end.

Lemma misordered_page_rejected_witness :
  event_id (event1 "first") <> event_id (event1 "second")
  /\ exists w' e, run_once (ix_of SkipDuplicates) (tick 5) same_ledger_world = (w', Err e)
       /\ w_checkpoints w' = CheckpointStore_new /\ w_store w' = MemoryEventStore_new.
Proof.
  split; [intros E; by vm_compute in E|].
  apply (misordered_page_rejected (ix_of SkipDuplicates) (tick 5) same_ledger_world (page1 same_ledger_items)
           [] (event1 "first") [] (event1 "second") []); by vm_compute.
Defined.

(** Two transactions of one ledger, each with an event at operation 0, event
    0, cannot be indexed together: both items normalize, to different events
    with different transaction hashes, and the run fails as out of order,
    storing nothing and leaving the checkpoint where it was. *)
Example two_transactions_one_ledger :
  event_id (event1 "first") <> event_id (event1 "second")
  /\ transaction (event1 "first") <> transaction (event1 "second")
  /\ run_once (ix_of SkipDuplicates) (tick 5) same_ledger_world
     = (same_ledger_world, Err (IxOrdering "page events are not in strictly increasing ledger order")).
Proof.
  split; [intros E; by vm_compute in E|]. split; [intros E; by vm_compute in E|]. by vm_compute.
Qed.

Definition options1 : ReplayOptions := mkReplayOptions None None 1.

Lemma replay_page_budget_witness :
  exists source' target' res,
    replay_into 3 config1 (mkTimestamp 5) (mkFixtureSource "rpc" good_items) MemoryEventStore_new None
      (mkReplayOptions (Some 2) None 1) = Some (source', target', res)
    /\ forall rep, res = Ok rep -> rr_pages rep <= 2.
Proof.
  exact (replay_page_budget config1 (mkTimestamp 5) (mkFixtureSource "rpc" good_items) MemoryEventStore_new None
           (mkReplayOptions (Some 2) None 1) 2 eq_refl).
Defined.

Definition ix_replay : Indexer := mkIndexer config1 SkipDuplicates AbortOnMalformed 1.

(** The record ids of the two events differ. *)
Lemma good_ids : ids_ok (events_of ix_replay good_items) MemoryEventStore_new.
Proof.
  split; [intros e _ _ bytes _; by apply not_elem_of_nil|].
  assert (events_of ix_replay good_items = [event1 "first"; event1 "later"]) as -> by by vm_compute.
  intros e1 e2 b1 b2 H1 H2 Hb1 Hb2 E.
  apply elem_of_cons in H1 as [->|H1%list_elem_of_singleton]; [|subst e1];
    apply elem_of_cons in H2 as [->|H2%list_elem_of_singleton]; try subst e2; try exact eq_refl;
    exfalso; vm_compute in Hb1, Hb2; injection Hb1 as <-; injection Hb2 as <-; vm_compute in E; discriminate E.
Qed.

Definition good_replay :=
  replay_into 3 config1 (mkTimestamp 5) (mkFixtureSource "rpc" good_items) MemoryEventStore_new None options1.

Lemma replay_good :
  match good_replay with
  | Some (_, _, Ok rep) => (rr_pages rep =? 2) && (rr_inserted rep =? 2)
  | _ => false
  end = true.
Proof. by vm_compute. Qed.

Lemma replay_complete_witness :
  exists source' target' res,
    replay_into 3 config1 (mkTimestamp 5) (mkFixtureSource "rpc" good_items) MemoryEventStore_new None options1
      = Some (source', target', res)
    /\ (exists rep, res = Ok rep /\ rr_pages rep = 2 /\ rr_inserted rep = 2)
    /\ match res with
       | Err _ => True
       | Ok rep =>
           es_inv target'
           /\ (forall e, e ∈ events_of ix_replay good_items ->
                event_id e ∈ map rec_event_id (es_history target'))
           /\ (forall r, r ∈ es_history MemoryEventStore_new -> r ∈ es_history target')
           /\ length (es_history target') = 0 + rr_inserted rep
           /\ rr_truncated rep = false
           /\ rr_last_position rep = Some "43:ef"
       end.
Proof.
  destruct (replay_complete config1 (mkTimestamp 5) (mkFixtureSource "rpc" good_items) MemoryEventStore_new options1)
    as (s' & t' & res & E & Hres).
  - reflexivity.
  - reflexivity.
  - reflexivity.
  - simpl. apply NoDup_cons. split; [|apply NoDup_singleton]. by intros [=]%list_elem_of_singleton.
  - exact new_store_inv.
  - exact good_ids.
  - exists s', t', res. split; [exact E|]. split; [|exact Hres].
    pose proof replay_good as Hg. unfold good_replay in Hg.
    change (length (feed (mkFixtureSource "rpc" good_items)) + 1) with 3 in E. rewrite E in Hg.
    destruct res as [rep|e]; [|discriminate Hg]. exists rep. split; [reflexivity|].
    apply andb_true_iff in Hg as [H1 H2]. split; by apply Nat.eqb_eq.
Defined.
