(* ===== verification/Soroban.v ===== *)
(** * The Soroban adapter ([crates/soroban])

    The wire shape of [getEvents] ([wire.rs]), the derived event identity
    ([identity.rs]), the mapping onto normalized metadata with its close-time
    parser ([mapping.rs]), the operator's contract registry ([registry.rs]) and
    the registry-gated event source ([source.rs]).  A feed is an external
    service: the class [SorobanEventFeed] is its trait. *)

From S2P Require Import Prelude Text BTree Errors Identifiers Timestamps.
From S2P Require Import Correlation Events Sources.
Open Scope nat_scope.
Open Scope list_scope.

(** ** Wire shapes ([wire.rs]) *)

Inductive SorobanEventType : Type := TypeContract | TypeSystem.

#[export] Instance SorobanEventType_eq_dec : EqDecision SorobanEventType.
Proof. solve_decision. Defined.

Definition SorobanEventType_as_str (t : SorobanEventType) : string :=
  match t with TypeContract => "contract" | TypeSystem => "system" end.

Record SorobanEvent := mkSorobanEvent {
  se_type : SorobanEventType;
  se_ledger : Z;
  se_closed_at : option string;
  se_contract_id : option string;
  se_id : string;
  se_transaction_index : option Z;
  se_operation_index : option Z;
  se_successful_call : option bool;
  se_topic : list string;
  se_value : option string;
  se_tx_hash : option string
}.

(** [bytes[n] == c]; the callers have fixed the length first. *)
Definition byte_at (n : nat) (c : ascii) (s : string) : bool :=
  match String.get n s with Some b => Ascii.eqb b c | None => false end.

Definition is_toid_id (id : string) : bool :=
  (String.length id =? 30)%nat && byte_at 19 "-"%char id
  && str_all is_ascii_digit (str_take 19 id) && str_all is_ascii_digit (str_drop 20 id).

Definition is_64_lowercase_hex (value : string) : bool :=
  (String.length value =? 64)%nat && str_all is_lower_hex value.

(** [bytes().fold(0u64, |acc, b| acc * 10 + u64::from(b - b'0'))]: ten digits stay in range. *)
Fixpoint fold_digits (acc : Z) (s : string) : Z :=
  match s with
  | EmptyString => acc
  | String b s => fold_digits (acc * 10 + digit_value b)%Z s
  end.

Definition SorobanEvent_validate (e : SorobanEvent) : result unit string :=
  if negb (is_toid_id (se_id e))
  then Err ("event id `" +:+ se_id e
              +:+ "` is not a TOID id (19-digit TOID + `-` + 10-digit event index)")
  else if (u32_max <? fold_digits 0 (str_drop 20 (se_id e)))%Z
  then Err ("event index `" +:+ str_drop 20 (se_id e) +:+ "` exceeds the supported u32 range")
  else if (se_ledger e <? 1)%Z
  then Err ("ledger sequence " +:+ z_to_string (se_ledger e) +:+ " is not positive")
  else if (length (se_topic e) =? 0) || (4 <? length (se_topic e))
  then Err ("topic carries " +:+ z_to_string (zlen (se_topic e))
              +:+ " segment(s); the wire shape allows 1-4")
  else
    match se_tx_hash e with
    | Some hash =>
        if negb (is_64_lowercase_hex hash)
        then Err ("transaction hash `" +:+ hash +:+ "` is not the 64-lowercase-hex getEvents shape")
        else Ok tt
    | None => Ok tt
    end.

Record SorobanEventsResult := mkSorobanEventsResult {
  sr_events : list SorobanEvent;
  sr_cursor : option string;
  sr_latest_ledger : option Z;
  sr_oldest_ledger : option Z;
  sr_latest_ledger_close_time : option string;
  sr_oldest_ledger_close_time : option string
}.

(** ** Identity ([identity.rs]) *)

Definition soroban_event_id `{Sha256, JsonStrings} (e : SorobanEvent) (network : NetworkId) : EventId :=
  derive [network_str network; se_id e].

(** ** Mapping ([mapping.rs]) *)

Record NormalizedParts := mkNormalizedParts {
  np_order : EventOrder;
  np_ledger : LedgerReference;
  np_transaction : option TransactionReference
}.

Definition event_index_from_id (id : string) : AuditResult Z :=
  if negb (is_toid_id id)
  then Err (InvalidIdentifier "event id" "must be a TOID: 19-digit TOID + hyphen + 10-digit event index")
  else
    let suffix := str_drop 20 id in
    let? index := ok_or (parse_u64 suffix) (InvalidIdentifier "event index" suffix) in
    if (u32_max <? index)%Z
    then Err (InvalidIdentifier "event index" (suffix +:+ " exceeds the supported event-index range"))
    else Ok index.

(** Howard Hinnant's [days_from_civil], with the source's truncating divisions. *)
Definition days_from_civil (y m d : Z) : Z :=
  (let y := if m <=? 2 then y - 1 else y in
   let era := Z.quot (if 0 <=? y then y else y - 399) 400 in
   let yoe := y - era * 400 in
   let mp := (m + 9) mod 12 in
   let doy := (153 * mp + 2) / 5 + d - 1 in
   let doe := yoe * 365 + yoe / 4 - yoe / 100 + doy in
   era * 146097 + doe - 719468)%Z.

(** [&raw[from..from + len]]. *)
Definition slice (from len : nat) (s : string) : string := String.substring from len s.

Definition close_time_shaped (raw : string) : bool :=
  (String.length raw =? 20)%nat
  && byte_at 4 "-"%char raw && byte_at 7 "-"%char raw && byte_at 10 "T"%char raw
  && byte_at 13 ":"%char raw && byte_at 16 ":"%char raw && byte_at 19 "Z"%char raw
  && str_all is_ascii_digit (slice 0 4 raw) && str_all is_ascii_digit (slice 5 2 raw)
  && str_all is_ascii_digit (slice 8 2 raw) && str_all is_ascii_digit (slice 11 2 raw)
  && str_all is_ascii_digit (slice 14 2 raw) && str_all is_ascii_digit (slice 17 2 raw).

(** The instant of six parsed fields, checked by rendering it back. *)
Definition close_time_of (raw : string) (year month day hour minute second : Z) : AuditResult Timestamp :=
  (if negb ((0 <=? year) && (year <=? 9999)) || negb ((1 <=? month) && (month <=? 12))
      || negb ((1 <=? day) && (day <=? 31)) || (23 <? hour) || (59 <? minute) || (59 <? second)
   then Err (InvalidTimestamp (raw +:+ " is out of range"))
   else
     let days := days_from_civil year month day in
     let secs := days * 86400 + hour * 3600 + minute * 60 + second in
     let parsed := mkTimestamp secs in
     let? rendered := map_err (fun e => InvalidTimestamp (AuditError_to_string e)) (to_rfc3339 parsed) in
     if String.eqb rendered raw then Ok parsed
     else Err (InvalidTimestamp (raw +:+ " is not a real UTC instant (round-trips as "
                                   +:+ rendered +:+ ")")))%Z.

(** [None]: one of the six [unwrap]s panics. *)
Definition parse_ledger_close_time (raw : string) : option (AuditResult Timestamp) :=
  if negb (close_time_shaped raw)
  then Some (Err (InvalidTimestamp (raw +:+ " is not an RFC 3339 UTC timestamp (YYYY-MM-DDTHH:MM:SSZ)")))
  else
    match parse_i64 (slice 0 4 raw), parse_u32 (slice 5 2 raw), parse_u32 (slice 8 2 raw),
          parse_u32 (slice 11 2 raw), parse_u32 (slice 14 2 raw), parse_u32 (slice 17 2 raw) with
    | Some year, Some month, Some day, Some hour, Some minute, Some second =>
        Some (close_time_of raw year month day hour minute second)
    | _, _, _, _, _, _ => None
    end.

(** The close time, when the event carries one. *)
Definition close_time_opt (raw : option string) : option (AuditResult (option Timestamp)) :=
  match raw with
  | Some raw => option_map (map_ok Some) (parse_ledger_close_time raw)
  | None => Some (Ok None)
  end.

Definition transaction_opt (network : NetworkId) (raw : option string)
  : AuditResult (option TransactionReference) :=
  match raw with
  | Some raw =>
      let? hash := map_err (fun _ => InvalidIdentifier "transaction hash" raw) (TransactionHash_new raw) in
      Ok (Some (mkTransactionReference network hash))
  | None => Ok None
  end.

Definition to_normalized (e : SorobanEvent) (network : NetworkId) : option (AuditResult NormalizedParts) :=
  match (let? _ := map_err (InvalidIdentifier "event") (SorobanEvent_validate e) in
         event_index_from_id (se_id e)) with
  | Err err => Some (Err err)
  | Ok index =>
      let order := mkEventOrder (Some (se_ledger e)) (se_transaction_index e) (se_operation_index e)
                     (Some index) in
      option_map (fun close_time =>
          let? close_time := close_time in
          let? ledger := LedgerReference_new network (se_ledger e) close_time in
          let? transaction := transaction_opt network (se_tx_hash e) in
          Ok (mkNormalizedParts order ledger transaction))
        (close_time_opt (se_closed_at e))
  end.

(** ** The contract registry ([registry.rs]) *)

Record ContractLabel := mkContractLabel { label_str : string }.

Definition ContractLabel_new (value : string) : AuditResult ContractLabel :=
  let valid := len_in 1 64 value && str_all label_char value in
  if valid then Ok (mkContractLabel value)
  else Err (InvalidIdentifier "contract label" "must be 1-64 non-space printable ASCII chars").

(** The derived [Ord] of the newtype. *)
#[export] Instance ContractId_compare : Compare ContractId :=
  fun a b => compare (contract_str a) (contract_str b).
#[export] Instance ContractId_compare_laws : CompareLaws ContractId.
Proof.
  split; unfold compare, ContractId_compare.
  - intros [a] [b]. simpl. rewrite compare_eq_iff. split; congruence.
  - intros [a] [b]. apply compare_antisym.
  - intros [a] [b] [c]. apply compare_lt_trans.
Qed.

Record ContractRegistry := mkContractRegistry {
  by_network : BTreeMap string (BTreeMap ContractId ContractLabel)
}.

Definition ContractRegistry_new : ContractRegistry := mkContractRegistry [].

(** [entry(..).or_default()], then [insert]. *)
Definition registry_register (r : ContractRegistry) (network : NetworkId) (contract : ContractId)
    (label : ContractLabel) : ContractRegistry :=
  let entries := default [] (bt_get (network_str network) (by_network r)) in
  mkContractRegistry
    (bt_insert (network_str network) (bt_insert contract label entries) (by_network r)).

Definition recognized (r : ContractRegistry) (network : NetworkId) (contract : string) : bool :=
  match bt_get (network_str network) (by_network r) with
  | Some entries => existsb (fun c => String.eqb (contract_str c) contract) (bt_keys entries)
  | None => false
  end.

Definition registry_label (r : ContractRegistry) (network : NetworkId) (contract : string)
  : option ContractLabel :=
  match bt_get (network_str network) (by_network r) with
  | Some entries =>
      option_map snd (List.find (fun '(c, _) => String.eqb (contract_str c) contract) entries)
  | None => None
  end.

Definition contract_ids (r : ContractRegistry) (network : NetworkId) : list string :=
  match bt_get (network_str network) (by_network r) with
  | Some entries => map contract_str (bt_keys entries)
  | None => []
  end.

Definition admitted_on (r : ContractRegistry) (network : NetworkId) : nat :=
  length (contract_ids r network).

(** ** The source ([source.rs]) *)

Definition SOROBAN_MAX_PAGE_LIMIT : Z := 10000.

Class SorobanEventFeed (F : Type) :=
  fetch_page : F -> option string -> Z -> F * result SorobanEventsResult SourceError.

(** [a <= b] on strings. *)
Definition str_le (a b : string) : bool :=
  match compare a b with Gt => false | _ => true end.

(** The loop over a page: the raw items and the number of skipped events. *)
Fixpoint admit_events `{Serialize SorobanEvent} (registry : ContractRegistry) (network : NetworkId)
    (after previous : option string) (events : list SorobanEvent)
  : result (list RawEventItem * nat) SourceError :=
  match events with
  | [] => Ok ([], 0)
  | event :: events =>
      let? _ := map_err InvalidItem (SorobanEvent_validate event) in
      let id := se_id event in
      if match after with Some after => str_le id after | None => false end
      then admit_events registry network after previous events
      else
        let? _ := match previous with
        | Some previous =>
            if str_le id previous
            then Err (InvalidItem ("events out of order on one page: " +:+ previous +:+ " then " +:+ id))
            else Ok tt
        | None => Ok tt
        end in
        match se_contract_id event ≫= registry_label registry network with
        | None =>
            let? (items, skipped) := admit_events registry network after (Some id) events in
            Ok (items, Datatypes.S skipped)
        | Some label =>
            let? payload := map_err (fun e => InvalidItem ("event " +:+ id +:+ " does not serialize: " +:+ e))
                              (to_vec event) in
            let? item := RawEventItem_new (label_str label) payload id in
            let? (items, skipped) := admit_events registry network after (Some id) events in
            Ok (item :: items, skipped)
        end
  end.

Record SorobanEventSource (F : Type) := mkSorobanEventSource {
  ss_name : string;
  ss_network : NetworkId;
  ss_registry : ContractRegistry;
  ss_feed : F;
  ss_skipped : nat
}.
Arguments mkSorobanEventSource {F} _ _ _ _ _.
Arguments ss_name {F} _.
Arguments ss_network {F} _.
Arguments ss_registry {F} _.
Arguments ss_feed {F} _.
Arguments ss_skipped {F} _.

Section Source.
Context {F : Type} `{SorobanEventFeed F} `{Serialize SorobanEvent}.

Definition SorobanEventSource_new (name : string) (network : NetworkId) (registry : ContractRegistry)
    (feed : F) : SorobanEventSource F := mkSorobanEventSource name network registry feed 0.

Definition ss_with (s : SorobanEventSource F) (feed : F) (skipped : nat) : SorobanEventSource F :=
  mkSorobanEventSource (ss_name s) (ss_network s) (ss_registry s) feed skipped.

(** The guards before the feed is asked. *)
Definition fetch_guard (after : option string) (limit : Z) : result unit SourceError :=
  if ((limit =? 0) || (SOROBAN_MAX_PAGE_LIMIT <? limit))%Z then Err (LimitOutOfRange limit)
  else
    match after with
    | Some position => if negb (is_toid_id position) then Err (InvalidPosition position) else Ok tt
    | None => Ok tt
    end.

Definition soroban_fetch_after (s : SorobanEventSource F) (after : option string) (limit : Z)
  : SorobanEventSource F * result SourcePage SourceError :=
  match fetch_guard after limit with
  | Err e => (s, Err e)
  | Ok _ =>
      match fetch_page (ss_feed s) after limit with
      | (feed, Err e) => (ss_with s feed (ss_skipped s), Err e)
      | (feed, Ok page) =>
          match admit_events (ss_registry s) (ss_network s) after None (sr_events page) with
          | Err e => (ss_with s feed (ss_skipped s), Err e)
          | Ok (items, skipped) =>
              (ss_with s feed (ss_skipped s + skipped), Ok (SourcePage_new items (sr_cursor page)))
          end
      end
  end.

(** The consumer sees the error's message. *)
#[export] Instance SorobanEventSource_EventSource : EventSource (SorobanEventSource F) := {
  source_name := ss_name;
  fetch_after := fun s after limit =>
    let '(s, r) := soroban_fetch_after s after limit in (s, map_err SourceError_to_string r)
}.
End Source.
