(* ===== verification/EventIdentity.v ===== *)
(** * What the identity of an event covers ([audit-events], [soroban/src/identity.rs])

    Stores deduplicate by event id, so what the id leaves out decides what is
    dropped.  [facts] is what the id of a projected event covers, [parts] the
    texts it is derived from; the parts determine the facts, across all the
    projections. *)

From S2P Require Import Prelude Text BTree Json Errors Identifiers Timestamps Classification Correlation.
From S2P Require Import Events IntegrityModel Records Samples AccessModel Cases ReportModel Encoding Storage.
From S2P Require Import MemoryStore MemoryPaging AuditEvents Sources Normalizer NormalizerProofs Soroban Trail.
Open Scope list_scope.

(** ** Semantic events *)

(** The semantic event types of the crate, with the arguments their projections
    take. *)
Inductive Semantic : Type :=
| OfTransfer (t : TransferOutcome) (n : NetworkId) (src : string) (parser : VersionLabel)
    (tx : TransactionContext) (op : Z) (slot : EventSlot)
| OfFreeze (f : FreezeTransition) (n : NetworkId) (src : string) (parser : VersionLabel)
    (tx : TransactionContext) (slot : EventSlot)
| OfConfigChange (c : ComplianceConfigChanged) (n : NetworkId) (src : string) (parser : VersionLabel)
    (tx : TransactionContext) (slot : EventSlot)
| OfDecision (c : ComplianceDecisionEvent) (n : NetworkId) (src : string) (parser : VersionLabel)
    (tx : option TransactionContext) (slot : EventSlot)
| OfPolicy (p : PolicyVersionChange) (slot : EventSlot)
| OfSanctions (s : SanctionsFlag) (n : NetworkId) (src : string) (parser : VersionLabel)
    (tx : option TransactionContext) (slot : EventSlot)
| OfAuthorization (c : AuthorizationChange) (slot : EventSlot)
| OfAccess (a : AuditAccessEntry) (n : NetworkId) (src : string) (parser : VersionLabel) (slot : EventSlot)
| OfInvestigation (l : InvestigationLifecycle) (slot : EventSlot)
| OfEvidence (l : EvidenceLifecycle) (slot : EventSlot)
| OfReport (l : ReportLifecycle) (slot : EventSlot)
| OfEvidenceRecorded (g : EvidenceGeneratedEvent) (slot : EventSlot)
| OfReportRecorded (g : ReportGeneratedEvent) (slot : EventSlot)
| OfCorrection (c : RecordCorrectedEvent) (slot : EventSlot).

Definition project `{Sha256, JsonStrings} (s : Semantic) : EventResult AuditEvent :=
  match s with
  | OfTransfer t n src parser tx op slot => TransferOutcome_into_audit_event t n src parser tx op slot
  | OfFreeze f n src parser tx slot => FreezeTransition_into_audit_event f n src parser tx slot
  | OfConfigChange c n src parser tx slot => ComplianceConfigChanged_into_audit_event c n src parser tx slot
  | OfDecision c n src parser tx slot => ComplianceDecision_into_audit_event c n src parser tx slot
  | OfPolicy p slot => PolicyVersionChange_into_audit_event p slot
  | OfSanctions s n src parser tx slot => SanctionsFlag_into_audit_event s n src parser tx slot
  | OfAuthorization c slot => AuthorizationChange_into_audit_event c slot
  | OfAccess a n src parser slot => access_recorded_event a n src parser slot
  | OfInvestigation l slot => InvestigationLifecycle_into_audit_event l slot
  | OfEvidence l slot => EvidenceLifecycle_into_audit_event l slot
  | OfReport l slot => ReportLifecycle_into_audit_event l slot
  | OfEvidenceRecorded g slot => EvidenceGenerated_into_audit_event g slot
  | OfReportRecorded g slot => ReportGenerated_into_audit_event g slot
  | OfCorrection c slot => RecordCorrected_into_audit_event c slot
  end.

(** ** The facts an identity covers *)

Inductive Identity : Type :=
| ObservedId (network tx_hash : string) (operation event : option Z) (kind : EventKind)
| TransferId (network tx_hash : string) (op : Z) (token : string) (from to : option string) (outcome : DecisionResult)
| DecisionId (network : string) (token account : option string) (decision : DecisionResult) (reason : option string)
| PolicyId (network policy from to : string)
| SanctionsId (network account rule : string) (token : option string)
| AuthorizationId (network subject scope : string) (actor : option string)
| AccessId (network auditor : string) (action : AccessAction) (scope : string)
| StepId (network case actor : string) (sequence : Z)
| EvidenceId_ (network evidence : string) (kind : EvidenceKind) (count : Z)
| ReportId_ (network report : string) (kind : ReportKind) (count : Z)
| EvidenceRecordedId (network evidence : string) (kind : EvidenceKind) (by_ : string)
| ReportRecordedId (network report kind : string)
| CorrectionId (network record : string)
| SorobanId (network toid : string).

Definition facts (s : Semantic) : Identity :=
  match s with
  | OfTransfer t n _ _ tx op _ =>
      TransferId (network_str n) (tc_hash tx) op (to_token t) (to_from t) (to_to t) (to_outcome t)
  | OfFreeze f n _ _ tx slot =>
      ObservedId (network_str n) (tc_hash tx) (slot_operation slot) (slot_event slot) (fz_kind f)
  | OfConfigChange c n _ _ tx slot =>
      ObservedId (network_str n) (tc_hash tx) (slot_operation slot) (slot_event slot) ConfigurationChanged
  | OfDecision c n _ _ _ _ =>
      DecisionId (network_str n) (cd_token c) (cd_account c) (cd_decision c) (option_map reason_str (cd_reason c))
  | OfPolicy p _ =>
      PolicyId (network_str (pvc_network p)) (pvc_policy p) (default "?" (pvc_from_version p)) (pvc_to_version p)
  | OfSanctions s n _ _ _ _ => SanctionsId (network_str n) (sf_account s) (sf_rule s) (sf_token s)
  | OfAuthorization c _ =>
      AuthorizationId (network_str (ac_network c)) (as_str (ac_subject c)) (ac_scope c) (option_map as_str (ac_actor c))
  | OfAccess a n _ _ _ => AccessId (network_str n) (as_str (ae_auditor a)) (ae_action a) (ae_scope a)
  | OfInvestigation l _ =>
      StepId (network_str (il_network l)) (as_str (il_case l)) (as_str (il_actor l)) (il_sequence l)
  | OfEvidence l _ =>
      EvidenceId_ (network_str (el_network l)) (as_str (el_evidence l)) (el_kind l) (el_record_count l)
  | OfReport l _ => ReportId_ (network_str (rl_network l)) (as_str (rl_report l)) (rl_kind l) (rl_record_count l)
  | OfEvidenceRecorded g _ =>
      EvidenceRecordedId (network_str (eg_network g)) (as_str (eg_evidence g)) (eg_kind g) (as_str (eg_generated_by g))
  | OfReportRecorded g _ => ReportRecordedId (network_str (rg_network g)) (as_str (rg_report g)) (rg_kind g)
  | OfCorrection c _ => CorrectionId (network_str (rc_network c)) (as_str (rc_supersedes c))
  end.

(** The texts hashed for an identity. *)
Definition parts (i : Identity) : list string :=
  match i with
  | ObservedId n tx op ev kind =>
      [n; tx] ++ opt_part "op:" z_to_string op ++ opt_part "ev:" z_to_string ev ++ [EventKind_as_str kind]
  | TransferId n tx op token from to outcome =>
      [n; "derived:transaction-outcome-analysis"; "tx:" +:+ tx; "op:" +:+ z_to_string op; "token:" +:+ token]
        ++ opt_part "from:" id_str from ++ opt_part "to:" id_str to ++ ["outcome:" +:+ DecisionResult_as_str outcome]
  | DecisionId n token account decision reason =>
      [n; "derived:observed-decision"] ++ opt_part "token:" id_str token ++ opt_part "account:" id_str account
        ++ ["decision:" +:+ DecisionResult_as_str decision] ++ opt_part "reason:" id_str reason
  | PolicyId n policy from to => [n; "derived:policy-version-observed"; policy; from; to]
  | SanctionsId n account rule token =>
      [n; "derived:sanctions-screening-result"; "account:" +:+ account; "rule:" +:+ rule] ++ opt_part "token:" id_str token
  | AuthorizationId n subject scope actor =>
      [n; "derived:authorization-change-recorded"; subject; scope] ++ opt_part "" id_str actor
  | AccessId n auditor action scope => [n; "derived:audit-access-log"; auditor; AccessAction_as_str action; scope]
  | StepId n case actor sequence =>
      [n; "derived:investigation-lifecycle"; case; actor; "step:" +:+ z_to_string sequence]
  | EvidenceId_ n evidence kind count =>
      [n; "derived:evidence-generation"; evidence; EvidenceKind_as_str kind; z_to_string count]
  | ReportId_ n report kind count =>
      [n; "derived:report-generation"; report; ReportKind_as_str kind; z_to_string count]
  | EvidenceRecordedId n evidence kind by_ =>
      [n; "derived:evidence-generation-recorded"; evidence; EvidenceKind_as_str kind; by_]
  | ReportRecordedId n report kind => [n; "derived:report-generation-recorded"; report; kind]
  | CorrectionId n record => [n; "derived:record-correction"; record]
  | SorobanId n toid => [n; toid]
  end.

(** No transaction hash imitates the second part of a derived identity. *)
Definition plain (i : Identity) : Prop :=
  match i with ObservedId _ tx _ _ _ => starts_with "derived:" tx = false | _ => True end.

(** ** The parts determine the facts *)

Lemma EventKind_as_str_inj k k' : EventKind_as_str k = EventKind_as_str k' -> k = k'.
Proof. by destruct k, k'. Qed.
Lemma DecisionResult_as_str_inj d d' : DecisionResult_as_str d = DecisionResult_as_str d' -> d = d'.
Proof. by destruct d, d'. Qed.
Lemma EvidenceKind_as_str_inj k k' : EvidenceKind_as_str k = EvidenceKind_as_str k' -> k = k'.
Proof. by destruct k, k'. Qed.
Lemma ReportKind_as_str_inj k k' : ReportKind_as_str k = ReportKind_as_str k' -> k = k'.
Proof. by destruct k, k'. Qed.

(** Compares two identities part by part. *)
Ltac same_parts E :=
  cbn [parts opt_part app] in E; unfold id_str in E;
  first [ discriminate E | injection E; clear E; intros ];
  repeat match goal with
  | H : z_to_string _ = z_to_string _ |- _ => apply z_to_string_eq in H
  | H : EventKind_as_str _ = EventKind_as_str _ |- _ => apply EventKind_as_str_inj in H
  | H : DecisionResult_as_str _ = DecisionResult_as_str _ |- _ => apply DecisionResult_as_str_inj in H
  | H : EvidenceKind_as_str _ = EvidenceKind_as_str _ |- _ => apply EvidenceKind_as_str_inj in H
  | H : ReportKind_as_str _ = ReportKind_as_str _ |- _ => apply ReportKind_as_str_inj in H
  | H : AccessAction_as_str _ = AccessAction_as_str _ |- _ => apply AccessAction_as_str_inj in H
  end; subst; first [reflexivity | discriminate].

Lemma observed_parts_inj n tx op ev k i :
  starts_with "derived:" tx = false -> plain i -> parts (ObservedId n tx op ev k) = parts i ->
  ObservedId n tx op ev k = i.
Proof.
  intros Hp Hp' E. destruct op, ev, i as [? ? [] [] ?|? ? ? ? [] [] ?|? [] [] ? []| |? ? ? []|? ? ? []| | | | | | | |]; same_parts E.
Qed.

(** A derived identity names its method in its second part. *)
Lemma parts_inj i i' : plain i -> plain i' -> parts i = parts i' -> i = i'.
Proof.
  intros Hp Hp' E.
  destruct i as [? ? ? ? ?|n tx op t from to o|n t a d r|n p f t|n a r t|n s sc a|n a ac sc|n c a sq|n e k c|n r k c
    |n e k b|n r k|n r|n t]; [by apply observed_parts_inj | ..].
  all: destruct i' as [? ? ? ? ?|n' tx' op' t' from' to' o'|n' t' a' d' r'|n' p' f' t'|n' a' r' t'|n' s' sc' a'
    |n' a' ac' sc'|n' c' a' sq'|n' e' k' c'|n' r' k' c'|n' e' k' b'|n' r' k'|n' r'|n' t'];
    [symmetry; apply observed_parts_inj; [done | done | by symmetry]|..]; try discriminate E.
  - destruct from, to, from', to'; same_parts E.
  - destruct t, a, r, t', a', r'; same_parts E.
  - destruct t, a; discriminate E.
  - same_parts E.
  - destruct t, t'; same_parts E.
  - destruct a, a'; same_parts E.
  - same_parts E.
  - same_parts E.
  - same_parts E.
  - same_parts E.
  - same_parts E.
  - same_parts E.
  - same_parts E.
  - destruct t', a'; discriminate E.
  - same_parts E.
Qed.

(** ** Every projection's id is derived from the parts of its facts *)

Section Projections.
Context `{Sha256} `{JsonStrings}.

Lemma derived_base_id k n src parser d slot e :
  derived_audit_event_base k n src parser d slot = Ok e ->
  event_id e = derived_event_id (network_str n) (ds_method d) (ds_source_refs d).
Proof. unfold derived_audit_event_base. intros He. ok_inv. destruct (ds_tx d); by ok_inv. Qed.

Lemma observed_base_id k n src parser tx slot e :
  observed_audit_event_base k n src parser tx slot = Ok e ->
  event_id e = derive (parts (ObservedId (network_str n) (tc_hash tx) (slot_operation slot) (slot_event slot) k)).
Proof. unfold observed_audit_event_base, onchain_event_id. intros He. by ok_inv. Qed.

Lemma opt_ref_id {A} (make : string -> EventResult A) set o e e' :
  (forall x e, event_id (set x e) = event_id e) -> opt_ref make set o e = Ok e' -> event_id e' = event_id e.
Proof. unfold opt_ref. intros Hs He. destruct o; ok_inv; [apply Hs | done]. Qed.

Lemma detail_opt_id k v e : event_id (detail_opt k v e) = event_id e.
Proof. by destruct v. Qed.

Ltac base_id :=
  repeat first
    [ match goal with
      | E : opt_ref _ _ _ _ = Ok _ |- _ => apply opt_ref_id in E; [rewrite E; clear E | by intros]
      | |- context [event_id (detail_opt _ _ _)] => rewrite detail_opt_id
      end
    | progress cbn [event_id detail set_outcome set_operation set_token set_actor set_subject] ];
  match goal with
  | E : derived_audit_event_base _ _ _ _ _ _ = Ok _ |- _ => apply derived_base_id in E; rewrite E
  | E : observed_audit_event_base _ _ _ _ _ _ = Ok _ |- _ => apply observed_base_id in E; rewrite E
  end.

Lemma project_id s e : project s = Ok e -> event_id e = derive (parts (facts s)).
Proof.
  destruct s as [t n src parser tx op slot|f n src parser tx slot|c n src parser tx slot|c n src parser tx slot
    |p slot|s n src parser tx slot|c slot|a n src parser slot|l slot|l slot|l slot|g slot|g slot|c slot];
    cbn [project facts]; intros He.
  - unfold TransferOutcome_into_audit_event in He. ok_inv. base_id. done.
  - unfold FreezeTransition_into_audit_event in He. ok_inv. base_id. done.
  - unfold ComplianceConfigChanged_into_audit_event in He. ok_inv. destruct (ccc_policy c); ok_inv; base_id; done.
  - unfold ComplianceDecision_into_audit_event in He. ok_inv. base_id. unfold compliance_refs.
    by destruct (cd_reason c).
  - unfold PolicyVersionChange_into_audit_event in He. ok_inv.
    destruct (pvc_digest p) as [d|]; [destruct (validate_digest d)|]; base_id; done.
  - unfold SanctionsFlag_into_audit_event in He. ok_inv. base_id. done.
  - unfold AuthorizationChange_into_audit_event in He. ok_inv. base_id. by destruct (ac_actor c).
  - unfold access_recorded_event in He. ok_inv. base_id. done.
  - unfold InvestigationLifecycle_into_audit_event in He. ok_inv. base_id. done.
  - unfold EvidenceLifecycle_into_audit_event in He. ok_inv. base_id. done.
  - unfold ReportLifecycle_into_audit_event in He. ok_inv. base_id. done.
  - unfold EvidenceGenerated_into_audit_event in He. ok_inv. base_id. done.
  - unfold ReportGenerated_into_audit_event in He. ok_inv. base_id. done.
  - unfold RecordCorrected_into_audit_event in He. ok_inv. base_id. done.
Qed.
End Projections.

(** ** Events with an identity *)

Section Identified.
Context `{Sha256} `{JsonStrings}.

Lemma classify_hooks_id config raw e :
  classify_hooks config raw = Ok e ->
  event_id e = derive (parts (ObservedId (network_str (nc_network config)) (rh_transaction_hash raw)
                                (Some (rh_operation_index raw)) (Some (rh_event_index raw))
                                (to_event_kind (rh_hooks_type raw)))).
Proof.
  unfold classify_hooks, onchain_event_id. intros He. ok_inv.
  assert (forall a b, hooks_concern raw a = Ok b -> event_id b = event_id a) as Hc.
  { intros a b. unfold hooks_concern. intros Hb. destruct (has_admin _); by ok_inv. }
  assert (forall a b, hooks_body raw a = Ok b -> event_id b = event_id a) as Hb.
  { intros a b. unfold hooks_body. intros Hb. destruct (has_account _); [by ok_inv|].
    destruct (has_policy_config _); [|by ok_inv]. destruct (rh_policy raw); ok_inv; simpl; apply detail_opt_id. }
  repeat match goal with
  | E : hooks_body _ _ = Ok _ |- _ => apply Hb in E; rewrite E; clear E
  | E : hooks_concern _ _ = Ok _ |- _ => apply Hc in E; rewrite E; clear E
  end. reflexivity.
Qed.

(** The event ids the crates derive, with what they cover: of an event projected
    from a semantic event, of one normalized from a hooks payload, of a Soroban
    wire event. *)
Inductive identifies : EventId -> Identity -> Prop :=
| identifies_projected s e : project s = Ok e -> identifies (event_id e) (facts s)
| identifies_hooks config raw e :
    classify_hooks config raw = Ok e ->
    identifies (event_id e)
      (ObservedId (network_str (nc_network config)) (rh_transaction_hash raw)
         (Some (rh_operation_index raw)) (Some (rh_event_index raw)) (to_event_kind (rh_hooks_type raw)))
| identifies_soroban wire n : identifies (soroban_event_id wire n) (SorobanId (network_str n) (se_id wire)).

Lemma identifies_parts id i : identifies id i -> id = derive (parts i).
Proof. intros [s e He|config raw e He|wire n]; [by apply project_id | by apply classify_hooks_id | done]. Qed.

Lemma identifies_inj `{!SerdeStrings} id i i' :
  identifies id i -> identifies id i' -> plain i -> plain i' ->
  i = i' \/ short_clash (json_strings (parts i)) (json_strings (parts i')).
Proof.
  intros Hi%identifies_parts Hi'%identifies_parts Hp Hp'. rewrite Hi in Hi'.
  apply derive_inj in Hi' as [E|Hc]; [left; by apply parts_inj | by right].
Qed.
End Identified.

(** ** Every projection gives a valid event *)

(** The transaction and the network an event is projected with, and its kind. *)
Definition semantic_tx (s : Semantic) : option TransactionContext :=
  match s with
  | OfTransfer _ _ _ _ tx _ _ | OfFreeze _ _ _ _ tx _ | OfConfigChange _ _ _ _ tx _ => Some tx
  | OfDecision _ _ _ _ tx _ | OfSanctions _ _ _ _ tx _ => tx
  | _ => None
  end.

Definition semantic_network (s : Semantic) : NetworkId :=
  match s with
  | OfTransfer _ n _ _ _ _ _ | OfFreeze _ n _ _ _ _ | OfConfigChange _ n _ _ _ _ | OfDecision _ n _ _ _ _
  | OfSanctions _ n _ _ _ _ | OfAccess _ n _ _ _ => n
  | OfPolicy p _ => pvc_network p
  | OfAuthorization c _ => ac_network c
  | OfInvestigation l _ => il_network l
  | OfEvidence l _ => el_network l
  | OfReport l _ => rl_network l
  | OfEvidenceRecorded g _ => eg_network g
  | OfReportRecorded g _ => rg_network g
  | OfCorrection c _ => rc_network c
  end.

(** The transaction, when there is one, is on the event's network. *)
Definition on_network (s : Semantic) : Prop :=
  forall tx, semantic_tx s = Some tx -> tc_network tx = semantic_network s.

Section Validity.
Context `{Sha256} `{JsonStrings}.

Lemma project_valid s e : project s = Ok e -> on_network s -> event_valid e.
Proof.
  unfold on_network.
  destruct s as [t n src parser tx op slot|f n src parser tx slot|c n src parser tx slot|c n src parser tx slot
    |p slot|s n src parser tx slot|c slot|a n src parser slot|l slot|l slot|l slot|g slot|g slot|c slot];
    cbn [project semantic_tx semantic_network]; intros He Hon.
  - eapply transfer_event_valid; [|exact He]. by apply Hon.
  - specialize (Hon tx eq_refl). unfold FreezeTransition_into_audit_event in He. projection He.
    apply token_of_network in Hok. apply account_of_network in Hok0.
    apply valid_subject; [apply valid_token|]; simpl; congruence.
  - specialize (Hon tx eq_refl). unfold ComplianceConfigChanged_into_audit_event in He. projection He.
    destruct (ccc_policy c); ok_inv; auto with events.
  - unfold ComplianceDecision_into_audit_event in He. projection He.
    eapply opt_ref_valid; [exact He | eauto with events |].
    eapply opt_ref_valid; [eassumption | eauto with events |]. by apply valid_outcome.
  - unfold PolicyVersionChange_into_audit_event in He. projection He.
    destruct (pvc_digest p) as [d|]; [destruct (validate_digest d)|]; auto 20 with events.
  - unfold SanctionsFlag_into_audit_event in He. projection He.
    eapply opt_ref_valid; [exact He | eauto with events |].
    apply valid_detail, valid_detail, valid_subject; eauto with events.
  - unfold AuthorizationChange_into_audit_event in He. projection He. auto 20 with events.
  - by apply access_event_valid in He as [].
  - by apply lifecycle_event_valid in He as [].
  - by apply evidence_event_valid in He as [].
  - by apply report_event_valid in He as [].
  - unfold EvidenceGenerated_into_audit_event in He. projection He. auto 20 with events.
  - unfold ReportGenerated_into_audit_event in He. projection He. auto 20 with events.
  - unfold RecordCorrected_into_audit_event in He. projection He. auto 20 with events.
Qed.

(** An event on network [n] that refers to the transaction [tx]. *)
Definition placed (n : NetworkId) (tx : TransactionContext) (e : AuditEvent) : Prop :=
  network e = n /\ exists r, transaction e = Some r /\ tx_network r = tc_network tx.

Lemma derived_base_placed k n src parser d slot e tx :
  derived_audit_event_base k n src parser d slot = Ok e -> ds_tx d = Some tx -> placed n tx e.
Proof.
  unfold derived_audit_event_base. intros He Ht. rewrite Ht in He. ok_inv. split; [done|].
  eexists. split; [done | by apply to_reference_network].
Qed.

Lemma observed_base_placed k n src parser tx slot e :
  observed_audit_event_base k n src parser tx slot = Ok e -> placed n tx e.
Proof.
  unfold observed_audit_event_base. intros He. ok_inv. split; [done|].
  eexists. split; [done | by apply to_reference_network].
Qed.

Lemma opt_ref_placed {A} (make : string -> EventResult A) set o e e' n tx :
  opt_ref make set o e = Ok e' -> (forall x e, placed n tx e -> placed n tx (set (Some x) e)) ->
  placed n tx e -> placed n tx e'.
Proof. unfold opt_ref. destruct o; intros He Hset Hp; ok_inv; auto. Qed.

(** Where a transaction is given, the event refers to it. *)
Lemma project_placed s e tx :
  project s = Ok e -> semantic_tx s = Some tx -> placed (semantic_network s) tx e.
Proof.
  destruct s as [t n src parser tx' op slot|f n src parser tx' slot|c n src parser tx' slot|c n src parser tx' slot
    |p slot|s n src parser tx' slot|c slot|a n src parser slot|l slot|l slot|l slot|g slot|g slot|c slot];
    cbn [project semantic_tx semantic_network]; intros He Ht; try discriminate Ht.
  - injection Ht as ->. unfold TransferOutcome_into_audit_event in He. ok_inv.
    eapply opt_ref_placed; [exact He | done |]. eapply opt_ref_placed; [eassumption | done |].
    eapply (derived_base_placed _ _ _ _ _ _ _ tx) in Hok; [exact Hok | done].
  - injection Ht as ->. unfold FreezeTransition_into_audit_event in He. ok_inv. by eapply (observed_base_placed _ n) in Hok1.
  - injection Ht as ->. unfold ComplianceConfigChanged_into_audit_event in He. ok_inv.
    apply observed_base_placed in Hok. destruct (ccc_policy c); ok_inv; exact Hok.
  - unfold ComplianceDecision_into_audit_event in He. ok_inv.
    eapply opt_ref_placed; [exact He | done |]. eapply opt_ref_placed; [eassumption | done |].
    by eapply (derived_base_placed _ _ _ _ _ _ _ tx) in Hok.
  - unfold SanctionsFlag_into_audit_event in He. ok_inv.
    eapply opt_ref_placed; [exact He | done |]. by eapply (derived_base_placed _ _ _ _ _ _ _ tx) in Hok.
Qed.

Lemma project_validates s e : project s = Ok e -> AuditEvent_validate e = Ok tt <-> on_network s.
Proof.
  intros He. rewrite AuditEvent_validate_Ok_iff. split; [|by apply project_valid].
  intros Hv tx Ht. destruct (project_placed s e tx He Ht) as (<- & r & Hr & <-). by apply Hv.
Qed.
End Validity.

(** ** Claims *)

(** C13 What deduplication drops.  Take any store that keeps the storage contract
    and a valid record of an event whose id the crates derived.  If some stored
    event has an id derived from the same facts, the record is dropped as a
    duplicate and the store stays as it is, whatever else the two events say.
    Conversely, suppose the ids of all the stored events are derived ones too, and
    no transaction hash among the facts of the stored events and of the new one
    starts with the text [derived:] ([plain]; such a hash could imitate a derived
    identity), and suppose that, if no stored event has the record's event id, no
    stored record has its record id (a content-derived record id that is reused is
    a collision).  Then, if no stored event has the same facts, the record is
    stored and nothing else changes, unless the texts its event id and a stored
    event id are derived from are different and share the first 128 bits of their
    SHA-256.  The facts are those [facts] lists: of a compliance decision, a
    sanctions flag or a policy rotation they name no transaction and no position,
    so the second such observation is lost. *)
Theorem dedup_exact {S} `{EventStoreLaws S} `{Sha256} `{SerdeStrings} (store : S) r i :
  es_inv store -> AuditRecord_validate r = Ok tt -> identifies (rec_event_id r) i ->
  ((exists x, x ∈ es_history store /\ identifies (rec_event_id x) i) ->
     es_insert store r = (store, Ok DuplicateInsert))
  /\ ((forall x, x ∈ es_history store -> exists ix, identifies (rec_event_id x) ix /\ plain ix) -> plain i ->
     (rec_event_id r ∉ map rec_event_id (es_history store) -> record_id r ∉ map record_id (es_history store)) ->
     (forall x, x ∈ es_history store -> ~ identifies (rec_event_id x) i) ->
     (exists store', es_insert store r = (store', Ok Inserted) /\ es_inv store'
        /\ es_history store' ≡ₚ r :: es_history store)
     \/ exists x ix, x ∈ es_history store /\ identifies (rec_event_id x) ix
          /\ short_clash (json_strings (parts ix)) (json_strings (parts i))).
Proof.
  intros Hs Hv Hi. split.
  - intros (x & Hx & Hix). apply es_insert_duplicate; [done | done|].
    apply list_elem_of_fmap. exists x. split; [|done].
    by rewrite (identifies_parts _ _ Hi), (identifies_parts _ _ Hix).
  - intros Hall Hp Hfresh Hnone. destruct (decide (rec_event_id r ∈ map rec_event_id (es_history store))) as [Hin|Hin].
    + right. apply list_elem_of_fmap in Hin as (x & E & Hx). destruct (Hall x Hx) as (ix & Hix & Hpx).
      rewrite E in Hi. destruct (identifies_inj _ ix i Hix Hi Hpx Hp) as [->|Hc]; [by destruct (Hnone x Hx) | eauto].
    + left. apply es_insert_fresh; [done | done|]. split; [done | by apply Hfresh].
Qed.

(** C37 What the record layer makes of a projected event, for each of the
    fourteen semantic event types of the crate ([Semantic]) and arguments for
    which the projection succeeds.  The event passes validation exactly if the
    transaction it was projected with, when it has one, is on the event's network;
    [from_event] refuses the others.  A valid event that encodes becomes a record
    that passes the record's validation, under any classification; except an
    event of kind record-corrected, whose plain record is refused for want of a
    supersedes link, and which [correction] makes into a valid record that names
    the record it supersedes, given a reason of 1 to 512 characters that is not
    blank. *)
Theorem projections_validate `{Sha256, JsonStrings, Serialize AuditEvent} s e :
  project s = Ok e ->
  (AuditEvent_validate e = Ok tt <-> on_network s)
  /\ (~ on_network s -> forall now, is_ok (from_event e now) = false)
  /\ (on_network s -> forall bytes now, event_canonical_bytes e = Ok bytes ->
       (kind e <> RecordCorrected -> forall c, exists r,
          from_event_classified e c now = Ok r /\ event r = e /\ AuditRecord_validate r = Ok tt)
       /\ (kind e = RecordCorrected ->
            (exists r, from_event e now = Ok r /\ is_ok (AuditRecord_validate r) = false)
            /\ forall original why, trim_is_empty why = false -> (str_len why <= 512)%Z ->
                 exists r, correction original why e now = Ok r /\ event r = e
                   /\ supersedes r = Some (record_id original) /\ AuditRecord_validate r = Ok tt)).
Proof.
  intros He. pose proof (project_validates s e He) as Hv. split; [done|]. split.
  - intros Hn now. unfold from_event. destruct (AuditEvent_validate e) as [[]|]; [|done].
    destruct Hn. by apply Hv.
  - intros Hon bytes now Hb. apply Hv in Hon. split; intros Hk.
    + intros c. unfold from_event_classified, from_event. rewrite Hon, Hb. cbn [rbind].
      eexists. split; [reflexivity|]. split; [done|]. unfold AuditRecord_validate. simpl. rewrite Hon. simpl.
      by destruct (kind e).
    + unfold correction, from_event, AuditRecord_validate. rewrite bool_decide_true by done. rewrite Hon, Hb.
      cbn [negb rbind]. split.
      * eexists. split; [reflexivity|]. simpl. by rewrite Hon, Hk.
      * intros original why -> Hl. destruct (Z.ltb_spec 512 (str_len why)); [lia|].
        eexists. split; [reflexivity|]. simpl. by rewrite Hon, Hk.
Qed.

Section Witness.
#[local] Existing Instances sum_sha sum_sha_laws json_text_strings toy_event_json.
#[local] Instance text_strings : SerdeStrings.
Proof. by intros l. Qed.

(** One account is denied twice for the same token, in two transactions a day
    apart, and another account once. *)
Definition denial_of (account : string) : ComplianceDecisionEvent :=
  mkComplianceDecision (Some "CTOKEN") (Some account) Denied None.
Definition tx_at (hash : string) (ledger at_ : Z) : TransactionContext :=
  mkTransactionContext testnet hash (Some ledger) (Some (mkTimestamp at_)) Failed.
Definition denial (account hash : string) (ledger at_ : Z) : Semantic :=
  OfDecision (denial_of account) testnet "policy" v1 (Some (tx_at hash ledger at_)) EventSlot_default.

Definition denial_record (account hash : string) (ledger at_ : Z) : AuditRecord :=
  match project (denial account hash ledger at_) with
  | Ok e => match from_event e (mkTimestamp at_) with Ok r => r | Err _ => sample_record "00" 0 end
  | Err _ => sample_record "00" 0
  end.
Definition first_denial : AuditRecord := Eval vm_compute in denial_record "GALICE" "aa" 10 1000.
Definition second_denial : AuditRecord := Eval vm_compute in denial_record "GALICE" "bb" 17290 87400.
Definition other_denial : AuditRecord := Eval vm_compute in denial_record "GBOB" "aa" 10 1000.
Definition denials : MemoryEventStore := Eval vm_compute in fst (es_insert MemoryEventStore_new first_denial).

Lemma denials_inv : es_inv denials.
Proof.
  destruct (es_insert_fresh MemoryEventStore_new first_denial) as (s & E & Hs & _).
  - exact store_inv_new.
  - vm_compute. reflexivity.
  - split; vm_compute; intros Hin; inversion Hin.
  - assert (s = denials) as <-; [|exact Hs]. vm_compute in E. by injection E as <-.
Qed.

Lemma denial_identified account hash ledger at_ r :
  project (denial account hash ledger at_) = Ok (event r) ->
  identifies (rec_event_id r) (facts (denial account hash ledger at_)).
Proof. intros E. exact (identifies_projected _ _ E). Qed.

Lemma dedup_exact_witness :
  transaction (event first_denial) <> transaction (event second_denial)
  /\ es_insert denials second_denial = (denials, Ok DuplicateInsert)
  /\ ((exists store', es_insert denials other_denial = (store', Ok Inserted)
         /\ es_history store' ≡ₚ other_denial :: es_history denials)
      \/ exists x ix, x ∈ es_history denials /\ identifies (rec_event_id x) ix
           /\ short_clash (json_strings (parts ix)) (json_strings (parts (facts (denial "GBOB" "aa" 10 1000))))).
Proof.
  assert (identifies (rec_event_id first_denial) (facts (denial "GALICE" "bb" 17290 87400))) as H1.
  { apply (denial_identified "GALICE" "aa" 10 1000). vm_compute. reflexivity. }
  assert (forall x, x ∈ es_history denials -> x = first_denial) as Hx.
  { intros x Hin. change (es_history denials) with [first_denial] in Hin. by apply list_elem_of_singleton in Hin. }
  assert (forall x, x ∈ es_history denials -> exists ix, identifies (rec_event_id x) ix /\ plain ix) as Hall.
  { intros x ->%Hx. eexists. split; [exact H1 | exact I]. }
  split; [discriminate|]. split.
  - refine (proj1 (dedup_exact denials second_denial (facts (denial "GALICE" "bb" 17290 87400)) denials_inv _ _) _).
    + vm_compute. reflexivity.
    + apply denial_identified. vm_compute. reflexivity.
    + exists first_denial. split; [apply (bool_decide_unpack _); vm_compute; exact I | exact H1].
  - destruct (proj2 (dedup_exact denials other_denial (facts (denial "GBOB" "aa" 10 1000)) denials_inv ltac:(vm_compute; reflexivity)
                ltac:(apply denial_identified; vm_compute; reflexivity)) Hall I
                ltac:(intros _; apply (bool_decide_unpack _); vm_compute; exact I))
      as [(s & E & _ & Hh)|Hc].
    + intros x ->%Hx Hid. pose proof (identifies_parts _ _ Hid) as E. vm_compute in E. discriminate E.
    + left. eauto.
    + right. exact Hc.
Defined.
(** A denial in a transaction of another network, and a correction. *)
Definition stray_denial : Semantic :=
  OfDecision (denial_of "GALICE") testnet "policy" v1
    (Some (mkTransactionContext (mkNetworkId MAINNET) "cc" None None Failed)) EventSlot_default.
Definition correction_made : Semantic :=
  OfCorrection (mkRecordCorrected testnet "audit" v1 (record_id first_denial) "wrong account"
                  (mkId (mkStableId "aud" "aud_01"))) EventSlot_default.

Lemma projections_validate_witness :
  match project (denial "GALICE" "aa" 10 1000), project stray_denial, project correction_made with
  | Ok e, Ok e', Ok e'' =>
      AuditEvent_validate e = Ok tt
      /\ is_ok (from_event e' (mkTimestamp 9)) = false
      /\ exists r, correction first_denial "wrong account" e'' (mkTimestamp 9) = Ok r /\ AuditRecord_validate r = Ok tt
  | _, _, _ => False
  end.
Proof.
  destruct (project (denial "GALICE" "aa" 10 1000)) as [e|] eqn:E; [|vm_compute in E; discriminate E].
  destruct (project stray_denial) as [e'|] eqn:E'; [|vm_compute in E'; discriminate E'].
  destruct (project correction_made) as [e''|] eqn:E''; [|vm_compute in E''; discriminate E''].
  split; [|split].
  - apply (projections_validate _ _ E). by intros tx [= <-].
  - apply (projections_validate _ _ E'). intros Hn. discriminate (Hn _ eq_refl).
  - assert (kind e'' = RecordCorrected) as Hk by (vm_compute in E''; injection E'' as <-; reflexivity).
    destruct (projections_validate _ _ E'') as (_ & _ & Hr).
    destruct (proj2 (proj2 (Hr ltac:(discriminate) _ (mkTimestamp 9) eq_refl) Hk) first_denial "wrong account")
      as (r & Er & _ & _ & Hv); [reflexivity | vm_compute; discriminate|].
    exists r. split; [exact Er | exact Hv].
Defined.
End Witness.
