(* ===== verification/SorobanProofs.v ===== *)
(** * The Soroban adapter: positions, close times, admission

    Event ids compare as the numbers they print, the close-time parser is the
    exact inverse of the timestamp renderer, and a page of the source is exactly
    the admitted part of the feed's page. *)

From stdpp Require Import sorting.
From S2P Require Import Prelude Text BTree Errors Identifiers Timestamps.
From S2P Require Import Correlation Events Sources Soroban.
Open Scope nat_scope.
Open Scope list_scope.

(** ** Digit strings *)

Lemma digit_value_bounds c : is_ascii_digit c = true -> (0 <= digit_value c < 10)%Z.
Proof.
  unfold is_ascii_digit, byte_in, digit_value. rewrite andb_true_iff, !N.leb_le. lia.
Qed.

Lemma fold_digits_shift s acc :
  fold_digits acc s = (acc * 10 ^ str_len s + fold_digits 0 s)%Z.
Proof.
  revert acc. induction s as [|c s IH]; intros acc; cbn [fold_digits].
  { change (str_len "") with 0%Z. rewrite Z.pow_0_r. lia. }
  replace (str_len (String c s)) with (str_len s + 1)%Z by (unfold str_len; simpl String.length; lia).
  rewrite (IH (acc * 10 + _)%Z), (IH (0 * 10 + _)%Z), Z.pow_add_r by (unfold str_len; lia). lia.
Qed.

Lemma fold_digits_bounds s :
  str_all is_ascii_digit s = true -> (0 <= fold_digits 0 s < 10 ^ str_len s)%Z.
Proof.
  induction s as [|c s IH]; intros Hs; [simpl; unfold str_len; simpl; lia|].
  cbn [str_all] in Hs. apply andb_true_iff in Hs as [Hc%digit_value_bounds Hs%IH].
  cbn [fold_digits]. rewrite fold_digits_shift.
  replace (str_len (String c s)) with (str_len s + 1)%Z by (unfold str_len; simpl String.length; lia).
  rewrite Z.pow_add_r by (unfold str_len; lia). nia.
Qed.

Lemma parse_go_fold s acc : str_all is_ascii_digit s = true -> parse_go acc s = Some (fold_digits acc s).
Proof.
  revert acc. induction s as [|c s IH]; intros acc Hs; [done|].
  cbn [str_all] in Hs. apply andb_true_iff in Hs as [Hc Hs]. cbn [parse_go fold_digits].
  rewrite Hc, IH by done. do 2 f_equal. lia.
Qed.

Lemma digits_compare s t :
  str_all is_ascii_digit s = true -> str_all is_ascii_digit t = true ->
  String.length s = String.length t -> String.compare s t = (fold_digits 0 s ?= fold_digits 0 t)%Z.
Proof.
  revert t. induction s as [|c s IH]; intros [|d t] Hs Ht Hl; try done.
  cbn [str_all] in Hs, Ht. apply andb_true_iff in Hs as [Hc Hs], Ht as [Hd Ht]. injection Hl as Hl.
  cbn [fold_digits String.compare]. rewrite !(fold_digits_shift _ (_ * 10 + _)).
  pose proof (fold_digits_bounds s Hs) as Bs. pose proof (fold_digits_bounds t Ht) as Bt.
  assert (str_len s = str_len t) as El by (unfold str_len; lia). rewrite El in *.
  unfold Ascii.compare.
  destruct (N.compare_spec (N_of_ascii c) (N_of_ascii d)) as [E|E|E].
  - assert (digit_value c = digit_value d) as -> by (unfold digit_value; lia).
    rewrite IH by done. rewrite Z.add_compare_mono_l. done.
  - symmetry. apply Z.compare_lt_iff. assert (digit_value c < digit_value d)%Z by (unfold digit_value; lia). nia.
  - symmetry. apply Z.compare_gt_iff. assert (digit_value d < digit_value c)%Z by (unfold digit_value; lia). nia.
Qed.

Lemma compare_append a a' b b' :
  String.length a = String.length a' ->
  String.compare (a +:+ b) (a' +:+ b') = then_with (String.compare a a') (String.compare b b').
Proof.
  revert a'. induction a as [|c a IH]; intros [|c' a'] Hl; try done. injection Hl as Hl.
  simpl. destruct (Ascii.compare c c'); [by apply IH|done|done].
Qed.

(** ** TOID ids *)

Definition toid_value (id : string) : Z := fold_digits 0 (str_take 19 id).
Definition toid_index (id : string) : Z := fold_digits 0 (str_drop 20 id).

Lemma get_split n s c :
  String.get n s = Some c -> s = str_take n s +:+ String c (str_drop (n + 1) s).
Proof.
  unfold str_take. revert s. induction n as [|n IH]; intros [|d s] Hg; try done; simpl in *.
  - injection Hg as ->. by destruct s.
  - f_equal. by apply IH.
Qed.

Lemma is_toid_id_inv id :
  is_toid_id id = true ->
  id = str_take 19 id +:+ "-" +:+ str_drop 20 id
  /\ String.length (str_take 19 id) = 19 /\ String.length (str_drop 20 id) = 10
  /\ str_all is_ascii_digit (str_take 19 id) = true /\ str_all is_ascii_digit (str_drop 20 id) = true.
Proof.
  unfold is_toid_id, byte_at. rewrite !andb_true_iff, Nat.eqb_eq. intros [[[Hl Hd] Ht] Hi].
  destruct (String.get 19 id) as [c|] eqn:Eg; [|done]. apply Ascii.eqb_eq in Hd as ->.
  apply get_split in Eg as Es. change (19 + 1) with 20 in Es.
  assert (String.length (str_take 19 id) = 19) as H19 by (apply str_take_length; lia).
  repeat split; try done. rewrite Es, length_append in Hl. cbn [String.length] in Hl. lia.
Qed.

Lemma toid_compare a b :
  is_toid_id a = true -> is_toid_id b = true ->
  compare a b = compare (toid_value a, toid_index a) (toid_value b, toid_index b).
Proof.
  intros (Ea & Ha & Ha' & Hta & Hia)%is_toid_id_inv (Eb & Hb & Hb' & Htb & Hib)%is_toid_id_inv.
  change (String.compare a b = then_with (toid_value a ?= toid_value b)%Z (toid_index a ?= toid_index b)%Z).
  unfold toid_value, toid_index. rewrite <- !digits_compare by (done || lia).
  rewrite Ea at 1. rewrite Eb at 1. rewrite compare_append by lia. by rewrite compare_append.
Qed.

Lemma parse_u64_digits s :
  str_all is_ascii_digit s = true -> 0 < String.length s <= 19 -> parse_u64 s = Some (fold_digits 0 s).
Proof.
  intros Hs Hl. pose proof (fold_digits_bounds s Hs) as Hb.
  assert (10 ^ str_len s <= 10 ^ 19)%Z by (apply Z.pow_le_mono_r; unfold str_len; lia).
  destruct s as [|c s]; [simpl in Hl; lia|].
  assert (is_ascii_digit c = true) as Hc by (by apply andb_true_iff in Hs as []).
  rewrite parse_u64_digit by done. unfold parse_digits. cbn [str_is_empty String.eqb].
  rewrite parse_go_fold by done. destruct (Z.leb_spec (fold_digits 0 (String c s)) u64_max) as [|Hx]; [done|].
  unfold u64_max in Hx. lia.
Qed.

Lemma parse_u32_digits s :
  str_all is_ascii_digit s = true -> 0 < String.length s <= 9 -> parse_u32 s = Some (fold_digits 0 s).
Proof.
  intros Hs Hl. pose proof (fold_digits_bounds s Hs) as Hb.
  assert (10 ^ str_len s <= 10 ^ 9)%Z by (apply Z.pow_le_mono_r; unfold str_len; lia).
  destruct s as [|c s]; [simpl in Hl; lia|].
  assert (is_ascii_digit c = true) as Hc by (by apply andb_true_iff in Hs as []).
  rewrite parse_u32_digit by done. unfold parse_digits. cbn [str_is_empty String.eqb].
  rewrite parse_go_fold by done. destruct (Z.leb_spec (fold_digits 0 (String c s)) u32_max) as [|Hx]; [done|].
  unfold u32_max in Hx. lia.
Qed.

Lemma parse_i64_digits s :
  str_all is_ascii_digit s = true -> 0 < String.length s <= 18 -> parse_i64 s = Some (fold_digits 0 s).
Proof.
  intros Hs Hl. pose proof (fold_digits_bounds s Hs) as Hb.
  assert (10 ^ str_len s <= 10 ^ 18)%Z by (apply Z.pow_le_mono_r; unfold str_len; lia).
  destruct s as [|c s]; [simpl in Hl; lia|].
  assert (is_ascii_digit c = true) as Hc by (by apply andb_true_iff in Hs as []).
  rewrite parse_i64_digit by done. unfold parse_digits. cbn [str_is_empty String.eqb].
  rewrite parse_go_fold by done. set (v := fold_digits 0 _) in *.
  destruct (Z.leb_spec i64_min v) as [|Hx], (Z.leb_spec v i64_max) as [|Hx']; try done;
    unfold i64_min, i64_max in *; lia.
Qed.

Lemma event_index_from_id_toid id :
  is_toid_id id = true ->
  event_index_from_id id =
    if (u32_max <? toid_index id)%Z
    then Err (InvalidIdentifier "event index" (str_drop 20 id +:+ " exceeds the supported event-index range"))
    else Ok (toid_index id).
Proof.
  intros Ht. unfold event_index_from_id. rewrite Ht. cbn [negb].
  apply is_toid_id_inv in Ht as (_ & _ & Hl & _ & Hd).
  rewrite parse_u64_digits by (done || lia). done.
Qed.

(** ** Close times *)

(** Hinnant's two functions are inverse to each other. *)
Lemma days_of_date y doy era :
  (0 <= y < 400)%Z -> (0 <= doy < year_len y)%Z ->
  (let '(yy, m, d) := date_of (y + era * 400) doy in days_from_civil yy m d)
  = (era * 146097 + (year_start y + doy) - 719468)%Z.
Proof.
  intros Hy Hd. assert (doy < 366)%Z as Hd' by (unfold year_len in Hd; destruct (is_leap _); lia).
  unfold date_of, days_from_civil, year_start. set (mp := ((5 * doy + 2) / 153)%Z).
  assert (0 <= mp <= 11)%Z as Hmp by (unfold mp; Z.to_euclidean_division_equations; lia).
  set (m := (if mp <? 10 then mp + 3 else mp - 9)%Z).
  assert ((m + 9) mod 12 = mp)%Z as ->
    by (unfold m; destruct (Z.ltb_spec mp 10); Z.to_euclidean_division_equations; lia).
  assert ((if m <=? 2 then (if m <=? 2 then y + era * 400 + 1 else y + era * 400) - 1
           else (if m <=? 2 then y + era * 400 + 1 else y + era * 400)) = y + era * 400)%Z as ->
    by (destruct (m <=? 2)%Z; lia).
  assert (Z.quot (if 0 <=? y + era * 400 then y + era * 400 else y + era * 400 - 399) 400 = era)%Z as ->
    by (destruct (Z.leb_spec 0 (y + era * 400)); Z.to_euclidean_division_equations; lia).
  replace (y + era * 400 - era * 400)%Z with y by lia. lia.
Qed.

Lemma days_from_civil_from_days z :
  (let '(y, m, d) := civil_from_days z in days_from_civil y m d) = z.
Proof.
  destruct (day_decompose z) as (era & y & doy & Hy & Hd & ->).
  rewrite civil_of_span by done. by apply days_of_date.
Qed.

Lemma civil_to_unix secs :
  let '(y, mo, d, h, mi, s) := unix_to_civil secs in
  (days_from_civil y mo d * 86400 + h * 3600 + mi * 60 + s)%Z = secs.
Proof.
  unfold unix_to_civil. pose proof (days_from_civil_from_days (secs / 86400)) as Hd.
  destruct (civil_from_days (secs / 86400)) as [[y mo] d]. rewrite Hd.
  Z.to_euclidean_division_equations. lia.
Qed.

(** Zero-padded fields have their exact width and value. *)
Lemma fold_zeros k s : fold_digits 0 (String.concat "" (repeat "0" k) +:+ s) = fold_digits 0 s.
Proof.
  induction k as [|[|k] IH]; [done|done|].
  change (fold_digits 0 (String "0" (String.concat "" (repeat "0" (S k)) +:+ s)) = fold_digits 0 s).
  cbn [fold_digits]. exact IH.
Qed.

Lemma zeros_spec k :
  String.length (String.concat "" (repeat "0" k)) = k
  /\ str_all is_ascii_digit (String.concat "" (repeat "0" k)) = true.
Proof.
  induction k as [|[|k] IH]; [done|done|].
  change (String.concat "" (repeat "0" (S (S k)))) with (String "0" (String.concat "" (repeat "0" (S k)))).
  destruct IH as [Hl Ha]. cbn [String.length str_all]. by rewrite Hl, Ha.
Qed.

Lemma fold_digits_digits n : (0 <= n)%Z -> fold_digits 0 (digits n) = n.
Proof.
  intros Hn. pose proof (parse_digits_digits n Hn) as Hp. unfold parse_digits in Hp.
  destruct (str_is_empty _); [done|]. rewrite parse_go_fold in Hp by by apply digits_all. congruence.
Qed.

Lemma pad0_spec w n :
  (0 <= n < 10 ^ Z.of_nat w)%Z -> 1 <= w ->
  String.length (pad0 w n) = w /\ str_all is_ascii_digit (pad0 w n) = true /\ fold_digits 0 (pad0 w n) = n.
Proof.
  intros Hn Hw. unfold pad0, z_to_string. destruct (Z.ltb_spec n 0); [lia|].
  pose proof (digits_length n w Hn Hw) as Hl. destruct (zeros_spec (w - String.length (digits n))) as [Hz Ha].
  rewrite length_append, str_all_append, Hz, Ha, fold_zeros, fold_digits_digits, digits_all by lia.
  split; [lia | done].
Qed.

Lemma two_digits n : (0 <= n < 100)%Z ->
  exists a b, pad0 2 n = String a (String b "") /\ is_ascii_digit a = true /\ is_ascii_digit b = true
    /\ parse_u32 (pad0 2 n) = Some n.
Proof.
  intros Hn. destruct (pad0_spec 2 n ltac:(simpl; lia) ltac:(lia)) as (Hl & Ha & Hf).
  rewrite parse_u32_digits, Hf by (done || lia).
  destruct (pad0 2 n) as [|a [|b [|]]]; try done. exists a, b.
  cbn [str_all] in Ha. rewrite !andb_true_iff in Ha. naive_solver.
Qed.

Lemma four_digits n : (0 <= n < 10000)%Z ->
  exists a b c d, pad0 4 n = String a (String b (String c (String d "")))
    /\ is_ascii_digit a = true /\ is_ascii_digit b = true /\ is_ascii_digit c = true /\ is_ascii_digit d = true
    /\ parse_i64 (pad0 4 n) = Some n.
Proof.
  intros Hn. destruct (pad0_spec 4 n ltac:(simpl; lia) ltac:(lia)) as (Hl & Ha & Hf).
  rewrite parse_i64_digits, Hf by (done || lia).
  destruct (pad0 4 n) as [|a [|b [|c [|d [|]]]]]; try done. exists a, b, c, d.
  cbn [str_all] in Ha. rewrite !andb_true_iff in Ha. naive_solver.
Qed.

(** The slices of a rendered instant are its padded fields. *)
Lemma rendered_fields y mo d h mi s :
  (0 <= y < 10000)%Z -> (0 <= mo < 100)%Z -> (0 <= d < 100)%Z -> (0 <= h < 100)%Z -> (0 <= mi < 100)%Z ->
  (0 <= s < 100)%Z ->
  let raw := pad0 4 y +:+ "-" +:+ pad0 2 mo +:+ "-" +:+ pad0 2 d +:+ "T"
               +:+ pad0 2 h +:+ ":" +:+ pad0 2 mi +:+ ":" +:+ pad0 2 s +:+ "Z" in
  parse_ledger_close_time raw = Some (close_time_of raw y mo d h mi s).
Proof.
  intros (y1 & y2 & y3 & y4 & Ey & Y1 & Y2 & Y3 & Y4 & Py)%four_digits (m1 & m2 & Em & M1 & M2 & Pm)%two_digits
    (d1 & d2 & Ed & D1 & D2 & Pd)%two_digits (h1 & h2 & Eh & H1 & H2 & Ph)%two_digits
    (i1 & i2 & Ei & I1 & I2 & Pi)%two_digits (s1 & s2 & Es & S1 & S2 & Ps)%two_digits.
  rewrite Ey, Em, Ed, Eh, Ei, Es in *. cbv zeta. cbn [String.append]. set (raw := String y1 _).
  assert (close_time_shaped raw = true) as Hshape.
  { unfold close_time_shaped, raw, slice. cbn -[is_ascii_digit].
    by rewrite Y1, Y2, Y3, Y4, M1, M2, D1, D2, H1, H2, I1, I2, S1, S2. }
  unfold parse_ledger_close_time. rewrite Hshape. cbn [negb].
  change (slice 0 4 raw) with (String y1 (String y2 (String y3 (String y4 "")))).
  change (slice 5 2 raw) with (String m1 (String m2 "")). change (slice 8 2 raw) with (String d1 (String d2 "")).
  change (slice 11 2 raw) with (String h1 (String h2 "")). change (slice 14 2 raw) with (String i1 (String i2 "")).
  change (slice 17 2 raw) with (String s1 (String s2 "")).
  by rewrite Py, Pm, Pd, Ph, Pi, Ps.
Qed.

Lemma valid_date_bounds y m d : valid_date (y, m, d) -> (1 <= m <= 12 /\ 1 <= d <= 31)%Z.
Proof.
  unfold valid_date, month_length. intros [Hm Hd]. split; [done|].
  repeat case_match; lia.
Qed.

Lemma civil_bounds secs :
  let '(y, mo, d, h, mi, s) := unix_to_civil secs in
  (1 <= mo <= 12 /\ 1 <= d <= 31 /\ 0 <= h < 24 /\ 0 <= mi < 60 /\ 0 <= s < 60)%Z.
Proof.
  unfold unix_to_civil. pose proof (civil_from_days_valid (secs / 86400)) as Hv.
  destruct (civil_from_days (secs / 86400)) as [[y mo] d]. apply valid_date_bounds in Hv.
  Z.to_euclidean_division_equations. lia.
Qed.

Lemma Ok_inj {T E} (x y : T) : Ok (E := E) x = Ok y -> x = y.
Proof. congruence. Qed.

Lemma parse_rendered t raw : to_rfc3339 t = Ok raw -> parse_ledger_close_time raw = Some (Ok t).
Proof.
  intros Hr. pose proof Hr as Hr'. unfold to_rfc3339 in Hr'.
  pose proof (civil_bounds (unix_seconds t)) as Hb. pose proof (civil_to_unix (unix_seconds t)) as Hu.
  destruct (unix_to_civil (unix_seconds t)) as [[[[[y mo] d] h] mi] s].
  destruct ((0 <=? y)%Z && (y <=? 9999)%Z) eqn:Ey; [|done]. cbn [negb] in Hr'. apply Ok_inj in Hr'. subst raw.
  pose proof Ey as (Hy0%Z.leb_le & Hy1%Z.leb_le)%andb_true_iff.
  rewrite rendered_fields by lia. unfold close_time_of. rewrite Ey, Hu. f_equal.
  destruct (Z.leb_spec 1 mo), (Z.leb_spec mo 12), (Z.leb_spec 1 d), (Z.leb_spec d 31), (Z.ltb_spec 23 h),
    (Z.ltb_spec 59 mi), (Z.ltb_spec 59 s); try lia. cbn [negb andb orb].
  replace (mkTimestamp (unix_seconds t)) with t by by destruct t.
  rewrite Hr. cbn [map_err rbind]. by rewrite String.eqb_refl.
Qed.

Lemma substring_length from len s :
  from + len <= String.length s -> String.length (String.substring from len s) = len.
Proof.
  revert from len. induction s as [|c s IH]; intros [|from] [|len] Hl; simpl in *; try lia.
  - f_equal. apply (IH 0). lia.
  - apply IH. lia.
  - apply IH. lia.
Qed.

Lemma parse_never_panics raw : exists r, parse_ledger_close_time raw = Some r.
Proof.
  unfold parse_ledger_close_time. destruct (close_time_shaped raw) eqn:Hs; cbn [negb]; [|eauto].
  unfold close_time_shaped in Hs. rewrite !andb_true_iff, Nat.eqb_eq in Hs.
  destruct Hs as ((((((((((((Hl & _) & _) & _) & _) & _) & _) & Hy) & Hm) & Hd) & Hh) & Hi) & Hsec).
  rewrite (parse_i64_digits (slice 0 4 raw)), !parse_u32_digits
    by (done || (unfold slice; rewrite substring_length by lia; lia)).
  eauto.
Qed.

Lemma parse_Ok_rendered raw t : parse_ledger_close_time raw = Some (Ok t) -> to_rfc3339 t = Ok raw.
Proof.
  unfold parse_ledger_close_time. destruct (negb _); [done|]. intros Hp. repeat (case_match; try done).
  apply (inj Some) in Hp. unfold close_time_of in Hp. ok_inv. apply String.eqb_eq in Hb0 as ->. done.
Qed.

(** ** Admission *)

Definition str_lt (a b : string) : Prop := compare a b = Lt.

#[export] Instance str_lt_trans : Transitive str_lt.
Proof. intros a b c. apply compare_lt_trans. Qed.

Lemma str_le_false a b : str_le a b = false <-> str_lt b a.
Proof. unfold str_le, str_lt. rewrite <- compare_gt_iff. by destruct (compare a b). Qed.

(** The events of a page beyond the resume point, and the operator's label for one. *)
Definition beyond (after : option string) (e : SorobanEvent) : bool :=
  match after with Some a => negb (str_le (se_id e) a) | None => true end.
Definition fresh (after : option string) : list SorobanEvent -> list SorobanEvent := List.filter (beyond after).
Definition admission (r : ContractRegistry) (n : NetworkId) (e : SorobanEvent) : option ContractLabel :=
  se_contract_id e ≫= registry_label r n.
Definition is_admitted (r : ContractRegistry) (n : NetworkId) (e : SorobanEvent) : bool :=
  match admission r n e with Some _ => true | None => false end.

Lemma beyond_iff after e : beyond after e = true <-> forall a, after = Some a -> str_lt a (se_id e).
Proof.
  destruct after as [a|]; simpl; [|naive_solver]. rewrite negb_true_iff, str_le_false. naive_solver.
Qed.

Section Admission.
Context `{Serialize SorobanEvent}.

(** The raw item of an admitted event: its label, its JSON, its id. *)
Definition item_for (r : ContractRegistry) (n : NetworkId) (e : SorobanEvent) (i : RawEventItem) : Prop :=
  exists label payload, admission r n e = Some label /\ to_vec e = Ok payload
    /\ RawEventItem_new (label_str label) payload (se_id e) = Ok i.

Lemma item_for_position r n e i : item_for r n e i -> raw_position i = se_id e.
Proof. by intros (label & payload & _ & _ & (-> & _)%RawEventItem_new_Ok_iff). Qed.

(** What a page must satisfy, and what it then yields. *)
Record page_admits (r : ContractRegistry) (n : NetworkId) (after : option string)
    (events : list SorobanEvent) (items : list RawEventItem) (skipped : nat) : Prop := {
  pa_valid : Forall (fun e => SorobanEvent_validate e = Ok tt) events;
  pa_sorted : StronglySorted str_lt (map se_id (fresh after events));
  pa_items : Forall2 (item_for r n) (List.filter (is_admitted r n) (fresh after events)) items;
  pa_skipped : skipped = length (List.filter (fun e => negb (is_admitted r n e)) (fresh after events))
}.

Definition prev_ids (previous : option string) : list string :=
  match previous with Some p => [p] | None => [] end.

Lemma sorted_cons_iff p id l :
  StronglySorted str_lt (prev_ids p ++ id :: l) <->
  (forall q, p = Some q -> str_lt q id) /\ StronglySorted str_lt (id :: l).
Proof.
  destruct p as [q|]; simpl; [|naive_solver]. split.
  - intros [Hs Hq]%StronglySorted_inv. split; [|done]. apply Forall_cons in Hq as [? _]. naive_solver.
  - intros [Hq Hs]. constructor; [done|]. constructor; [by apply Hq|].
    apply StronglySorted_inv in Hs as [_ Hall]. eapply Forall_impl; [exact Hall|].
    intros x Hx. etrans; [by apply Hq | exact Hx].
Qed.

Lemma admit_events_Ok_iff r n after previous events items skipped :
  admit_events r n after previous events = Ok (items, skipped) <->
  Forall (fun e => SorobanEvent_validate e = Ok tt) events
  /\ StronglySorted str_lt (prev_ids previous ++ map se_id (fresh after events))
  /\ Forall2 (item_for r n) (List.filter (is_admitted r n) (fresh after events)) items
  /\ skipped = length (List.filter (fun e => negb (is_admitted r n e)) (fresh after events)).
Proof.
  revert previous items skipped. induction events as [|e events IH]; intros previous items skipped.
  { simpl. split.
    - intros [= <- <-]. split; [done|]. split; [|done]. rewrite app_nil_r.
      destruct previous; simpl; repeat constructor.
    - intros (_ & _ & ->%Forall2_nil_inv_l & ->). done. }
  cbn [admit_events]. rewrite Forall_cons.
  destruct (SorobanEvent_validate e) as [[]|err]; cbn [map_err rbind]; [|naive_solver].
  assert ((match after with Some a => str_le (se_id e) a | None => false end) = negb (beyond after e)) as ->
    by (unfold beyond; destruct after; rewrite ?negb_involutive; done).
  unfold fresh. cbn [List.filter]. fold (fresh after events).
  destruct (beyond after e); cbn [negb]; [|rewrite IH; naive_solver].
  cbn [map]. rewrite sorted_cons_iff.
  assert ((let? _ := match previous with
                     | Some p => if str_le (se_id e) p
                         then Err (InvalidItem ("events out of order on one page: " +:+ p +:+ " then " +:+ se_id e))
                         else Ok tt
                     | None => Ok tt end in Ok (E := SourceError) tt) = Ok tt
          <-> forall q, previous = Some q -> str_lt q (se_id e)) as Hprev.
  { destruct previous as [p|]; [|naive_solver]. destruct (str_le (se_id e) p) eqn:El; simpl.
    - split; [done|]. intros Hq. specialize (Hq p eq_refl). apply str_le_false in Hq. congruence.
    - apply str_le_false in El. naive_solver. }
  destruct (match previous with Some p => _ | None => _ end) as [[]|err]; cbn [rbind] in Hprev |- *;
    [|split; [done | intros (_ & [Hq _] & _); by apply Hprev in Hq]].
  change (se_contract_id e ≫= registry_label r n) with (admission r n e).
  assert (is_admitted r n e = match admission r n e with Some _ => true | None => false end) as Hadm by done.
  cbn [List.filter]. destruct (admission r n e) as [label|] eqn:Ea; rewrite Hadm; cbn [negb length].
  - split.
    + intros Hok. ok_inv. destruct v1 as [items' skipped']. injection Hok as <- <-.
      apply IH in Hok2 as (Hv & Hs & Hf & ->). split; [by split|].
      split; [split; [by apply Hprev | done]|]. split; [|done].
      constructor; [by exists label, v | done].
    + intros ([_ Hv] & [? Hs] & Hf & ->). apply Forall2_cons_inv_l in Hf as (i & items' & Hi & Hf & ->).
      destruct Hi as (label' & payload & Ea' & Hp & Hi). rewrite Ea in Ea'. injection Ea' as <-.
      rewrite Hp. cbn [map_err rbind]. rewrite Hi. cbn [rbind].
      by rewrite (proj2 (IH (Some (se_id e)) items' _) (conj Hv (conj Hs (conj Hf eq_refl)))).
  - split.
    + intros Hok. ok_inv. destruct v as [items' skipped']. injection Hok as <- <-.
      apply IH in Hok0 as (Hv & Hs & Hf & ->). split; [by split|].
      split; [split; [by apply Hprev | done] | done].
    + intros ([_ Hv] & [? Hs] & Hf & ->).
      by rewrite (proj2 (IH (Some (se_id e)) items _) (conj Hv (conj Hs (conj Hf eq_refl)))).
Qed.
End Admission.

Lemma sorted_filter (p : SorobanEvent -> bool) l :
  StronglySorted str_lt (map se_id l) -> StronglySorted str_lt (map se_id (List.filter p l)).
Proof.
  induction l as [|e l IH]; simpl; intros Hs; [done|]. apply StronglySorted_inv in Hs as [Hs Hall].
  destruct (p e); simpl; [|by apply IH]. constructor; [by apply IH|].
  rewrite Forall_forall in Hall |- *. intros x (e' & -> & Hin)%list_elem_of_fmap. apply Hall.
  apply list_elem_of_fmap. exists e'. split; [done|].
  apply list_elem_of_In in Hin. apply filter_In in Hin as [Hin _]. by apply list_elem_of_In.
Qed.

(** ** Recorded feeds and the whole of a feed *)

(** What the [SorobanEventFeed] documentation asks of a feed over a recording:
    exactly the next events after the given one, and a cursor naming the last
    of them when more remain. *)
Class RecordedFeed (F : Type) `{SorobanEventFeed F} := {
  ready : F -> Prop;
  recorded : F -> list SorobanEvent;
  feed_serves f seen rest limit :
    ready f -> recorded f = seen ++ rest -> NoDup (map se_id (recorded f)) ->
    (1 <= limit <= SOROBAN_MAX_PAGE_LIMIT)%Z ->
    exists f' res, fetch_page f (option_map se_id (last seen)) limit = (f', Ok res)
      /\ ready f' /\ recorded f' = recorded f
      /\ sr_events res = take (Z.to_nat limit) rest
      /\ sr_cursor res = if Z.to_nat limit <? length rest
                         then option_map se_id (last (take (Z.to_nat limit) rest)) else None
}.

Section Drain.
Context {F : Type} `{RecordedFeed F} `{Serialize SorobanEvent}.

(** The consumer's loop: follow [next_position] until there is none, collecting
    the items (the source keeps their positions, and reads the skip count off
    the final source).  [None]: a fetch failed (the [unwrap] panics) or the fuel
    ran out. *)
Fixpoint drain (fuel : nat) (s : SorobanEventSource F) (after : option string) (page_size : Z)
    (served : list RawEventItem) : option (SorobanEventSource F * list RawEventItem) :=
  match fuel with
  | O => None
  | Datatypes.S fuel =>
      match soroban_fetch_after s after page_size with
      | (_, Err _) => None
      | (s, Ok page) =>
          let served := served ++ sp_items page in
          match sp_next page with
          | Some next => drain fuel s (Some next) page_size served
          | None => Some (s, served)
          end
      end
  end.

(** A recording the source can serve: valid events in id order, the admitted
    ones within the item limits. *)
Record servable (r : ContractRegistry) (n : NetworkId) (events : list SorobanEvent) : Prop := {
  sv_valid : Forall (fun e => SorobanEvent_validate e = Ok tt) events;
  sv_sorted : StronglySorted str_lt (map se_id events);
  sv_items : Forall (fun e => is_admitted r n e = true -> exists i, item_for r n e i) events
}.

Lemma str_lt_sorted_nodup l : StronglySorted str_lt l -> NoDup l.
Proof.
  induction 1 as [|x l Hs IH Hall]; constructor; [|done]. intros Hin. rewrite Forall_forall in Hall.
  by apply (compare_lt_irrefl x), Hall.
Qed.

Lemma servable_items r n events :
  servable r n events -> exists items, Forall2 (item_for r n) (List.filter (is_admitted r n) events) items.
Proof.
  intros [_ _ Hi]. induction Hi as [|e events He Hi IH]; simpl; [by exists []|].
  destruct IH as [items IH]. destruct (is_admitted r n e); [|eauto].
  destruct (He eq_refl) as [i ?]. exists (i :: items). by constructor.
Qed.

Lemma servable_app r n l1 l2 : servable r n (l1 ++ l2) -> servable r n l1 /\ servable r n l2.
Proof.
  intros [Hv Hs Hi]. rewrite map_app in Hs. apply Forall_app in Hv as [], Hi as [].
  split; constructor; try done; [by eapply StronglySorted_app_1_l | by eapply StronglySorted_app_1_r].
Qed.

(** Nothing of the remaining recording lies at or before the resume point. *)
Lemma fresh_rest seen rest :
  StronglySorted str_lt (map se_id (seen ++ rest)) -> fresh (option_map se_id (last seen)) rest = rest.
Proof.
  intros Hs. destruct (last seen) as [e|] eqn:El; simpl.
  2: { unfold fresh, beyond. clear. induction rest; simpl; congruence. }
  apply last_Some in El as [before ->]. rewrite <- app_assoc, map_app in Hs.
  apply StronglySorted_app_1_r in Hs. cbn [app map] in Hs. apply StronglySorted_inv in Hs as [_ Hall].
  unfold fresh. clear before. induction rest as [|x rest IH]; cbn [List.filter]; [done|].
  cbn [map] in Hall. apply Forall_cons in Hall as [Hx Hall].
  rewrite (proj2 (beyond_iff (Some (se_id e)) x)) by naive_solver. by rewrite IH.
Qed.

(** One page over a recorded feed. *)
Lemma fetch_recorded s seen rest limit :
  ready (ss_feed s) -> recorded (ss_feed s) = seen ++ rest ->
  servable (ss_registry s) (ss_network s) (seen ++ rest) ->
  Forall (fun e => is_toid_id (se_id e) = true) seen -> (1 <= limit <= SOROBAN_MAX_PAGE_LIMIT)%Z ->
  let now := take (Z.to_nat limit) rest in
  exists feed' items, ready feed' /\ recorded feed' = seen ++ rest
    /\ Forall2 (item_for (ss_registry s) (ss_network s))
         (List.filter (is_admitted (ss_registry s) (ss_network s)) now) items
    /\ soroban_fetch_after s (option_map se_id (last seen)) limit =
         (ss_with s feed' (ss_skipped s
            + length (List.filter (fun e => negb (is_admitted (ss_registry s) (ss_network s) e)) now)),
          Ok (SourcePage_new items (if Z.to_nat limit <? length rest then option_map se_id (last now) else None))).
Proof.
  intros Hready Hrec Hsv Htoid Hl now.
  destruct (feed_serves (ss_feed s) seen rest limit) as (f' & res & Ef & Hr' & Hrec' & Eev & Ecur);
    [done | done | rewrite Hrec; apply str_lt_sorted_nodup, (sv_sorted _ _ _ Hsv) | done |].
  pose proof Hsv as Hall. rewrite <- (take_drop (Z.to_nat limit) rest), app_assoc in Hsv.
  apply servable_app in Hsv as [Hsv _]. fold now in Hsv.
  destruct (servable_app _ _ _ _ Hsv) as [_ Hnow]. destruct (servable_items _ _ _ Hnow) as [items Hitems].
  exists f', items. split; [done|]. split; [congruence|]. split; [done|].
  unfold soroban_fetch_after, fetch_guard.
  destruct (Z.eqb_spec limit 0), (Z.ltb_spec SOROBAN_MAX_PAGE_LIMIT limit); try lia. cbn [orb].
  assert (match option_map se_id (last seen) with
          | Some position => if negb (is_toid_id position) then Err (InvalidPosition position) else Ok tt
          | None => Ok tt end = Ok tt) as ->.
  { destruct (last seen) as [e|] eqn:El; [|done]. simpl. rewrite Forall_forall in Htoid.
    rewrite Htoid; [done|]. apply last_Some in El as [l ->]. set_solver. }
  pose proof (fresh_rest seen now (sv_sorted _ _ _ Hsv)) as Hfresh.
  assert (admit_events (ss_registry s) (ss_network s) (option_map se_id (last seen)) None now
          = Ok (items, length (List.filter (fun e => negb (is_admitted (ss_registry s) (ss_network s) e)) now)))
    as Hadmit.
  { apply admit_events_Ok_iff. rewrite Hfresh. by destruct Hnow. }
  rewrite Ef. cbv beta iota. rewrite Eev. fold now. by rewrite Hadmit, Ecur.
Qed.

Lemma last_map_app {A B} (f : A -> B) (l1 l2 : list A) :
  l2 <> [] -> option_map f (last (l1 ++ l2)) = option_map f (last l2).
Proof.
  intros Hl. destruct l2 as [|x l2 _] using rev_ind; [done|]. by rewrite app_assoc, !last_snoc.
Qed.

(** The loop from any point of the recording. *)
Lemma drain_rest fuel s seen rest limit served :
  ready (ss_feed s) -> recorded (ss_feed s) = seen ++ rest ->
  servable (ss_registry s) (ss_network s) (seen ++ rest) ->
  (1 <= limit <= SOROBAN_MAX_PAGE_LIMIT)%Z -> length rest < fuel ->
  exists feed' items,
    Forall2 (item_for (ss_registry s) (ss_network s))
      (List.filter (is_admitted (ss_registry s) (ss_network s)) rest) items
    /\ drain fuel s (option_map se_id (last seen)) limit served =
         Some (ss_with s feed' (ss_skipped s
                 + length (List.filter (fun e => negb (is_admitted (ss_registry s) (ss_network s) e)) rest)),
               served ++ items).
Proof.
  revert s seen rest served. induction fuel as [|fuel IH]; intros s seen rest served Hr Hrec Hsv Hl Hf; [lia|].
  assert (Forall (fun e => is_toid_id (se_id e) = true) seen) as Htoid.
  { apply servable_app in Hsv as [[Hv _ _] _]. eapply Forall_impl; [exact Hv|]. intros e He.
    unfold SorobanEvent_validate in He. by destruct (is_toid_id (se_id e)). }
  destruct (fetch_recorded s seen rest limit Hr Hrec Hsv Htoid Hl) as (f' & items & Hr' & Hrec' & Hi & Efetch).
  cbn [drain]. rewrite Efetch. cbn [sp_items sp_next SourcePage_new].
  set (n := Z.to_nat limit) in *. destruct (Nat.ltb_spec n (length rest)) as [Hlt|Hge].
  - assert (take n rest <> []) as Hne by (intros E; apply (f_equal length) in E; rewrite length_take in E;
      simpl in E; unfold n in *; lia).
    destruct (last (take n rest)) as [e|] eqn:El; [|by apply last_None in El]. cbn [option_map].
    assert (Some (se_id e) = option_map se_id (last (seen ++ take n rest))) as ->
      by (rewrite last_map_app by done; by rewrite El).
    match goal with |- context [drain fuel ?s1 _ _ _] => set (s' := s1) end.
    destruct (IH s' (seen ++ take n rest) (drop n rest) (served ++ items)) as (f2 & items2 & Hi2 & Ed).
    { done. } { by rewrite <- app_assoc, take_drop. } { by rewrite <- app_assoc, take_drop. } { done. }
    { rewrite length_drop. unfold n in *. lia. }
    exists f2, (items ++ items2). split.
    + rewrite <- (take_drop n rest), List.filter_app. by apply Forall2_app.
    + rewrite Ed, <- app_assoc. do 2 f_equal. unfold ss_with, s'. cbn. f_equal.
      rewrite <- (take_drop n rest) at 3. rewrite List.filter_app, length_app. lia.
  - rewrite take_ge in * by lia. exists f', items. done.
Qed.
End Drain.

(** The strict close-time parser never panics and is the exact inverse of
    the timestamp renderer: a text is accepted, with a given instant, exactly
    when it is the RFC 3339 rendering of that instant.  Impossible dates,
    offsets and trailing text are therefore all refused, and no valid instant
    of the years 0 to 9999 is. *)
Theorem close_time_inverse raw :
  exists r, parse_ledger_close_time raw = Some r
    /\ forall t, r = Ok t <-> to_rfc3339 t = Ok raw.
Proof.
  destruct (parse_never_panics raw) as [r Hr]. exists r. split; [done|]. intros t. split.
  - intros ->. by apply parse_Ok_rendered.
  - intros Ht%parse_rendered. congruence.
Qed.

(** Event ids in TOID form are ordered as text exactly as the pair of
    numbers they print (the 19-digit TOID, then the 10-digit event index), so
    the source's string comparisons are comparisons of ledger positions; ids of
    equal numbers are equal; and the event index of the mapping is that number,
    refused exactly when it does not fit a [u32]. *)
Theorem toid_order a b :
  is_toid_id a = true -> is_toid_id b = true ->
  compare a b = compare (toid_value a, toid_index a) (toid_value b, toid_index b)
  /\ (toid_value a = toid_value b -> toid_index a = toid_index b -> a = b)
  /\ (forall i, event_index_from_id a = Ok i <-> i = toid_index a /\ (toid_index a <= u32_max)%Z).
Proof.
  intros Ha Hb. pose proof (toid_compare a b Ha Hb) as Hc. split; [done|]. split.
  - intros E1 E2. apply compare_eq_iff. rewrite Hc, E1, E2. apply compare_refl.
  - intros i. rewrite event_index_from_id_toid by done.
    destruct (Z.ltb_spec u32_max (toid_index a)); split; naive_solver lia.
Qed.

Lemma toid_order_witness :
  let a := "0016010972359577600-0000000009" in let b := "0016010972359577600-0000000010" in
  is_toid_id a = true /\ is_toid_id b = true /\ compare a b = Lt.
Proof.
  intros a b. split; [reflexivity|]. split; [reflexivity|].
  destruct (toid_order a b eq_refl eq_refl) as (-> & _). reflexivity.
Defined.

Section SourceClaims.
Context {F : Type} `{SorobanEventFeed F} `{Serialize SorobanEvent}.

Lemma admitted_positions r n events items :
  Forall2 (item_for r n) (List.filter (is_admitted r n) events) items ->
  map raw_position items = map se_id (List.filter (is_admitted r n) events).
Proof.
  induction 1 as [|e i es is_ Hi _ IH]; [done|]. cbn [map]. by rewrite IH, (item_for_position _ _ _ _ Hi).
Qed.

Lemma fetch_guard_iff after limit : (0 <= limit)%Z ->
  fetch_guard after limit = Ok tt <->
  (1 <= limit <= SOROBAN_MAX_PAGE_LIMIT)%Z /\ (forall p, after = Some p -> is_toid_id p = true).
Proof.
  intros Hl. unfold fetch_guard.
  destruct (Z.eqb_spec limit 0), (Z.ltb_spec SOROBAN_MAX_PAGE_LIMIT limit); cbn [orb];
    try (split; [done | intros [? _]; lia]).
  destruct after as [p|]; [|split; [intros _; split; [lia | done] | done]].
  destruct (is_toid_id p) eqn:Ep; cbn [negb]; split; try done.
  - intros _. split; [lia | by intros ? [= <-]].
  - intros [_ Hp]. specialize (Hp p eq_refl). congruence.
Qed.

Lemma page_admits_iff r n after events items skipped :
  page_admits r n after events items skipped <-> admit_events r n after None events = Ok (items, skipped).
Proof. rewrite admit_events_Ok_iff. split; [by intros [] | by intros (? & ? & ? & ?)]. Qed.

Lemma soroban_fetch_Ok_iff (s : SorobanEventSource F) after limit s' page :
  soroban_fetch_after s after limit = (s', Ok page) <->
  fetch_guard after limit = Ok tt
  /\ exists feed' res items skipped, fetch_page (ss_feed s) after limit = (feed', Ok res)
       /\ page_admits (ss_registry s) (ss_network s) after (sr_events res) items skipped
       /\ s' = ss_with s feed' (ss_skipped s + skipped) /\ page = SourcePage_new items (sr_cursor res).
Proof.
  unfold soroban_fetch_after. destruct (fetch_guard after limit) as [[]|e]; [|naive_solver].
  destruct (fetch_page (ss_feed s) after limit) as [feed' [res|e]]; [|naive_solver].
  setoid_rewrite page_admits_iff.
  destruct (admit_events _ _ after None (sr_events res)) as [[items skipped]|e] eqn:Ea; split.
  - intros [= <- <-]. split; [done|]. by exists feed', res, items, skipped.
  - intros (_ & f2 & r2 & i2 & k2 & [= <- <-] & Ha & -> & ->). congruence.
  - done.
  - intros (_ & f2 & r2 & i2 & k2 & [= <- <-] & Ha & _). congruence.
Qed.

(** C21 A fetch of the Soroban source, whatever the feed does.  It succeeds
    exactly when the limit and the resume position are acceptable, the feed
    answers, every event it sends is well formed and those beyond the resume
    point are in strict id order with storable payloads; the page is then
    exactly the admitted events beyond the resume point, each under its
    operator label with its own id as position, and the skip count grows by
    the others.  Served positions are strictly increasing and all beyond the
    resume point, so nothing is ever served again; a failed fetch counts
    nothing. *)
Theorem soroban_fetch_exact (s : SorobanEventSource F) after limit :
  (0 <= limit)%Z ->
  (forall s' page, soroban_fetch_after s after limit = (s', Ok page) <->
     (1 <= limit <= SOROBAN_MAX_PAGE_LIMIT)%Z /\ (forall p, after = Some p -> is_toid_id p = true)
     /\ exists feed' res items skipped, fetch_page (ss_feed s) after limit = (feed', Ok res)
          /\ page_admits (ss_registry s) (ss_network s) after (sr_events res) items skipped
          /\ s' = ss_with s feed' (ss_skipped s + skipped) /\ page = SourcePage_new items (sr_cursor res))
  /\ (forall s' page, soroban_fetch_after s after limit = (s', Ok page) ->
        StronglySorted str_lt (map raw_position (sp_items page))
        /\ forall i p, i ∈ sp_items page -> after = Some p -> str_lt p (raw_position i))
  /\ (forall s' e, soroban_fetch_after s after limit = (s', Err e) -> ss_skipped s' = ss_skipped s).
Proof.
  intros Hl. split; [|split].
  - intros s' page. rewrite soroban_fetch_Ok_iff, fetch_guard_iff by done. tauto.
  - intros s' page (_ & feed' & res & items & k & _ & [_ Hs Hi _] & _ & ->)%soroban_fetch_Ok_iff.
    cbn [sp_items SourcePage_new]. rewrite (admitted_positions _ _ _ _ Hi). split; [by apply sorted_filter|].
    intros i p Hin ->. apply list_elem_of_In, (in_map raw_position) in Hin.
    rewrite (admitted_positions _ _ _ _ Hi) in Hin. apply in_map_iff in Hin as (e & <- & He).
    apply filter_In in He as [He _]. apply filter_In in He as [_ Hb]. by apply (beyond_iff (Some p)).
  - intros s' e. unfold soroban_fetch_after. destruct (fetch_guard after limit); [|by intros [= <- _]].
    destruct (fetch_page (ss_feed s) after limit) as [feed' [res|e']]; [|by intros [= <- _]].
    destruct (admit_events _ _ _ _ _) as [[]|]; [done | by intros [= <- _]].
Qed.
End SourceClaims.

(** C28 Draining a recorded feed by following the next positions ends, at any
    page size, with exactly the admitted events of the recording, in order and
    once each, and a skip count of exactly the others: neither the served
    sequence nor the count depends on where the page boundaries fall, and pages
    that admit nothing are crossed. *)
Theorem drain_complete {F : Type} `{RecordedFeed F} `{Serialize SorobanEvent} (s : SorobanEventSource F) page_size :
  ready (ss_feed s) -> servable (ss_registry s) (ss_network s) (recorded (ss_feed s)) ->
  (1 <= page_size <= SOROBAN_MAX_PAGE_LIMIT)%Z ->
  exists s' served, drain (length (recorded (ss_feed s)) + 1) s None page_size [] = Some (s', served)
    /\ Forall2 (item_for (ss_registry s) (ss_network s))
         (List.filter (is_admitted (ss_registry s) (ss_network s)) (recorded (ss_feed s))) served
    /\ ss_skipped s' = ss_skipped s + length (List.filter
         (fun e => negb (is_admitted (ss_registry s) (ss_network s) e)) (recorded (ss_feed s))).
Proof.
  intros Hr Hsv Hl.
  destruct (drain_rest (length (recorded (ss_feed s)) + 1) s [] (recorded (ss_feed s)) page_size [])
    as (f' & items & Hi & Ed); [done | done | done | done | lia |].
  do 2 eexists. split; [exact Ed|]. done.
Qed.
