(* ===== verification/Rpc.v ===== *)
(** * The Soroban RPC boundary ([crates/rpc])

    The error taxonomy ([errors.rs]), the [getEvents] request and response shapes
    ([events.rs]), the retry policy and its executor ([retry.rs]), the recorded
    mock client and the bridge from a client to a Soroban feed ([mock.rs]).  A
    client is an external service: the class [EventsRpc] is its trait.  The
    JSON printer ([Serialize Value]), the derived decoder of the response
    envelope ([EnvelopeDecoder]) and the standard library's [Debug] rendering of
    a string ([DebugStr], it consults the Unicode tables) are parameters. *)

From S2P Require Import Prelude Text BTree Errors Identifiers Timestamps.
From S2P Require Import Correlation Events Sources Normalizer Soroban.
Open Scope nat_scope.
Open Scope list_scope.

(** ** Errors ([errors.rs]) *)

Inductive RpcError : Type :=
| Transport (d : string)
| Server (code : Z) (message : string)
| Malformed (d : string)
| RpcInvalidRequest (d : string).

Definition RpcResult (T : Type) : Type := result T RpcError.

Definition RpcError_to_string (e : RpcError) : string :=
  match e with
  | Transport d => "transport failure: " +:+ d
  | Server code message => "rpc server error " +:+ z_to_string code +:+ ": " +:+ message
  | Malformed d => "malformed rpc response: " +:+ d
  | RpcInvalidRequest d => "invalid rpc request: " +:+ d
  end.

Definition is_retryable (e : RpcError) : bool :=
  match e with
  | Transport _ => true
  | Server code _ => (-32099 <=? code)%Z && (code <=? -32000)%Z
  | Malformed _ | RpcInvalidRequest _ => false
  end.

(** ** Requests ([events.rs]) *)

Definition MIN_LIMIT : Z := 1.
Definition MAX_LIMIT : Z := 10000.
Definition MAX_FILTERS : nat := 5.
Definition MAX_CONTRACT_IDS_PER_FILTER : nat := 5.

Inductive EventTypeFilter : Type := FilterContract | FilterSystem.

Definition EventTypeFilter_as_str (t : EventTypeFilter) : string :=
  match t with FilterContract => "contract" | FilterSystem => "system" end.

Record EventFilter := mkEventFilter {
  filter_type : option EventTypeFilter;
  filter_contract_ids : list string;
  filter_topics : list (list string)
}.

Definition EventFilter_for_contract (contract_id : string) : EventFilter :=
  mkEventFilter (Some FilterContract) [contract_id] [].

(** The topic matchers from number [index] on. *)
Fixpoint check_topics (index : Z) (topics : list (list string)) : RpcResult unit :=
  match topics with
  | [] => Ok tt
  | matchers :: topics =>
      if (length matchers =? 0) || (4 <? length matchers)
      then Err (RpcInvalidRequest ("topic matcher " +:+ z_to_string index
                  +:+ " must hold 1-4 segment matchers, got " +:+ z_to_string (zlen matchers)))
      else check_topics (index + 1) topics
  end.

Definition EventFilter_validate (f : EventFilter) : RpcResult unit :=
  if MAX_CONTRACT_IDS_PER_FILTER <? length (filter_contract_ids f)
  then Err (RpcInvalidRequest ("a filter may name at most 5 contract ids, got "
              +:+ z_to_string (zlen (filter_contract_ids f))))
  else if MAX_FILTERS <? length (filter_topics f)
  then Err (RpcInvalidRequest ("a filter may carry at most 5 topic matchers, got "
              +:+ z_to_string (zlen (filter_topics f))))
  else check_topics 0 (filter_topics f).

(** [object.insert(key, v)] when there is something to insert. *)
Definition insert_opt (key : string) (v : option Value) (object : BTreeMap string Value)
  : BTreeMap string Value :=
  match v with Some v => bt_insert key v object | None => object end.

Definition non_empty {A} (l : list A) (v : Value) : option Value :=
  match l with [] => None | _ => Some v end.

Definition EventFilter_to_value (f : EventFilter) : Value :=
  let object := [] in
  let object := insert_opt "type" (option_map (fun t => VString (EventTypeFilter_as_str t)) (filter_type f))
                  object in
  let object := insert_opt "contractIds"
                  (non_empty (filter_contract_ids f) (VArray (map VString (filter_contract_ids f)))) object in
  let object := insert_opt "topics"
                  (non_empty (filter_topics f)
                     (VArray (map (fun matchers => VArray (map VString matchers)) (filter_topics f)))) object in
  VObject object.

Record GetEventsParams := mkGetEventsParams {
  gp_start_ledger : option Z;
  gp_end_ledger : option Z;
  gp_filters : list EventFilter;
  gp_cursor : option string;
  gp_limit : option Z
}.

Definition GetEventsParams_new : GetEventsParams := mkGetEventsParams None None [] None None.

Definition gp_with_start_ledger (ledger : Z) (p : GetEventsParams) : GetEventsParams :=
  mkGetEventsParams (Some ledger) (gp_end_ledger p) (gp_filters p) (gp_cursor p) (gp_limit p).
Definition gp_with_end_ledger (ledger : Z) (p : GetEventsParams) : GetEventsParams :=
  mkGetEventsParams (gp_start_ledger p) (Some ledger) (gp_filters p) (gp_cursor p) (gp_limit p).
Definition gp_with_cursor (cursor : string) (p : GetEventsParams) : GetEventsParams :=
  mkGetEventsParams (gp_start_ledger p) (gp_end_ledger p) (gp_filters p) (Some cursor) (gp_limit p).
Definition gp_with_limit (limit : Z) (p : GetEventsParams) : GetEventsParams :=
  mkGetEventsParams (gp_start_ledger p) (gp_end_ledger p) (gp_filters p) (gp_cursor p) (Some limit).
Definition gp_add_filter (filter : EventFilter) (p : GetEventsParams) : GetEventsParams :=
  mkGetEventsParams (gp_start_ledger p) (gp_end_ledger p) (gp_filters p ++ [filter]) (gp_cursor p) (gp_limit p).

Definition check_limit (limit : option Z) : RpcResult unit :=
  match limit with
  | Some limit =>
      if negb ((MIN_LIMIT <=? limit) && (limit <=? MAX_LIMIT))%Z
      then Err (RpcInvalidRequest ("limit must be within 1-10000, got " +:+ z_to_string limit))
      else Ok tt
  | None => Ok tt
  end.

Definition check_range (p : GetEventsParams) : RpcResult unit :=
  match gp_cursor p with
  | Some _ =>
      match gp_start_ledger p, gp_end_ledger p with
      | None, None => Ok tt
      | _, _ => Err (RpcInvalidRequest "a cursor request must not carry startLedger or endLedger")
      end
  | None =>
      match gp_start_ledger p with
      | None => Err (RpcInvalidRequest "a request needs either a cursor or a startLedger")
      | Some _ => Ok tt
      end
  end.

Definition GetEventsParams_validate (p : GetEventsParams) : RpcResult unit :=
  let? _ := check_limit (gp_limit p) in
  if MAX_FILTERS <? length (gp_filters p)
  then Err (RpcInvalidRequest ("at most 5 filters per request, got " +:+ z_to_string (zlen (gp_filters p))))
  else
    let? _ := try_map EventFilter_validate (gp_filters p) in
    check_range p.

Definition GetEventsParams_to_value (p : GetEventsParams) : Value :=
  let object := [] in
  let object := insert_opt "startLedger" (option_map (fun l => VNumber (NInt l)) (gp_start_ledger p)) object in
  let object := insert_opt "endLedger" (option_map (fun l => VNumber (NInt l)) (gp_end_ledger p)) object in
  let object := insert_opt "filters"
                  (non_empty (gp_filters p) (VArray (map EventFilter_to_value (gp_filters p)))) object in
  let pagination := insert_opt "cursor" (option_map VString (gp_cursor p)) [] in
  let pagination := insert_opt "limit" (option_map (fun l => VNumber (NInt l)) (gp_limit p)) pagination in
  let object := insert_opt "pagination" (non_empty pagination (VObject pagination)) object in
  VObject object.

Record GetEventsRequest := mkGetEventsRequest { gr_id : Z; gr_params : GetEventsParams }.

(** The [json!] object of the request. *)
Definition GetEventsRequest_to_value (r : GetEventsRequest) : Value :=
  VObject (bt_insert "jsonrpc" (VString "2.0") (bt_insert "id" (VNumber (NInt (gr_id r)))
    (bt_insert "method" (VString "getEvents")
       (bt_insert "params" (GetEventsParams_to_value (gr_params r)) [])))).

Definition GetEventsRequest_body `{Serialize Value} (r : GetEventsRequest) : RpcResult string :=
  let? _ := GetEventsParams_validate (gr_params r) in
  map_err Malformed (to_vec (GetEventsRequest_to_value r)).

(** ** Responses ([events.rs]) *)

Record RpcErrorBody := mkRpcErrorBody { eb_code : Z; eb_message : string; eb_data : option Value }.

Definition RpcError_from_body (b : RpcErrorBody) : RpcError := Server (eb_code b) (eb_message b).

Record JsonRpcEnvelope (T : Type) := mkJsonRpcEnvelope {
  env_jsonrpc : string;
  env_id : option Value;
  env_result : option T;
  env_error : option RpcErrorBody
}.
Arguments mkJsonRpcEnvelope {T} _ _ _ _.
Arguments env_jsonrpc {T} _.
Arguments env_id {T} _.
Arguments env_result {T} _.
Arguments env_error {T} _.

Class DebugStr := debug_str : string -> string.
Class EnvelopeDecoder :=
  envelope_from_str : string -> result (JsonRpcEnvelope SorobanEventsResult) string.

Definition into_result `{DebugStr} {T} (e : JsonRpcEnvelope T) : RpcResult T :=
  if negb (String.eqb (env_jsonrpc e) "2.0")
  then Err (Malformed ("expected jsonrpc 2.0, got " +:+ debug_str (env_jsonrpc e)))
  else
    match env_error e with
    | Some error => Err (RpcError_from_body error)
    | None => ok_or (env_result e) (Malformed "response carried neither a result nor an error")
    end.

Definition parse_get_events_response `{DebugStr, EnvelopeDecoder} (body : string)
  : RpcResult SorobanEventsResult :=
  let? envelope := map_err Malformed (envelope_from_str body) in
  into_result envelope.

(** ** Retrying ([retry.rs]) *)

(** A [Duration] in nanoseconds; the longest one. *)
Definition DURATION_MAX : Z := (u64_max * 1000000000 + 999999999)%Z.
Definition from_millis (n : Z) : Z := (n * 1000000)%Z.
Definition from_secs (n : Z) : Z := (n * 1000000000)%Z.

Record RetryPolicy := mkRetryPolicy { max_attempts : Z; base_delay : Z; max_delay : Z }.

Definition RetryPolicy_default : RetryPolicy := mkRetryPolicy 5 (from_millis 200) (from_secs 5).

Definition RetryPolicy_new (max_attempts base_delay max_delay : Z) : RpcResult RetryPolicy :=
  if (max_attempts =? 0)%Z then Err (RpcInvalidRequest "max_attempts must be at least 1")
  else if (max_delay <? base_delay)%Z
  then Err (RpcInvalidRequest "max_delay must not be smaller than base_delay")
  else Ok (mkRetryPolicy max_attempts base_delay max_delay).

(** [saturating_sub] on the counter, [saturating_mul] on the duration. *)
Definition backoff (p : RetryPolicy) (retry_number : Z) : Z :=
  let exponent := Z.min (Z.max 0 (retry_number - 1)) 16 in
  Z.min (Z.min (base_delay p * Z.shiftl 1 exponent) DURATION_MAX) (max_delay p).

Record RpcPolicy := mkRpcPolicy { attempt_timeout : Z; retry : RetryPolicy }.
Definition RpcPolicy_default : RpcPolicy := mkRpcPolicy (from_secs 30) RetryPolicy_default.

Section Retry.
Context {A : Type}.

(** The attempt is a closure on its own state; [slept] lists the sleeps so far.
    The loop counts [attempt_number] up to [max_attempts]. *)
Fixpoint retry_loop (policy : RetryPolicy) (attempt : A -> A * RpcResult SorobanEventsResult)
    (remaining : nat) (attempt_number : Z) (a : A) (slept : list Z)
  : A * list Z * RpcResult SorobanEventsResult :=
  match remaining with
  | O => (a, slept, Err (Transport "retry policy exhausted without an attempt"))
  | Datatypes.S remaining =>
      match attempt a with
      | (a, Ok page) => (a, slept, Ok page)
      | (a, Err error) =>
          if is_retryable error && (attempt_number <? max_attempts policy)%Z
          then retry_loop policy attempt remaining (attempt_number + 1) a (slept ++ [backoff policy attempt_number])
          else (a, slept, Err error)
      end
  end.

Definition fetch_with_retry (policy : RetryPolicy) (attempt : A -> A * RpcResult SorobanEventsResult) (a : A)
  : A * list Z * RpcResult SorobanEventsResult :=
  retry_loop policy attempt (Z.to_nat (max_attempts policy)) 1 a [].
End Retry.

(** ** Clients and the feed bridge ([lib.rs], [mock.rs]) *)

Class EventsRpc (C : Type) := get_events : C -> GetEventsParams -> C * RpcResult SorobanEventsResult.

Record MockEventsClient := mkMockEventsClient {
  mc_events : list SorobanEvent;
  mc_default_limit : nat;
  mc_failures : Z
}.

Definition MockEventsClient_new (events : list SorobanEvent) : MockEventsClient :=
  mkMockEventsClient events 100 0.
Definition fail_next (count : Z) (c : MockEventsClient) : MockEventsClient :=
  mkMockEventsClient (mc_events c) (mc_default_limit c) count.

(** [iter().position(|e| e.id == cursor)]. *)
Fixpoint position_of (cursor : string) (events : list SorobanEvent) : option nat :=
  match events with
  | [] => None
  | e :: events =>
      if String.eqb (se_id e) cursor then Some 0 else option_map Datatypes.S (position_of cursor events)
  end.

Definition mock_start (c : MockEventsClient) (p : GetEventsParams) : RpcResult nat :=
  match gp_cursor p with
  | Some cursor =>
      let? at_ := ok_or (position_of cursor (mc_events c)) (RpcInvalidRequest ("unknown cursor " +:+ cursor)) in
      Ok (at_ + 1)
  | None => Ok 0
  end.

Definition mock_page (c : MockEventsClient) (p : GetEventsParams) (start : nat) : SorobanEventsResult :=
  let limit := match gp_limit p with Some l => Z.to_nat l | None => mc_default_limit c end in
  let end_ := Nat.min (start + limit) (length (mc_events c)) in
  let served := take (end_ - start) (drop start (mc_events c)) in
  let cursor := if end_ <? length (mc_events c) then option_map se_id (last served) else None in
  mkSorobanEventsResult served cursor None None None None.

#[export] Instance MockEventsClient_EventsRpc : EventsRpc MockEventsClient := fun c p =>
  if (0 <? mc_failures c)%Z
  then (mkMockEventsClient (mc_events c) (mc_default_limit c) (mc_failures c - 1),
        Err (Transport "mock node unreachable"))
  else (c, let? _ := GetEventsParams_validate p in
           let? start := mock_start c p in
           Ok (mock_page c p start)).

Record EventsRpcFeed (C : Type) := mkEventsRpcFeed { rf_client : C; rf_start_ledger : option Z }.
Arguments mkEventsRpcFeed {C} _ _.
Arguments rf_client {C} _.
Arguments rf_start_ledger {C} _.

Definition EventsRpcFeed_new {C} (client : C) (start_ledger : option Z) : EventsRpcFeed C :=
  mkEventsRpcFeed client start_ledger.

(** The parameters of one fetch: the cursor alone, or the start ledger. *)
Definition feed_params (start_ledger : option Z) (after : option string) (limit : Z) : GetEventsParams :=
  let params := GetEventsParams_new in
  let params := match after with
                | Some cursor => gp_with_cursor cursor params
                | None => match start_ledger with
                          | Some ledger => gp_with_start_ledger ledger params
                          | None => params
                          end
                end in
  gp_with_limit limit params.

#[export] Instance EventsRpcFeed_SorobanEventFeed {C} `{EventsRpc C} : SorobanEventFeed (EventsRpcFeed C) :=
  fun f after limit =>
    if negb ((1 <=? limit) && (limit <=? MAX_LIMIT))%Z
    then (f, Err (InvalidItem ("page limit " +:+ z_to_string limit +:+ " is outside the getEvents range")))
    else
      let params := feed_params (rf_start_ledger f) after limit in
      match GetEventsParams_validate params with
      | Err error => (f, Err (InvalidItem (RpcError_to_string error)))
      | Ok _ =>
          let '(client, r) := get_events (rf_client f) params in
          (mkEventsRpcFeed client (rf_start_ledger f),
           map_err (fun error => FetchFailed (RpcError_to_string error)) r)
      end.
