(* ===== verification/RpcProofs.v ===== *)
(** * The RPC boundary: retries, requests, and the recorded client as a feed

    What the retry executor does with any attempt, the backoff bounds, that the
    request object determines the parameters, and that the bridge over a
    recorded client keeps the feed contract of {!SorobanProofs.RecordedFeed}. *)

From S2P Require Import Prelude Text BTree Errors Identifiers Timestamps.
From S2P Require Import Correlation Events Sources Normalizer Soroban SorobanProofs Rpc.
Open Scope nat_scope.
Open Scope list_scope.

(** ** The retry executor *)

Section RetryFacts.
Context {A : Type} (attempt : A -> A * RpcResult SorobanEventsResult).

(** The state before call [k] and what that call answers. *)
Definition before_call (k : nat) (a : A) : A := Nat.iter k (fun a => fst (attempt a)) a.
Definition answer (k : nat) (a : A) : RpcResult SorobanEventsResult := snd (attempt (before_call k a)).

Lemma before_call_S k a : before_call (Datatypes.S k) a = before_call k (fst (attempt a)).
Proof. unfold before_call. by rewrite Nat.iter_succ_r. Qed.

(** A failure that the policy retries. *)
Definition transient (r : RpcResult SorobanEventsResult) : Prop :=
  exists e, r = Err e /\ is_retryable e = true.

(** The sleeps before retries [from], [from + 1], .... *)
Definition sleeps (policy : RetryPolicy) (from : Z) (n : nat) : list Z :=
  map (fun k => backoff policy (from + Z.of_nat k)) (seq 0 n).

Lemma sleeps_S policy from n :
  sleeps policy from (Datatypes.S n) = backoff policy from :: sleeps policy (from + 1) n.
Proof.
  unfold sleeps. cbn [seq map]. rewrite <- seq_shift, map_map. f_equal; [f_equal; lia|].
  apply map_ext. intros k. f_equal. lia.
Qed.

Lemma retry_loop_spec policy fuel number a slept :
  (number + Z.of_nat fuel = max_attempts policy + 1)%Z -> 0 < fuel ->
  exists n, n < fuel
    /\ retry_loop policy attempt fuel number a slept
       = (before_call (n + 1) a, slept ++ sleeps policy number n, answer n a)
    /\ (forall k, k < n -> transient (answer k a))
    /\ match answer n a with
       | Ok _ => True
       | Err e => is_retryable e = false \/ n + 1 = fuel
       end.
Proof.
  revert number a slept. induction fuel as [|fuel IH]; intros number a slept Hn Hf; [lia|].
  cbn [retry_loop]. destruct (attempt a) as [a' [page|e]] eqn:Ea.
  { exists 0. unfold answer, before_call. simpl. rewrite Ea, app_nil_r. repeat split; [lia | lia]. }
  destruct (is_retryable e && (number <? max_attempts policy)%Z) eqn:Er.
  - apply andb_true_iff in Er as [Er Hlt%Z.ltb_lt].
    destruct (IH (number + 1)%Z a' (slept ++ [backoff policy number])) as (n & Hlt' & Eq & Hk & Hend); [lia | lia |].
    assert (forall k, answer (Datatypes.S k) a = answer k a') as Hs
      by (intros k; unfold answer; by rewrite before_call_S, Ea).
    exists (Datatypes.S n). split; [lia|]. split; [|split].
    + change (Datatypes.S n + 1) with (Datatypes.S (n + 1)).
      by rewrite Eq, sleeps_S, <- app_assoc, Hs, before_call_S, Ea.
    + intros [|k] Hlt2; [|rewrite Hs; apply Hk; lia]. exists e. unfold answer, before_call. simpl. by rewrite Ea.
    + rewrite Hs. destruct (answer n a'); [done|]. destruct Hend; [by left | right; lia].
  - exists 0. unfold answer, before_call. simpl. rewrite Ea, app_nil_r. repeat split; try lia.
    apply andb_false_iff in Er as [Er|Hge%Z.ltb_ge]; [by left | right; lia].
Qed.
End RetryFacts.

(** ** Backoff *)

Lemma backoff_step policy k :
  (0 <= base_delay policy)%Z -> (0 <= max_delay policy <= DURATION_MAX)%Z -> (1 <= k)%Z ->
  backoff policy (k + 1) = if (k <=? 16)%Z then Z.min (2 * backoff policy k) (max_delay policy)
                           else backoff policy k.
Proof.
  intros Hb Hm Hk. unfold backoff. destruct (Z.leb_spec k 16).
  - replace (Z.min (Z.max 0 (k + 1 - 1)) 16) with (Z.succ (k - 1)) by lia.
    replace (Z.min (Z.max 0 (k - 1)) 16) with (k - 1)%Z by lia.
    rewrite !Z.shiftl_1_l, Z.pow_succ_r by lia.
    replace (base_delay policy * (2 * 2 ^ (k - 1)))%Z with (2 * (base_delay policy * 2 ^ (k - 1)))%Z by lia.
    lia.
  - do 4 f_equal. lia.
Qed.

Lemma backoff_mono policy k :
  (0 <= base_delay policy)%Z -> (0 <= max_delay policy <= DURATION_MAX)%Z -> (1 <= k)%Z ->
  (backoff policy k <= backoff policy (k + 1))%Z.
Proof.
  intros Hb Hm Hk. rewrite backoff_step by done. destruct (k <=? 16)%Z; [|lia].
  assert (0 <= backoff policy k <= max_delay policy)%Z; [|lia].
  unfold backoff. rewrite Z.shiftl_1_l. assert (0 <= 2 ^ Z.min (Z.max 0 (k - 1)) 16)%Z by (apply Z.pow_nonneg; lia).
  unfold DURATION_MAX, u64_max in *. nia.
Qed.

Section RetryClaims.

(** C31 What the executor does with any attempt, for any policy of at least one
    attempt: it makes calls one after another, at most [max_attempts]; every
    call but the last failed in a retryable way; it answers with the last
    call's answer, which is a success, a permanent failure or the budget's
    last failure; and between the calls it slept exactly the policy's
    backoffs.  In particular an attempt that succeeds within the budget after
    retryable failures only is always reached. *)
Theorem retry_exact {A} (policy : RetryPolicy) (attempt : A -> A * RpcResult SorobanEventsResult) a :
  (1 <= max_attempts policy)%Z ->
  (exists n, (Z.of_nat n < max_attempts policy)%Z
     /\ fetch_with_retry policy attempt a
        = (before_call attempt (n + 1) a, sleeps policy 1 n, answer attempt n a)
     /\ (forall k, k < n -> transient (answer attempt k a))
     /\ match answer attempt n a with
        | Ok _ => True
        | Err e => is_retryable e = false \/ (Z.of_nat n + 1 = max_attempts policy)%Z
        end)
  /\ forall n page, (Z.of_nat n < max_attempts policy)%Z -> (forall k, k < n -> transient (answer attempt k a)) ->
       answer attempt n a = Ok page ->
       fetch_with_retry policy attempt a = (before_call attempt (n + 1) a, sleeps policy 1 n, Ok page).
Proof.
  intros Hm.
  destruct (retry_loop_spec attempt policy (Z.to_nat (max_attempts policy)) 1 a []) as (n & Hn & Eq & Hk & Hend);
    [lia | lia |].
  unfold fetch_with_retry. rewrite Eq. split.
  - exists n. split; [lia|]. split; [done|]. split; [done|].
    destruct (answer attempt n a); [done|]. destruct Hend; [by left | right; lia].
  - intros n' page Hn' Hk' Hok.
    destruct (Nat.lt_trichotomy n n') as [Hlt|[->|Hlt]].
    + destruct (Hk' n Hlt) as (e & He & Hr). rewrite He in Hend. destruct Hend as [|Hend]; [congruence | lia].
    + by rewrite Hok.
    + destruct (Hk n' Hlt) as (e & He & _). congruence.
Qed.

(** Every policy [RetryPolicy::new] accepts, on durations: it allows an
    attempt; the first delay is the base delay; each further delay is twice the
    previous one until the cap or the sixteenth doubling, never decreasing and
    never above [max_delay] (no multiplication overflows past the cap); so the
    sleeps of one fetch together last at most [(max_attempts - 1) * max_delay]. *)
Theorem backoff_bounds attempts base_delay_ max_delay_ policy :
  (0 <= attempts <= u32_max)%Z -> (0 <= base_delay_ <= DURATION_MAX)%Z -> (0 <= max_delay_ <= DURATION_MAX)%Z ->
  RetryPolicy_new attempts base_delay_ max_delay_ = Ok policy ->
  (1 <= max_attempts policy)%Z /\ backoff policy 1 = base_delay policy
  /\ (forall k, (1 <= k)%Z ->
        (base_delay policy <= backoff policy k <= backoff policy (k + 1))%Z
        /\ (backoff policy k <= max_delay policy)%Z
        /\ ((k <= 16)%Z -> backoff policy (k + 1) = Z.min (2 * backoff policy k) (max_delay policy)))
  /\ forall n, (Z.of_nat n < max_attempts policy)%Z ->
       (fold_right Z.add 0 (sleeps policy 1 n) <= (max_attempts policy - 1) * max_delay policy)%Z.
Proof.
  intros Ha Hb Hm Hnew. unfold RetryPolicy_new in Hnew.
  destruct (Z.eqb_spec attempts 0) as [|Hne]; [done|]. destruct (Z.ltb_spec max_delay_ base_delay_); [done|].
  injection Hnew as <-. set (policy := mkRetryPolicy attempts base_delay_ max_delay_).
  assert (backoff policy 1 = base_delay_) as E1 
    by (unfold backoff; change (Z.shiftl 1 _) with 1%Z; unfold policy; cbn [base_delay max_delay]; lia).
  assert (forall k, (backoff policy k <= max_delay policy)%Z) as Hcap by (intros k; unfold backoff; lia).
  split; [simpl; lia|]. split; [done|]. split.
  - intros k Hk. split; [split; [|apply backoff_mono; simpl; lia] | split; [done|]].
    + replace k with (1 + Z.of_nat (Z.to_nat (k - 1)))%Z by lia. simpl base_delay.
      induction (Z.to_nat (k - 1)) as [|m IH]; [rewrite Z.add_0_r; lia|].
      etrans; [exact IH|]. replace (1 + Z.of_nat (Datatypes.S m))%Z with (1 + Z.of_nat m + 1)%Z by lia.
      apply backoff_mono; simpl; lia.
    + intros H16. rewrite backoff_step by (simpl; lia). by rewrite (proj2 (Z.leb_le k 16) H16).
  - intros n Hn. transitivity (Z.of_nat n * max_delay policy)%Z; [|simpl in *; nia].
    unfold sleeps. generalize 1%Z. induction n as [|n IH]; intros from; [simpl; lia|].
    rewrite seq_S, map_app, fold_right_app. cbn [map fold_right Nat.add].
    specialize (Hcap (from + Z.of_nat n)%Z). specialize (IH ltac:(lia) from).
    assert (forall l acc, fold_right Z.add acc l = fold_right Z.add 0 l + acc)%Z as Hacc
      by (clear; induction l as [|x l IH]; intros acc; simpl; [lia | rewrite IH; lia]).
    rewrite Hacc. lia.
Qed.
End RetryClaims.

(** ** Requests *)

(** A reader of the request object, the other half of the round trip. *)
Definition field_of (key : string) (v : Value) : option Value :=
  match v with VObject m => bt_get key m | _ => None end.
Definition text_of (v : Value) : string := match v with VString s => s | _ => "" end.
Definition items_of (v : Value) : list Value := match v with VArray l => l | _ => [] end.
Definition int_of (v : Value) : Z := match v with VNumber (NInt z) => z | _ => 0%Z end.
Definition list_of {A} (read : Value -> A) (v : option Value) : list A :=
  match v with Some v => map read (items_of v) | None => [] end.

Definition read_filter (v : Value) : EventFilter :=
  mkEventFilter
    (option_map (fun t => if String.eqb (text_of t) "contract" then FilterContract else FilterSystem)
       (field_of "type" v))
    (list_of text_of (field_of "contractIds" v))
    (list_of (fun matchers => map text_of (items_of matchers)) (field_of "topics" v)).

Definition read_params (v : Value) : GetEventsParams :=
  mkGetEventsParams (option_map int_of (field_of "startLedger" v)) (option_map int_of (field_of "endLedger" v))
    (list_of read_filter (field_of "filters" v))
    (option_map text_of (field_of "pagination" v ≫= field_of "cursor"))
    (option_map int_of (field_of "pagination" v ≫= field_of "limit")).

Lemma map_read_write {A} (read : Value -> A) (write : A -> Value) (l : list A) :
  (forall x, read (write x) = x) -> map read (map write l) = l.
Proof. intros Hr. rewrite map_map. induction l as [|x l IH]; simpl; congruence. Qed.

Lemma get_insert_opt k k' v m :
  bt_get k (insert_opt k' v m) =
  if String.eqb k k' then (match v with Some v => Some v | None => bt_get k m end) else bt_get k m.
Proof.
  destruct v as [v|]; simpl; [|by destruct (String.eqb k k')].
  destruct (String.eqb_spec k k') as [->|Hne]; [apply bt_get_insert_eq | by apply bt_get_insert_ne].
Qed.

Lemma list_of_non_empty {A} (read : Value -> A) (write : A -> Value) (l : list A) :
  (forall x, read (write x) = x) -> list_of read (non_empty l (VArray (map write l))) = l.
Proof. intros Hr. destruct l as [|x l]; [done|]. by apply map_read_write. Qed.

Lemma non_empty_None {A} (l : list A) v :
  match non_empty l v with Some v => Some v | None => None end = non_empty l v.
Proof. by destruct l. Qed.

Lemma field_of_object k m : field_of k (VObject m) = bt_get k m.
Proof. done. Qed.

Lemma read_filter_to_value f : read_filter (EventFilter_to_value f) = f.
Proof.
  destruct f as [t ids topics]. unfold read_filter, EventFilter_to_value, field_of.
  rewrite !get_insert_opt. cbn [String.eqb Ascii.eqb Bool.eqb bt_get filter_type filter_contract_ids filter_topics].
  rewrite !non_empty_None, !list_of_non_empty by (done || (intros m; by apply (map_read_write text_of VString))).
  by destruct t as [[]|].
Qed.

Lemma read_params_to_value p : read_params (GetEventsParams_to_value p) = p.
Proof.
  destruct p as [sl el filters cursor limit].
  unfold read_params, GetEventsParams_to_value. rewrite !field_of_object, !get_insert_opt.
  cbn [String.eqb Ascii.eqb Bool.eqb bt_get gp_start_ledger gp_end_ledger gp_filters gp_cursor gp_limit].
  rewrite !non_empty_None, (list_of_non_empty read_filter EventFilter_to_value) by apply read_filter_to_value.
  by destruct sl, el, cursor, limit.
Qed.

(** What the documentation asks of a request. *)
Record filter_coherent (f : EventFilter) : Prop := {
  fc_ids : length (filter_contract_ids f) <= MAX_CONTRACT_IDS_PER_FILTER;
  fc_topics : length (filter_topics f) <= MAX_FILTERS;
  fc_matchers : Forall (fun m => 1 <= length m <= 4) (filter_topics f)
}.

Record params_coherent (p : GetEventsParams) : Prop := {
  pc_limit : forall l, gp_limit p = Some l -> (MIN_LIMIT <= l <= MAX_LIMIT)%Z;
  pc_count : length (gp_filters p) <= MAX_FILTERS;
  pc_filters : Forall filter_coherent (gp_filters p);
  pc_cursor : gp_cursor p <> None -> gp_start_ledger p = None /\ gp_end_ledger p = None;
  pc_start : gp_cursor p = None -> gp_start_ledger p <> None
}.

Lemma check_topics_Ok_iff k topics :
  check_topics k topics = Ok tt <-> Forall (fun m => 1 <= length m <= 4) topics.
Proof.
  revert k. induction topics as [|m topics IH]; intros k; [done|]. cbn [check_topics]. rewrite Forall_cons.
  destruct (Nat.eqb_spec (length m) 0), (Nat.ltb_spec 4 (length m)); cbn [orb]; rewrite ?IH;
    (split; [intros ? | intros []]); first [done | lia | split; [lia | done]].
Qed.

Lemma EventFilter_validate_Ok_iff f : EventFilter_validate f = Ok tt <-> filter_coherent f.
Proof.
  unfold EventFilter_validate.
  destruct (Nat.ltb_spec MAX_CONTRACT_IDS_PER_FILTER (length (filter_contract_ids f))),
    (Nat.ltb_spec MAX_FILTERS (length (filter_topics f))); rewrite ?check_topics_Ok_iff;
    split; intros Hf;
    first [done | by destruct Hf | by constructor | destruct Hf; lia].
Qed.

Lemma GetEventsParams_validate_Ok_iff p : GetEventsParams_validate p = Ok tt <-> params_coherent p.
Proof.
  assert (try_map EventFilter_validate (gp_filters p) = Ok (map (fun _ => tt) (gp_filters p))
          <-> Forall filter_coherent (gp_filters p)) as Hfilters.
  { rewrite try_map_Ok_iff. induction (gp_filters p) as [|f l IH]; cbn [map]; [split; constructor|].
    rewrite Forall_cons, <- EventFilter_validate_Ok_iff, <- IH. split.
    - by intros [? ?]%Forall2_cons.
    - intros []. by apply Forall2_cons. }
  assert (check_limit (gp_limit p) = Ok tt <-> forall l, gp_limit p = Some l -> (MIN_LIMIT <= l <= MAX_LIMIT)%Z) as Hlimit.
  { unfold check_limit. destruct (gp_limit p) as [l|]; [|done].
    destruct (Z.leb_spec MIN_LIMIT l), (Z.leb_spec l MAX_LIMIT); cbn [negb andb]; split; try done;
      first [by intros _ ? [= <-] | intros Hl; specialize (Hl l eq_refl); lia]. }
  assert (check_range p = Ok tt <-> (gp_cursor p <> None -> gp_start_ledger p = None /\ gp_end_ledger p = None)
            /\ (gp_cursor p = None -> gp_start_ledger p <> None)) as Hrange.
  { unfold check_range. destruct (gp_cursor p), (gp_start_ledger p), (gp_end_ledger p); naive_solver. }
  unfold GetEventsParams_validate. split.
  - intros Hv. ok_inv. destruct v. apply Nat.ltb_ge in Hb. destruct Hrange as [Hr _]. destruct (Hr Hv).
    constructor; try done; [by apply Hlimit|]. apply Hfilters.
    rewrite Hok0. apply try_map_Ok_iff in Hok0. f_equal. clear -Hok0.
    induction Hok0 as [|? [] ? ? ? ? IH]; simpl; congruence.
  - intros [H1 H2 H3 H4 H5]. rewrite (proj2 Hlimit H1). cbn [rbind].
    destruct (Nat.ltb_spec MAX_FILTERS (length (gp_filters p))); [lia|].
    rewrite (proj2 Hfilters H3). cbn [rbind]. by apply Hrange.
Qed.

(** The request object.  Local validation accepts exactly the parameters
    the protocol documents as coherent (limit, filter and matcher counts, and a
    cursor excluding both ledger bounds but one of cursor and start ledger
    present); only coherent parameters are ever sent; and the JSON object
    determines the request it was written from, so omitting absent and empty
    fields loses nothing. *)
Theorem request_faithful `{Serialize Value} :
  (forall p, GetEventsParams_validate p = Ok tt <-> params_coherent p)
  /\ (forall r body, GetEventsRequest_body r = Ok body ->
        params_coherent (gr_params r) /\ to_vec (GetEventsRequest_to_value r) = Ok body)
  /\ (forall p, read_params (GetEventsParams_to_value p) = p)
  /\ (forall r1 r2, GetEventsRequest_to_value r1 = GetEventsRequest_to_value r2 -> r1 = r2).
Proof.
  split; [apply GetEventsParams_validate_Ok_iff|]. split; [|split; [apply read_params_to_value|]].
  - intros r body Hb. unfold GetEventsRequest_body in Hb. ok_inv. destruct v.
    split; [by apply GetEventsParams_validate_Ok_iff | done].
  - intros [id1 p1] [id2 p2] E.
    pose proof (f_equal (field_of "id") E) as Eid. pose proof (f_equal (field_of "params") E) as Ep.
    change (Some (VNumber (NInt id1)) = Some (VNumber (NInt id2))) in Eid.
    change (Some (GetEventsParams_to_value p1) = Some (GetEventsParams_to_value p2)) in Ep.
    apply (inj Some), (f_equal read_params) in Ep. rewrite !read_params_to_value in Ep. congruence.
Qed.

(** ** A recorded client keeps the feed contract through the bridge *)

(** What a client over a recording does with coherent parameters: resume after
    the cursor's event, honour the limit, name the last event when more remain. *)
Class RecordedClient (C : Type) `{EventsRpc C} := {
  client_ready : C -> Prop;
  client_events : C -> list SorobanEvent;
  client_serves c p seen rest limit :
    client_ready c -> client_events c = seen ++ rest -> NoDup (map se_id (client_events c)) ->
    GetEventsParams_validate p = Ok tt -> gp_limit p = Some limit ->
    gp_cursor p = option_map se_id (last seen) ->
    exists c' res, get_events c p = (c', Ok res)
      /\ client_ready c' /\ client_events c' = client_events c
      /\ sr_events res = take (Z.to_nat limit) rest
      /\ sr_cursor res = if Z.to_nat limit <? length rest
                         then option_map se_id (last (take (Z.to_nat limit) rest)) else None
}.

Lemma position_of_last before e rest :
  NoDup (map se_id (before ++ e :: rest)) ->
  position_of (se_id e) (before ++ e :: rest) = Some (length before).
Proof.
  induction before as [|x before IH]; cbn [app map position_of length]; intros Hnd.
  - by rewrite String.eqb_refl.
  - apply NoDup_cons in Hnd as [Hn Hnd]. destruct (String.eqb_spec (se_id x) (se_id e)) as [E|_].
    + exfalso. apply Hn. rewrite E, map_app. apply elem_of_app. right. by apply elem_of_cons; left.
    + by rewrite IH.
Qed.

Lemma mock_start_spec c p seen rest :
  mc_events c = seen ++ rest -> NoDup (map se_id (mc_events c)) ->
  gp_cursor p = option_map se_id (last seen) -> mock_start c p = Ok (length seen).
Proof.
  intros He Hnd Hc. unfold mock_start. rewrite Hc, He in *. destruct (last seen) as [e|] eqn:El; cbn [option_map].
  - apply last_Some in El as [before ->]. rewrite <- app_assoc in *. cbn [app] in *.
    rewrite position_of_last by done. cbn. rewrite length_app. done.
  - apply last_None in El as ->. done.
Qed.

Lemma mock_page_spec c p seen rest limit :
  mc_events c = seen ++ rest -> gp_limit p = Some limit ->
  sr_events (mock_page c p (length seen)) = take (Z.to_nat limit) rest
  /\ sr_cursor (mock_page c p (length seen))
     = if Z.to_nat limit <? length rest then option_map se_id (last (take (Z.to_nat limit) rest)) else None.
Proof.
  intros He Hl. unfold mock_page. rewrite Hl, He, drop_app_length, length_app. cbn [sr_events sr_cursor].
  set (n := Z.to_nat limit). replace (Nat.min (length seen + n) (length seen + length rest) - length seen)
    with (Nat.min n (length rest)) by lia.
  assert (take (Nat.min n (length rest)) rest = take n rest) as ->.
  { destruct (Nat.le_ge_cases n (length rest)); [by rewrite Nat.min_l | rewrite Nat.min_r by done].
    by rewrite !take_ge. }
  split; [done|]. destruct (Nat.ltb_spec n (length rest)), (Nat.ltb_spec
    (Nat.min (length seen + n) (length seen + length rest)) (length seen + length rest)); done || lia.
Qed.

#[export] Instance MockEventsClient_recorded : RecordedClient MockEventsClient.
Proof.
  refine {| client_ready c := mc_failures c = 0%Z; client_events := mc_events |}.
  intros c p seen rest limit Hr He Hnd Hv Hl Hc.
  exists c, (mock_page c p (length seen)). split; [|split; [done|]; split; [done|]; by apply mock_page_spec].
  unfold get_events, MockEventsClient_EventsRpc. rewrite Hr. cbn [Z.ltb Z.compare].
  rewrite Hv. cbn [rbind]. by rewrite (mock_start_spec c p seen rest).
Defined.

Lemma feed_params_coherent sl after limit :
  (1 <= limit <= MAX_LIMIT)%Z -> (after = None -> sl <> None) ->
  GetEventsParams_validate (feed_params sl after limit) = Ok tt
  /\ gp_limit (feed_params sl after limit) = Some limit /\ gp_cursor (feed_params sl after limit) = after.
Proof.
  intros Hl Hs. split; [|by destruct after, sl].
  apply GetEventsParams_validate_Ok_iff. unfold feed_params, MIN_LIMIT in *.
  destruct after as [p|], sl as [l|]; try (by specialize (Hs eq_refl));
    (constructor; cbn; [naive_solver lia | unfold MAX_FILTERS; lia | constructor | done | done]).
Qed.

#[export] Instance EventsRpcFeed_recorded {C} `{RecordedClient C} : RecordedFeed (EventsRpcFeed C).
Proof.
  refine {| ready f := client_ready (rf_client f) /\ rf_start_ledger f <> None;
            recorded f := client_events (rf_client f) |}.
  intros f seen rest limit [Hr Hs] He Hnd Hl.
  destruct (feed_params_coherent (rf_start_ledger f) (option_map se_id (last seen)) limit) as (Hv & El & Ec);
    [done | done |].
  destruct (client_serves (rf_client f) (feed_params (rf_start_ledger f) (option_map se_id (last seen)) limit)
              seen rest limit) as (c' & res & Eg & Hr' & He' & Eev & Ecur); try done.
  exists (mkEventsRpcFeed c' (rf_start_ledger f)), res.
  split; [|split; [done|]; split; [done|]; split; done].
  unfold fetch_page, EventsRpcFeed_SorobanEventFeed.
  destruct (Z.leb_spec 1 limit), (Z.leb_spec limit MAX_LIMIT); 
    try (unfold MAX_LIMIT, SOROBAN_MAX_PAGE_LIMIT in *; lia).
  cbn [andb negb]. by rewrite Hv, Eg.
Defined.

(** What the bridge sends.  A fetch over any client either is refused
    locally without a call, or is one call of coherent parameters: the given
    cursor alone, or the start ledger alone, with the limit.  A fresh pass of a
    feed built without a start ledger is always refused, although the
    constructor documents it as starting at the earliest retained ledger. *)
Theorem bridge_requests {C} `{EventsRpc C} (f : EventsRpcFeed C) after limit :
  ((exists e, fetch_page f after limit = (f, Err (InvalidItem e)))
   \/ exists p, params_coherent p /\ gp_limit p = Some limit /\ gp_cursor p = after
        /\ (after <> None -> gp_start_ledger p = None) /\ (after = None -> gp_start_ledger p = rf_start_ledger f)
        /\ fetch_page f after limit
           = (mkEventsRpcFeed (fst (get_events (rf_client f) p)) (rf_start_ledger f),
              map_err (fun e => FetchFailed (RpcError_to_string e)) (snd (get_events (rf_client f) p))))
  /\ (rf_start_ledger f = None -> after = None ->
      exists e, fetch_page f after limit = (f, Err (InvalidItem e))).
Proof.
  unfold fetch_page, EventsRpcFeed_SorobanEventFeed.
  destruct ((1 <=? limit)%Z && (limit <=? MAX_LIMIT)%Z) eqn:El; cbn [negb]; [|eauto].
  destruct (GetEventsParams_validate (feed_params (rf_start_ledger f) after limit)) as [[]|e] eqn:Ev; [|eauto].
  split.
  - right. exists (feed_params (rf_start_ledger f) after limit).
    split; [by apply GetEventsParams_validate_Ok_iff|].
    destruct (get_events (rf_client f) _) as [c r] eqn:Eg. rewrite ?Eg. unfold feed_params.
    destruct after, (rf_start_ledger f); cbn; rewrite ?Eg; naive_solver.
  - intros Hs ->. rewrite Hs in Ev. apply GetEventsParams_validate_Ok_iff in Ev.
    exfalso. by apply (pc_start _ Ev).
Qed.
