(* ===== verification/Decryption.v ===== *)
(** * The decryption boundary ([audit-core/src/decryption.rs])

    Requests with their normalized field lists, responses, the error taxonomy and
    the provider trait.  The repository holds no provider; [DecryptionProvider] is
    the trait, and what a caller can rely on is proved for any implementation
    that keeps the documented contract. *)

From S2P Require Import Prelude Text BTree Errors Identifiers Timestamps Sources.
Open Scope nat_scope.
Open Scope list_scope.

Inductive DecryptionError : Type :=
| DecInvalidRequest (d : string)
| NotAuthorized (d : string)
| DecDenied (d : string)
| DecFailed (d : string).

Definition DecryptionResult (T : Type) : Type := result T DecryptionError.

Definition DecryptionError_to_string (e : DecryptionError) : string :=
  match e with
  | DecInvalidRequest d => "invalid decryption request: " +:+ d
  | NotAuthorized d => "decryption not authorized: " +:+ d
  | DecDenied d => "decryption denied: " +:+ d
  | DecFailed d => "decryption failed: " +:+ d
  end.

Definition DecryptionError_into_core (e : DecryptionError) : AuditError :=
  match e with
  | DecInvalidRequest detail => ValidationFailure detail
  | NotAuthorized detail | DecDenied detail => DecryptionAuthorizationFailure detail
  | DecFailed detail => Internal detail
  end.

Record DecryptionRequest := mkDecryptionRequest {
  dr_request_id : RequestId;
  dr_requester : AuditorId;
  dr_target : string;
  dr_purpose : string;
  dr_requested_fields : list string;
  dr_requested_at : Timestamp
}.

Definition dec_validate_label (kind value : string) (max : Z) : DecryptionResult unit :=
  let valid := len_in 1 max value && str_all label_char value in
  if valid then Ok tt
  else Err (DecInvalidRequest (kind +:+ " must be 1-" +:+ z_to_string max
                                 +:+ " non-space printable ASCII chars")).

Definition purpose_char (c : ascii) : bool := is_ascii_graphic c || Ascii.eqb c " "%char.

Definition validate_purpose (purpose : string) : DecryptionResult unit :=
  let valid := len_in 1 512 purpose && negb (trim_is_empty purpose) && str_all purpose_char purpose in
  if valid then Ok tt
  else Err (DecInvalidRequest "purpose must be 1-512 printable ASCII chars and not blank").

(** [Vec::dedup]: consecutive repetitions are removed. *)
Fixpoint dedup (l : list string) : list string :=
  match l with
  | x :: ((y :: _) as rest) => if String.eqb x y then dedup rest else x :: dedup rest
  | _ => l
  end.

Definition DecryptionRequest_new (request_id : RequestId) (requester : AuditorId) (target purpose : string)
    (requested_fields : list string) (requested_at : Timestamp) : DecryptionResult DecryptionRequest :=
  let? _ := dec_validate_label "target" target 256 in
  let? _ := validate_purpose purpose in
  if (length requested_fields =? 0) || (16 <? length requested_fields)
  then Err (DecInvalidRequest "requested_fields must name between 1 and 16 fields")
  else
    let? _ := try_map (fun field => dec_validate_label "field" field 64) requested_fields in
    Ok (mkDecryptionRequest request_id requester target purpose
          (dedup (sort_by compare requested_fields)) requested_at).

Record DecryptionResponse := mkDecryptionResponse {
  ds_request_id : RequestId;
  ds_fields : BTreeMap string string
}.

Definition DecryptionResponse_new (request_id : RequestId) (fields : BTreeMap string string)
  : DecryptionResponse := mkDecryptionResponse request_id fields.

Class DecryptionProvider (P : Type) := {
  provider_name : P -> string;
  decrypt : P -> DecryptionRequest -> DecryptionResult DecryptionResponse
}.

(** ** What a request is *)

Definition field_ok (f : string) : bool := label_ok 64 f.

Lemma dedup_elem l x : x ∈ dedup l <-> x ∈ l.
Proof.
  induction l as [|y [|z l] IH]; [done|done|]. cbn [dedup] in *.
  destruct (String.eqb_spec y z) as [->|]; rewrite ?elem_of_cons, ?IH, ?elem_of_cons; naive_solver.
Qed.

(** A sorted list without its consecutive repetitions is strictly sorted. *)
Lemma dedup_strict l :
  StronglySorted (cmp_le compare) l -> StronglySorted (fun a b : string => compare a b = Lt) (dedup l).
Proof.
  induction 1 as [|x l Hl IH Hx]; [constructor|]. destruct l as [|y l]; [repeat constructor|].
  cbn [dedup] in *. destruct (String.eqb_spec x y) as [->|Hne]; [done|].
  constructor; [done|]. rewrite Forall_forall. intros z Hz. change (z ∈ dedup (y :: l)) in Hz.
  rewrite dedup_elem in Hz.
  assert (compare x y = Lt) as Hxy.
  { apply Forall_inv in Hx. unfold cmp_le in Hx. destruct (compare x y) eqn:E; [|done|done].
    by apply compare_eq_iff in E. }
  apply elem_of_cons in Hz as [->|Hz]; [done|].
  apply StronglySorted_inv in Hl as [_ Hy]. rewrite Forall_forall in Hy. specialize (Hy z Hz).
  unfold cmp_le in Hy. destruct (compare y z) eqn:E; [|by eapply compare_lt_trans|done].
  apply compare_eq_iff in E. by subst.
Qed.

(** A request is accepted exactly for a labelled target, a non-blank purpose and
    1 to 16 labelled fields (repetitions counted); its field list is then the
    set of the requested fields, in strictly increasing order. *)
Theorem decryption_request_exact id who target purpose fields at_ :
  (is_ok (DecryptionRequest_new id who target purpose fields at_) = true <->
     label_ok 256 target = true
     /\ len_in 1 512 purpose = true /\ trim_is_empty purpose = false /\ str_all purpose_char purpose = true
     /\ 1 <= length fields <= 16 /\ Forall (fun f => field_ok f = true) fields)
  /\ forall r, DecryptionRequest_new id who target purpose fields at_ = Ok r ->
       dr_request_id r = id /\ dr_requester r = who /\ dr_target r = target /\ dr_purpose r = purpose
       /\ dr_requested_at r = at_
       /\ StronglySorted (fun a b : string => compare a b = Lt) (dr_requested_fields r)
       /\ (forall f, f ∈ dr_requested_fields r <-> f ∈ fields).
Proof.
  assert (is_ok (try_map (fun f => dec_validate_label "field" f 64) fields) = true
          <-> Forall (fun f => field_ok f = true) fields) as Hfields.
  { induction fields as [|f fields IH]; cbn [try_map]; [split; [constructor | done]|]. rewrite Forall_cons, <- IH.
    unfold dec_validate_label at 1, field_ok, label_ok. destruct (len_in 1 64 f && str_all label_char f); cbn [rbind];
      [|naive_solver]. destruct (try_map _ fields); cbn; naive_solver. }
  unfold DecryptionRequest_new, dec_validate_label at 1 3, validate_purpose. fold (label_ok 256 target).
  destruct (label_ok 256 target), (len_in 1 512 purpose), (trim_is_empty purpose),
    (str_all purpose_char purpose); cbn [negb andb rbind]; try naive_solver.
  destruct (Nat.eqb_spec (length fields) 0), (Nat.ltb_spec 16 (length fields)); cbn [orb];
    try (split; [cbn; split; [done | intros (_ & _ & _ & _ & ? & _); lia] | done]).
  destruct (try_map _ fields) eqn:Et; cbn [rbind is_ok] in Hfields |- *; [|naive_solver].
  split; [naive_solver lia|]. intros r [= <-]. cbn. repeat (split; [done|]). split.
  - apply dedup_strict, (sort_by_key_sorted (fun x : string => x)).
  - intros f. by rewrite dedup_elem, sort_by_perm.
Qed.
