(* ===== verification/Pipeline.v ===== *)
(** * The parts together

    The Soroban source under the indexer, and the way from a finite feed to a
    report.  Three results about compositions: a page that admits nothing stalls
    the indexer, no Soroban item passes the normalizer as it stands, and what a
    replay recorded is what a report counts. *)

From stdpp Require Import sorting.
From S2P Require Import Prelude Text BTree Errors Identifiers Timestamps Classification.
From S2P Require Import Correlation Events IntegrityModel Records Pagination Storage.
From S2P Require Import AccessModel Authorization ReportModel AuditEvents Sources Normalizer.
From S2P Require Import NormalizerProofs Trail Reporting ReportingProofs.
From S2P Require Import Indexer IndexerProofs ReplayProofs Soroban SorobanProofs.
Open Scope nat_scope.
Open Scope list_scope.

(** ** A page that admits nothing *)

Section Wedge.
Context {F : Type} `{SorobanEventFeed F} `{Serialize SorobanEvent}.
Context {S : Type} `{EventStore S} `{JsonDecoder} `{Sha256, JsonStrings} `{Serialize AuditEvent}.

(** From [after], the feed answers (the same each time it is asked) with a page
    the source accepts, admits nothing of, and that is not the last. *)
Record wedged (s : SorobanEventSource F) (after : option SourceCursor) (limit : Z) : Prop := {
  wg_limit : (1 <= limit <= SOROBAN_MAX_PAGE_LIMIT)%Z;
  wg_after : forall c, after = Some c -> is_toid_id (cursor_str c) = true;
  wg_page : exists res skipped,
    fetch_page (ss_feed s) (option_map cursor_str after) limit = (ss_feed s, Ok res)
    /\ page_admits (ss_registry s) (ss_network s) (option_map cursor_str after) (sr_events res) [] skipped
    /\ sr_cursor res <> None
}.

Definition skip_more (s : SorobanEventSource F) (n : nat) : SorobanEventSource F :=
  ss_with s (ss_feed s) (ss_skipped s + n).

Lemma wedged_skip s after limit n : wedged s after limit -> wedged (skip_more s n) after limit.
Proof. intros [? ? ?]. by constructor. Qed.

(** A run on a wedged source changes nothing but the skip count. *)
Lemma run_wedged {P} `{CheckpointStore P} ix clock s (cps : P) (store : S) after :
  wedged s after (ix_page_limit ix) -> cp_load cps (ss_name s) = Ok after ->
  exists n, run_once ix clock (mkWorld s cps store)
            = (mkWorld (skip_more s n) cps store, Ok (mkIngestReport 0 0 0 [] 0 true)).
Proof.
  intros [Hl Ha (res & n & Ef & Hp & Hc)] Hload. exists n. unfold run_once. cbn [w_checkpoints w_source w_store].
  change (source_name s) with (ss_name s). rewrite Hload.
  assert (fetch_after s (option_map cursor_str after) (ix_page_limit ix)
          = (skip_more s n, Ok (SourcePage_new [] (sr_cursor res)))) as Hfetch.
  { unfold fetch_after, SorobanEventSource_EventSource.
    rewrite (proj2 (soroban_fetch_Ok_iff s (option_map cursor_str after) (ix_page_limit ix) (skip_more s n)
      (SourcePage_new [] (sr_cursor res)))); [done|].
    split; [|by exists (ss_feed s), res, [], n].
    apply fetch_guard_iff; [lia|]. split; [done|]. intros p Hafter.
    destruct after as [c|]; [|done]. injection Hafter as <-. by apply Ha. }
  rewrite Hfetch. unfold commit_page, collect, append_records, advance, sp_has_more. cbn.
  by destruct (sr_cursor res).
Qed.

Lemma replay_wedged fuel ix instant options s p (store : S) report after :
  max_pages options = None -> max_records options = None ->
  wedged s after (ix_page_limit ix) -> mem_load p (ss_name s) = Ok after ->
  replay_loop fuel ix instant options (mkWorld s p store) report = None.
Proof.
  intros Hmp Hmr. revert s report. induction fuel as [|fuel IH]; intros s report Hw Hload; [done|].
  cbn [replay_loop]. unfold replay_turn, reached. rewrite Hmp, Hmr.
  pose proof (run_wedged (P := InMemoryCheckpointStore) ix (fun _ => instant) s p store after Hw) as Hrun.
  destruct (Hrun Hload) as [n ->].
  cbn. apply IH; [by apply wedged_skip | done].
Qed.

Lemma seed_load name after p : seed name after = Ok p -> mem_load p name = Ok after.
Proof.
  unfold seed. destruct after as [c|]; [|intros [= <-]; done]. intros Hs.
  unfold Checkpoint_at in Hs. destruct (validate_source_name name); [|done]. cbn in Hs. injection Hs as <-.
  unfold mem_load. cbn. by rewrite lookup_insert_eq.
Qed.
End Wedge.

(** ** Soroban items at the normalizer *)

(** [#[derive(Serialize)]] with [rename_all = "camelCase"]: absent fields are [null]. *)
Definition opt_value {A} (f : A -> Value) (o : option A) : Value :=
  match o with Some x => f x | None => VNull end.

Definition SorobanEvent_to_value (e : SorobanEvent) : Value :=
  VObject (fold_right (fun '(k, v) m => bt_insert k v m) []
    [("type", VString (SorobanEventType_as_str (se_type e)));
     ("ledger", VNumber (NInt (se_ledger e)));
     ("ledgerClosedAt", opt_value VString (se_closed_at e));
     ("contractId", opt_value VString (se_contract_id e));
     ("id", VString (se_id e));
     ("transactionIndex", opt_value (fun i => VNumber (NInt i)) (se_transaction_index e));
     ("operationIndex", opt_value (fun i => VNumber (NInt i)) (se_operation_index e));
     ("inSuccessfulContractCall", opt_value VBool (se_successful_call e));
     ("topic", VArray (map VString (se_topic e)));
     ("value", opt_value VString (se_value e));
     ("txHash", opt_value VString (se_tx_hash e))]).

Section Unparsed.
Context `{Serialize SorobanEvent} `{JsonDecoder} `{Sha256, JsonStrings}.

(** The payload the source writes reads back as the event's object. *)
Definition reads_back (e : SorobanEvent) : Prop :=
  forall payload, to_vec e = Ok payload -> json_from_str payload = Ok (SorobanEvent_to_value e).

Lemma keys_of_event e :
  exists m, SorobanEvent_to_value e = VObject m /\ exists ks, bt_keys m = "contractId" :: ks.
Proof. eexists. split; [reflexivity|]. eexists. vm_compute. reflexivity. Qed.

(** Whatever the label: an unknown scheme, or a payload whose fields no parser knows. *)
Lemma item_refused config r n e i :
  item_for r n e i -> reads_back e ->
  exists err, normalize config i = Err err
    /\ (err = UnsupportedScheme (raw_scheme i) \/ exists scheme d, err = MalformedPayload scheme d).
Proof.
  intros (label & payload & _ & Hp & (-> & _)%RawEventItem_new_Ok_iff) Hread. specialize (Hread _ Hp).
  destruct (keys_of_event e) as (m & Em & ks & Ek). rewrite Em in Hread.
  set (unknown := "unknown field `" +:+ "contractId" +:+ "`").
  assert (reject_unknown_fields ("contractId" :: ks) HOOKS_FIELDS HOOKS = Err (MalformedPayload HOOKS unknown)) as Eh
    by reflexivity.
  assert (reject_unknown_fields ("contractId" :: ks) ENVELOPE_FIELDS ENVELOPE
          = Err (MalformedPayload ENVELOPE unknown)) as Ee by reflexivity.
  unfold normalize. cbn [raw_scheme raw_payload].
  destruct (Scheme_from_str (label_str label)) as [[]|]; cbn [map_err rbind]; [| |by eauto].
  - unfold parse, parse_hooks_state, as_object. rewrite Hread. cbn [map_err rbind]. rewrite Ek, Eh.
    eexists. split; [reflexivity|]. eauto.
  - unfold parse, parse_envelope, as_object. rewrite Hread. cbn [map_err rbind]. rewrite Ek, Ee.
    eexists. split; [reflexivity|]. eauto.
Qed.
End Unparsed.

(** Items the normalizer refuses: quarantined under the skip policy, fatal otherwise. *)
Section Refused.
Context `{JsonDecoder} `{Sha256, JsonStrings} `{Serialize AuditEvent}.

Definition refused_item (config : NormalizeConfig) (i : RawEventItem) : Prop :=
  exists err, normalize config i = Err err.

Lemma ingest_refused_skip ix clock items acc :
  ix_malformed_policy ix = SkipAndReport -> Forall (refused_item (ix_normalizer ix)) items ->
  ingest_items ix clock acc items
  = Ok (mkIngest (in_guard acc) (in_records acc) (in_placements acc) (in_duplicates acc)
          (in_quarantined acc ++ map raw_position items) (in_unverified acc)).
Proof.
  intros Hp Hr. revert acc. induction Hr as [|i items [err Hi] _ IH]; intros acc; cbn [ingest_items map].
  - rewrite app_nil_r. by destruct acc.
  - unfold ingest_item at 1. rewrite Hi, Hp. cbn [rbind]. rewrite IH. cbn. by rewrite <- app_assoc.
Qed.

Lemma ingest_refused_abort ix clock items acc :
  ix_malformed_policy ix = AbortOnMalformed -> Forall (refused_item (ix_normalizer ix)) items -> items <> [] ->
  exists err, ingest_items ix clock acc items = Err (IxNormalize err).
Proof.
  intros Hp Hr Hne. destruct Hr as [|i items [err Hi] _]; [done|]. exists err. cbn [ingest_items].
  unfold ingest_item. by rewrite Hi, Hp.
Qed.
End Refused.

Section SorobanClaims.
Context {F : Type} `{SorobanEventFeed F} `{Serialize SorobanEvent}.
Context {S : Type} `{EventStore S} `{JsonDecoder} `{Sha256, JsonStrings} `{Serialize AuditEvent}.

(** C30 Where the source and the indexer meet, progress is not guaranteed.  The
    indexer's checkpoint is the position of the last item of a page, so a page
    with no admitted event, however many more events the feed announces, leaves
    it in place: every further run is served the same page and changes nothing
    but the skip count, and an unbudgeted replay never ends. *)
Theorem skipped_page_wedges {P} `{CheckpointStore P} config instant (s : SorobanEventSource F) after options :
  wedged s after (page_limit options) -> max_pages options = None -> max_records options = None ->
  is_ok (seed (ss_name s) after) = true ->
  (forall ix clock (cps : P) (store : S), ix_page_limit ix = page_limit options -> cp_load cps (ss_name s) = Ok after ->
     exists n, run_once ix clock (mkWorld s cps store)
               = (mkWorld (skip_more s n) cps store, Ok (mkIngestReport 0 0 0 [] 0 true)))
  /\ forall fuel (target : S), replay_into fuel config instant s target after options = None.
Proof.
  intros Hw Hmp Hmr Hseed. split.
  - intros ix clock cps store Hl Hload. eapply run_wedged; [by rewrite Hl | done].
  - intros fuel target. unfold replay_into. change (source_name s) with (ss_name s).
    destruct (seed (ss_name s) after) as [p|] eqn:Es; [|done]. cbn [rbind]. unfold Indexer_new.
    destruct (Z.eqb_spec (page_limit options) 0) as [E|_]; [pose proof (wg_limit _ _ _ Hw); lia|]. cbn [rbind].
    by rewrite (replay_wedged fuel (mkIndexer config SkipDuplicates AbortOnMalformed (page_limit options)) instant options s p target _ after Hmp Hmr Hw (seed_load _ _ _ Es)).
Qed.

(** No meaning is invented for on-chain events: whatever the operator's
    labels, when the payloads the source writes read back as the events they
    print, no item of a Soroban page passes the normalizer.  A run therefore
    leaves the audit history as it was, inserts nothing, quarantines every item
    of the page under the skip policy and fails on any item otherwise. *)
Theorem soroban_items_refused {P} `{CheckpointStore P} ix clock (s s' : SorobanEventSource F) (cps : P) (store : S)
    after page :
  cp_load cps (ss_name s) = Ok after ->
  soroban_fetch_after s (option_map cursor_str after) (ix_page_limit ix) = (s', Ok page) ->
  (forall feed' res e, fetch_page (ss_feed s) (option_map cursor_str after) (ix_page_limit ix) = (feed', Ok res) ->
     e ∈ sr_events res -> reads_back e) ->
  w_store (fst (run_once ix clock (mkWorld s cps store))) = store
  /\ forall w' rep, run_once ix clock (mkWorld s cps store) = (w', Ok rep) ->
       ir_inserted rep = 0 /\ ir_duplicates rep = 0 /\ ir_fetched rep = length (sp_items page)
       /\ ir_quarantined rep = map raw_position (sp_items page)
       /\ (sp_items page = [] \/ ix_malformed_policy ix = SkipAndReport).
Proof.
  intros Hload Hfetch Hread.
  assert (Forall (refused_item (ix_normalizer ix)) (sp_items page)) as Hrefused.
  { apply soroban_fetch_Ok_iff in Hfetch as (_ & f' & res & items & k & Ef & [_ _ Hi _] & _ & ->).
    cbn [sp_items SourcePage_new]. rewrite Forall_forall. intros i (k' & Hk)%list_elem_of_lookup_1.
    destruct (Forall2_lookup_r _ _ _ _ _ Hi Hk) as (e & He%list_elem_of_lookup_2 & Hie).
    destruct (item_refused (ix_normalizer ix) _ _ e i Hie) as (err & E & _); [|by exists err].
    apply (Hread _ _ _ Ef). apply list_elem_of_In in He. apply filter_In in He as [He _].
    apply filter_In in He as [He _]. by apply list_elem_of_In. }
  unfold run_once. cbn [w_checkpoints w_source w_store]. change (source_name s) with (ss_name s). rewrite Hload.
  assert (fetch_after s (option_map cursor_str after) (ix_page_limit ix) = (s', Ok page)) as ->
    by (unfold fetch_after, SorobanEventSource_EventSource; by rewrite Hfetch).
  unfold commit_page. destruct (ix_malformed_policy ix) eqn:Hp.
  - destruct (decide (sp_items page = [])) as [E|Hne].
    + rewrite E. cbn. split; [done|]. intros w' rep [= <- <-]. cbn. auto 6.
    + unfold collect. destruct (ingest_refused_abort ix clock (sp_items page) Ingest_new Hp Hrefused Hne) as [err ->].
      done.
  - unfold collect. rewrite (ingest_refused_skip ix clock _ Ingest_new Hp Hrefused). cbn.
    destruct (advance cps (ss_name s') (sp_items page)) as [cps' [u|e]]; cbn; [|done].
    split; [done|]. intros w' rep [= <- <-]. cbn. auto 6.
Qed.
End SorobanClaims.

(** ** From a feed to a report *)

Lemma selected_all r : selected ReportQuery_all r = true.
Proof. reflexivity. Qed.

Section Reported.
Context {Src : Type} `{FeedSource Src} {S : Type} `{EventStoreLaws S}.
Context `{JsonDecoder} `{Sha256, JsonStrings} `{Serialize AuditEvent} `{Serialize Report, Serialize ReportQuery}.

(** C19 What was ingested is what is reported.  After an unbudgeted replay of a
    finite feed into a store, every event the feed's items normalize to has a
    record there, and any later report over everything (a registry, clock and
    requester permitting) counts exactly the records the store held before plus
    those the replay says it inserted; the report is always decided, and a
    refused one leaves the store as the replay left it. *)
Theorem ingested_is_reported config instant (source : Src) (target : S) options svc t request :
  let ix := mkIndexer config SkipDuplicates AbortOnMalformed (page_limit options) in
  (0 < page_limit options)%Z -> max_pages options = None -> max_records options = None ->
  NoDup (map raw_position (feed source)) -> es_inv target -> ids_ok (events_of ix (feed source)) target ->
  (1 <= rsv_page_size svc <= MAX_PAGE_SIZE)%Z -> rr_query request = ReportQuery_all ->
  exists source' target' res,
    replay_into (length (feed source) + 1) config instant source target None options
      = Some (source', target', res)
    /\ forall rep, res = Ok rep ->
         Forall (fun r => key_wf (PositionKey_of r)) (es_history target') ->
         (forall e, report_event svc t target' request e -> ids_fresh target' e) ->
         (forall e, e ∈ events_of ix (feed source) -> event_id e ∈ map rec_event_id (es_history target'))
         /\ exists audit' r, generate svc t target' request = Some (audit', r)
              /\ match r with
                 | Err _ => audit' = target'
                 | Ok report => rs_total_records (rp_summary report)
                                = (zlen (es_history target) + Z.of_nat (rr_inserted rep))%Z
                 end.
Proof.
  intros ix Hl Hmp Hmr Hnd Hs Hids Hps Hq.
  destruct (replay_feed_spec config instant source target options Hl Hmp Hmr Hnd Hs Hids)
    as (source' & target' & res & E & Hres).
  exists source', target', res. split; [done|]. intros rep -> Hkeys Hfresh.
  destruct Hres as (Hs' & Hev & _ & Hcount & _). split; [done|].
  destruct (generate_spec svc t target' request Hs' Hkeys Hps Hfresh) as (audit' & r & Eg & Hr).
  exists audit', r. split; [done|]. destruct r as [report|e]; [|done]. destruct Hr as (_ & -> & _).
  rewrite Hq. replace (List.filter (selected ReportQuery_all) (es_history target')) with (es_history target').
  - unfold summarize. rewrite summarize_fold. cbn [rs_total_records]. unfold zlen. rewrite Hcount. lia.
  - symmetry. clear. induction (es_history target') as [|x l IH]; [done|]. cbn [List.filter].
    by rewrite selected_all, IH.
Qed.
End Reported.
