(* ===== verification/System.v ===== *)
(** * The system: five services over one audit store

    The programs that drive the library (the pipeline and invariant tests and the
    examples of [crates/integration-tests]) run the indexer, the case service,
    the report service, the evidence builder and the access log against one
    [EventStore].  This file is that composition: the state the services share,
    the requests they serve, and one request or a sequence of them as functions
    from state to state, each the component's own operation. *)

From S2P Require Import Prelude Text BTree Errors Identifiers Timestamps Classification.
From S2P Require Import Correlation Events IntegrityModel Records Pagination Storage Integrity.
From S2P Require Import AccessModel Authorization Cases ReportModel AuditEvents Sources.
From S2P Require Import Normalizer Trail AccessLog CaseService CaseServiceProofs Reporting.
From S2P Require Import Evidence Indexer.
Open Scope list_scope.

(** The configured components: none of them changes while requests are served. *)
Record Deployment := mkDeployment {
  dp_cases : CaseService;
  dp_reports : ReportService;
  dp_evidence : EvidenceBuilder;
  dp_access : StoreAccessLog;
  dp_indexer : Indexer
}.

(** A request, with the clock readings it is served at. *)
Inductive Request : Type :=
| Ingest (clock : nat -> Timestamp)
| CaseRequest (t : CaseService.Readings) (who : AuditorId) (op : Op)
| ReportRun (t : RepReadings) (request : ReportRequest)
| EvidenceRun (t : EvReadings) (options : EvidenceBuildOptions)
| AccessEntry (entry : AuditAccessEntry) (now : Timestamp).

Inductive Response : Type :=
| Ingested (r : IndexerResult IngestReport)
| CaseAnswer (r : InvestigationResult InvestigationCase)
| ReportAnswer (r : ReportingResult Report)
| EvidenceAnswer (r : EvidenceResult EvidencePackage)
| AccessAnswer (r : AuthorizationResult unit).

Section System.
Context {Src : Type} `{EventSource Src} {P : Type} `{CheckpointStore P} {S : Type} `{EventStore S}.
Context `{JsonDecoder} `{Sha256} `{JsonStrings} `{Serialize AuditEvent} `{Serialize Report}
  `{Serialize ReportQuery} `{Serialize AuditRecord} `{Serialize (list ManifestEntry)}
  `{Serialize EvidenceArtifact}.

Record System := mkSystem {
  sy_cases : InMemoryCaseStore;
  sy_audit : S;
  sy_source : Src;
  sy_checkpoints : P
}.

Definition set_audit (w : System) (audit : S) : System :=
  mkSystem (sy_cases w) audit (sy_source w) (sy_checkpoints w).

Definition case_state (w : System) : State := mkState (sy_cases w) (sy_audit w).
Definition index_world (w : System) : World Src P S :=
  mkWorld (sy_source w) (sy_checkpoints w) (sy_audit w).

(** [None]: the report service's paging loop panicked or did not end. *)
Definition handle (d : Deployment) (w : System) (req : Request) : option (System * Response) :=
  match req with
  | Ingest clock =>
      let '(iw, r) := run_once (dp_indexer d) clock (index_world w) in
      Some (mkSystem (sy_cases w) (w_store iw) (w_source iw) (w_checkpoints iw), Ingested r)
  | CaseRequest t who op =>
      let '(st, r) := run (dp_cases d) t (case_state w) who op in
      Some (mkSystem (st_cases st) (st_audit st) (sy_source w) (sy_checkpoints w), CaseAnswer r)
  | ReportRun t request =>
      match generate (dp_reports d) t (sy_audit w) request with
      | Some (audit, r) => Some (set_audit w audit, ReportAnswer r)
      | None => None
      end
  | EvidenceRun t options =>
      let '(audit, r) := build_package (dp_evidence d) t (sy_audit w) options in
      Some (set_audit w audit, EvidenceAnswer r)
  | AccessEntry entry now =>
      let '(audit, r) := record_into (dp_access d) entry (sy_audit w) now in
      Some (set_audit w audit, AccessAnswer r)
  end.

Fixpoint handle_all (d : Deployment) (w : System) (reqs : list Request) : option (System * list Response) :=
  match reqs with
  | [] => Some (w, [])
  | req :: reqs =>
      match handle d w req with
      | Some (w, resp) => option_map (fun '(w, resps) => (w, resp :: resps)) (handle_all d w reqs)
      | None => None
      end
  end.
End System.

Arguments System : clear implicits.
