(* ===== verification/SystemProofs.v ===== *)
(** * Properties of the system

    The invariant of the shared state, that every request is served and keeps it,
    that nothing stored is ever lost or altered, that every step of every case is
    in the audit store, and that evidence stays verifiable. *)

From S2P Require Import Prelude Text BTree Errors Identifiers Timestamps Classification.
From S2P Require Import Correlation Events IntegrityModel Records Samples Pagination Storage.
From S2P Require Import MemoryStore MemoryPaging Integrity IntegrityProofs AccessModel.
From S2P Require Import Authorization Cases ReportModel AuditEvents Sources Normalizer Trail.
From S2P Require Import AccessLog CaseService CaseServiceProofs Reporting ReportingProofs.
From S2P Require Import Evidence EvidenceProofs Indexer IndexerProofs System.
Open Scope list_scope.

(** ** What the services record *)

Section ServiceEvents.
Context `{Sha256Laws} `{JsonStrings}.

(** An event whose identity is well formed and that claims no place in a ledger. *)
Definition trail_event (e : AuditEvent) : Prop :=
  id_wf (event_id e) /\ order e = EventOrder_default.

Lemma derived_event_id_wf n method refs : id_wf (derived_event_id n method refs).
Proof. apply derive_bytes_wf. reflexivity. Qed.

Lemma derived_trail_event k n src parser m note refs slot e :
  derived_audit_event_base k n src parser (mkDerivationSource m note refs None []) slot = Ok e ->
  trail_event e.
Proof.
  unfold derived_audit_event_base. cbn [ds_tx ds_method ds_note ds_source_refs ds_source_events].
  intros He. ok_inv. split; [apply derived_event_id_wf | done].
Qed.

(** Details do not touch the identity or the place. *)
Local Ltac trail He :=
  ok_inv; match goal with
  | E : derived_audit_event_base _ _ _ _ _ _ = Ok _ |- _ => apply derived_trail_event in E as [Hid Ho]
  end; split; simpl; auto.

Lemma lifecycle_trail_event l e :
  InvestigationLifecycle_into_audit_event l EventSlot_default = Ok e -> trail_event e.
Proof. unfold InvestigationLifecycle_into_audit_event. intros He. trail He; destruct (il_summary l); done. Qed.

Lemma step_trail_event step src parser e : to_event step src parser = Ok e -> trail_event e.
Proof. unfold to_event. intros He. ok_inv. by eapply lifecycle_trail_event. Qed.

Lemma evidence_trail_event l e :
  EvidenceLifecycle_into_audit_event l EventSlot_default = Ok e -> trail_event e.
Proof.
  unfold EvidenceLifecycle_into_audit_event. intros He. trail He; destruct (el_manifest l), (el_digest l); done.
Qed.

Lemma report_trail_event l e :
  ReportLifecycle_into_audit_event l EventSlot_default = Ok e -> trail_event e.
Proof. unfold ReportLifecycle_into_audit_event. intros He. trail He; destruct (rl_digest l); done. Qed.

Lemma access_trail_event entry n src parser e :
  access_recorded_event entry n src parser EventSlot_default = Ok e -> trail_event e.
Proof.
  unfold access_recorded_event. intros He. trail He; destruct (ae_target entry), (ae_classification entry); done.
Qed.
End ServiceEvents.

(** ** The invariant *)

Section Invariant.
Context {Src : Type} `{EventSourceLaws Src} {P : Type} `{CheckpointStoreLaws P}
  {S : Type} `{EventStoreLaws S}.
Context `{JsonDecoder} `{Sha256Laws} `{JsonStrings} `{Serialize AuditEvent} `{Serialize Report}
  `{Serialize ReportQuery} `{Serialize AuditRecord} `{Serialize (list ManifestEntry)}
  `{Serialize EvidenceArtifact}.
Implicit Types (w : System Src P S) (d : Deployment).

(** A record the library built and nobody touched since: unsealed, identified by
    the canonical bytes of its event. *)
Definition minted (r : AuditRecord) : Prop :=
  integrity r = None /\ id_wf (rec_event_id r)
  /\ exists bytes, event_canonical_bytes (event r) = Ok bytes /\ record_id r = derive_bytes bytes.

(** What the system stores: minted records whose place fits a cursor. *)
Definition admitted (r : AuditRecord) : Prop := minted r /\ key_wf (PositionKey_of r).

Record sys_inv w : Prop := {
  si_audit : es_inv (sy_audit w);
  si_records : Forall admitted (es_history (sy_audit w));
  si_cases : cases_inv (sy_cases w)
}.

(** The machine ranges of a ledger place. *)
Definition order_wf (o : EventOrder) : Prop :=
  (forall z, ledger_sequence o = Some z -> in_i64 z)
  /\ (forall z, operation_index o = Some z -> in_u32 z) /\ (forall z, event_index o = Some z -> in_u32 z).

(** The event or events a request would record in this state. *)
Definition request_event d w (req : Request) (e : AuditEvent) : Prop :=
  match req with
  | Ingest _ => exists page, served (dp_indexer d) (index_world w) = Some page
                             /\ e ∈ page_events (dp_indexer d) page
  | CaseRequest t who op => step_event (dp_cases d) t (case_state w) who op e
  | ReportRun t request => report_event (dp_reports d) t (sy_audit w) request e
  | EvidenceRun t options => generation_event (dp_evidence d) t (sy_audit w) options e
  | AccessEntry entry _ =>
      access_recorded_event entry (sal_network (dp_access d)) (sal_source (dp_access d))
        (sal_parser (dp_access d)) EventSlot_default = Ok e
  end.

(** What the types of the code give: clock readings are 64-bit, the fields of a
    decoded event have their machine ranges and its identity is a checked one. *)
Definition request_wf d w (req : Request) : Prop :=
  match req with
  | Ingest clock => (forall n, in_i64 (unix_seconds (clock n)))
                    /\ forall e, request_event d w req e -> order_wf (order e) /\ id_wf (event_id e)
  | CaseRequest t who _ => in_i64 (unix_seconds (t_record t)) /\ id_wf who
  | ReportRun t _ => in_i64 (unix_seconds (rt_record t))
  | EvidenceRun t _ => in_i64 (unix_seconds (et_record t))
  | AccessEntry _ now => in_i64 (unix_seconds now)
  end.

(** No two different events, one stored and one about to be recorded, share the
    128 bits of a derived record id. *)
Definition no_clash d w (req : Request) : Prop :=
  forall e r bytes bytes', request_event d w req e -> r ∈ es_history (sy_audit w) ->
    event_canonical_bytes e = Ok bytes -> event_canonical_bytes (event r) = Ok bytes' ->
    derive_bytes (prefix := "rec") bytes = derive_bytes bytes' -> bytes = bytes'.

(** The canonical bytes of an event determine its id. *)
Definition faithful : Prop :=
  forall (e e' : AuditEvent) bytes, event_canonical_bytes e = Ok bytes -> event_canonical_bytes e' = Ok bytes ->
    as_str (event_id e) = as_str (event_id e').

Lemma admitted_of e now bytes c p :
  id_wf (event_id e) -> order_wf (order e) -> in_i64 (unix_seconds now) ->
  event_canonical_bytes e = Ok bytes ->
  admitted (mkAuditRecord (derive_bytes bytes) e now RECORD_SCHEMA_VERSION c p None None None).
Proof.
  intros Hid (Ho1 & Ho2 & Ho3) Hn Hb. split; [split; [done|]; split; [done | by exists bytes]|].
  constructor; simpl; try done; [by apply derive_bytes_wf | by rewrite derive_bytes_length].
Qed.

Lemma trail_admitted e now bytes c p :
  trail_event e -> in_i64 (unix_seconds now) -> event_canonical_bytes e = Ok bytes ->
  admitted (mkAuditRecord (derive_bytes bytes) e now RECORD_SCHEMA_VERSION c p None None None).
Proof. intros [Hid Ho]. apply admitted_of; [done|]. rewrite Ho. by repeat split. Qed.

Lemma request_event_wf d w req e : request_wf d w req -> request_event d w req e -> id_wf (event_id e).
Proof.
  destruct req; simpl; intros Hwf He.
  - by apply Hwf.
  - destruct He as (c & _ & He). by apply step_trail_event in He as [? _].
  - destruct He as (q & rep & _ & _ & He). by apply report_trail_event in He as [? _].
  - destruct He as (records & a & m & _ & _ & He). by apply evidence_trail_event in He as [? _].
  - by apply access_trail_event in He as [? _].
Qed.

(** Without a clash, a new event takes no stored record's id. *)
Lemma no_clash_fresh d w req e :
  faithful -> sys_inv w -> request_wf d w req -> no_clash d w req -> request_event d w req e ->
  ids_fresh (sy_audit w) e.
Proof.
  intros Hf Hi Hwf Hc He Hn bytes Hb Hin. apply list_elem_of_fmap in Hin as (r & Er & Hr).
  pose proof (si_records _ Hi) as Hall. rewrite Forall_forall in Hall.
  destruct (Hall r Hr) as [(_ & Hrid & bytes' & Hb' & Hid) _].
  assert (bytes = bytes') as <- by (apply (Hc e r); congruence). apply Hn.
  replace (event_id e) with (rec_event_id r); [by apply list_elem_of_In, in_map, list_elem_of_In|].
  apply id_wf_inj; [done | by eapply request_event_wf | by apply (Hf _ _ bytes)].
Qed.

(** ** One request *)

(** The audit store only gains admitted records. *)
Definition grows (s s' : S) : Prop :=
  es_inv s' /\ exists new, es_history s' ≡ₚ new ++ es_history s /\ Forall admitted new.

Lemma grows_refl s : es_inv s -> grows s s.
Proof. intros Hs. split; [done|]. by exists []. Qed.

Lemma grows_trans s1 s2 s3 : grows s1 s2 -> grows s2 s3 -> grows s1 s3.
Proof.
  intros [_ (n1 & H1' & F1)] [Hs (n2 & H2' & F2)]. split; [done|]. exists (n2 ++ n1).
  split; [by rewrite H2', H1', app_assoc | by apply Forall_app].
Qed.

Lemma grows_one s s' r : es_inv s' -> (s' = s \/ es_history s' ≡ₚ r :: es_history s) -> admitted r -> grows s s'.
Proof.
  intros Hs' Hh Hr. split; [done|]. destruct Hh as [->|Hh]; [by exists [] | exists [r]].
  split; [done | by constructor].
Qed.

Lemma recorded_grows s s' e now :
  trail_event e -> in_i64 (unix_seconds now) -> recorded s s' e now -> grows s s'.
Proof.
  intros He Hn (Hs' & _ & [->|(bytes & Hb & Hh)]); [by apply grows_refl|].
  eapply grows_one; [done | by right | by apply trail_admitted].
Qed.

Lemma grows_member s s' r : grows s s' -> r ∈ es_history s -> r ∈ es_history s'.
Proof. intros [_ (new & Hh & _)] Hr. rewrite Hh. apply elem_of_app. by right. Qed.

Lemma grows_event s s' i : grows s s' -> i ∈ map rec_event_id (es_history s) -> i ∈ map rec_event_id (es_history s').
Proof. intros [_ (new & Hh & _)] Hi. rewrite Hh, map_app. apply elem_of_app. by right. Qed.

(** Every case is still there: later in its own history, and a closed one as it was. *)
Definition cases_kept (s s' : InMemoryCaseStore) : Prop :=
  cases_inv s' /\ forall id c, bt_get id (cases s) = Some c ->
    exists c', bt_get id (cases s') = Some c' /\ case_reach c c' /\ (case_status c = Closed -> c' = c).

Lemma cases_kept_refl s : cases_inv s -> cases_kept s s.
Proof. intros Hs. split; [done|]. intros id c Hg. exists c. by repeat split; try constructor. Qed.

Lemma case_reach_trans c1 c2 c3 : case_reach c1 c2 -> case_reach c2 c3 -> case_reach c1 c3.
Proof. intros Ha Hb. induction Hb as [|c c' _ IH Hs]; [done | by eapply reach_step]. Qed.

Lemma cases_kept_trans s1 s2 s3 : cases_kept s1 s2 -> cases_kept s2 s3 -> cases_kept s1 s3.
Proof.
  intros [_ Ha] [Hi Hb]. split; [done|]. intros id c Hg.
  destruct (Ha id c Hg) as (c2 & Hg2 & Hr2 & Hc2). destruct (Hb id c2 Hg2) as (c3 & Hg3 & Hr3 & Hc3).
  exists c3. split; [done|]. split; [by eapply case_reach_trans|]. intros Hc. rewrite Hc3, Hc2; [done..|].
  by rewrite Hc2.
Qed.

Lemma case_reach_extends c c' : case_reach c c' -> extends c c'.
Proof. induction 1; [apply extends_refl | eauto using extends_trans, step_extends]. Qed.

(** What one request does to the state. *)
Record progress w w' : Prop := {
  pr_audit : grows (sy_audit w) (sy_audit w');
  pr_cases : cases_kept (sy_cases w) (sy_cases w')
}.

Lemma progress_inv w w' : sys_inv w -> progress w w' -> sys_inv w'.
Proof.
  intros [Ha Hr Hc] [[Ha' (new & Hh & Hnew)] [Hc' _]]. split; [done| |done].
  rewrite Hh. by apply Forall_app.
Qed.

Lemma progress_refl w : sys_inv w -> progress w w.
Proof. intros [Ha _ Hc]. split; [by apply grows_refl | by apply cases_kept_refl]. Qed.

Lemma progress_trans w1 w2 w3 : progress w1 w2 -> progress w2 w3 -> progress w1 w3.
Proof. intros [A1 C1] [A2 C2]. split; [by eapply grows_trans | by eapply cases_kept_trans]. Qed.

(** A request that leaves the cases alone. *)
Lemma progress_audit w audit : sys_inv w -> grows (sy_audit w) audit -> progress w (set_audit w audit).
Proof. intros Hi Hg. split; [done|]. by apply cases_kept_refl, Hi. Qed.

(** The configuration: a page size the store serves. *)
Definition deployed d : Prop := (1 <= rsv_page_size (dp_reports d) <= MAX_PAGE_SIZE)%Z.

Section Step.
Variables (d : Deployment) (w : System Src P S).
Hypothesis Hdep : deployed d.
Hypothesis Hf : faithful.
Hypothesis Hi : sys_inv w.

Lemma ingest_progress clock :
  request_wf d w (Ingest clock) -> no_clash d w (Ingest clock) ->
  exists w' r, handle d w (Ingest clock) = Some (w', Ingested r) /\ progress w w'.
Proof.
  intros Hwf Hc. simpl. destruct (run_once _ clock (index_world w)) as [iw r] eqn:Er.
  do 2 eexists. split; [reflexivity|].
  split; simpl; [|apply cases_kept_refl, Hi].
  destruct (run_once_inv _ _ _ _ _ Er) as [(_ & -> & _)|(page & src & Hp & _ & Hcom & _)]; [apply grows_refl, Hi|].
  assert (page_fresh (dp_indexer d) (sy_audit w) page) as Hfr.
  { intros e He. apply (no_clash_fresh d w (Ingest clock)); [done..|]. by exists page. }
  apply commit_page_spec in Hcom as [_ Hres]; [|apply Hi | exact Hfr]. simpl in Hres.
  assert (w_store iw = sy_audit w
          \/ page_stored (dp_indexer d) (sy_audit w) (w_store iw) page
             /\ exists new, gained (dp_indexer d) clock (sy_audit w) (w_store iw) page new) as [->|[Hst (new & Hh & Hnew & Hev)]];
    [|apply grows_refl, Hi|].
  { destruct r as [rep|e]; [right | by destruct Hres as [_ [->|?]]; auto].
    destruct (pe_gained _ _ _ _ _ _ Hres) as (new & Hg & _).
    split; [apply (pe_stored _ _ _ _ _ _ Hres) | by exists new]. }
  split; [apply Hst|]. exists new. split; [exact Hh|]. rewrite Forall_forall in Hnew |- *. intros x Hx.
  destruct (Hnew x Hx) as [n (_ & bytes & Hb & ->)%from_event_Ok_inv]. simpl in *.
  destruct Hwf as [Hclock Hwf]. destruct (Hwf (event x)) as [Ho Hid].
  { exists page. split; [done|]. assert (event x ∈ map event new) as Hx' by by apply list_elem_of_In, in_map, list_elem_of_In.
    rewrite Hev in Hx'. apply list_elem_of_In, filter_In in Hx' as [Hx' _]. apply list_elem_of_In in Hx'.
    by apply first_seen_spec in Hx' as [? _]. }
  by apply admitted_of.
Qed.

Lemma case_progress t who op :
  request_wf d w (CaseRequest t who op) -> no_clash d w (CaseRequest t who op) ->
  exists w' r, handle d w (CaseRequest t who op) = Some (w', CaseAnswer r) /\ progress w w'.
Proof.
  intros Hwf Hc. simpl.
  pose proof (run_effect (dp_cases d) t (case_state w) who op (si_cases _ Hi)) as He.
  pose proof (run_recorded (dp_cases d) t (case_state w) who op (si_cases _ Hi) (si_audit _ Hi)
                (fun e => no_clash_fresh d w _ e Hf Hi Hwf Hc)) as Hr.
  destruct (run (dp_cases d) t (case_state w) who op) as [st r]. simpl in He.
  do 2 eexists. split; [reflexivity|]. split; simpl.
  - destruct r as [c|e]; [|rewrite Hr; apply grows_refl, Hi]. destruct Hr as (_ & e & Ee & Hrec).
    destruct Hwf as [Ht _]. by apply (recorded_grows _ _ e (t_record t)); [eapply step_trail_event| |].
  - split; [by eapply effect_inv; [exact He | exact (si_cases _ Hi)]|]. intros id c Hg.
    destruct (effect_case _ _ _ _ _ _ _ id c He (si_cases _ Hi) Hg) as (c' & Hg' & Hcc). exists c'. split; [done|].
    destruct Hcc as [->|[Hs Hn]]; [by split; [constructor|]|]. split; [|done]. eapply reach_step; [constructor | done].
Qed.

Lemma keys_of_inv : Forall (fun r => key_wf (PositionKey_of r)) (es_history (sy_audit w)).
Proof. eapply Forall_impl; [apply (si_records _ Hi)|]. by intros r [_ ?]. Qed.

Lemma report_progress t request :
  request_wf d w (ReportRun t request) -> no_clash d w (ReportRun t request) ->
  exists w' r, handle d w (ReportRun t request) = Some (w', ReportAnswer r) /\ progress w w'.
Proof.
  intros Hwf Hc. simpl.
  destruct (generate_spec (dp_reports d) t (sy_audit w) request (si_audit _ Hi) keys_of_inv Hdep
              (fun e => no_clash_fresh d w _ e Hf Hi Hwf Hc)) as (audit & r & -> & Hr).
  do 2 eexists. split; [reflexivity|]. apply progress_audit; [done|].
  destruct r as [rep|e]; [|rewrite Hr; apply grows_refl, Hi]. destruct Hr as (_ & _ & _ & _ & e & He & Hrec).
  destruct He as (q & rep' & _ & _ & He). by apply (recorded_grows _ _ e (rt_record t)); [eapply report_trail_event| |].
Qed.

Lemma evidence_progress t options :
  request_wf d w (EvidenceRun t options) -> no_clash d w (EvidenceRun t options) ->
  exists w' r, handle d w (EvidenceRun t options) = Some (w', EvidenceAnswer r) /\ progress w w'.
Proof.
  intros Hwf Hc. simpl. destruct (build_package (dp_evidence d) t (sy_audit w) options) as [audit r] eqn:Eb.
  apply build_package_spec in Eb; [|apply Hi | intros e; by apply (no_clash_fresh d w (EvidenceRun t options))].
  do 2 eexists. split; [reflexivity|]. apply progress_audit; [done|].
  destruct r as [pkg|e]; [|rewrite Eb; apply grows_refl, Hi]. destruct Eb as (_ & _ & _ & e & He & Hrec).
  destruct He as (records & a & m & _ & _ & He).
  by apply (recorded_grows _ _ e (et_record t)); [eapply evidence_trail_event| |].
Qed.

Lemma access_progress entry now :
  request_wf d w (AccessEntry entry now) -> no_clash d w (AccessEntry entry now) ->
  exists w' r, handle d w (AccessEntry entry now) = Some (w', AccessAnswer r) /\ progress w w'.
Proof.
  intros Hwf Hc. simpl.
  destruct (record_into_spec (dp_access d) entry (sy_audit w) now (si_audit _ Hi)
              (fun e => no_clash_fresh d w _ e Hf Hi Hwf Hc)) as [[why ->]|(e & bytes & s' & Ee & -> & Hs' & _ & Hh & _ & Hb)];
    (do 2 eexists; split; [reflexivity|]; apply progress_audit; [done|]); [apply grows_refl, Hi|].
  eapply grows_one; [done | exact Hh |]. apply trail_admitted; [by eapply access_trail_event | done | done].
Qed.

(** Every request is served. *)
Lemma handle_spec req :
  request_wf d w req -> no_clash d w req -> exists w' resp, handle d w req = Some (w', resp) /\ progress w w'.
Proof.
  destruct req; intros Hwf Hc.
  - destruct (ingest_progress _ Hwf Hc) as (w' & r & ? & ?). eauto.
  - destruct (case_progress _ _ _ Hwf Hc) as (w' & r & ? & ?). eauto.
  - destruct (report_progress _ _ Hwf Hc) as (w' & r & ? & ?). eauto.
  - destruct (evidence_progress _ _ Hwf Hc) as (w' & r & ? & ?). eauto.
  - destruct (access_progress _ _ Hwf Hc) as (w' & r & ? & ?). eauto.
Qed.
End Step.

(** ** Sequences of requests *)

(** Each request is well formed, and clashes with nothing, in the state it meets. *)
Fixpoint orderly d w (reqs : list Request) : Prop :=
  match reqs with
  | [] => True
  | req :: reqs =>
      request_wf d w req /\ no_clash d w req
      /\ forall w' resp, handle d w req = Some (w', resp) -> orderly d w' reqs
  end.

Lemma handle_all_spec d w reqs :
  deployed d -> faithful -> sys_inv w -> orderly d w reqs ->
  exists w' resps, handle_all d w reqs = Some (w', resps) /\ length resps = length reqs /\ progress w w'.
Proof.
  intros Hd Hf. revert w. induction reqs as [|req reqs IH]; intros w Hi Ho; simpl.
  { exists w, []. split; [done|]. split; [done|]. by apply progress_refl. }
  destruct Ho as (Hwf & Hc & Hrest). destruct (handle_spec d w Hd Hf Hi req Hwf Hc) as (w1 & resp & E & Hp).
  rewrite E. destruct (IH w1) as (w' & resps & E' & Hl & Hp'); [by eapply progress_inv | by eapply Hrest|].
  rewrite E'. exists w', (resp :: resps). split; [done|]. split; [simpl; by rewrite Hl|].
  by eapply progress_trans.
Qed.
(** ** The trail of a case *)

(** The id of the event of a case's [n]-th step, by [who]; the step counter is a
    [u32] cast. *)
Definition step_id d (id : CaseId) (who : AuditorId) (n : nat) : EventId :=
  derived_event_id (network_str (cs_network (dp_cases d))) "investigation-lifecycle"
    [as_str id; as_str who; "step:" +:+ z_to_string (Z.of_nat n mod 2 ^ 32)].

(** For the opening and every timeline entry of every case, the audit store has
    the event of that step, by an actor allowed to take it. *)
Record trailed d w : Prop := {
  tr_ids id c : bt_get id (cases (sy_cases w)) = Some c -> id_wf id;
  tr_steps id c n : bt_get id (cases (sy_cases w)) = Some c -> (n <= length (timeline c))%nat ->
    exists t who, authorized (dp_cases d) t who
      /\ step_id d id who n ∈ map rec_event_id (es_history (sy_audit w))
}.

(** What the recording needs not to fail. *)
Record recordable d : Prop := {
  rc_json (e : AuditEvent) : is_ok (to_vec e) = true;
  rc_label : is_ok (EventProvenance_new Derived (cs_source (dp_cases d)) (cs_parser (dp_cases d))) = true
}.

Lemma trailed_none d w : cases (sy_cases w) = [] -> trailed d w.
Proof. intros E. by split; rewrite E. Qed.

(** More records, same cases. *)
Lemma trailed_grows d w w' :
  trailed d w -> grows (sy_audit w) (sy_audit w') -> sy_cases w' = sy_cases w -> trailed d w'.
Proof.
  intros [Hids Hst] Hg E. split; rewrite E; [done|]. intros id c n Hc Hn.
  destruct (Hst id c n Hc Hn) as (t & who & Ha & Hin). exists t, who. split; [done|]. by eapply grows_event.
Qed.

Lemma step_event_id d who op c e :
  to_event (op_step (dp_cases d) who op c) (cs_source (dp_cases d)) (cs_parser (dp_cases d)) = Ok e ->
  case_id c = op_case (dp_cases d) op ->
  match op with OpOpen _ _ _ => timeline c = [] | _ => True end ->
  event_id e = step_id d (op_case (dp_cases d) op) who (length (timeline c)).
Proof.
  unfold to_event, parse_case, parse_actor. intros He Hid Hop. ok_inv.
  apply lifecycle_event_valid in He as (_ & _ & ->). simpl.
  apply from_checked_wf in Hok as [_ ->]. apply from_checked_wf in Hok0 as [_ ->].
  rewrite (op_step_case _ _ _ _ Hid), op_step_actor. unfold step_id.
  destruct op; simpl; [by rewrite Hop | done..].
Qed.

(** What a commit leaves: a fresh case, or the old one with one more entry. *)
Lemma commits_timeline svc t (st : State (S := S)) who op c :
  commits svc t st who op c ->
  match op with
  | OpOpen _ _ _ => timeline c = []
  | _ => exists c0, bt_get (op_case svc op) (cases (st_cases st)) = Some c0
                    /\ length (timeline c) = Datatypes.S (length (timeline c0))
  end.
Proof.
  destruct op; simpl; try (intros (c0 & Hg & Hs & _); exists c0; split; [done|];
    destruct (step_timeline _ _ Hs) as [x ->]; rewrite length_app; simpl; lia).
  intros (_ & Ho & _). unfold case_open in Ho. by ok_inv.
Qed.

(** An operation on an id that is not a checked one changes nothing. *)
Lemma op_case_wf d w t who op :
  trailed d w -> cases_inv (sy_cases w) ->
  id_wf (op_case (dp_cases d) op) \/ fst (run (dp_cases d) t (case_state w) who op) = case_state w.
Proof.
  intros Htr Hi. destruct (run_effect (dp_cases d) t (case_state w) who op Hi) as [|c r audit Hc _]; [by right|].
  left. destruct op; [by apply derive_bytes_wf| | | | |]; destruct Hc as (c0 & Hg & _); exact (tr_ids _ _ Htr _ _ Hg).
Qed.

Lemma case_trailed d w t who op w' resp :
  deployed d -> faithful -> recordable d -> sys_inv w -> trailed d w ->
  request_wf d w (CaseRequest t who op) -> no_clash d w (CaseRequest t who op) ->
  handle d w (CaseRequest t who op) = Some (w', resp) -> trailed d w'.
Proof.
  intros Hd Hf [Hjson Hlab] Hi Htr Hwf Hc Eh.
  destruct (case_progress d w Hf Hi t who op Hwf Hc) as (w1 & r & Eh1 & [Hg _]).
  assert (w1 = w') as -> by congruence. clear Eh1 r.
  destruct (op_case_wf d w t who op Htr (si_cases _ Hi)) as [Hid|Hid].
  2: { simpl in Eh. destruct (run _ _ _ _ _) as [st r]. injection Eh as <- <-. simpl in Hid. subst st.
       by eapply trailed_grows; [exact Htr | exact Hg |]. }
  pose proof (run_atomic (dp_cases d) t (case_state w) who op (si_cases _ Hi) (si_audit _ Hi)
                (fun e => no_clash_fresh d w _ e Hf Hi Hwf Hc)
                (Build_auditable _ _ _ Hjson Hlab (proj2 Hwf) Hid)) as Hr.
  simpl in Eh. destruct (run (dp_cases d) t (case_state w) who op) as [st r]. injection Eh as <- <-. simpl in *.
  destruct Hr as [[-> _]|(c & e & _ & Hcom & Hcid & Ecases & Ee & _ & Hin & _)].
  { by eapply trailed_grows; [exact Htr | exact Hg |]. }
  pose proof (commits_timeline _ _ _ _ _ _ Hcom) as Htl.
  assert (step_id d (op_case (dp_cases d) op) who (length (timeline c)) ∈ map rec_event_id (es_history (st_audit st))) as Hnew.
  { rewrite <- (step_event_id d who op c e Ee Hcid); [exact Hin|]. destruct op; auto. }
  pose proof (commits_authorized (dp_cases d) t (case_state w) who op c (si_cases _ Hi) Hcom) as Hau.
  split; simpl; rewrite Ecases.
  - intros id c'. destruct (decide (op_case (dp_cases d) op = id)) as [<-|Hne]; [done|].
    rewrite bt_get_insert_ne by done. apply (tr_ids _ _ Htr).
  - intros id c' n. destruct (decide (op_case (dp_cases d) op = id)) as [<-|Hne].
    + rewrite bt_get_insert_eq. intros [= <-] Hn.
      destruct (decide (n = length (timeline c))) as [->|Hlt]; [by exists t, who|].
      assert (exists c0, bt_get (op_case (dp_cases d) op) (cases (sy_cases w)) = Some c0
                /\ length (timeline c) = Datatypes.S (length (timeline c0))) as (c0 & Hg0 & El).
      { destruct op; [rewrite Htl in Hn, Hlt; simpl in *; lia | exact Htl..]. }
      destruct (tr_steps _ _ Htr _ c0 n Hg0) as (t' & who' & Ha' & Hin'); [lia|].
      exists t', who'. split; [done|]. exact (grows_event _ _ _ Hg Hin').
    + rewrite bt_get_insert_ne by done. intros Hg' Hn.
      destruct (tr_steps _ _ Htr _ c' n Hg' Hn) as (t' & who' & Ha' & Hin').
      exists t', who'. split; [done|]. exact (grows_event _ _ _ Hg Hin').
Qed.
Lemma handle_trailed d w req w' resp :
  deployed d -> faithful -> recordable d -> sys_inv w -> trailed d w ->
  request_wf d w req -> no_clash d w req -> handle d w req = Some (w', resp) -> trailed d w'.
Proof.
  intros Hd Hf Hrec Hi Htr Hwf Hc Eh.
  destruct (handle_spec d w Hd Hf Hi req Hwf Hc) as (w1 & r & Eh1 & [Hg _]).
  assert (w1 = w') as -> by congruence.
  destruct req as [clock|t who op|t request|t options|entry now]; [| by eapply case_trailed | | |];
    eapply trailed_grows; [exact Htr | exact Hg | | exact Htr | exact Hg | | exact Htr | exact Hg | | exact Htr | exact Hg | ];
    simpl in Eh.
  - destruct (run_once _ _ _). by injection Eh as <- _.
  - destruct (generate _ _ _ _) as [[? ?]|]; [|done]. by injection Eh as <- _.
  - destruct (build_package _ _ _ _). by injection Eh as <- _.
  - destruct (record_into _ _ _ _). by injection Eh as <- _.
Qed.

Lemma handle_all_trailed d w reqs w' resps :
  deployed d -> faithful -> recordable d -> sys_inv w -> trailed d w -> orderly d w reqs ->
  handle_all d w reqs = Some (w', resps) -> trailed d w'.
Proof.
  intros Hd Hf Hrec. revert w resps. induction reqs as [|req reqs IH]; intros w resps Hi Htr Ho Eh; simpl in Eh.
  { by injection Eh as <- _. }
  destruct Ho as (Hwf & Hc & Hrest). destruct (handle_spec d w Hd Hf Hi req Hwf Hc) as (w1 & resp & E & Hp).
  rewrite E in Eh. destruct (handle_all d w1 reqs) as [[w2 resps']|] eqn:E'; [|done]. injection Eh as <- _.
  eapply (IH w1); [by eapply progress_inv | by eapply handle_trailed | by eapply Hrest | exact E'].
Qed.

(** ** Evidence over the shared store *)

(** Nothing the system stores is sealed, so every stored record may be covered. *)
Lemma stored_resolves w id : sys_inv w -> id ∈ map record_id (es_history (sy_audit w)) -> resolves (sy_audit w) id.
Proof.
  intros Hi (r & -> & Hr)%list_elem_of_fmap. exists r. split; [done|]. split; [done|]. intros i Ei.
  pose proof (si_records _ Hi) as Hall. rewrite Forall_forall in Hall. destruct (Hall r Hr) as [(Hn & _) _]. congruence.
Qed.

Lemma built_assembled b t audit options audit' pkg :
  es_inv audit -> build_package b t audit options = (audit', Ok pkg) ->
  exists records a m, pkg = mkEvidencePackage a m /\ assemble b t options records = Ok (a, m)
    /\ Forall (fun r => r ∈ es_history audit) records /\ map record_id records ≡ₚ bo_record_ids options.
Proof.
  intros Hs Eb. destruct (build_package_cases b t audit options) as [(records & a & m & e & Hr & Hsrc & Ha & He)|[[err E] _]].
  2: { congruence. }
  rewrite (build_package_eq b t audit options records a m e Hr Hsrc Ha He) in Eb.
  destruct (sources_Ok_inv _ _ _ Hs Hsrc) as (Hin & Hids & _). exists records, a, m.
  split; [|done]. destruct (snd (record_event audit e (et_record t))); simpl in Eb; congruence.
Qed.

(** A package verifies against every store its records are still in. *)
Lemma package_endures b t audit options audit' pkg later :
  es_inv audit -> build_package b t audit options = (audit', Ok pkg) -> grows audit later ->
  exists v, verify_package pkg later = Ok v /\ ver_verified v = true
    /\ map vo_record_id (ver_records v) ≡ₚ bo_record_ids options
    /\ Forall (fun o => vo_status o = Verified) (ver_records v).
Proof.
  intros Hs Eb Hg. destruct (built_assembled _ _ _ _ _ _ Hs Eb) as (records & a & m & -> & Ha & Hin & Hids).
  destruct (assembled_verifies b t options records a m later) as (v & Hv & Hok & Hvi & Hst); [apply Hg | | exact Ha |].
  { eapply Forall_impl; [exact Hin|]. intros r. by apply grows_member. }
  exists v. rewrite Hvi. auto.
Qed.
End Invariant.

(** ** Claims *)

Section Claims.
Context {Src : Type} `{EventSourceLaws Src} {P : Type} `{CheckpointStoreLaws P}
  {S : Type} `{EventStoreLaws S}.
Context `{JsonDecoder} `{Sha256Laws} `{JsonStrings} `{Serialize AuditEvent} `{Serialize Report}
  `{Serialize ReportQuery} `{Serialize AuditRecord} `{Serialize (list ManifestEntry)}
  `{Serialize EvidenceArtifact}.
Implicit Types (w : System Src P S) (d : Deployment).

(** C4 The system keeps its state consistent and always answers.  From any
    consistent state, every sequence of requests to the five services (index a
    page, operate on a case, generate a report, build evidence, record an
    access), in any order and whatever they contain, is served to the end, and
    leaves a consistent state: the audit store keeps its contract, every record
    in it is unsealed, identified by the canonical bytes of its own event and
    placed where a cursor can name it, and the case store is well formed. *)
Theorem system_serves d w reqs :
  deployed d -> faithful -> sys_inv w -> orderly d w reqs ->
  exists w' resps, handle_all d w reqs = Some (w', resps) /\ length resps = length reqs /\ sys_inv w'.
Proof.
  intros Hd Hf Hi Ho. destruct (handle_all_spec d w reqs Hd Hf Hi Ho) as (w' & resps & E & Hl & Hp).
  exists w', resps. split; [done|]. split; [done|]. by eapply progress_inv.
Qed.

(** C5 History is append-only across the whole system: whatever requests are
    served, every record stored before is stored after, unchanged, beside new
    ones; every case is still there, at a later point of its own history (the
    timeline, findings, notes and linked records only grow); and a closed case
    is exactly as it was. *)
Theorem system_append_only d w reqs w' resps :
  deployed d -> faithful -> sys_inv w -> orderly d w reqs -> handle_all d w reqs = Some (w', resps) ->
  (exists new, es_history (sy_audit w') ≡ₚ new ++ es_history (sy_audit w))
  /\ forall id c, bt_get id (cases (sy_cases w)) = Some c ->
       exists c', bt_get id (cases (sy_cases w')) = Some c' /\ case_reach c c' /\ extends c c'
         /\ (case_status c = Closed -> c' = c).
Proof.
  intros Hd Hf Hi Ho Eh. destruct (handle_all_spec d w reqs Hd Hf Hi Ho) as (w1 & resps1 & E & _ & [Ha Hc]).
  assert (w1 = w') as -> by congruence. split; [destruct Ha as [_ (new & Hh & _)]; eauto|].
  intros id c Hg. destruct (proj2 Hc id c Hg) as (c' & Hg' & Hr & Hcl). exists c'.
  split; [done|]. split; [done|]. split; [by apply case_reach_extends | done].
Qed.

(** C10 Every step of every case is in the audit store.  Starting without cases,
    after any requests, each case of the store has, for its opening and for each
    entry of its timeline, the event of that step in the audit store, and an
    actor the authorizer allows to manage investigations took it. *)
Theorem system_trail_complete d w reqs w' resps id c n :
  deployed d -> faithful -> recordable d -> sys_inv w -> cases (sy_cases w) = [] -> orderly d w reqs ->
  handle_all d w reqs = Some (w', resps) ->
  bt_get id (cases (sy_cases w')) = Some c -> (n <= length (timeline c))%nat ->
  exists t who, authorized (dp_cases d) t who
    /\ step_id d id who n ∈ map rec_event_id (es_history (sy_audit w')).
Proof.
  intros Hd Hf Hrec Hi Hno Ho Eh. apply (tr_steps d w').
  by eapply handle_all_trailed; [exact Hd | exact Hf | exact Hrec | exact Hi | apply trailed_none | exact Ho | exact Eh].
Qed.

(** C18 Evidence endures.  In any consistent state, an actor allowed to generate
    evidence gets a package for any distinct stored records they name (at least
    one), and it verifies completely, each of those records [Verified], not only
    at once but against the store as any later requests leave it. *)
Theorem system_evidence_endures d w t options reqs :
  deployed d -> faithful -> json_total -> sys_inv w ->
  orderly d w (EvidenceRun t options :: reqs) ->
  is_ok (VersionLabel_new (version_str (eb_generator_version (dp_evidence d)))) = true ->
  is_ok (EventProvenance_new Derived (eb_source (dp_evidence d)) (eb_parser (dp_evidence d))) = true ->
  bo_record_ids options <> [] -> NoDup (bo_record_ids options) ->
  Forall (fun id => id ∈ map record_id (es_history (sy_audit w))) (bo_record_ids options) ->
  (exists dec, authorize (eb_registry (dp_evidence d)) (et_auth t) (bo_generated_by options) GenerateEvidence
                 (ScopeNetwork (eb_network (dp_evidence d))) = Ok dec /\ ad_allowed dec = true) ->
  exists w1 pkg w2 resps, handle d w (EvidenceRun t options) = Some (w1, EvidenceAnswer (Ok pkg))
    /\ handle_all d w1 reqs = Some (w2, resps)
    /\ exists v, verify_package pkg (sy_audit w2) = Ok v /\ ver_verified v = true
         /\ map vo_record_id (ver_records v) ≡ₚ bo_record_ids options
         /\ Forall (fun o => vo_status o = Verified) (ver_records v).
Proof.
  intros Hd Hf Hjson Hi (Hwf & Hc & Hrest) Hv Hl Hne Hnd Hin Hau.
  destruct (handle_spec d w Hd Hf Hi _ Hwf Hc) as (w1 & resp & E & Hp).
  destruct (handle_all_spec d w1 reqs Hd Hf) as (w2 & resps & E2 & _ & Hp2); [by eapply progress_inv | by eapply Hrest|].
  pose proof (build_package_ok_iff (dp_evidence d) t (sy_audit w) options _ Hjson (si_audit _ Hi)
                (fun e => no_clash_fresh d w (EvidenceRun t options) e Hf Hi Hwf Hc)) as Hiff.
  pose proof E as Eb. simpl in Eb. destruct (build_package (dp_evidence d) t (sy_audit w) options) as [audit r] eqn:Ebp.
  injection Eb as <- <-. assert (is_ok r = true) as Hr.
  { apply Hiff. constructor; try done. eapply Forall_impl; [exact Hin|]. intros id. by apply stored_resolves. }
  clear Hiff. destruct r as [pkg|err]; [|done].
  exists (set_audit w audit), pkg, w2, resps. split; [exact E|]. split; [exact E2|].
  eapply package_endures; [apply Hi | exact Ebp |].
  exact (grows_trans _ _ _ (pr_audit _ _ Hp) (pr_audit _ _ Hp2)).
Qed.
End Claims.
