(* ===== verification/EncodingProofs.v ===== *)
(** * What the canonical encodings give

    With [serde_json]'s documented text, canonical bytes determine the value, so
    a digest certifies the very data it was taken of (or two of the strings
    hashed collide); and what the other files ask of an encoder holds: it never
    fails, a struct's text starts with a brace, an event's text determines its
    id. *)

From S2P Require Import Prelude Text BTree Json Errors Identifiers Timestamps Correlation Events IntegrityModel.
From S2P Require Import Records Samples ReportModel Encoding Storage MemoryStore Integrity IntegrityProofs.
From S2P Require Import TamperLocation Reporting ReportingProofs Evidence EvidenceProofs PackageTamper System SystemProofs.
Open Scope list_scope.

Section Bytes.
Context {A : Type} `{SerdeJson A}.

Lemma to_vec_total (a : A) : is_ok (to_vec a) = true.
Proof. by rewrite serde_text. Qed.

Lemma canonical_json_Ok (a : A) : canonical_json a = Ok (json_print (to_json a)).
Proof. unfold canonical_json. by rewrite serde_text. Qed.

Lemma canonical_json_same (a b : A) x : canonical_json a = Ok x -> canonical_json b = Ok x -> to_json a = to_json b.
Proof. rewrite !canonical_json_Ok. intros [= <-] [= E%json_print_inj]. done. Qed.

Lemma canonical_json_inj `{!EncodeLaws A} (a b : A) x :
  encodable a -> encodable b -> canonical_json a = Ok x -> canonical_json b = Ok x -> a = b.
Proof. intros Ha Hb Ea Eb. apply to_json_inj; [done | done|]. by eapply canonical_json_same. Qed.
End Bytes.

(** The integrity slots are encodable when empty. *)
Lemma encodable_set_integrity r : encodable r -> encodable (set_integrity None r).
Proof. cbn. intuition. Qed.
Lemma encodable_content a : encodable a -> encodable (artifact_content a).
Proof. cbn. intuition. Qed.
Lemma encodable_set_digest r : encodable r -> encodable (report_set_digest None r).
Proof. cbn. intuition. Qed.

(** ** The hypotheses the other files make of an encoder *)

Lemma serde_object `{Serialize AuditRecord} `{!SerdeJson AuditRecord} : JsonObject AuditRecord.
Proof. intros r b. rewrite serde_text. intros [= <-]. eexists. reflexivity. Qed.

Lemma serde_json_total `{Serialize AuditEvent, Serialize AuditRecord, Serialize (list ManifestEntry),
    Serialize EvidenceArtifact} `{!SerdeJson AuditEvent, !SerdeJson AuditRecord,
    !SerdeJson (list ManifestEntry), !SerdeJson EvidenceArtifact} : json_total.
Proof. split; intros; apply to_vec_total. Qed.

Lemma serde_report_json_total `{Serialize AuditEvent, Serialize Report}
    `{!SerdeJson AuditEvent, !SerdeJson Report} : report_json_total.
Proof. split; intros; apply to_vec_total. Qed.

(** An event's text starts with its id. *)
Lemma serde_faithful `{Serialize AuditEvent} `{!SerdeJson AuditEvent} : faithful.
Proof.
  intros e e' x He He'. pose proof (canonical_json_same e e' x He He') as E. by injection E.
Qed.

(** ** Digests certify *)

Lemma cons_inj {A} (a b : A) l l' : a :: l = b :: l' -> a = b /\ l = l'.
Proof. by intros [= -> ->]. Qed.

Section Certify.
Context `{Sha256Laws} `{JsonStrings} `{Serialize AuditEvent} `{!SerdeJson AuditEvent}
  `{Serialize AuditRecord} `{!SerdeJson AuditRecord}
  `{Serialize (list ManifestEntry)} `{!SerdeJson (list ManifestEntry)}
  `{Serialize EvidenceArtifact} `{!SerdeJson EvidenceArtifact} `{Serialize Report} `{!SerdeJson Report}.

Lemma canonical_input_Ok r b : canonical_record_input r = Ok b <-> canonical_json (set_integrity None r) = Ok b.
Proof.
  unfold canonical_record_input, record_canonical_bytes. rewrite canonical_json_Ok. cbn [map_err]. split; congruence.
Qed.

Lemma canonical_input_inj r r' b :
  encodable r -> encodable r' -> canonical_record_input r = Ok b -> canonical_record_input r' = Ok b ->
  set_integrity None r = set_integrity None r'.
Proof.
  intros Hr Hr'. rewrite !canonical_input_Ok. apply canonical_json_inj; by apply encodable_set_integrity.
Qed.

Lemma same_body_encodable r r' :
  encodable r -> encodable r' -> same_body r r' -> set_integrity None r = set_integrity None r'.
Proof.
  intros Hr Hr' E. apply (canonical_input_inj r r' (json_print (to_json (set_integrity None r)))); [done | done | |].
  - by apply canonical_input_Ok, canonical_json_Ok.
  - rewrite <- E. by apply canonical_input_Ok, canonical_json_Ok.
Qed.

(** Sealing depends on the content alone. *)
Lemma seal_from_content p l l' :
  map (set_integrity None) l = map (set_integrity None) l' -> seal_from p l = seal_from p l'.
Proof.
  revert p l'. induction l as [|r l IH]; intros p [|r' l'] E; try done.
  apply cons_inj in E as [Er El]. simpl.
  assert (forall q, chain_step q r = chain_step q r') as Hs.
  { intros q. unfold chain_step. rewrite <- (canonical_input_set_integrity None r), <- (canonical_input_set_integrity None r').
    unfold canonical_record_input. by rewrite Er. }
  rewrite (Hs p). destruct (chain_step p r') as [d|]; [|done]. simpl. rewrite (IH (Some d) l' El).
  assert (forall i, set_integrity i r = set_integrity i r') as Hi.
  { intros i. change (set_integrity i (set_integrity None r) = set_integrity i (set_integrity None r')). by rewrite Er. }
  by rewrite Hi.
Qed.

Lemma bodies_content l l' :
  Forall encodable l -> Forall encodable l' -> Forall2 same_body l l' ->
  map (set_integrity None) l = map (set_integrity None) l'.
Proof.
  intros Hl Hl' Hb. induction Hb as [|r r' l l' Hb _ IH]; [done|].
  apply Forall_cons in Hl as [Hr Hl], Hl' as [Hr' Hl'].
  cbn [map]. rewrite (same_body_encodable r r' Hr Hr' Hb), (IH Hl Hl'). done.
Qed.

(** The five digests the program takes, and the data each is taken of. *)
Lemma record_id_certifies e e' now now' r r' :
  encodable e -> encodable e' -> from_event e now = Ok r -> from_event e' now' = Ok r' ->
  record_id r = record_id r' ->
  e = e' \/ exists b b', event_canonical_bytes e = Ok b /\ event_canonical_bytes e' = Ok b' /\ short_clash b b'.
Proof.
  intros He He' (_ & b & Hb & ->)%from_event_Ok_inv (_ & b' & Hb' & ->)%from_event_Ok_inv E.
  apply derive_bytes_inj in E as [<-|Hc]; [left; by eapply canonical_json_inj | right; eauto].
Qed.

Lemma hashed_once r d :
  record_digest r = Ok d -> exists b, canonical_record_input r = Ok b /\ b ∈ standalone_inputs [r] /\ d = hash_bytes b.
Proof.
  unfold record_digest, standalone_inputs. intros Hd. ok_inv. exists v. simpl. rewrite Hok. repeat split. left.
Qed.

Lemma record_digest_certifies r r' d :
  encodable r -> encodable r' -> record_digest r = Ok d -> record_digest r' = Ok d ->
  set_integrity None r = set_integrity None r' \/ clash (standalone_inputs [r]) (standalone_inputs [r']).
Proof.
  intros Hr Hr' Hd Hd'. destruct (hashed_once r d Hd) as (b & Hb & Hin & ->).
  destruct (hashed_once r' _ Hd') as (b' & Hb' & Hin' & E).
  destruct (hash_bytes_eq b b' _ _ Hin Hin' E) as [<-|]; [left; by eapply canonical_input_inj | by right].
Qed.

Lemma chain_certifies l l' d :
  Forall encodable l -> Forall encodable l' -> verify_chain l = Ok tt -> verify_chain l' = Ok tt ->
  final_digest None l = Ok d -> final_digest None l' = Ok d ->
  l = l' \/ clash (chain_inputs None l) (chain_inputs None l').
Proof.
  intros Hl Hl' Hv Hv' Hd Hd'. pose proof (serde_object : JsonObject AuditRecord) as Hj.
  destruct (final_digest_inj l l' d Hd Hd') as [Hb|]; [left | by right].
  apply verify_from_iff in Hv, Hv'. rewrite (seal_from_content None l l' (bodies_content l l' Hl Hl' Hb)) in Hv. congruence.
Qed.

Lemma text_digest_certifies {A} `{EncodeLaws A} `{Serialize A} `{!SerdeJson A} (a a' : A) b b' :
  encodable a -> encodable a' -> canonical_json a = Ok b -> canonical_json a' = Ok b' ->
  hash_bytes b = hash_bytes b' -> a = a' \/ clash [b] [b'].
Proof.
  intros Ha Ha' Hb Hb' E.
  destruct (hash_bytes_eq b b' [b] [b'] (list_elem_of_here _ _) (list_elem_of_here _ _) E) as [<-|]; [left | by right].
  by eapply canonical_json_inj.
Qed.

(** The strings hashed for a manifest: one per record, one for the entries. *)
Definition manifest_inputs (l : list AuditRecord) (m : IntegrityManifest) : list string :=
  standalone_inputs l ++ match aggregate_input (im_entries m) with Ok b => [b] | Err _ => [] end.

Lemma standalone_inputs_cons r l : standalone_inputs (r :: l) = standalone_inputs [r] ++ standalone_inputs l.
Proof. unfold standalone_inputs. simpl. by destruct (canonical_record_input r). Qed.

Definition certified (r : AuditRecord) (e : ManifestEntry) : Prop :=
  me_record_id e = record_id r /\ record_digest r = Ok (me_digest e).

Lemma entries_encodable l es : Forall encodable l -> Forall2 certified l es -> encodable es.
Proof.
  intros Hl Hes. induction Hes as [|r e l es [Hid _] _ IH]; [constructor|].
  apply Forall_cons in Hl as [Hr Hl]. constructor; [|by apply IH].
  cbn in Hr |- *. rewrite Hid. repeat split. apply Hr.
Qed.

Lemma entries_certify l l' es :
  Forall encodable l -> Forall encodable l' -> Forall2 certified l es -> Forall2 certified l' es ->
  map (set_integrity None) l = map (set_integrity None) l' \/ clash (standalone_inputs l) (standalone_inputs l').
Proof.
  intros Hl Hl' Hc. revert l' Hl'. induction Hc as [|r e l es [_ Hd] _ IH]; intros l' Hl' Hc'.
  { inversion Hc'. by left. }
  inversion Hc' as [|r' ? l1 ? [_ Hd'] Hc1]; subst.
  apply Forall_cons in Hl as [Hr Hl], Hl' as [Hr' Hl']. rewrite (standalone_inputs_cons r), (standalone_inputs_cons r').
  destruct (record_digest_certifies r r' _ Hr Hr' Hd Hd') as [E|Hcl]; [|right; by apply clash_app_l, clash_app_r].
  destruct (IH Hl l1 Hl' Hc1) as [El|(x & y & Hx & Hy & Hcl)].
  - left. cbn [map]. by rewrite E, El.
  - right. exists x, y. rewrite !elem_of_app. auto.
Qed.

Lemma manifest_certifies l l' opts opts' now now' m m' :
  Forall encodable l -> Forall encodable l' ->
  build_manifest l opts now = Ok m -> build_manifest l' opts' now' = Ok m' ->
  im_aggregate_digest m = im_aggregate_digest m' ->
  map (set_integrity None) l = map (set_integrity None) l' \/ clash (manifest_inputs l m) (manifest_inputs l' m').
Proof.
  intros Hl Hl' (He & (h & Hh & Ha) & _)%build_manifest_Ok_inv (He' & (h' & Hh' & Ha') & _)%build_manifest_Ok_inv E.
  apply manifest_entries_Ok in He as (Hc & _), He' as (Hc' & _). rewrite Ha, Ha' in E. injection E as <-.
  unfold aggregate_hex in Hh, Hh'. unfold manifest_inputs.
  destruct (aggregate_input (im_entries m)) as [b|] eqn:Eb; [|done].
  destruct (aggregate_input (im_entries m')) as [b'|] eqn:Eb'; [|done].
  cbn [rbind] in Hh, Hh'. assert (hash_bytes b = hash_bytes b') as E by (unfold hash_bytes in *; simpl in *; congruence).
  unfold aggregate_input in Eb, Eb'. rewrite serde_text in Eb, Eb'.
  destruct (text_digest_certifies (im_entries m) (im_entries m') b b') as [Ei|(x & y & Hx & Hy & Hcl)]; try done.
  - by apply (entries_encodable l).
  - by apply (entries_encodable l').
  - rewrite canonical_json_Ok. cbn [map_err] in Eb. congruence.
  - rewrite canonical_json_Ok. cbn [map_err] in Eb'. congruence.
  - rewrite <- Ei in Hc'. destruct (entries_certify l l' _ Hl Hl' Hc Hc') as [|Hcl]; [by left|].
    right. by apply clash_app_l, clash_app_r.
  - right. exists x, y. rewrite !elem_of_app. auto.
Qed.
End Certify.

(** ** Claims *)

(** C12 A digest certifies the data it was taken of.  With [serde_json]'s
    documented text, for values whose ids are checked ones: two records built from
    events under one record id carry the same event; two verified chains with one
    final digest are the same chain, integrity slots included; two manifests with
    one aggregate digest were built from the same records in the same order, up
    to their integrity slots; two intact artifacts with one digest are the same
    but for the digest and the manifest they name; two reports whose canonical
    bytes have one digest are the same but for that digest.  In each case the only
    alternative is that two of the strings that were hashed are different and
    have the same SHA-256 (for a record id, the same first 128 bits of it). *)
Theorem digests_certify `{Sha256Laws} `{JsonStrings} `{Serialize AuditEvent} `{!SerdeJson AuditEvent}
    `{Serialize AuditRecord} `{!SerdeJson AuditRecord}
    `{Serialize (list ManifestEntry)} `{!SerdeJson (list ManifestEntry)}
    `{Serialize EvidenceArtifact} `{!SerdeJson EvidenceArtifact} `{Serialize Report} `{!SerdeJson Report} :
  (forall e e' now now' r r',
     encodable e -> encodable e' -> from_event e now = Ok r -> from_event e' now' = Ok r' ->
     record_id r = record_id r' ->
     e = e' \/ exists b b', event_canonical_bytes e = Ok b /\ event_canonical_bytes e' = Ok b' /\ short_clash b b')
  /\ (forall l l' d, Forall encodable l -> Forall encodable l' ->
       verify_chain l = Ok tt -> verify_chain l' = Ok tt ->
       final_digest None l = Ok d -> final_digest None l' = Ok d ->
       l = l' \/ clash (chain_inputs None l) (chain_inputs None l'))
  /\ (forall l l' opts opts' now now' m m', Forall encodable l -> Forall encodable l' ->
       build_manifest l opts now = Ok m -> build_manifest l' opts' now' = Ok m' ->
       im_aggregate_digest m = im_aggregate_digest m' ->
       map (set_integrity None) l = map (set_integrity None) l'
       \/ clash (manifest_inputs l m) (manifest_inputs l' m'))
  /\ (forall a a', encodable a -> encodable a' ->
       artifact_intact a -> artifact_intact a' -> ea_digest a = ea_digest a' ->
       artifact_content a = artifact_content a'
       \/ exists b b', artifact_canonical_bytes a = Ok b /\ artifact_canonical_bytes a' = Ok b' /\ clash [b] [b'])
  /\ (forall r r' b b', encodable r -> encodable r' ->
       report_canonical_bytes r = Ok b -> report_canonical_bytes r' = Ok b' -> hash_bytes b = hash_bytes b' ->
       report_set_digest None r = report_set_digest None r' \/ clash [b] [b']).
Proof.
  split; [intros; by eapply record_id_certifies|]. split; [intros; by eapply chain_certifies|].
  split; [intros; by eapply manifest_certifies|]. split.
  - intros a a' Ha Ha' (b & Hb & Hd) (b' & Hb' & Hd') E. rewrite Hd, Hd' in E. injection E as E.
    destruct (text_digest_certifies (artifact_content a) (artifact_content a') b b') as [|Hc];
      try done; try by apply encodable_content.
    + by unfold hash_bytes; rewrite E.
    + by left.
    + right. eauto.
  - intros r r' b b' Hr Hr' Hb Hb' E.
    apply (text_digest_certifies (report_set_digest None r) (report_set_digest None r')); try done;
      by apply encodable_set_digest.
Qed.

Section Witness.
Local Existing Instances toy_sha toy_sha_laws toy_strings.
#[local] Instance any_json {A} `{Encode A} : Serialize A := json_text.
#[local] Instance any_serde {A} `{Encode A} : SerdeJson A.
Proof. by intros a. Qed.

(** The toy hash sees the first 32 bytes, so a record and the same record moved
    in time have one digest: the strings that collide are exhibited. *)
Definition early : AuditRecord := sample_record "0a" 1.
Definition late : AuditRecord := sample_record "0a" 9.

(** Their sealed chains, computed: one digest for both. *)
Definition chain_of (r : AuditRecord) : list AuditRecord :=
  match seal_chain [r] with Ok l => l | Err _ => [] end.
Definition early_chain : list AuditRecord := Eval vm_compute in chain_of early.
Definition late_chain : list AuditRecord := Eval vm_compute in chain_of late.

Lemma sample_chains_encodable : Forall encodable early_chain /\ Forall encodable late_chain.
Proof. split; (constructor; [cbn; repeat split; first [reflexivity | constructor] | constructor]). Qed.

Lemma digests_certify_witness :
  verify_chain early_chain = Ok tt /\ verify_chain late_chain = Ok tt /\ early_chain <> late_chain
  /\ clash (chain_inputs None early_chain) (chain_inputs None late_chain).
Proof.
  assert (verify_chain early_chain = Ok tt) as Hv by (vm_compute; reflexivity).
  assert (verify_chain late_chain = Ok tt) as Hv' by (vm_compute; reflexivity).
  assert (early_chain <> late_chain) as Hn by discriminate.
  refine (conj Hv (conj Hv' (conj Hn _))).
  destruct digests_certify as (_ & Hchain & _), sample_chains_encodable as [He He'].
  destruct (Hchain early_chain late_chain (last early_chain ≫= stored_digest) He He' Hv Hv') as [E|Hc];
    [vm_compute; reflexivity | vm_compute; reflexivity | by destruct (Hn E) | exact Hc].
Defined.
End Witness.
