(* ===== verification/SystemExamples.v ===== *)
(** * The system on a concrete deployment

    One administrator drives all five services over an in-memory store: two
    freezes are ingested, a case is opened and noted, evidence is built over the
    freezes, a report is generated and the access is logged.  The properties of
    {!SystemProofs} apply to this run. *)

From S2P Require Import Prelude Text BTree Errors Identifiers Timestamps Classification.
From S2P Require Import Correlation Events IntegrityModel Records Samples Pagination Storage.
From S2P Require Import MemoryStore MemoryPaging AccessModel Authorization Cases ReportModel.
From S2P Require Import AuditEvents Sources Normalizer NormalizerProofs Trail AccessLog CaseService.
From S2P Require Import CaseServiceProofs Reporting ReportingProofs Evidence EvidenceProofs.
From S2P Require Import Indexer IndexerProofs ReplayProofs IndexerExamples System SystemProofs.
Open Scope list_scope.

#[local] Existing Instances sum_sha toy_strings toy_event_json docs toy_report_json toy_query_json
  toy_record_json toy_entries_json toy_artifact_json.

#[local] Existing Instance sum_sha_laws.

(** ** Deciding that nothing clashes *)

Definition clash_freeb (es : list AuditEvent) (stored : list AuditRecord) : bool :=
  forallb (fun e => forallb (fun r =>
    match event_canonical_bytes e, event_canonical_bytes (event r) with
    | Ok b, Ok b' => bool_decide (b = b') || negb (bool_decide (derive_bytes (prefix := "rec") b = derive_bytes b'))
    | _, _ => true
    end) stored) es.

Abbreviation Sys := (System FixtureSource InMemoryCheckpointStore MemoryEventStore).

Lemma no_clash_check d (w : Sys) req es :
  (forall e, request_event d w req e -> e ∈ es) -> clash_freeb es (history (sy_audit w)) = true ->
  no_clash d w req.
Proof.
  intros Hes Hb e r bytes bytes' He Hr Eb Eb' Ed. unfold clash_freeb in Hb.
  rewrite forallb_forall in Hb. specialize (Hb e (proj1 (list_elem_of_In _ _) (Hes e He))).
  rewrite forallb_forall in Hb. specialize (Hb r (proj1 (list_elem_of_In _ _) Hr)).
  rewrite Eb, Eb' in Hb. apply orb_true_iff in Hb as [Hb|Hb]; [by apply bool_decide_eq_true in Hb|].
  by apply negb_true_iff, bool_decide_eq_false in Hb.
Qed.

Lemma orderly_cons d (w w' : Sys) req resp reqs :
  request_wf d w req -> no_clash d w req -> handle d w req = Some (w', resp) -> orderly d w' reqs ->
  orderly d w (req :: reqs).
Proof. intros Hwf Hc E Hr. split; [done|]. split; [done|]. intros w1 resp1 E1. congruence. Qed.

(** ** The deployment and its requests *)

Definition admin : AuditorId := mkId (mkStableId "aud" "aud_07").
Definition staff : Registry :=
  fst (register Registry_new (with_credential (Credential_new admin "k" (mkTimestamp 100))
         (with_scope ScopeAll (Grant_new admin Administrator)))).
Definition site : Deployment :=
  mkDeployment (mkCaseService testnet "cases" v1 staff) (ReportService_new testnet "reports" v1 v1 staff)
    (mkEvidenceBuilder testnet "evidence" v1 v1 staff) (StoreAccessLog_new testnet "access" v1)
    (ix_of SkipDuplicates).

Definition start : Sys :=
  mkSystem CaseStore_new MemoryEventStore_new (mkFixtureSource "rpc" good_items) CheckpointStore_new.

Definition at_ (t : Z) : CaseService.Readings := mkReadings (mkTimestamp t) (mkTimestamp t) (mkTimestamp t).
Definition key1 : CaseId := derive [network_str testnet; "k"].

Definition after (w : Sys) (req : Request) : Sys :=
  match handle site w req with Some (w', _) => w' | None => w end.

Definition answer (w : Sys) (req : Request) : Response :=
  match handle site w req with Some (_, resp) => resp | None => Ingested (Err (IxInternal "")) end.

Definition req1 : Request := Ingest (tick 5).
Definition sys1 : Sys := Eval vm_compute in after start req1.
Definition ans1 : Response := Eval vm_compute in answer start req1.
Definition req2 : Request := CaseRequest (at_ 6) admin (OpOpen "freeze" PriorityLow "k").
Definition sys2 : Sys := Eval vm_compute in after sys1 req2.
Definition ans2 : Response := Eval vm_compute in answer sys1 req2.
Definition req3 : Request := CaseRequest (at_ 7) admin (OpNote key1 "checked").
Definition sys3 : Sys := Eval vm_compute in after sys2 req3.
Definition ans3 : Response := Eval vm_compute in answer sys2 req3.
(** The two ingested records. *)
Definition freezes : list RecordId := map record_id (history (sy_audit sys1)).
Definition req4 : Request :=
  EvidenceRun (mkEvReadings (mkTimestamp 8) (mkTimestamp 8) (mkTimestamp 8)) (mkBuildOptions TransactionEvidence freezes admin).
Definition sys4 : Sys := Eval vm_compute in after sys3 req4.
Definition ans4 : Response := Eval vm_compute in answer sys3 req4.
Definition req5 : Request :=
  ReportRun (mkRepReadings (mkTimestamp 9) (mkTimestamp 9) (mkTimestamp 9))
    (ReportRequest_new ComplianceActivity ReportQuery_all admin (mkTimestamp 9)).
Definition sys5 : Sys := Eval vm_compute in after sys4 req5.
Definition ans5 : Response := Eval vm_compute in answer sys4 req5.
Definition req6 : Request :=
  AccessEntry (AuditAccessEntry_new (mkId (mkStableId "acc" "acc_01")) admin ReadRecord "all" None AccessGranted (mkTimestamp 10))
    (mkTimestamp 10).
Definition sys6 : Sys := Eval vm_compute in after sys5 req6.
Definition ans6 : Response := Eval vm_compute in answer sys5 req6.

Local Abbreviation step_ok w req w' resp := (handle site w req = Some (w', resp)).
Lemma step1 : step_ok start req1 sys1 ans1.
Proof. vm_cast_no_check (eq_refl (Some (sys1, ans1))). Qed.
Lemma step2 : step_ok sys1 req2 sys2 ans2.
Proof. vm_cast_no_check (eq_refl (Some (sys2, ans2))). Qed.
Lemma step3 : step_ok sys2 req3 sys3 ans3.
Proof. vm_cast_no_check (eq_refl (Some (sys3, ans3))). Qed.
Lemma step4 : step_ok sys3 req4 sys4 ans4.
Proof. vm_cast_no_check (eq_refl (Some (sys4, ans4))). Qed.
Lemma step5 : step_ok sys4 req5 sys5 ans5.
Proof. vm_cast_no_check (eq_refl (Some (sys5, ans5))). Qed.
Lemma step6 : step_ok sys5 req6 sys6 ans6.
Proof. vm_cast_no_check (eq_refl (Some (sys6, ans6))). Qed.

Lemma start_inv : sys_inv start.
Proof. split; [exact new_store_inv | constructor | exact cases_inv_new]. Qed.

Lemma site_deployed : deployed site.
Proof. unfold deployed, MAX_PAGE_SIZE. simpl. lia. Qed.

Lemma toy_faithful : faithful.
Proof.
  intros e e' bytes. unfold event_canonical_bytes, canonical_json, to_vec, toy_event_json. simpl.
  intros [= <-] [= E]. assert (String.length (as_str (event_id e')) = String.length (as_str (event_id e))) as El.
  { apply (f_equal String.length) in E. rewrite !length_append in E. simpl in E. lia. }
  by destruct (append_inj_length _ _ _ _ El E) as [-> _].
Qed.

(** ** The run is orderly *)

(** The events this run records are those of the records the next state holds. *)
Definition stored_events (w : Sys) : list AuditEvent := map event (history (sy_audit w)).

Local Ltac clashless w' :=
  apply (no_clash_check _ _ _ (stored_events w')); [|vm_compute; reflexivity];
  intros e; cbn [request_event].
Local Ltac stored_now := apply (bool_decide_unpack _); vm_compute; exact I.

Lemma now_i64 t : (0 <= t <= 100)%Z -> in_i64 (unix_seconds (mkTimestamp t)).
Proof. unfold in_i64, i64_min, i64_max. simpl. lia. Qed.

Lemma admin_wf : id_wf admin.
Proof. vm_compute. reflexivity. Qed.

Definition page : SourcePage := page1 good_items.

Lemma ingest_events clock e : request_event site start (Ingest clock) e -> e ∈ page_events (ix_of SkipDuplicates) page.
Proof.
  intros (pg & E & He). assert (pg = page) as <-; [|exact He].
  assert (served (ix_of SkipDuplicates) (index_world start) = Some page) as Ep by reflexivity.
  change (dp_indexer site) with (ix_of SkipDuplicates) in E. congruence.
Qed.

Definition freeze_events : list AuditEvent := Eval vm_compute in page_events (ix_of SkipDuplicates) page.

Lemma page_freezes : page_events (ix_of SkipDuplicates) page = freeze_events.
Proof. vm_compute. reflexivity. Qed.

Lemma freezes_ok : Forall (fun e => order_wf (order e) /\ id_wf (event_id e)) freeze_events.
Proof.
  unfold freeze_events. apply Forall_cons_2; [|apply Forall_cons_2; [|apply Forall_nil_2]].
  all: split; [|reflexivity]; unfold order_wf; simpl.
  all: split; [|split]; intros z [= <-].
  all: vm_compute; split; discriminate.
Qed.

Lemma req1_wf : request_wf site start req1.
Proof.
  split; [intros n; by apply now_i64|]. intros e He%ingest_events. rewrite page_freezes in He.
  pose proof freezes_ok as Hp. rewrite Forall_forall in Hp. by apply Hp.
Qed.

Lemma req1_clash : no_clash site start req1.
Proof. apply (no_clash_check _ _ _ _ (ingest_events (tick 5))). reflexivity. Qed.

Lemma req2_clash : no_clash site sys1 req2.
Proof. clashless sys2. intros (c & Ec & Ee). vm_compute in Ec. injection Ec as <-. vm_compute in Ee. injection Ee as <-. stored_now. Qed.

Lemma req3_clash : no_clash site sys2 req3.
Proof. clashless sys3. intros (c & Ec & Ee). vm_compute in Ec. injection Ec as <-. vm_compute in Ee. injection Ee as <-. stored_now. Qed.

Lemma req4_clash : no_clash site sys3 req4.
Proof.
  clashless sys4. intros (rs & a & m & Es & Ea & Ee). vm_compute in Es. injection Es as <-.
  vm_compute in Ea. injection Ea as <- <-. vm_compute in Ee. injection Ee as <-. stored_now.
Qed.

Lemma req5_clash : no_clash site sys4 req5.
Proof.
  clashless sys5. intros (q & rep & Eq & Er & Ee). vm_compute in Eq. injection Eq as <-.
  vm_compute in Er. injection Er as <-. vm_compute in Ee. injection Ee as <-. stored_now.
Qed.

Lemma req6_clash : no_clash site sys5 req6.
Proof. clashless sys6. intros Ee. vm_compute in Ee. injection Ee as <-. stored_now. Qed.

Definition requests : list Request := [req1; req2; req3; req4; req5; req6].

Lemma case_wf w t op : (0 <= t <= 100)%Z -> request_wf site w (CaseRequest (at_ t) admin op).
Proof. intros Ht. split; [by apply now_i64 | exact admin_wf]. Qed.

Lemma tail_orderly : orderly site sys3 [req4; req5; req6].
Proof.
  apply (orderly_cons _ sys3 _ req4 _ _ (now_i64 8 ltac:(lia)) req4_clash step4).
  apply (orderly_cons _ sys4 _ req5 _ _ (now_i64 9 ltac:(lia)) req5_clash step5).
  exact (orderly_cons _ sys5 _ req6 _ [] (now_i64 10 ltac:(lia)) req6_clash step6 I).
Qed.

Lemma head_orderly reqs : orderly site sys3 reqs -> orderly site start (req1 :: req2 :: req3 :: reqs).
Proof.
  intros Hr. apply (orderly_cons _ _ _ _ _ _ req1_wf req1_clash step1).
  apply (orderly_cons _ _ _ _ _ _ (case_wf _ 6 _ ltac:(lia)) req2_clash step2).
  exact (orderly_cons _ _ _ _ _ _ (case_wf _ 7 _ ltac:(lia)) req3_clash step3 Hr).
Qed.

Lemma requests_orderly : orderly site start requests.
Proof. apply head_orderly, tail_orderly. Qed.

(** ** Witnesses *)

Lemma site_recordable : recordable site.
Proof. by split. Qed.

Lemma encoders_total : json_total.
Proof. by split. Qed.

Lemma system_serves_witness :
  exists w' resps, handle_all site start requests = Some (w', resps) /\ length resps = 6 /\ sys_inv w'.
Proof. exact (system_serves site start requests site_deployed toy_faithful start_inv requests_orderly). Defined.

Lemma handle_all_cons (w w1 w2 : Sys) req resp reqs resps :
  handle site w req = Some (w1, resp) -> handle_all site w1 reqs = Some (w2, resps) ->
  handle_all site w (req :: reqs) = Some (w2, resp :: resps).
Proof. intros E1 E2. cbn [handle_all]. by rewrite E1, E2. Qed.

Lemma run_tail : handle_all site sys3 [req4; req5; req6] = Some (sys6, [ans4; ans5; ans6]).
Proof.
  apply (handle_all_cons _ _ _ _ _ _ _ step4), (handle_all_cons _ _ _ _ _ _ _ step5).
  exact (handle_all_cons _ _ _ _ _ [] [] step6 eq_refl).
Qed.

Lemma run_head reqs w resps :
  handle_all site sys3 reqs = Some (w, resps) ->
  handle_all site start (req1 :: req2 :: req3 :: reqs) = Some (w, ans1 :: ans2 :: ans3 :: resps).
Proof.
  intros E. apply (handle_all_cons _ _ _ _ _ _ _ step1), (handle_all_cons _ _ _ _ _ _ _ step2).
  exact (handle_all_cons _ _ _ _ _ _ _ step3 E).
Qed.

(** The state before the evidence is built is consistent. *)
Lemma sys3_inv : sys_inv sys3.
Proof.
  destruct (handle_all_spec site start [req1; req2; req3] site_deployed toy_faithful start_inv (head_orderly [] I))
    as (w' & resps & E & _ & Hp).
  pose proof (run_head [] sys3 [] eq_refl) as E'.
  assert (w' = sys3) as -> by congruence. exact (progress_inv _ _ start_inv Hp).
Qed.

(** The case noted in the third request is kept as it is by the last three. *)
Definition noted : option InvestigationCase := bt_get key1 (cases (sy_cases sys3)).

Lemma system_append_only_witness :
  exists c c', noted = Some c /\ bt_get key1 (cases (sy_cases sys6)) = Some c' /\ extends c c'
    /\ exists new, history (sy_audit sys6) ≡ₚ new ++ history (sy_audit sys3).
Proof.
  destruct (system_append_only site sys3 [req4; req5; req6] sys6 [ans4; ans5; ans6] site_deployed toy_faithful
              sys3_inv tail_orderly run_tail) as [Hnew Hcases].
  destruct noted as [c|] eqn:E; [|vm_compute in E; discriminate E].
  destruct (Hcases key1 c E) as (c' & Hg & _ & Hx & _).
  exists c, c'. split; [reflexivity|]. split; [exact Hg|]. split; [exact Hx | exact Hnew].
Defined.

(** The note is the case's first entry: its event is in the store. *)
Lemma system_trail_complete_witness :
  exists t who, authorized (dp_cases site) t who
    /\ step_id site key1 who 1 ∈ map rec_event_id (es_history (sy_audit sys6)).
Proof.
  destruct (bt_get key1 (cases (sy_cases sys6))) as [c|] eqn:E; [|vm_compute in E; discriminate E].
  apply (system_trail_complete site start requests sys6 [ans1; ans2; ans3; ans4; ans5; ans6] key1 c 1 site_deployed toy_faithful
           site_recordable start_inv eq_refl requests_orderly (run_head _ _ _ run_tail) E).
  vm_compute in E. injection E as <-. simpl. lia.
Defined.

Lemma system_evidence_endures_witness :
  exists pkg w2 resps, handle_all site sys4 [req5; req6] = Some (w2, resps)
    /\ exists v, verify_package pkg (sy_audit w2) = Ok v /\ ver_verified v = true
         /\ map vo_record_id (ver_records v) ≡ₚ freezes.
Proof.
  destruct (system_evidence_endures site sys3 (mkEvReadings (mkTimestamp 8) (mkTimestamp 8) (mkTimestamp 8))
              (mkBuildOptions TransactionEvidence freezes admin) [req5; req6] site_deployed toy_faithful encoders_total
              sys3_inv tail_orderly)
    as (w1 & pkg & w2 & resps & E & E2 & v & Hv & Hok & Hids & _).
  - reflexivity.
  - reflexivity.
  - discriminate.
  - apply (bool_decide_unpack _). vm_compute. exact I.
  - apply (bool_decide_unpack _). vm_compute. exact I.
  - eexists. split; [vm_compute; reflexivity | reflexivity].
  - exists pkg, w2, resps. split; [|exists v; split; [exact Hv|]; split; [exact Hok | exact Hids]].
    assert (w1 = sys4) as <-; [|exact E2]. pose proof step4 as E4. unfold req4 in E4. congruence.
Defined.
