(* ===== verification/SorobanExamples.v ===== *)
(** * The Soroban door on concrete recordings

    The mock client behind the bridge and the registry-gated source, on a
    recording with an admitted contract, an unregistered one and a system event;
    the inputs at which the adapter's theorems are exercised, among them a feed on
    which the indexer makes no progress. *)

From S2P Require Import Prelude Text BTree Errors Identifiers Timestamps Classification.
From S2P Require Import Correlation Events IntegrityModel Records Samples Pagination Storage.
From S2P Require Import MemoryStore MemoryPaging AccessModel Authorization ReportModel AuditEvents.
From S2P Require Import Sources Normalizer NormalizerProofs Trail Reporting ReportingProofs.
From S2P Require Import Indexer IndexerProofs ReplayProofs IndexerExamples.
From S2P Require Import Soroban SorobanProofs Rpc RpcProofs Pipeline.
Open Scope nat_scope.
Open Scope list_scope.

#[local] Existing Instance sum_sha.
#[local] Existing Instance toy_strings.
#[local] Existing Instance toy_event_json.

Definition HOOKS_CONTRACT : string := "CDLZFC3SYJYDZT7K67VZ75HPJVIEUVNIXF47ZG2FB2RMQQVU2HHGCYSC".

Definition wire_event (n : string) (contract : option string) : SorobanEvent :=
  mkSorobanEvent TypeContract 421 None contract ("0016010972359577600-000000000" +:+ n) (Some 0%Z) (Some 0%Z)
    (Some true) ["AAAADwAAAAh0cmFuc2Zlcg=="] None None.

Definition recording : list SorobanEvent :=
  [wire_event "1" (Some HOOKS_CONTRACT); wire_event "2" None; wire_event "3" (Some "COTHER");
   wire_event "4" (Some HOOKS_CONTRACT)].
Definition foreign : list SorobanEvent :=
  [wire_event "1" (Some "COTHER"); wire_event "2" None; wire_event "3" (Some HOOKS_CONTRACT)].

Definition hooks_registry : ContractRegistry :=
  registry_register ContractRegistry_new testnet (mkContractId HOOKS_CONTRACT)
    (mkContractLabel "safeguard-hooks-testnet").

Definition feed_over (events : list SorobanEvent) : EventsRpcFeed MockEventsClient :=
  EventsRpcFeed_new (MockEventsClient_new events) (Some 420%Z).
Definition source_over (events : list SorobanEvent) : SorobanEventSource (EventsRpcFeed MockEventsClient) :=
  SorobanEventSource_new "soroban-testnet" testnet hooks_registry (feed_over events).

(** The payload of an event: its id. *)
#[local] Instance id_json : Serialize SorobanEvent := fun e => Ok (se_id e).

Definition toid (n : string) : string := "0016010972359577600-000000000" +:+ n.
Definition item (n : string) : RawEventItem := mkRawEventItem "safeguard-hooks-testnet" (toid n) (toid n).

Lemma served_item e i :
  admission hooks_registry testnet e = Some (mkContractLabel "safeguard-hooks-testnet") ->
  RawEventItem_new "safeguard-hooks-testnet" (se_id e) (se_id e) = Ok i ->
  item_for hooks_registry testnet e i.
Proof. intros Ha Hi. by exists (mkContractLabel "safeguard-hooks-testnet"), (se_id e). Qed.

Lemma soroban_fetch_exact_witness :
  exists s', soroban_fetch_after (source_over recording) None 3 = (s', Ok (mkSourcePage [item "1"] (Some (toid "3"))))
    /\ ss_skipped s' = 2 /\ StronglySorted str_lt [toid "1"].
Proof.
  destruct (soroban_fetch_exact (source_over recording) None 3 ltac:(lia)) as (Hok & Hpos & _).
  eexists. split; [|split].
  - apply Hok. split; [done|]. split; [done|].
    eexists _, _, [item "1"], 2. split; [reflexivity|]. split; [|by split].
    constructor; [repeat constructor | repeat constructor | constructor; [by apply served_item | constructor] | done].
  - reflexivity.
  - refine (proj1 (Hpos _ (mkSourcePage [item "1"] (Some (toid "3"))) _)). vm_compute. reflexivity.
Defined.

Lemma recording_servable : servable hooks_registry testnet recording.
Proof.
  constructor; [repeat constructor | repeat constructor |].
  repeat (constructor; [intros Ha; try discriminate Ha; eexists; by apply served_item|]). constructor.
Qed.

Lemma drain_complete_witness :
  exists s' served, drain 5 (source_over recording) None 2 [] = Some (s', served)
    /\ served = [item "1"; item "4"] /\ ss_skipped s' = 2.
Proof.
  destruct (drain_complete (source_over recording) 2) as (s' & served & E & _ & Hk);
    [by split | exact recording_servable | split; done |].
  exists s', served. split; [exact E|]. vm_compute in E. injection E as <- <-. done.
Defined.

(** Two failures, then the page. *)
Definition shaky : MockEventsClient := fail_next 2 (MockEventsClient_new recording).
Definition ask (c : MockEventsClient) := get_events c (feed_params (Some 420%Z) None 1).

Lemma retry_exact_witness :
  exists page, sr_events page = [wire_event "1" (Some HOOKS_CONTRACT)]
    /\ fetch_with_retry RetryPolicy_default ask shaky
       = (MockEventsClient_new recording, [200000000; 400000000]%Z, Ok page).
Proof.
  eexists. split; [|exact (proj2 (retry_exact RetryPolicy_default ask shaky ltac:(by compute)) 2
    (mkSorobanEventsResult [wire_event "1" (Some HOOKS_CONTRACT)] (Some (toid "1")) None None None None)
    ltac:(by compute)
    ltac:(intros [|[|k]] Hk; [eexists; by split | eexists; by split | lia]) ltac:(by vm_compute))].
  reflexivity.
Defined.

Lemma backoff_bounds_witness :
  (fold_right Z.add 0 (sleeps RetryPolicy_default 1 4) <= 4 * from_secs 5)%Z.
Proof.
  destruct (backoff_bounds 5 (from_millis 200) (from_secs 5) RetryPolicy_default) as (_ & _ & _ & Hsum);
    [by compute | by compute | by compute | reflexivity |].
  apply (Hsum 4). reflexivity.
Defined.

(** The first two events are not admitted: with pages of two, nothing ever moves. *)
Lemma foreign_wedged : wedged (source_over foreign) None 2.
Proof.
  constructor; [done | done |]. eexists _, 2. split; [reflexivity|]. split; [|done].
  constructor; [repeat constructor | repeat constructor | constructor | done].
Qed.

Section Wedged.
#[local] Existing Instance docs.

Lemma skipped_page_wedges_witness :
  wedged (source_over foreign) None 2
  /\ replay_into 1000 config1 (mkTimestamp 5) (source_over foreign) MemoryEventStore_new None
       (mkReplayOptions None None 2) = None.
Proof.
  split; [exact foreign_wedged|].
  exact (proj2 (skipped_page_wedges (P := InMemoryCheckpointStore) config1 (mkTimestamp 5) (source_over foreign) None
    (mkReplayOptions None None 2) foreign_wedged eq_refl eq_refl eq_refl) 1000 MemoryEventStore_new).
Defined.

End Wedged.

(** Following the page's own next position instead crosses it. *)
Example drain_crosses_skipped_pages :
  option_map snd (drain 4 (source_over foreign) None 2 []) = Some [item "3"].
Proof. by vm_compute. Qed.

(** A system event that names a registered contract is admitted like any other. *)
Example system_event_admitted :
  let e := wire_event "1" (Some HOOKS_CONTRACT) in
  let system := mkSorobanEvent TypeSystem (se_ledger e) (se_closed_at e) (se_contract_id e) (se_id e)
                  (se_transaction_index e) (se_operation_index e) (se_successful_call e) (se_topic e)
                  (se_value e) (se_tx_hash e) in
  snd (soroban_fetch_after (source_over [system]) None 1) = Ok (mkSourcePage [item "1"] None).
Proof. by vm_compute. Qed.

(** A decoder that reads the payload of event 1 back. *)
Definition reader : JsonDecoder := {|
  json_from_str := fun s => if String.eqb s (toid "1") then Ok (SorobanEvent_to_value (wire_event "1" (Some HOOKS_CONTRACT)))
                            else Err "syntax";
  event_from_value := fun _ => Err "not an envelope"
|}.

Section Refused.
#[local] Existing Instance reader.

Definition ix_skip : Indexer := mkIndexer config1 SkipDuplicates SkipAndReport 10.

Definition one_event : SorobanEventSource (EventsRpcFeed MockEventsClient) :=
  source_over [wire_event "1" (Some HOOKS_CONTRACT)].

Lemma soroban_items_refused_witness :
  exists w' rep,
    run_once ix_skip (tick 5) (mkWorld one_event CheckpointStore_new MemoryEventStore_new) = (w', Ok rep)
    /\ ir_inserted rep = 0 /\ ir_quarantined rep = [toid "1"].
Proof.
  assert (soroban_fetch_after one_event None 10 = (fst (soroban_fetch_after one_event None 10),
            Ok (mkSourcePage [item "1"] None))) as Hfetch by (vm_compute; reflexivity).
  destruct (run_once ix_skip (tick 5) (mkWorld one_event CheckpointStore_new MemoryEventStore_new)) as [w' r] eqn:E.
  destruct r as [rep|e]; [|vm_compute in E; discriminate E].
  exists w', rep. split; [reflexivity|].
  destruct (soroban_items_refused ix_skip (tick 5) one_event (fst (soroban_fetch_after one_event None 10))
    CheckpointStore_new MemoryEventStore_new None (mkSourcePage [item "1"] None)) as [_ Hrun].
  - vm_compute. reflexivity.
  - exact Hfetch.
  - intros f' res e Ef He payload Hp. vm_compute in Ef. injection Ef as <- <-.
    apply list_elem_of_singleton in He as ->. injection Hp as <-. reflexivity.
  - destruct (Hrun w' rep E) as (Hi & _ & _ & Hq & _). split; assumption.
Defined.
End Refused.

Section Reported.
#[local] Existing Instance docs.
#[local] Instance report_json : Serialize Report := fun r => Ok ("{" +:+ as_str (rp_report_id r) +:+ "}").
#[local] Instance query_json : Serialize ReportQuery := fun _ => Ok "{}".

(** The store the replay of the two good items leaves, its keys checked one by one. *)
Definition good_target : MemoryEventStore :=
  match good_replay with Some (_, target', _) => target' | None => MemoryEventStore_new end.

Definition in_range (lo hi : Z) (o : option Z) : bool :=
  match o with Some z => (lo <=? z)%Z && (z <=? hi)%Z | None => true end.
Definition key_okb (k : PositionKey) : bool :=
  in_range i64_min i64_max (pk_ledger k) && in_range 0 u32_max (pk_operation k)
  && in_range 0 u32_max (pk_event k) && in_range i64_min i64_max (Some (pk_recorded_at k))
  && match from_checked (as_str (pk_record_id k)) with
     | Ok id => bool_decide (id = pk_record_id k)
     | Err _ => false
     end
  && (str_len (as_str (pk_record_id k)) <=? 64)%Z.

Lemma key_okb_wf k : key_okb k = true -> key_wf k.
Proof.
  unfold key_okb, in_range. rewrite !andb_true_iff. intros [[[[[Hl Ho] He] Hr] Hid] Hlen].
  constructor; unfold in_i64, in_u32.
  - intros z E. rewrite E in Hl. lia.
  - intros z E. rewrite E in Ho. lia.
  - intros z E. rewrite E in He. lia.
  - lia.
  - unfold id_wf. destruct (from_checked _); [|done]. by apply bool_decide_eq_true in Hid as ->.
  - lia.
Qed.

Lemma good_keys : Forall (fun r => key_wf (PositionKey_of r)) (es_history good_target).
Proof.
  assert (forallb (fun r => key_okb (PositionKey_of r)) (es_history good_target) = true) as Hk by by vm_compute.
  apply forallb_Forall_true in Hk. eapply Forall_impl; [exact Hk|]. intros r. apply key_okb_wf.
Qed.

(** The event of a report over that store takes no stored record's id. *)
Definition report_id_free : bool :=
  match (let? q := to_audit_query (rr_query request2) in
         map_err (fun _ => Internal "") (prepare svc2 rt2 request2 (query_view q (es_history good_target)))) with
  | Ok report =>
      match ReportLifecycle_into_audit_event (lifecycle_of svc2 request2 report) EventSlot_default with
      | Ok e => match event_canonical_bytes e with
                | Ok bytes => bool_decide (derive_bytes bytes ∉ map record_id (es_history good_target))
                | Err _ => true
                end
      | Err _ => true
      end
  | Err _ => true
  end.

Lemma good_report_fresh e : report_event svc2 rt2 good_target request2 e -> ids_fresh good_target e.
Proof.
  intros (q & report & Eq & Ep & Ee) _ bytes Hb.
  assert (report_id_free = true) as Hfree by by vm_compute.
  unfold report_id_free in Hfree. rewrite Eq in Hfree. cbn [rbind] in Hfree. rewrite Ep in Hfree.
  cbn [map_err] in Hfree. rewrite Ee, Hb in Hfree. by apply bool_decide_eq_true in Hfree.
Qed.

Lemma good_report :
  match generate svc2 rt2 good_target request2 with
  | Some (_, Ok _) => true
  | _ => false
  end = true.
Proof. by vm_compute. Qed.

Lemma good_nodup : NoDup (map raw_position (feed (mkFixtureSource "rpc" good_items))).
Proof. simpl. apply NoDup_cons. split; [|apply NoDup_singleton]. by intros [=]%list_elem_of_singleton. Qed.

Lemma ingested_is_reported_witness :
  exists source' rep audit' report,
    replay_into 3 config1 (mkTimestamp 5) (mkFixtureSource "rpc" good_items) MemoryEventStore_new None options1
      = Some (source', good_target, Ok rep)
    /\ generate svc2 rt2 good_target request2 = Some (audit', Ok report)
    /\ rs_total_records (rp_summary report) = Z.of_nat (rr_inserted rep).
Proof.
  destruct (ingested_is_reported config1 (mkTimestamp 5) (mkFixtureSource "rpc" good_items) MemoryEventStore_new options1
    svc2 rt2 request2 eq_refl eq_refl eq_refl
    good_nodup
    new_store_inv good_ids ltac:(unfold MAX_PAGE_SIZE; simpl; lia) eq_refl) as (s' & t' & res & E & Hrep).
  change (length (feed (mkFixtureSource "rpc" good_items)) + 1) with 3 in E.
  assert (good_target = t') as Et by (unfold good_target, good_replay; by rewrite E).
  pose proof replay_good as Hg. unfold good_replay in Hg. rewrite E in Hg.
  destruct res as [rep|e]; [|discriminate Hg]. rewrite <- Et in *.
  destruct (Hrep rep eq_refl good_keys good_report_fresh) as (_ & audit' & r & Eg & Hr).
  pose proof good_report as Hok. rewrite Eg in Hok. destruct r as [report|]; [|discriminate Hok].
  exists s', rep, audit', report. split; [exact E|]. split; [exact Eg | exact Hr].
Defined.
End Reported.
