(* ===== verification/Vectors.v ===== *)
(** * The repository's test vectors ([test-vectors/])

    The committed vectors as values of the model, one definition per file, with
    what each declares.  {!VectorRuns} runs the model on them the way the test
    walkers of [crates/integration-tests/tests] and
    [crates/event-normalizer/tests] run the program. *)

From S2P Require Import Prelude Text BTree Errors Identifiers Timestamps Classification Correlation.
From S2P Require Import Events IntegrityModel Records ReportModel Normalizer Evidence Soroban.
Open Scope list_scope.
Open Scope Z_scope.

(** ** Authorization decisions *)

Record AuthVector := mkAuthVector {
  av_role : string;
  av_granted_scopes : list string;
  av_credential_expires_at : Z;
  av_unknown_auditor : bool;
  av_action : string;
  av_requested_scope : string;
  av_now : Z;
  av_allowed : bool;
  av_reason : string
}.

(** [test-vectors/authorization/allowed-within-scope.json]. *)
Definition auth_allowed_within_scope : AuthVector :=
  mkAuthVector "senior-auditor" ["network:testnet"] 9999999999 false
    "read-record" "network:testnet" 1700000000 true "GRANTED".

(** [test-vectors/authorization/denied-action-not-in-role.json]. *)
Definition auth_denied_action_not_in_role : AuthVector :=
  mkAuthVector "read-only-reviewer" ["network:testnet"] 9999999999 false
    "generate-report" "network:testnet" 1700000000 false "ACTION_DENIED".

(** [test-vectors/authorization/denied-expired-credential.json]. *)
Definition auth_denied_expired_credential : AuthVector :=
  mkAuthVector "administrator" ["all"] 1700000000 false
    "read-record" "network:testnet" 1700000001 false "CREDENTIAL_EXPIRED".

(** [test-vectors/authorization/denied-unknown-auditor.json]. *)
Definition auth_denied_unknown_auditor : AuthVector :=
  mkAuthVector "auditor" [] 9999999999 true
    "read-record" "network:testnet" 1700000000 false "UNKNOWN_AUDITOR".

(** [test-vectors/authorization/out-of-scope-classification.json]. *)
Definition auth_out_of_scope_classification : AuthVector :=
  mkAuthVector "compliance-officer" ["classification:confidential"] 9999999999 false
    "request-protected-data" "classification:restricted" 1700000000 false "SCOPE_OUT_OF_BOUNDS".

(** [test-vectors/authorization/out-of-scope-network.json]. *)
Definition auth_out_of_scope_network : AuthVector :=
  mkAuthVector "auditor" ["network:testnet"] 9999999999 false
    "read-record" "network:mainnet" 1700000000 false "SCOPE_OUT_OF_BOUNDS".

Definition authorization_corpus : list AuthVector :=
  [ auth_allowed_within_scope;
    auth_denied_action_not_in_role;
    auth_denied_expired_credential;
    auth_denied_unknown_auditor;
    auth_out_of_scope_classification;
    auth_out_of_scope_network ].

(** ** Case transitions *)

Record LifecycleVector := mkLifecycleVector { lv_from : string; lv_to : string; lv_allowed : bool }.

Definition lifecycle_corpus : list LifecycleVector :=
  [ mkLifecycleVector "closed" "open" true;
    mkLifecycleVector "escalated" "investigating" true;
    mkLifecycleVector "escalated" "resolved" true;
    mkLifecycleVector "investigating" "resolved" true;
    mkLifecycleVector "open" "escalated" true;
    mkLifecycleVector "open" "investigating" true;
    mkLifecycleVector "resolved" "closed" true;
    mkLifecycleVector "resolved" "open" true;
    mkLifecycleVector "closed" "escalated" false;
    mkLifecycleVector "closed" "investigating" false;
    mkLifecycleVector "investigating" "open" false;
    mkLifecycleVector "open" "closed" false;
    mkLifecycleVector "open" "resolved" false ].

(** ** Report queries *)

(** [test-vectors/reporting/valid/account-and-kinds.json]. *)
Definition query_account_and_kinds : ReportQuery :=
  mkReportQuery None None []
    [TransferDenied; AccountFrozen] None (Some (mkAccountId "GASENDERACCOUNTDEMO0000000000000000000000000000000000")) None.

(** [test-vectors/reporting/valid/all.json]. *)
Definition query_all : ReportQuery :=
  mkReportQuery None None []
    [] None None None.

(** [test-vectors/reporting/valid/denied-outcome.json]. *)
Definition query_denied_outcome : ReportQuery :=
  mkReportQuery None None []
    [] (Some Denied) None None.

(** [test-vectors/reporting/valid/multi-token.json]. *)
Definition query_multi_token : ReportQuery :=
  mkReportQuery None None [mkTokenReference (mkNetworkId "testnet") (Some (mkContractId "CCONFIDENTIALTOKENDEMO000000000000000000000000000000")) None None; mkTokenReference (mkNetworkId "testnet") (Some (mkContractId "CSECONDTOKENDEMO00000000000000000000000000000000000")) None None]
    [] None None None.

(** [test-vectors/reporting/valid/range-and-network.json]. *)
Definition query_range_and_network : ReportQuery :=
  mkReportQuery (Some (mkTimeRange (Some (mkTimestamp 1700000000)) (Some (mkTimestamp 1700000700)))) (Some "testnet") []
    [] None None None.

(** [test-vectors/reporting/invalid/bad-network.json]. *)
Definition query_bad_network : ReportQuery :=
  mkReportQuery None (Some "not a network!") []
    [] None None None.

(** [test-vectors/reporting/invalid/inverted-range.json]. *)
Definition query_inverted_range : ReportQuery :=
  mkReportQuery (Some (mkTimeRange (Some (mkTimestamp 1700000700)) (Some (mkTimestamp 1700000000)))) None []
    [] None None None.

Definition reporting_corpus : list (ReportQuery * bool) :=
  [ (query_account_and_kinds, true);
    (query_all, true);
    (query_denied_outcome, true);
    (query_multi_token, true);
    (query_range_and_network, true);
    (query_bad_network, false);
    (query_inverted_range, false) ].

(** ** Evidence packages *)

Record EvidenceVector := mkEvidenceVector {
  vv_artifact : EvidenceArtifact;
  vv_manifest : EvidenceManifest;
  vv_verified : bool;
  vv_artifact_ok : bool;
  vv_aggregate_ok : bool
}.

(** [test-vectors/evidence/valid/package-verified.json]. *)
Definition ev_package_verified : EvidenceVector :=
  mkEvidenceVector
    (mkEvidenceArtifact (mkId (mkStableId "evid" "evid_438a88ff27e4c5ee659bec3ceb2c9bd0")) TransactionEvidence
       (mkEvidenceProvenance
          [(mkId (mkStableId "rec" "rec_d3a6ffb300e24ecf9a69fe1957dacc32"));
           (mkId (mkStableId "rec" "rec_e43ca072facdb0236c87c0e4211a4bf1"))]
          [(mkId (mkStableId "evt" "evt_11374e08d92abcd4611011c45f4848f2"));
           (mkId (mkStableId "evt" "evt_eb9a5333d266e11dd9be7ed932f547f1"))]
          (mkVersionLabel "1.0.0") (mkVersionLabel "0.4.0"))
       (mkTimestamp 1700000500) (Some (mkId (mkStableId "aud" "aud_e26c0ec44353bf19c278c79b2069560b"))) 1
       (Some (mkIntegrityDigest "sha-256" "078ba189421883054520d6bd3507f4c0091ce3bcdd61bafa780d07775b5953c1"))
       (Some (mkId (mkStableId "mfst" "mfst_17cb9fb18b62ae5eb43ff7dd9485958c"))))
    (mkEvidenceManifest (mkId (mkStableId "mfst" "mfst_17cb9fb18b62ae5eb43ff7dd9485958c"))
       (mkId (mkStableId "evid" "evid_438a88ff27e4c5ee659bec3ceb2c9bd0")) 1 (mkTimestamp 1700000500) "0.4.0"
       (mkVersionLabel "1.0.0") (mkNetworkId "testnet") None None 2
       [mkManifestEntry (mkId (mkStableId "rec" "rec_d3a6ffb300e24ecf9a69fe1957dacc32")) (mkIntegrityDigest "sha-256" "708ed6c7fff0fdfd0a1b7098fa96db7ae587b3177930b9cb2aa80db851c01575");
        mkManifestEntry (mkId (mkStableId "rec" "rec_e43ca072facdb0236c87c0e4211a4bf1")) (mkIntegrityDigest "sha-256" "cf411c930b0b2f3c61e263a0ec60b44160a32fbca8fc7472fea9437681e81a9e")]
       (mkIntegrityDigest "sha-256" "62355b11c56c925d347672a03b45b0d47a70ca4258130fa803734aabb4f8eccc"))
    true true true.

(** [test-vectors/evidence/invalid/aggregate-tampered.json]. *)
Definition ev_aggregate_tampered : EvidenceVector :=
  mkEvidenceVector
    (mkEvidenceArtifact (mkId (mkStableId "evid" "evid_438a88ff27e4c5ee659bec3ceb2c9bd0")) TransactionEvidence
       (mkEvidenceProvenance
          [(mkId (mkStableId "rec" "rec_d3a6ffb300e24ecf9a69fe1957dacc32"));
           (mkId (mkStableId "rec" "rec_e43ca072facdb0236c87c0e4211a4bf1"))]
          [(mkId (mkStableId "evt" "evt_11374e08d92abcd4611011c45f4848f2"));
           (mkId (mkStableId "evt" "evt_eb9a5333d266e11dd9be7ed932f547f1"))]
          (mkVersionLabel "1.0.0") (mkVersionLabel "0.4.0"))
       (mkTimestamp 1700000500) (Some (mkId (mkStableId "aud" "aud_e26c0ec44353bf19c278c79b2069560b"))) 1
       (Some (mkIntegrityDigest "sha-256" "078ba189421883054520d6bd3507f4c0091ce3bcdd61bafa780d07775b5953c1"))
       (Some (mkId (mkStableId "mfst" "mfst_17cb9fb18b62ae5eb43ff7dd9485958c"))))
    (mkEvidenceManifest (mkId (mkStableId "mfst" "mfst_17cb9fb18b62ae5eb43ff7dd9485958c"))
       (mkId (mkStableId "evid" "evid_438a88ff27e4c5ee659bec3ceb2c9bd0")) 1 (mkTimestamp 1700000500) "0.4.0"
       (mkVersionLabel "1.0.0") (mkNetworkId "testnet") None None 2
       [mkManifestEntry (mkId (mkStableId "rec" "rec_d3a6ffb300e24ecf9a69fe1957dacc32")) (mkIntegrityDigest "sha-256" "708ed6c7fff0fdfd0a1b7098fa96db7ae587b3177930b9cb2aa80db851c01575");
        mkManifestEntry (mkId (mkStableId "rec" "rec_e43ca072facdb0236c87c0e4211a4bf1")) (mkIntegrityDigest "sha-256" "cf411c930b0b2f3c61e263a0ec60b44160a32fbca8fc7472fea9437681e81a9e")]
       (mkIntegrityDigest "sha-256" "cccccccccccccccccccccccccccccccccccccccccccccccccccccccccccccccc"))
    false true false.

(** [test-vectors/evidence/invalid/artifact-digest-tampered.json]. *)
Definition ev_artifact_digest_tampered : EvidenceVector :=
  mkEvidenceVector
    (mkEvidenceArtifact (mkId (mkStableId "evid" "evid_438a88ff27e4c5ee659bec3ceb2c9bd0")) TransactionEvidence
       (mkEvidenceProvenance
          [(mkId (mkStableId "rec" "rec_d3a6ffb300e24ecf9a69fe1957dacc32"));
           (mkId (mkStableId "rec" "rec_e43ca072facdb0236c87c0e4211a4bf1"))]
          [(mkId (mkStableId "evt" "evt_11374e08d92abcd4611011c45f4848f2"));
           (mkId (mkStableId "evt" "evt_eb9a5333d266e11dd9be7ed932f547f1"))]
          (mkVersionLabel "1.0.0") (mkVersionLabel "0.4.0"))
       (mkTimestamp 1700000500) (Some (mkId (mkStableId "aud" "aud_e26c0ec44353bf19c278c79b2069560b"))) 1
       (Some (mkIntegrityDigest "sha-256" "eeeeeeeeeeeeeeeeeeeeeeeeeeeeeeeeeeeeeeeeeeeeeeeeeeeeeeeeeeeeeeee"))
       (Some (mkId (mkStableId "mfst" "mfst_17cb9fb18b62ae5eb43ff7dd9485958c"))))
    (mkEvidenceManifest (mkId (mkStableId "mfst" "mfst_17cb9fb18b62ae5eb43ff7dd9485958c"))
       (mkId (mkStableId "evid" "evid_438a88ff27e4c5ee659bec3ceb2c9bd0")) 1 (mkTimestamp 1700000500) "0.4.0"
       (mkVersionLabel "1.0.0") (mkNetworkId "testnet") None None 2
       [mkManifestEntry (mkId (mkStableId "rec" "rec_d3a6ffb300e24ecf9a69fe1957dacc32")) (mkIntegrityDigest "sha-256" "708ed6c7fff0fdfd0a1b7098fa96db7ae587b3177930b9cb2aa80db851c01575");
        mkManifestEntry (mkId (mkStableId "rec" "rec_e43ca072facdb0236c87c0e4211a4bf1")) (mkIntegrityDigest "sha-256" "cf411c930b0b2f3c61e263a0ec60b44160a32fbca8fc7472fea9437681e81a9e")]
       (mkIntegrityDigest "sha-256" "62355b11c56c925d347672a03b45b0d47a70ca4258130fa803734aabb4f8eccc"))
    false false true.

(** [test-vectors/evidence/invalid/entry-tampered.json]. *)
Definition ev_entry_tampered : EvidenceVector :=
  mkEvidenceVector
    (mkEvidenceArtifact (mkId (mkStableId "evid" "evid_438a88ff27e4c5ee659bec3ceb2c9bd0")) TransactionEvidence
       (mkEvidenceProvenance
          [(mkId (mkStableId "rec" "rec_d3a6ffb300e24ecf9a69fe1957dacc32"));
           (mkId (mkStableId "rec" "rec_e43ca072facdb0236c87c0e4211a4bf1"))]
          [(mkId (mkStableId "evt" "evt_11374e08d92abcd4611011c45f4848f2"));
           (mkId (mkStableId "evt" "evt_eb9a5333d266e11dd9be7ed932f547f1"))]
          (mkVersionLabel "1.0.0") (mkVersionLabel "0.4.0"))
       (mkTimestamp 1700000500) (Some (mkId (mkStableId "aud" "aud_e26c0ec44353bf19c278c79b2069560b"))) 1
       (Some (mkIntegrityDigest "sha-256" "078ba189421883054520d6bd3507f4c0091ce3bcdd61bafa780d07775b5953c1"))
       (Some (mkId (mkStableId "mfst" "mfst_17cb9fb18b62ae5eb43ff7dd9485958c"))))
    (mkEvidenceManifest (mkId (mkStableId "mfst" "mfst_17cb9fb18b62ae5eb43ff7dd9485958c"))
       (mkId (mkStableId "evid" "evid_438a88ff27e4c5ee659bec3ceb2c9bd0")) 1 (mkTimestamp 1700000500) "0.4.0"
       (mkVersionLabel "1.0.0") (mkNetworkId "testnet") None None 2
       [mkManifestEntry (mkId (mkStableId "rec" "rec_d3a6ffb300e24ecf9a69fe1957dacc32")) (mkIntegrityDigest "sha-256" "708ed6c7fff0fdfd0a1b7098fa96db7ae587b3177930b9cb2aa80db851c01575");
        mkManifestEntry (mkId (mkStableId "rec" "rec_e43ca072facdb0236c87c0e4211a4bf1")) (mkIntegrityDigest "sha-256" "dddddddddddddddddddddddddddddddddddddddddddddddddddddddddddddddd")]
       (mkIntegrityDigest "sha-256" "62355b11c56c925d347672a03b45b0d47a70ca4258130fa803734aabb4f8eccc"))
    false true false.

Definition evidence_corpus : list EvidenceVector :=
  [ ev_package_verified;
    ev_aggregate_tampered;
    ev_artifact_digest_tampered;
    ev_entry_tampered ].

(** ** Soroban events *)

Record SorobanVector := mkSorobanVector { sv_network : string; sv_event : SorobanEvent; sv_ok : bool }.

(** [test-vectors/soroban/valid/minimal-contract-event.json]. *)
Definition wire_minimal_contract_event : SorobanVector :=
  mkSorobanVector "testnet"
    (mkSorobanEvent TypeContract 423 None
       (Some "CDLZFC3SYJYDZT7K67VZ75HPJVIEUVNIXF47ZG2FB2RMQQVU2HHGCYSC") "0016010972359577603-0000000002"
       (Some 1) None None
       ["AAAADwAAAAh0cmFuc2Zlcg=="]
       None
       None)
    true.

(** [test-vectors/soroban/valid/system-event.json]. *)
Definition wire_system_event : SorobanVector :=
  mkSorobanVector "testnet"
    (mkSorobanEvent TypeSystem 3727845 (Some "2026-07-21T18:01:10Z")
       None "0016010972359577600-0000000000"
       (Some 0) (Some 0) None
       ["AAAADgAAAAhzb21ldGhpbmc="]
       None
       None)
    true.

(** [test-vectors/soroban/valid/transfer-event.json]. *)
Definition wire_transfer_event : SorobanVector :=
  mkSorobanVector "testnet"
    (mkSorobanEvent TypeContract 3727845 (Some "2026-07-21T18:01:10Z")
       (Some "CDLZFC3SYJYDZT7K67VZ75HPJVIEUVNIXF47ZG2FB2RMQQVU2HHGCYSC") "0016010972359577600-0000000001"
       (Some 5) (Some 0) (Some true)
       ["AAAADwAAAAh0cmFuc2Zlcg==";
        "AAAAEgAAAAAAAAAAjnWZyariB+Ah9OPGy5WJe1t2Ks3gKsKGYsy7vmpJRIY=";
        "AAAAEgAAAAGu/2GlTlA4D83fxvERV0mWvvsyBPo+xfk3Guav6IgNZQ==";
        "AAAADgAAAAZuYXRpdmUAAA=="]
       (Some "AAAACgAAAAAAAAAAAAAAALLQXgA=")
       (Some "a5c9247b77eb04c0d857934a2e988c408167976c8acbdf3d8acf64c44deb3beb"))
    true.

(** [test-vectors/soroban/invalid/empty-topic.json]. *)
Definition wire_empty_topic : SorobanVector :=
  mkSorobanVector "testnet"
    (mkSorobanEvent TypeContract 3727845 None
       (Some "CDLZFC3SYJYDZT7K67VZ75HPJVIEUVNIXF47ZG2FB2RMQQVU2HHGCYSC") "0016010972359577600-0000000001"
       None None None
       []
       None
       None)
    false.

(** [test-vectors/soroban/invalid/five-topic-segments.json]. *)
Definition wire_five_topic_segments : SorobanVector :=
  mkSorobanVector "testnet"
    (mkSorobanEvent TypeContract 3727845 None
       (Some "CDLZFC3SYJYDZT7K67VZ75HPJVIEUVNIXF47ZG2FB2RMQQVU2HHGCYSC") "0016010972359577600-0000000001"
       None None None
       ["AAAADwAAAAh0cmFuc2Zlcg==";
        "AAAADwAAAAhzZWNvbmQ=";
        "AAAADwAAAAN0aGlyZA==";
        "AAAADwAAAApmb3VydGg=";
        "AAAADwAAAApmaWZ0aA=="]
       None
       None)
    false.

(** [test-vectors/soroban/invalid/impossible-close-time.json]. *)
Definition wire_impossible_close_time : SorobanVector :=
  mkSorobanVector "testnet"
    (mkSorobanEvent TypeContract 3727845 (Some "2026-02-30T18:01:10Z")
       (Some "CDLZFC3SYJYDZT7K67VZ75HPJVIEUVNIXF47ZG2FB2RMQQVU2HHGCYSC") "0016010972359577600-0000000001"
       (Some 5) (Some 0) None
       ["AAAADwAAAAh0cmFuc2Zlcg=="]
       None
       (Some "a5c9247b77eb04c0d857934a2e988c408167976c8acbdf3d8acf64c44deb3beb"))
    false.

(** [test-vectors/soroban/invalid/malformed-id.json]. *)
Definition wire_malformed_id : SorobanVector :=
  mkSorobanVector "testnet"
    (mkSorobanEvent TypeContract 3727845 None
       (Some "CDLZFC3SYJYDZT7K67VZ75HPJVIEUVNIXF47ZG2FB2RMQQVU2HHGCYSC") "not-a-toid"
       None None None
       ["AAAADwAAAAh0cmFuc2Zlcg=="]
       None
       None)
    false.

(** [test-vectors/soroban/invalid/offset-close-time.json]. *)
Definition wire_offset_close_time : SorobanVector :=
  mkSorobanVector "testnet"
    (mkSorobanEvent TypeContract 3727845 (Some "2026-07-21T18:01:10+02:00")
       (Some "CDLZFC3SYJYDZT7K67VZ75HPJVIEUVNIXF47ZG2FB2RMQQVU2HHGCYSC") "0016010972359577600-0000000001"
       (Some 5) (Some 0) None
       ["AAAADwAAAAh0cmFuc2Zlcg=="]
       None
       (Some "a5c9247b77eb04c0d857934a2e988c408167976c8acbdf3d8acf64c44deb3beb"))
    false.

(** [test-vectors/soroban/invalid/overflowing-event-index.json]. *)
Definition wire_overflowing_event_index : SorobanVector :=
  mkSorobanVector "testnet"
    (mkSorobanEvent TypeContract 3727845 None
       (Some "CDLZFC3SYJYDZT7K67VZ75HPJVIEUVNIXF47ZG2FB2RMQQVU2HHGCYSC") "0016010972359577600-9999999999"
       None None None
       ["AAAADwAAAAh0cmFuc2Zlcg=="]
       None
       None)
    false.

(** [test-vectors/soroban/invalid/too-short-tx-hash.json]. *)
Definition wire_too_short_tx_hash : SorobanVector :=
  mkSorobanVector "testnet"
    (mkSorobanEvent TypeContract 3727845 None
       (Some "CDLZFC3SYJYDZT7K67VZ75HPJVIEUVNIXF47ZG2FB2RMQQVU2HHGCYSC") "0016010972359577600-0000000001"
       None None None
       ["AAAADwAAAAh0cmFuc2Zlcg=="]
       None
       (Some "a5c9247b77eb04c0d857934a2e988c408167976c8acbdf3d8acf64c44deb3be"))
    false.

(** [test-vectors/soroban/invalid/uppercase-tx-hash.json]. *)
Definition wire_uppercase_tx_hash : SorobanVector :=
  mkSorobanVector "testnet"
    (mkSorobanEvent TypeContract 3727845 None
       (Some "CDLZFC3SYJYDZT7K67VZ75HPJVIEUVNIXF47ZG2FB2RMQQVU2HHGCYSC") "0016010972359577600-0000000001"
       None None None
       ["AAAADwAAAAh0cmFuc2Zlcg=="]
       None
       (Some "A5C9247B77EB04C0D857934A2E988C408167976C8ACBDF3D8ACF64C44DEB3BEB"))
    false.

(** [test-vectors/soroban/invalid/zero-ledger.json]. *)
Definition wire_zero_ledger : SorobanVector :=
  mkSorobanVector "testnet"
    (mkSorobanEvent TypeContract 0 None
       (Some "CDLZFC3SYJYDZT7K67VZ75HPJVIEUVNIXF47ZG2FB2RMQQVU2HHGCYSC") "0016010972359577600-0000000001"
       None None None
       ["AAAADwAAAAh0cmFuc2Zlcg=="]
       None
       None)
    false.

Definition soroban_corpus : list SorobanVector :=
  [ wire_minimal_contract_event;
    wire_system_event;
    wire_transfer_event;
    wire_empty_topic;
    wire_five_topic_segments;
    wire_impossible_close_time;
    wire_malformed_id;
    wire_offset_close_time;
    wire_overflowing_event_index;
    wire_too_short_tx_hash;
    wire_uppercase_tx_hash;
    wire_zero_ledger ].

(** ** Normalization *)

(** The payload as parsed, and, for an envelope, the event it decodes to. *)
Record NormalizationVector := mkNormalizationVector {
  nv_scheme : string;
  nv_expect : option string;
  nv_payload : Value;
  nv_event : result AuditEvent string
}.

(** [test-vectors/normalization/valid/account-frozen.json]. *)
Definition norm_account_frozen : NormalizationVector :=
  mkNormalizationVector "hooks-state-event" None
    (VObject [("account", (VString "GAFROZENACCOUNTDEMO00000000000000000000000000000000000"));
      ("close_time", (VNumber (NInt 1700000400)));
      ("event_index", (VNumber (NInt 0)));
      ("ledger", (VNumber (NInt 423)));
      ("operation_index", (VNumber (NInt 2)));
      ("token", (VString "CCONFIDENTIALTOKENDEMO000000000000000000000000000000"));
      ("transaction_hash", (VString "efefefefefefefefefefefefefefefefefefefefefefefefefefefefefefefef"));
      ("type", (VString "account_frozen"))])
    (Err "not an envelope").

(** [test-vectors/normalization/valid/config-change.json]. *)
Definition norm_config_change : NormalizationVector :=
  mkNormalizationVector "hooks-state-event" None
    (VObject [("close_time", (VNumber (NInt 1700000050)));
      ("event_index", (VNumber (NInt 0)));
      ("ledger", (VNumber (NInt 419)));
      ("operation_index", (VNumber (NInt 1)));
      ("policy", (VString "CPOLICYCONTRACTDEMO0000000000000000000000000000000000"));
      ("sac_passthrough", (VBool true));
      ("token", (VString "CCONFIDENTIALTOKENDEMO000000000000000000000000000000"));
      ("transaction_hash", (VString "bbbbbbbbbbbbbbbbbbbbbbbbbbbbbbbbbbbbbbbbbbbbbbbbbbbbbbbbbbbbbbbb"));
      ("type", (VString "compliance_config_changed"))])
    (Err "not an envelope").

(** [test-vectors/normalization/valid/envelope-transfer-denied.json]. *)
Definition norm_envelope_transfer_denied : NormalizationVector :=
  mkNormalizationVector "audit-envelope" None
    (VObject [("details", (VObject []));
      ("event_id", (VString "evt_bbbbbbbbbbbbbbbbbbbbbbbbbbbbbbbb"));
      ("kind", (VString "transfer-denied"));
      ("network", (VString "testnet"));
      ("observed_at", (VNumber (NInt 1700000200)));
      ("order", (VObject [("event_index", VNull);
      ("ledger_sequence", (VNumber (NInt 421)));
      ("operation_index", (VNumber (NInt 0)))]));
      ("outcome", (VString "denied"));
      ("provenance", (VObject [("derivation", (VObject [("method", (VString "transaction-outcome-analysis"));
      ("note", (VString "denial reconstructed from the failed transaction"));
      ("source_events", (VArray []))]));
      ("origin", (VString "derived"));
      ("parser_version", (VString "1.0.0"));
      ("source", (VString "safeguard-audit"))]));
      ("reason", (VString "POLICY_DENIED"));
      ("schema_version", (VNumber (NInt 1)));
      ("token", (VObject [("contract", (VString "CCONFIDENTIALTOKENDEMO000000000000000000000000000000"));
      ("network", (VString "testnet"))]));
      ("transaction", (VObject [("hash", (VString "cdcdcdcdcdcdcdcdcdcdcdcdcdcdcdcdcdcdcdcdcdcdcdcdcdcdcdcdcdcdcdcd"));
      ("network", (VString "testnet"))]))])
    (Ok (mkAuditEvent (mkId (mkStableId "evt" "evt_bbbbbbbbbbbbbbbbbbbbbbbbbbbbbbbb")) TransferDenied 1 (mkNetworkId "testnet")
       (mkEventProvenance Derived "safeguard-audit" (mkVersionLabel "1.0.0")
          (Some (mkDerivationInfo "transaction-outcome-analysis" [] "denial reconstructed from the failed transaction")))
       (Some (mkTimestamp 1700000200))
       (mkEventOrder (Some 421) None (Some 0) None)
       None (Some (mkTransactionReference (mkNetworkId "testnet") (mkTransactionHash "cdcdcdcdcdcdcdcdcdcdcdcdcdcdcdcdcdcdcdcdcdcdcdcdcdcdcdcdcdcdcdcd"))) None
       (Some (mkTokenReference (mkNetworkId "testnet") (Some (mkContractId "CCONFIDENTIALTOKENDEMO000000000000000000000000000000")) None None))
       None None None None (Some Denied) (Some (mkReasonCode "POLICY_DENIED")) [])).

(** [test-vectors/normalization/valid/token-bound.json]. *)
Definition norm_token_bound : NormalizationVector :=
  mkNormalizationVector "hooks-state-event" None
    (VObject [("close_time", (VNumber (NInt 1700000100)));
      ("event_index", (VNumber (NInt 0)));
      ("ledger", (VNumber (NInt 415)));
      ("operation_index", (VNumber (NInt 0)));
      ("token", (VString "CCONFIDENTIALTOKENDEMO000000000000000000000000000000"));
      ("transaction_hash", (VString "aaaaaaaaaaaaaaaaaaaaaaaaaaaaaaaaaaaaaaaaaaaaaaaaaaaaaaaaaaaaaaaa"));
      ("type", (VString "token_bound"))])
    (Err "not an envelope").

(** [test-vectors/normalization/malformed/freeze-without-account.json]. *)
Definition norm_freeze_without_account : NormalizationVector :=
  mkNormalizationVector "hooks-state-event" (Some "invalid")
    (VObject [("close_time", (VNumber (NInt 1700000400)));
      ("event_index", (VNumber (NInt 0)));
      ("ledger", (VNumber (NInt 423)));
      ("operation_index", (VNumber (NInt 2)));
      ("token", (VString "CCONFIDENTIALTOKENDEMO000000000000000000000000000000"));
      ("transaction_hash", (VString "efefefefefefefefefefefefefefefefefefefefefefefefefefefefefefefef"));
      ("type", (VString "account_frozen"))])
    (Err "not an envelope").

(** [test-vectors/normalization/malformed/unknown-field.json]. *)
Definition norm_unknown_field : NormalizationVector :=
  mkNormalizationVector "hooks-state-event" (Some "malformed")
    (VObject [("amount", (VNumber (NInt 100)));
      ("close_time", (VNumber (NInt 1700000100)));
      ("event_index", (VNumber (NInt 0)));
      ("ledger", (VNumber (NInt 415)));
      ("operation_index", (VNumber (NInt 0)));
      ("token", (VString "CCONFIDENTIALTOKENDEMO000000000000000000000000000000"));
      ("transaction_hash", (VString "aaaaaaaaaaaaaaaaaaaaaaaaaaaaaaaaaaaaaaaaaaaaaaaaaaaaaaaaaaaaaaaa"));
      ("type", (VString "token_bound"))])
    (Err "not an envelope").

(** [test-vectors/normalization/malformed/unknown-type.json]. *)
Definition norm_unknown_type : NormalizationVector :=
  mkNormalizationVector "hooks-state-event" (Some "invalid")
    (VObject [("close_time", (VNumber (NInt 1700000100)));
      ("event_index", (VNumber (NInt 0)));
      ("ledger", (VNumber (NInt 415)));
      ("operation_index", (VNumber (NInt 0)));
      ("token", (VString "CCONFIDENTIALTOKENDEMO000000000000000000000000000000"));
      ("transaction_hash", (VString "aaaaaaaaaaaaaaaaaaaaaaaaaaaaaaaaaaaaaaaaaaaaaaaaaaaaaaaaaaaaaaaa"));
      ("type", (VString "transfer_approved"))])
    (Err "not an envelope").

(** [test-vectors/normalization/malformed/unsupported-envelope-version.json]. *)
Definition norm_unsupported_envelope_version : NormalizationVector :=
  mkNormalizationVector "audit-envelope" (Some "unsupported-version")
    (VObject [("details", (VObject []));
      ("event_id", (VString "evt_bbbbbbbbbbbbbbbbbbbbbbbbbbbbbbbb"));
      ("kind", (VString "token-bound"));
      ("network", (VString "testnet"));
      ("order", (VObject []));
      ("provenance", (VObject [("origin", (VString "on-chain"));
      ("parser_version", (VString "2.0.0"));
      ("source", (VString "safeguard-hooks"))]));
      ("schema_version", (VNumber (NInt 2)))])
    (Ok (mkAuditEvent (mkId (mkStableId "evt" "evt_bbbbbbbbbbbbbbbbbbbbbbbbbbbbbbbb")) TokenBound 2 (mkNetworkId "testnet")
       (mkEventProvenance OnChain "safeguard-hooks" (mkVersionLabel "2.0.0")
          None)
       None
       (mkEventOrder None None None None)
       None None None
       None
       None None None None None None [])).

(** [test-vectors/normalization/malformed/wrong-value-types.json]. *)
Definition norm_wrong_value_types : NormalizationVector :=
  mkNormalizationVector "hooks-state-event" (Some "malformed")
    (VObject [("account", (VString "GAFROZENACCOUNTDEMO00000000000000000000000000000000000"));
      ("close_time", (VNumber (NInt 1700000400)));
      ("event_index", (VNumber (NInt 0)));
      ("ledger", (VString "423"));
      ("operation_index", (VNumber (NFloat "0.5")));
      ("token", (VString "CCONFIDENTIALTOKENDEMO000000000000000000000000000000"));
      ("transaction_hash", (VString "efefefefefefefefefefefefefefefefefefefefefefefefefefefefefefefef"));
      ("type", (VString "account_frozen"))])
    (Err "not an envelope").

Definition normalization_corpus : list NormalizationVector :=
  [ norm_account_frozen;
    norm_config_change;
    norm_envelope_transfer_denied;
    norm_token_bound;
    norm_freeze_without_account;
    norm_unknown_field;
    norm_unknown_type;
    norm_unsupported_envelope_version;
    norm_wrong_value_types ].
