(* ===== verification/VectorRuns.v ===== *)
(** * The model run on the test vectors

    The walkers of [crates/integration-tests/tests/*_vectors.rs] and
    [crates/event-normalizer/tests/normalization_vectors.rs], with the hash and
    the JSON text instantiated by {!Sha2} and {!Json}: the model gives what every
    committed vector declares, digests included.  A label a walker would panic
    on is [None]. *)

From S2P Require Import Prelude Text BTree Json Errors Identifiers Sha2 Timestamps Classification Correlation.
From S2P Require Import Events IntegrityModel Records Integrity AccessModel Authorization Cases ReportModel Encoding.
From S2P Require Import Sources Normalizer Reporting Evidence Soroban Vectors.
Open Scope list_scope.

#[local] Existing Instances fips_sha256 json_text json_text_strings.

(** ** Authorization *)

Definition parse_classification (label : string) : option DataClassification :=
  match label with
  | "public" => Some Public
  | "operational" => Some Operational
  | "confidential" => Some Confidential
  | "restricted" => Some Restricted
  | "highly-restricted" => Some HighlyRestricted
  | _ => None
  end%string.

Definition parse_scope (label : string) : option AccessScope :=
  if String.eqb label "all" then Some ScopeAll
  else if starts_with "network:" label
  then match NetworkId_new (str_drop 8 label) with Ok n => Some (ScopeNetwork n) | Err _ => None end
  else if starts_with "classification:" label
  then option_map ScopeClassification (parse_classification (str_drop 15 label))
  else None.

Definition parse_role (role : string) : option AuditorRole :=
  match role with
  | "read-only-reviewer" => Some ReadOnlyReviewer
  | "auditor" => Some Auditor
  | "senior-auditor" => Some SeniorAuditor
  | "investigator" => Some Investigator
  | "compliance-officer" => Some ComplianceOfficer
  | "administrator" => Some Administrator
  | _ => None
  end%string.

Definition parse_action (action : string) : option AccessAction :=
  match action with
  | "read-record" => Some ReadRecord
  | "query" => Some Query
  | "inspect-transaction" => Some InspectTransaction
  | "inspect-policy" => Some InspectPolicy
  | "inspect-denied" => Some InspectDenied
  | "create-investigation" => Some CreateInvestigation
  | "view-investigation" => Some ViewInvestigation
  | "generate-evidence" => Some GenerateEvidence
  | "generate-report" => Some GenerateReport
  | "export-records" => Some ExportRecords
  | "request-protected-data" => Some RequestProtectedData
  | "verify-integrity" => Some VerifyIntegrity
  | _ => None
  end%string.

(** The grant of a vector: the scopes in order, and a credential when there are any. *)
Fixpoint grant_scopes (labels : list string) (g : Grant) : option Grant :=
  match labels with
  | [] => Some g
  | label :: labels =>
      match parse_scope label with
      | Some scope => grant_scopes labels (with_scope scope g)
      | None => None
      end
  end.

Definition vector_registry (v : AuthVector) (auditor : AuditorId) : option Registry :=
  if av_unknown_auditor v then Some Registry_new
  else
    match parse_role (av_role v) with
    | None => None
    | Some role =>
        match grant_scopes (av_granted_scopes v) (Grant_new auditor role) with
        | None => None
        | Some g =>
            match gr_scopes g with
            | [] => Some Registry_new
            | _ :: _ =>
                let g := with_credential (Credential_new auditor "vector-material"
                                            (mkTimestamp (av_credential_expires_at v))) g in
                match register Registry_new g with
                | (registry, Ok _) => Some registry
                | (_, Err _) => None
                end
            end
        end
    end.

Definition run_auth_vector (v : AuthVector) : option (bool * string) :=
  let auditor := derive ["vector-auditor"] in
  match vector_registry v auditor, parse_scope (av_requested_scope v), parse_action (av_action v) with
  | Some registry, Some requested, Some action =>
      match authorize registry (mkTimestamp (av_now v)) auditor action requested with
      | Ok d => Some (ad_allowed d, match ad_reason d with Some r => r | None => "" end)
      | Err _ => None
      end
  | _, _, _ => None
  end.

Theorem authorization_vectors_hold :
  Forall (fun v => run_auth_vector v = Some (av_allowed v, av_reason v)) authorization_corpus.
Proof. repeat constructor. Qed.

(** ** Case transitions *)

Definition parse_status (label : string) : option CaseStatus :=
  match label with
  | "open" => Some Open
  | "investigating" => Some Investigating
  | "escalated" => Some Escalated
  | "resolved" => Some Resolved
  | "closed" => Some Closed
  | _ => None
  end%string.

Definition run_lifecycle_vector (v : LifecycleVector) : option bool :=
  match parse_status (lv_from v), parse_status (lv_to v) with
  | Some from, Some to => Some (can_transition from to)
  | _, _ => None
  end.

Theorem lifecycle_vectors_hold :
  Forall (fun v => run_lifecycle_vector v = Some (lv_allowed v)) lifecycle_corpus.
Proof. repeat constructor. Qed.

(** ** Report queries *)

Theorem reporting_vectors_hold :
  Forall (fun p => is_ok (to_audit_query (fst p)) = snd p) reporting_corpus.
Proof. repeat constructor. Qed.

(** ** Evidence *)

Definition run_evidence_vector (v : EvidenceVector) : bool * bool * bool :=
  match EvidencePackage_new (vv_artifact v) (vv_manifest v) with
  | Err _ => (false, false, false)
  | Ok package =>
      match verify_package_structure package with
      | Ok verification =>
          (ver_verified verification, ver_artifact_verified verification,
           bool_decide (ver_aggregate verification = Verified))
      | Err _ => (false, false, false)
      end
  end.

(** The digests of the vectors are SHA-256 values the program computed: the
    canonical bytes of the artifact and of the manifest entries are those of the
    model, byte for byte. *)
Theorem evidence_vectors_hold :
  Forall (fun v => run_evidence_vector v = (vv_verified v, vv_artifact_ok v, vv_aggregate_ok v)) evidence_corpus.
Proof. repeat (constructor; [vm_compute; reflexivity|]). constructor. Qed.

(** The manifest id of the verified package is the one the builder derives. *)
Theorem vector_manifest_id :
  em_manifest_id (vv_manifest ev_package_verified)
  = derive ["0.4.0"; "start"; "end"; "2"; dig_value (em_aggregate_digest (vv_manifest ev_package_verified))].
Proof. vm_compute. reflexivity. Qed.

(** ** Soroban events *)

Definition run_soroban_vector (v : SorobanVector) : option bool :=
  match NetworkId_new (sv_network v) with
  | Ok network => option_map is_ok (to_normalized (sv_event v) network)
  | Err _ => None
  end.

Theorem soroban_vectors_hold : Forall (fun v => run_soroban_vector v = Some (sv_ok v)) soroban_corpus.
Proof. repeat (constructor; [vm_compute; reflexivity|]). constructor. Qed.

(** ** Normalization *)

(** The decoder of a vector: its payload's text is parsed back to its payload. *)
Definition vector_decoder (v : NormalizationVector) : JsonDecoder :=
  {| json_from_str := fun _ => Ok (nv_payload v); event_from_value := fun _ => nv_event v |}.

Definition vector_config : NormalizeConfig :=
  mkNormalizeConfig (mkNetworkId "testnet") "safeguard-hooks" (mkVersionLabel "1.0.0").

Definition run_normalization_vector (v : NormalizationVector) : NormalizerResult NormalizedEvent :=
  @normalize (vector_decoder v) _ _ vector_config (mkRawEventItem (nv_scheme v) "payload" "vector").

(** The failure class a malformed vector declares. *)
Definition fails_as (class : string) (e : NormalizerError) : bool :=
  match class, e with
  | "malformed", MalformedPayload _ _
  | "invalid", NormValidationFailed _ _
  | "unsupported-version", UnsupportedVersion _ _ _
  | "unsupported-scheme", UnsupportedScheme _ => true
  | _, _ => false
  end%string.

Definition normalizes_as_declared (v : NormalizationVector) : bool :=
  match nv_expect v, run_normalization_vector v with
  | None, Ok e => is_ok (AuditEvent_validate (ne_event e))
  | Some class, Err e => fails_as class e
  | _, _ => false
  end.

Theorem normalization_vectors_hold : Forall (fun v => normalizes_as_declared v = true) normalization_corpus.
Proof. repeat (constructor; [vm_compute; reflexivity|]). constructor. Qed.
